(* ===== verification/_CoqProject ===== *)
-Q . S2P
Prelude.v
GoLib.v
GoFloat.v
FloatFacts.v
GoJSON.v
GoJSONFacts.v
GoHeap.v
Names.v
Kube.v
DeepCopy.v
Effects.v
MemServer.v
Scenario.v
Inventory.v
PodClient.v
Pods.v
Kueue.v
GPULeaseController.v
GPULeaseFacts.v
LeaseLifecycle.v
LeaseDeadlines.v
WarmPoolController.v
WarmPoolFacts.v
WarmPoolSafety.v
WarmPoolReclaim.v
Machine.v
MachineFacts.v
WorkloadServer.v
Demand.v
PodServer.v
WorkloadMain.v
Protocol.v
System.v
Execution.v
Cluster.v
SystemSafety.v
Hazards.v
PodLeases.v
Progress.v
LeaseReturn.v
Watches.v
ControllerMetrics.v
Permissions.v
Scheme.v
Manager.v
ManagerFlags.v
