(* ===== verification/Prelude.v ===== *)
(** * gpu-lease: a verification development

    gpu-lease keeps a pool of warm inference pods per Deployment and hands GPUs to them
    one at a time.  The right to use GPU [i] of node [n] is a cluster-scoped object, a
    GPULease, whose name is derived from [(n, i)].  This library models the repository's
    Go code in Rocq and proves what makes it correct.

    ** The program

    - [src/api/v1alpha1]: the GPULease type, its phases and reasons, the names and
      annotations, and the parsing of a Deployment's settings.
    - [src/internal/controller/warmpool_controller.go]: the WarmPool reconciler.  For a
      managed Deployment it deletes leases whose claim is no longer valid or that failed
      long ago, counts the ready pods, and creates leases for warm pods (promotion) or
      deletes leases of hot pods (demotion) until the target is met.
    - [src/internal/controller/gpulease_controller.go]: the GPULease reconciler.  It takes
      one lease through Pending (a Kueue Workload waits for quota), Admitted, Activating
      (the pod was sent POST /lease) and Bound (the pod reported hot), to Failed when
      something goes wrong, and through Releasing when it is deleted.
    - [pods.go], [kueue.go], [inventory/inventory.go] beside them: classification and
      ordering of pods, Kueue Workloads, free GPU indices.
    - [src/internal/controller/podclient]: the REST client for the pods.
    - [src/internal/workload], [src/cmd/workload]: the process in the pod: its
      configuration, a state machine with timers, its metrics, a watcher of the demand and
      its HTTP server.
    - [src/cmd/manager]: the process of the controllers, as it starts.

    The two reconcilers interact only through the API server (leases, pod labels); the
    lease reconciler and the pod talk over HTTP.

    ** The files

    - [Prelude] (this file): machine integers, Go errors and results, tactics, hints.
    - [GoLib]: what the program uses of the Go library: [strconv], [time.ParseDuration] and
      [Duration.String], [sort.SliceStable] (with its uniqueness as a specification).
      [GoFloat], [FloatFacts]: [strconv.ParseFloat] and float64 values over the exact
      arithmetic of [SpecFloat], the conversion to an int64 as a class of what the language
      leaves open, and the exactness of integers.  [GoJSON], [GoJSONFacts]: [encoding/json] and
      UTF-8 over bytes, as far as structs of strings and integers need it, and the round
      trips.  [GoHeap]: variables, pointers, slices and maps, and what a deep copy is.
    - [Names]: [api/v1alpha1/names.go].  [Kube]: the API objects, and the functions of the
      Kubernetes libraries the code calls as a class ([KubeLib]) with their documented
      behaviour as another one ([KubeLibLaws]).  [DeepCopy]: the generated deep copies of
      both API packages over a heap.
    - [Effects]: the programs.  A reconciler is a finite tree of calls (Kubernetes API, pod
      REST API, clock, events, metrics) whose continuation depends on the answers; [runs]
      relates a program to the traces of its calls with every possible answer, [run]
      executes it against a server.
    - [MemServer], [Scenario]: an executable cluster and sample objects, for the witnesses.
    - [Inventory] (an interface as a class with laws, and its implementation), [PodClient],
      [Pods], [Kueue]: the components of the same names.
    - [GPULeaseController]: every function of the lease reconciler; [GPULeaseFacts]: the
      exact sequences of changes each of them can make; [LeaseLifecycle] and
      [LeaseDeadlines]: the properties of one reconcile.
    - [WarmPoolController], [WarmPoolFacts], [WarmPoolSafety], [WarmPoolReclaim]: the same
      for the WarmPool reconciler.
    - [Protocol], [System], [SystemSafety]: both reconcilers together.  [Protocol] has a
      weakest-precondition calculus in which every call about leases carries an
      obligation, and shows that both reconcilers meet theirs whatever is answered.
      [System] interleaves any number of reconciles over one store of leases with
      resource versions and finalizers, with reads from any earlier state, refused
      writes, lost answers, lost reconciles and deletions by others, and an abstract
      lease store; [SystemSafety] has the theorems.  [Execution] shows that the
      executable cluster is such a system, so that a scenario played on it ends in a
      reachable state; [Hazards] has a scenario that goes wrong.
    - [Machine], [MachineFacts]: the pod's state machine with its generation counter,
      timers and hooks under every interleaving, and the automaton it refines.
      [WorkloadServer]: the HTTP handlers and routes, and the contract between client and server.
    - [Demand]: the demand watcher, as programs over its fields, and a specification without
      state.  [PodServer]: the whole server, with the requests in flight, all metrics
      and the watcher, as a step relation over the machine's.  [WorkloadMain]: the
      environment, and [ListenAndServe] with its goroutines.
    - [Cluster], [PodLeases]: the executable cluster with these servers as its pods, so that
      a call of a reconciler goes through the client and the server to the state machine;
      what a pod shows and what the leases say.  [Progress], [LeaseReturn]:
      from any state of it, a lease with quota gets bound, and a deleted lease is given back.
    - [Watches]: the [SetupWithManager] methods: the reconcilers as they are started, and
      which reconciles an event asks for.  [ControllerMetrics]: the registry of the
      controllers' metrics.  [Permissions]: the RBAC markers.  [Scheme]: the registration of
      the API types.  [Manager]: the start of the controllers' process, with Go slices and
      their arrays.  [ManagerFlags]: its command line, as package [flag] parses it.

    A Go function is a definition of the same name; a loop or a branch that needed a name
    of its own is a definition beside it.

    ** What is shown

    - The whole system: a GPU has at most one lease ([gpu_exclusive]); every step is a
      step of the abstract store ([system_refines_store]); a lease keeps its spec and goes
      through its phases in order ([lease_life]); a lease that holds quota does not vanish
      ([holding_lease_stays]).
    - One lease reconcile, for every cluster: the phases it writes, the deletion of the
      Workload before a lease fails or loses its finalizer, what precedes Bound and POST
      /lease, progress of deletion, rescheduling, and both timeouts.
    - One WarmPool reconcile, for every cluster: what promotion, demotion and garbage
      collection do and do not do, that one run never overshoots the target, that Failed
      leases are reclaimed in time, requeueing and reporting.
    - The pod: refinement of the automaton, stability, completion, the gauges; the
      accounting of requests; the demand as the last good reading ([demand_refines],
      [demand_gauge]); the bytes on the wire ([wire_roundtrip]) and the contract of client and
      server ([wire_contract]), and what becomes of a lease whose pod is still releasing.
    - Pods and leases together: a pod serves an admitted lease ([pod_serves_admitted_lease]),
      a lease with quota gets bound ([lease_with_quota_gets_bound], and from its creation on in
      the scenario [lease_bound_end_to_end]), and a deleted one gives its Workload and its pod
      back ([deleted_lease_given_back]).
    - The API types: the generated copies copy ([generated_copies]), and a copied object and
      the original do not affect each other ([copied_object_independent]).
    - The processes: the pod's configuration ([loadConfig_sound], [loadConfig_roundtrip]) and
      its end ([ListenAndServe_ends]), the manager's start ([main_script], [main_tls]), and
      that updates of metrics do not panic ([metrics_never_panic]).
    - What goes wrong: gauges after hooks out of order ([gauges_can_be_stale]), two leases
      bound to one pod ([bound_to_a_pod_of_another_lease]), a bound lease whose pod is
      released for the sake of an older one ([deletion_takes_pod_down]), a certificate that depends on
      the capacity of a slice ([main_tls]).
    - The parts: free GPU indices, the hot target and its bounds, the orders of candidates;
      and, as lemmas, orphan reasons, lease names, parsed settings, routes, watches,
      permissions, registered kinds ([calls_registered]), command lines ([Parse_render],
      [run_manager_flags]).

    ** Conventions

    An int32, an int64, an int and a time.Duration are integers with the wrap-around
    written out ([wrap32], [wrap64]; int has 64 bits), a uint64 is taken modulo [2 ^ 64].  Times are
    nanoseconds since the zero Time.  Strings are byte strings.  A Go map is a [gmap]; where the code
    ranges over one, the order does not matter to what is stated.  Programs are finite trees,
    so every reconcile ends.  Fuel is used by [ParseDuration], where it is the length of the
    input and enough ([ParseDuration_loop_fuel]), by the JSON parser, where it is twice the
    length and enough ([parse_enough]), and by the pods of [Cluster], where it is
    enough for the goroutines to finish ([settled_done]).  The theorems on the pod's
    process hold for fewer than [2 ^ 64] steps, after which the generation counter could
    repeat.

    ** What is not modelled

    Watches and caches as mechanisms (reads may return any earlier version instead, and an
    informer hands out what it has seen of an object), the JSON of API objects (the
    client libraries encode it), the flags of the libraries (a parameter), logging other than
    the warnings of the demand watcher, the text of GET /metrics.  The reconcilers work on
    immutable values: that this is right is what the deep copies are for.  In [System], leases
    are created by the controllers only. *)

From Stdlib Require Export ZArith Lia.
From stdpp Require Export sorting pretty numbers.
From stdpp Require Export base tactics strings gmap list.

#[global] Open Scope Z_scope.

(** ** Machine integers *)

(** Two's complement wrap-around of a Go [int32] and of a Go [int64] / [int]
    (64-bit platforms). *)
Definition wrap32 (z : Z) : Z := (z + 2 ^ 31) mod 2 ^ 32 - 2 ^ 31.
Definition wrap64 (z : Z) : Z := (z + 2 ^ 63) mod 2 ^ 64 - 2 ^ 63.

(** Unsigned wrap-around of a Go [uint64]. *)
Definition wrapu64 (z : Z) : Z := z mod 2 ^ 64.

Definition int32_range (z : Z) : Prop := - 2 ^ 31 <= z < 2 ^ 31.
Definition int64_range (z : Z) : Prop := - 2 ^ 63 <= z < 2 ^ 63.

(** ** Go errors *)

(** What [apierrors.IsNotFound], [apierrors.IsAlreadyExists] and
    [apierrors.IsConflict] tell apart in an error of the Kubernetes client. *)
Inductive apiReason := NotFound | AlreadyExists | Conflict | OtherReason.

(** A Go [error] value: an error of the Kubernetes client with its reason, a
    package-level sentinel variable (identified by its qualified name), a plain
    error made by [errors.New] or by [fmt.Errorf] without [%w], or an error made
    by [fmt.Errorf] whose format has the text [pre], then [%w], then [post]. *)
Inductive goerror :=
  | ApiError (reason : apiReason) (text : string)
  | Sentinel (name text : string)
  | PlainError (text : string)
  | Wrapf (pre : string) (inner : goerror) (post : string).

(** The method [Error()]. *)
Fixpoint error_text (e : goerror) : string :=
  match e with
  | ApiError _ t | Sentinel _ t | PlainError t => t
  | Wrapf pre e post => pre +:+ error_text e +:+ post
  end.

(** The usual [fmt.Errorf("ctx: %w", err)]. *)
Definition wrap (ctx : string) (e : goerror) : goerror := Wrapf (ctx +:+ ": ") e "".

(** [errors.Is(err, target)] for a sentinel [target] given by its name. *)
Fixpoint errors_Is (e : goerror) (target : string) : bool :=
  match e with
  | Sentinel n _ => bool_decide (n = target)
  | Wrapf _ e _ => errors_Is e target
  | ApiError _ _ | PlainError _ => false
  end.

(** [apierrors.IsNotFound], [apierrors.IsAlreadyExists]: both look through
    wrapping. *)
Fixpoint apierror_is (r : apiReason) (e : goerror) : bool :=
  match e with
  | ApiError NotFound _ => match r with NotFound => true | _ => false end
  | ApiError AlreadyExists _ => match r with AlreadyExists => true | _ => false end
  | ApiError Conflict _ => match r with Conflict => true | _ => false end
  | ApiError OtherReason _ => match r with OtherReason => true | _ => false end
  | Wrapf _ e _ => apierror_is r e
  | Sentinel _ _ | PlainError _ => false
  end.
Definition IsNotFound (e : goerror) : bool := apierror_is NotFound e.
Definition IsAlreadyExists (e : goerror) : bool := apierror_is AlreadyExists e.

(** The pair [(T, error)] a Go function returns. *)
Inductive result (A : Type) :=
  | Ok (a : A)
  | Err (e : goerror).
Arguments Ok {A} a.
Arguments Err {A} e.

Definition is_ok {A} (r : result A) : bool := match r with Ok _ => true | Err _ => false end.

(** ** Decidable equality *)

#[export] Instance apiReason_eq_dec : EqDecision apiReason.
Proof. solve_decision. Defined.
#[export] Instance goerror_eq_dec : EqDecision goerror.
Proof. solve_decision. Defined.
#[export] Instance result_eq_dec {A} `{EqDecision A} : EqDecision (result A).
Proof. solve_decision. Defined.

(** ** Tactics *)

(** Split every conjunction and existential of the context, substitute. *)
Ltac unpack :=
  repeat match goal with
  | H : _ ∧ _ |- _ => destruct H
  | H : ∃ _, _ |- _ => destruct H
  | H : (_, _) = (_, _) |- _ => injection H as H; try subst
  end; simplify_eq.

(** Case on the scrutinee of the first stuck [match] or [if] of a hypothesis
    (or of the goal). *)
Ltac case_in H :=
  match type of H with
  | context [match ?x with _ => _ end] =>
      lazymatch x with
      | context [match _ with _ => _ end] => fail
      | _ => let E := fresh "E" in destruct x eqn:E
      end
  end.
Ltac case_goal :=
  match goal with
  | |- context [match ?x with _ => _ end] =>
      lazymatch x with
      | context [match _ with _ => _ end] => fail
      | _ => let E := fresh "E" in destruct x eqn:E
      end
  end.

(** Turn the boolean tests of the code into propositions. *)
Ltac reflect_bools :=
  repeat match goal with
  | H : (_ && _) = true |- _ => apply andb_true_iff in H; destruct H
  | H : (_ || _) = false |- _ => apply orb_false_iff in H; destruct H
  | H : negb _ = true |- _ => apply negb_true_iff in H
  | H : negb _ = false |- _ => apply negb_false_iff in H
  | H : bool_decide _ = true |- _ => apply bool_decide_eq_true in H
  | H : bool_decide _ = false |- _ => apply bool_decide_eq_false in H
  | H : (_ <? _) = true |- _ => apply Z.ltb_lt in H
  | H : (_ <? _) = false |- _ => apply Z.ltb_ge in H
  | H : (_ <=? _) = true |- _ => apply Z.leb_le in H
  | H : (_ <=? _) = false |- _ => apply Z.leb_gt in H
  | H : (_ =? _) = true |- _ => apply Z.eqb_eq in H
  | H : (_ =? _) = false |- _ => apply Z.eqb_neq in H
  end.

Create HintDb gpulease.

(** ** Shared lemmas *)

Lemma wrap32_id z : int32_range z → wrap32 z = z.
Proof. unfold int32_range, wrap32; intros ?. rewrite Z.mod_small; lia. Qed.

Lemma wrap64_id z : int64_range z → wrap64 z = z.
Proof. unfold int64_range, wrap64; intros ?. rewrite Z.mod_small; lia. Qed.

Lemma wrap32_range z : int32_range (wrap32 z).
Proof. unfold int32_range, wrap32. pose proof (Z.mod_pos_bound (z + 2 ^ 31) (2 ^ 32)). lia. Qed.

Lemma wrap64_range z : int64_range (wrap64 z).
Proof. unfold int64_range, wrap64. pose proof (Z.mod_pos_bound (z + 2 ^ 63) (2 ^ 64)). lia. Qed.

Lemma string_app_cons c (s t : string) : String c s +:+ t = String c (s +:+ t).
Proof. reflexivity. Qed.

Lemma string_app_nil_l (s : string) : "" +:+ s = s.
Proof. reflexivity. Qed.

Lemma string_app_nil_r (s : string) : s +:+ "" = s.
Proof. induction s as [|c s IH]; [done|]. by rewrite string_app_cons, IH. Qed.

Lemma string_app_assoc (s t u : string) : s +:+ (t +:+ u) = (s +:+ t) +:+ u.
Proof. induction s as [|c s IH]; [done|]. by rewrite !string_app_cons, IH. Qed.

Lemma StronglySorted_weaken {A} (R S : relation A) l :
  (∀ x y, R x y → S x y) → StronglySorted R l → StronglySorted S l.
Proof. intros HRS. induction 1; constructor; eauto using Forall_impl. Qed.

#[export] Hint Resolve wrap32_id wrap64_id wrap32_range wrap64_range : gpulease.
