(* ===== verification/GoLib.v ===== *)
(** * The parts of the Go standard library the program uses

    [strconv] (Quote, FormatInt, ParseInt), [time] (Duration arithmetic, String,
    ParseDuration, Time.Sub) and [sort.SliceStable].  Strings are byte strings; an
    integer of the code is a [Z] kept at its width by explicit wrap-around. *)

From Stdlib Require Import Ascii SpecFloat.
From S2P Require Import Prelude.

(** ** strconv *)

Definition byte_val (c : ascii) : Z := Z.of_N (N_of_ascii c).

(** The value of a decimal digit, [None] for any other byte. *)
Definition digit_val (c : ascii) : option Z :=
  let v := byte_val c - 48 in
  if (0 <=? v) && (v <=? 9) then Some v else None.

(** [strconv.FormatInt(n, 10)], also the verb [%d]. *)
Definition FormatInt10 (n : Z) : string := pretty n.

Definition hex_digit (v : Z) : string :=
  match v with
  | 10 => "a" | 11 => "b" | 12 => "c" | 13 => "d" | 14 => "e" | 15 => "f"
  | _ => FormatInt10 v
  end.

(** One byte of [strconv.Quote].  A byte of a multi-byte rune (128 and above) is
    kept as it is, which is what Quote does with a printable rune. *)
Definition quote_byte (c : ascii) : string :=
  let v := byte_val c in
  match v with
  | 7 => "\a" | 8 => "\b" | 9 => "\t" | 10 => "\n" | 11 => "\v" | 12 => "\f" | 13 => "\r"
  | 34 => String (ascii_of_N 92) (String (ascii_of_N 34) "")
  | 92 => "\\"
  | _ =>
      if (v <? 32) || (v =? 127)
      then "\x" +:+ hex_digit (v / 16) +:+ hex_digit (v mod 16)
      else String c ""
  end.
Fixpoint quote_body (s : string) : string :=
  match s with
  | "" => ""
  | String c s => quote_byte c +:+ quote_body s
  end.
(** [strconv.Quote], also the verb [%q] of a string. *)
Definition Quote (s : string) : string :=
  let dq := String (ascii_of_N 34) "" in
  dq +:+ quote_body s +:+ dq.

(** [strconv.ErrSyntax] and [strconv.ErrRange]. *)
Inductive numError := ErrSyntax | ErrRange.

Definition maxUint64 : Z := 2 ^ 64 - 1.

(** The loop of [strconv.ParseUint] at base 10: [n] is the value read so far. *)
Fixpoint ParseUint_loop (maxVal n : Z) (s : string) : Z + numError :=
  match s with
  | "" => inl n
  | String c s =>
      match digit_val c with
      | None => inr ErrSyntax
      | Some d =>
          if (maxUint64 / 10 + 1 <=? n) then inr ErrRange
          else
            let n10 := n * 10 in
            let n1 := wrapu64 (n10 + d) in
            if (n1 <? n10) || (maxVal <? n1) then inr ErrRange
            else ParseUint_loop maxVal n1 s
      end
  end.
Definition ParseUint10 (bitSize : Z) (s : string) : Z + numError :=
  match s with
  | "" => inr ErrSyntax
  | _ => ParseUint_loop (2 ^ bitSize - 1) 0 s
  end.

(** [strconv.ParseInt(s, 10, bitSize)]: the number, or why it is refused.  (The
    saturated value Go returns beside a range error is never read by this program.) *)
Definition ParseInt10 (bitSize : Z) (s : string) : Z + numError :=
  match s with
  | "" => inr ErrSyntax
  | String c s' =>
      let neg := bool_decide (c = "-"%char) in
      let body := if neg || bool_decide (c = "+"%char) then s' else s in
      let cutoff := 2 ^ (bitSize - 1) in
      match ParseUint10 bitSize body with
      | inr e => inr e
      | inl un =>
          if negb neg && (cutoff <=? un) then inr ErrRange
          else if neg && (cutoff <? un) then inr ErrRange
          else inl (if neg then - un else un)
      end
  end.

(** The text of the [*strconv.NumError] of [ParseInt]. *)
Definition numError_text (s : string) (e : numError) : string :=
  "strconv.ParseInt: parsing " +:+ Quote s +:+ ": " +:+
  match e with ErrSyntax => "invalid syntax" | ErrRange => "value out of range" end.

(** ** time *)

Definition Nanosecond : Z := 1.
Definition Microsecond : Z := 1000 * Nanosecond.
Definition Millisecond : Z := 1000 * Microsecond.
Definition Second : Z := 1000 * Millisecond.
Definition Minute : Z := 60 * Second.
Definition Hour : Z := 60 * Minute.
Definition minDuration : Z := - 2 ^ 63.
Definition maxDuration : Z := 2 ^ 63 - 1.

(** A [time.Time] is the number of nanoseconds since the zero Time, so [IsZero] is
    [t = 0]; [t.Sub(u)] saturates at the bounds of a Duration. *)
Definition Time_Sub (t u : Z) : Z := Z.max minDuration (Z.min maxDuration (t - u)).
Definition Time_Before (t u : Z) : bool := t <? u.
Definition Time_IsZero (t : Z) : bool := t =? 0.

(** [fmtFrac]: the fraction of [v / 10^prec] without trailing zeros, before [acc],
    and [v / 10^prec]. *)
Fixpoint fmtFrac (prec : nat) (print : bool) (v : Z) (acc : string) : string * Z :=
  match prec with
  | O => (if print then "." +:+ acc else acc, v)
  | S prec =>
      let digit := v mod 10 in
      let print := print || negb (digit =? 0) in
      fmtFrac prec print (v / 10) (if print then FormatInt10 digit +:+ acc else acc)
  end.

(** [Duration.String]. *)
Definition Duration_String (d : Z) : string :=
  let neg := d <? 0 in
  let u := Z.abs d in
  let body :=
    if u =? 0 then "0s"
    else if u <? Second then
      let '(prec, suffix) :=
        if u <? Microsecond then (0%nat, "ns")
        else if u <? Millisecond then (3%nat, "µs")
        else (6%nat, "ms") in
      let '(frac, v) := fmtFrac prec false u suffix in
      FormatInt10 v +:+ frac
    else
      let '(frac, secs) := fmtFrac 9 false u "s" in
      let acc := FormatInt10 (secs mod 60) +:+ frac in
      let mins := secs / 60 in
      if 0 <? mins then
        let acc := FormatInt10 (mins mod 60) +:+ "m" +:+ acc in
        let hours := mins / 60 in
        if 0 <? hours then FormatInt10 hours +:+ "h" +:+ acc else acc
      else acc in
  if neg then "-" +:+ body else body.

(** [leadingInt]: the value of the leading digits and what follows them; [None] on
    overflow. *)
Fixpoint leadingInt (x : Z) (s : string) : option (Z * string) :=
  match s with
  | "" => Some (x, s)
  | String c s' =>
      match digit_val c with
      | None => Some (x, s)
      | Some d =>
          if 2 ^ 63 / 10 <? x then None
          else
            let x := x * 10 + d in
            if 2 ^ 63 <? x then None else leadingInt x s'
      end
  end.

(** [float64] values and the operations of [ParseDuration] on them, as IEEE 754
    binary64 with rounding to nearest even. *)
Definition float64_of_Z (z : Z) : spec_float := binary_normalize 53 1024 z 0 false.
Definition float64_mul : spec_float → spec_float → spec_float := SFmul 53 1024.
Definition float64_div : spec_float → spec_float → spec_float := SFdiv 53 1024.
(** [uint64(f)] of a non-negative finite value: truncation. *)
Definition uint64_of_float64 (f : spec_float) : Z :=
  match f with
  | S754_finite false m e => wrapu64 (if 0 <=? e then Zpos m * 2 ^ e else Zpos m / 2 ^ (- e))
  | _ => 0
  end.

(** [leadingFraction]: the digits after the point as an integer, the power of ten
    they are scaled by, and what follows them; digits past the range of a [uint64]
    are dropped. *)
Fixpoint leadingFraction (x : Z) (scale : spec_float) (overflow : bool) (s : string)
    : Z * spec_float * string :=
  match s with
  | "" => (x, scale, s)
  | String c s' =>
      match digit_val c with
      | None => (x, scale, s)
      | Some d =>
          if overflow then leadingFraction x scale true s'
          else if (2 ^ 63 - 1) / 10 <? x then leadingFraction x scale true s'
          else
            let y := x * 10 + d in
            if 2 ^ 63 <? y then leadingFraction x scale true s'
            else leadingFraction y (float64_mul scale (float64_of_Z 10)) false s'
      end
  end.

(** The longest prefix of [s] that has no digit and no point (the unit), and the
    rest. *)
Fixpoint take_unit (s : string) : string * string :=
  match s with
  | "" => ("", "")
  | String c s' =>
      if bool_decide (c = "."%char) then ("", s)
      else match digit_val c with
           | Some _ => ("", s)
           | None => let '(u, r) := take_unit s' in (String c u, r)
           end
  end.

(** [unitMap]; the two spellings of micro are U+00B5 and U+03BC. *)
Definition unitMap (u : string) : option Z :=
  if bool_decide (u = "ns") then Some Nanosecond
  else if bool_decide (u = "us") then Some Microsecond
  else if bool_decide (u = "µs") then Some Microsecond
  else if bool_decide (u = "μs") then Some Microsecond
  else if bool_decide (u = "ms") then Some Millisecond
  else if bool_decide (u = "s") then Some Second
  else if bool_decide (u = "m") then Some Minute
  else if bool_decide (u = "h") then Some Hour
  else None.

(** The fraction of a number, if there is one: its digits, their scale, the rest and
    whether there was a digit. *)
Definition ParseDuration_fraction (s : string) : Z * spec_float * string * bool :=
  match s with
  | String "." s' =>
      let '(f, scale, s2) := leadingFraction 0 (float64_of_Z 1) false s' in
      (f, scale, s2, negb (Nat.eqb (String.length s2) (String.length s')))
  | _ => (0, float64_of_Z 1, s, false)
  end.

(** One round of the loop of [ParseDuration]: a number with its unit, in
    nanoseconds, and the rest of the string.  [None] is an error return. *)
Definition ParseDuration_item (s : string) : option (Z * string) :=
  match s with
  | "" => None
  | String c _ =>
      if negb (bool_decide (c = "."%char) || bool_decide (is_Some (digit_val c))) then None
      else
        match leadingInt 0 s with
        | None => None
        | Some (v, s1) =>
            let pre := negb (Nat.eqb (String.length s1) (String.length s)) in
            let '(f, scale, s2, post) := ParseDuration_fraction s1 in
            if negb pre && negb post then None
            else
              let '(u, s3) := take_unit s2 in
              match u, unitMap u with
              | "", _ | _, None => None
              | _, Some unit =>
                  if 2 ^ 63 / unit <? v then None
                  else
                    let v := v * unit in
                    let v :=
                      if 0 <? f then
                        wrapu64 (v + uint64_of_float64
                          (float64_mul (float64_of_Z f) (float64_div (float64_of_Z unit) scale)))
                      else v in
                    if 2 ^ 63 <? v then None else Some (v, s3)
              end
        end
  end.

(** The loop; every round consumes at least one byte, so the length of the string
    is enough fuel. *)
Fixpoint ParseDuration_loop (fuel : nat) (d : Z) (s : string) : option Z :=
  match s with
  | "" => Some d
  | _ =>
      match fuel with
      | O => None
      | S fuel =>
          match ParseDuration_item s with
          | None => None
          | Some (v, s') =>
              let d := wrapu64 (d + v) in
              if 2 ^ 63 <? d then None else ParseDuration_loop fuel d s'
          end
      end
  end.

(** [time.ParseDuration]: the duration, or [None] for an error. *)
Definition ParseDuration (s : string) : option Z :=
  let '(neg, s) :=
    match s with
    | String "-" s' => (true, s')
    | String "+" s' => (false, s')
    | _ => (false, s)
    end in
  if bool_decide (s = "0") then Some 0
  else if bool_decide (s = "") then None
  else
    match ParseDuration_loop (String.length s) 0 s with
    | None => None
    | Some d =>
        if neg then Some (wrap64 (- wrap64 d))
        else if 2 ^ 63 - 1 <? d then None
        else Some d
    end.

(** ** sort *)

Section SliceStable.
Context {A : Type} (less : A → A → bool).

(** Insert [x], which stood before every element of [l], before the first element
    that is not less than it. *)
Fixpoint stable_insert (x : A) (l : list A) : list A :=
  match l with
  | [] => [x]
  | y :: l' => if less y x then y :: stable_insert x l' else x :: l
  end.

(** [sort.SliceStable]: the stable sort by [less]. *)
Fixpoint SliceStable (l : list A) : list A :=
  match l with
  | [] => []
  | x :: l => stable_insert x (SliceStable l)
  end.

End SliceStable.

(** ** Facts about decimal numbers *)

(** Every byte of the string is a decimal digit. *)
Fixpoint all_digits (s : string) : bool :=
  match s with
  | "" => true
  | String c s => bool_decide (is_Some (digit_val c)) && all_digits s
  end.

Lemma pretty_N_char_digit (x : N) : (x < 10)%N → digit_val (pretty_N_char x) = Some (Z.of_N x).
Proof.
  intros Hx.
  assert (x = 0 ∨ x = 1 ∨ x = 2 ∨ x = 3 ∨ x = 4 ∨ x = 5 ∨ x = 6 ∨ x = 7 ∨ x = 8 ∨ x = 9)%N
    as Hcase by lia.
  by repeat destruct Hcase as [->|Hcase]; subst.
Qed.

(** Reading the digits of [x] takes the loop from [0] to [x]. *)
Lemma ParseUint_loop_pretty (M : Z) (x : N) (s : string) :
  0 <= Z.of_N x <= M → M <= maxUint64 →
  ParseUint_loop M 0 (pretty_N_go x s) = ParseUint_loop M (Z.of_N x) s.
Proof.
  intros Hx HM. revert s Hx. induction (N.lt_wf_0 x) as [x _ IH]; intros s Hx.
  destruct (decide (x = 0%N)) as [->|Hx0]; [by rewrite pretty_N_go_0|].
  rewrite pretty_N_go_step by lia.
  assert (Z.of_N x = Z.of_N (x `div` 10) * 10 + Z.of_N (x `mod` 10)) as Hdm.
  { pose proof (N.div_mod x 10). lia. }
  assert (x `mod` 10 < 10)%N as Hmod by (apply N.mod_lt; lia).
  assert (x `div` 10 < x)%N as Hlt by (apply N.div_lt; lia).
  generalize dependent (x `mod` 10)%N. generalize dependent (x `div` 10)%N. intros q Hq r Hdm Hr.
  rewrite IH by lia.
  simpl. rewrite pretty_N_char_digit by done.
  unfold maxUint64, wrapu64 in *. change ((2 ^ 64 - 1) / 10 + 1) with 1844674407370955162.
  rewrite (proj2 (Z.leb_gt _ _)) by lia.
  rewrite Z.mod_small by lia. rewrite <-Hdm.
  rewrite (proj2 (Z.ltb_ge _ _)) by lia. by rewrite (proj2 (Z.ltb_ge _ _)) by lia.
Qed.

Lemma pretty_N_go_digits (x : N) (s : string) : all_digits s → all_digits (pretty_N_go x s).
Proof.
  revert s. induction (N.lt_wf_0 x) as [x _ IH]; intros s Hs.
  destruct (decide (x = 0%N)) as [->|Hx0]; [by rewrite pretty_N_go_0|].
  rewrite pretty_N_go_step by lia. apply IH; [apply N.div_lt; lia|].
  simpl. rewrite pretty_N_char_digit by (apply N.mod_lt; lia). done.
Qed.

Lemma pretty_N_digits (x : N) : all_digits (pretty x).
Proof.
  unfold pretty, pretty_N. case_decide; [done|]. by apply pretty_N_go_digits.
Qed.

Lemma pretty_N_ParseUint (M : Z) (x : N) :
  Z.of_N x <= M → M <= maxUint64 → ParseUint_loop M 0 (pretty x) = inl (Z.of_N x).
Proof.
  intros Hx HM. unfold pretty, pretty_N. case_decide as Hx0.
  - subst x. unfold ParseUint_loop. change (digit_val "0") with (Some 0).
    change (maxUint64 / 10 + 1 <=? 0) with false. cbv iota zeta.
    change (wrapu64 (0 * 10 + 0)) with 0. by rewrite (proj2 (Z.ltb_ge M 0)) by lia.
  - rewrite ParseUint_loop_pretty by lia. done.
Qed.

Lemma pretty_N_nonempty (x : N) : ∃ c s, pretty x = String c s ∧ is_Some (digit_val c).
Proof.
  pose proof (pretty_N_digits x) as Hd. destruct (pretty x) as [|c s] eqn:E.
  - unfold pretty, pretty_N in E. case_decide; [done|].
    exfalso. assert (0 < x)%N as Hx by lia.
    assert (∀ y t, t ≠ "" → pretty_N_go y t ≠ "") as Hne.
    { intros y. induction (N.lt_wf_0 y) as [y _ IH]; intros t Ht.
      destruct (decide (y = 0%N)) as [->|]; [by rewrite pretty_N_go_0|].
      rewrite pretty_N_go_step by lia. apply IH; [apply N.div_lt; lia|done]. }
    rewrite pretty_N_go_step in E by done. by apply Hne in E.
  - exists c, s. split; [done|]. simpl in Hd. naive_solver.
Qed.

Lemma digit_val_not_sign c : is_Some (digit_val c) → c ≠ "-"%char ∧ c ≠ "+"%char.
Proof. intros [v Hv]. split; intros ->; vm_compute in Hv; discriminate. Qed.

Lemma pretty_Z_cases (z : Z) :
  (0 <= z ∧ pretty z = pretty (Z.to_N z)) ∨ (z < 0 ∧ pretty z = "-" +:+ pretty (Z.to_N (- z))).
Proof. destruct z; [left|left|right]; split; try lia; reflexivity. Qed.

(** [ParseInt] reads back what [FormatInt] prints, at every bit size up to 64. *)
Lemma ParseInt_FormatInt (bitSize n : Z) :
  1 <= bitSize <= 64 → - 2 ^ (bitSize - 1) <= n < 2 ^ (bitSize - 1) →
  ParseInt10 bitSize (FormatInt10 n) = inl n.
Proof.
  intros Hb Hn. unfold FormatInt10.
  assert (2 ^ bitSize = 2 * 2 ^ (bitSize - 1)) as Hpow.
  { replace bitSize with (Z.succ (bitSize - 1)) at 1 by lia. by rewrite Z.pow_succ_r by lia. }
  assert (0 < 2 ^ (bitSize - 1)) as Hpos by (apply Z.pow_pos_nonneg; lia).
  assert (2 ^ bitSize - 1 <= maxUint64) as HM.
  { unfold maxUint64. pose proof (Z.pow_le_mono_r 2 bitSize 64). lia. }
  destruct (pretty_Z_cases n) as [[Hs ->]|[Hs ->]].
  - destruct (pretty_N_nonempty (Z.to_N n)) as (c & s & E & Hc).
    pose proof (pretty_N_ParseUint (2 ^ bitSize - 1) (Z.to_N n) ltac:(lia) HM) as Hp.
    rewrite E in *. destruct (digit_val_not_sign c Hc) as [Hm Hp'].
    unfold ParseInt10. rewrite (bool_decide_eq_false_2 (c = "-"%char)) by done.
    rewrite (bool_decide_eq_false_2 (c = "+"%char)) by done. simpl orb. cbv iota.
    unfold ParseUint10. rewrite Hp. cbv iota. simpl negb. simpl andb.
    rewrite (proj2 (Z.leb_gt _ _)) by lia. f_equal. lia.
  - destruct (pretty_N_nonempty (Z.to_N (- n))) as (c & s & E & Hc).
    pose proof (pretty_N_ParseUint (2 ^ bitSize - 1) (Z.to_N (- n)) ltac:(lia) HM) as Hp.
    rewrite E in *. rewrite string_app_cons, string_app_nil_l.
    unfold ParseInt10. rewrite (bool_decide_eq_true_2 ("-"%char = "-"%char)) by done.
    simpl orb. cbv iota. unfold ParseUint10. rewrite Hp. cbv iota. simpl negb. simpl andb.
    cbv iota. rewrite (proj2 (Z.ltb_ge _ _)) by lia. f_equal. lia.
Qed.

Lemma ParseUint_loop_bound (M n v : Z) (s : string) :
  0 <= n → ParseUint_loop M n s = inl v → n <= M → 0 <= v <= M.
Proof.
  revert n. induction s as [|c s IH]; intros n Hn; simpl; [intros [= <-]; lia|].
  destruct (digit_val c) as [d|]; [|done]. case_match; [done|].
  destruct ((wrapu64 (n * 10 + d) <? n * 10) || (M <? wrapu64 (n * 10 + d))) eqn:E; [done|].
  reflect_bools. intros Hv _. eapply IH; [|exact Hv|]; [|lia].
  unfold wrapu64. pose proof (Z.mod_pos_bound (n * 10 + d) (2 ^ 64)). lia.
Qed.

(** A number [ParseInt] returns fits the bit size. *)
Lemma ParseInt_range (bitSize v : Z) (s : string) :
  1 <= bitSize → ParseInt10 bitSize s = inl v → - 2 ^ (bitSize - 1) <= v < 2 ^ (bitSize - 1).
Proof.
  intros Hb. destruct s as [|c s]; [done|]. unfold ParseInt10.
  assert (0 < 2 ^ (bitSize - 1)) as Hpos by (apply Z.pow_pos_nonneg; lia).
  assert (2 ^ bitSize = 2 * 2 ^ (bitSize - 1)) as Hpow.
  { replace bitSize with (Z.succ (bitSize - 1)) at 1 by lia. by rewrite Z.pow_succ_r by lia. }
  destruct (ParseUint10 _ _) as [un|] eqn:E; [|done].
  assert (0 <= un) as Hun.
  { unfold ParseUint10 in E. case_match; [done|].
    apply ParseUint_loop_bound in E; lia. }
  destruct (bool_decide _); simpl.
  - destruct (_ <? un) eqn:Ec; [done|]. reflect_bools. intros [= <-]. lia.
  - destruct (_ <=? un) eqn:Ec; [done|]. reflect_bools. intros [= <-]. lia.
Qed.

(** ** Facts about the stable sort *)

Section StableSort.
Context {A : Type} (less : A → A → bool).

(** What a Go [less] function has to be for the sort to mean anything: a strict
    weak order. *)
Class StrictWeakOrder : Prop := {
  less_irrefl x : less x x = false;
  less_trans x y z : less x y = true → less y z = true → less x z = true;
  less_cotrans x y z : less x z = true → less x y = true ∨ less y z = true;
}.

(** [x] and [y] are tied. *)
Definition tied (x y : A) : bool := negb (less x y) && negb (less y x).

(** [l'] is the stable sort of [l]: a permutation of it, in order, with ties in the
    order they had. *)
Definition stable_sort_of (l l' : list A) : Prop :=
  l' ≡ₚ l ∧ StronglySorted (λ a b, less b a = false) l' ∧
  ∀ x, List.filter (tied x) l' = List.filter (tied x) l.

Lemma stable_insert_perm x l : stable_insert less x l ≡ₚ x :: l.
Proof.
  induction l as [|y l IH]; simpl; [done|]. destruct (less y x); [|done].
  rewrite IH. constructor.
Qed.

Lemma SliceStable_perm l : SliceStable less l ≡ₚ l.
Proof. induction l as [|x l IH]; simpl; [done|]. by rewrite stable_insert_perm, IH. Qed.

Context `{HS : StrictWeakOrder}.

Lemma less_asym x y : less x y = true → less y x = false.
Proof.
  intros H. destruct (less y x) eqn:E; [|done].
  pose proof (less_trans x y x H E) as C. by rewrite less_irrefl in C.
Qed.

Lemma tied_refl x : tied x x = true.
Proof. unfold tied. by rewrite less_irrefl. Qed.

Lemma less_not_tied x y z : less y x = true → tied z y = true → tied z x = false.
Proof.
  unfold tied. intros Hl Ht. reflect_bools.
  destruct (less_cotrans y z x Hl) as [Hc|Hc]; [congruence|]. by rewrite Hc.
Qed.

Lemma stable_insert_sorted x l :
  StronglySorted (λ a b, less b a = false) l →
  StronglySorted (λ a b, less b a = false) (stable_insert less x l).
Proof.
  induction 1 as [|y l Hl IH Hy]; simpl; [by repeat constructor|].
  destruct (less y x) eqn:E.
  - constructor; [done|]. rewrite stable_insert_perm. constructor; [|done].
    by apply less_asym.
  - constructor; [by constructor|]. constructor; [done|].
    eapply Forall_impl; [exact Hy|]. simpl. intros z Hz.
    destruct (less z x) eqn:Ez; [|done].
    destruct (less_cotrans z y x Ez); congruence.
Qed.

Lemma stable_insert_tied z x l :
  List.filter (tied z) (stable_insert less x l) = List.filter (tied z) (x :: l).
Proof.
  induction l as [|y l IH]; [done|]. simpl stable_insert. destruct (less y x) eqn:E; [|done].
  simpl. rewrite IH. simpl.
  destruct (tied z y) eqn:Ey; [|done]. by rewrite (less_not_tied x y z).
Qed.

Lemma SliceStable_spec l : stable_sort_of l (SliceStable less l).
Proof.
  split; [apply SliceStable_perm|]. split.
  - induction l as [|x l IH]; simpl; [constructor|by apply stable_insert_sorted].
  - intros z. induction l as [|x l IH]; [done|].
    simpl SliceStable. rewrite stable_insert_tied. simpl. by rewrite IH.
Qed.

Lemma sorted_head_le a l x : StronglySorted (λ a b, less b a = false) (a :: l) → x ∈ a :: l → less x a = false.
Proof.
  intros Hs Hx. inversion Hs as [|?? _ Hall]; subst.
  apply elem_of_cons in Hx as [->|Hx]; [apply less_irrefl|].
  rewrite Forall_forall in Hall. by apply Hall.
Qed.

(** The stable sort is unique, so any stable sorting algorithm returns what
    [SliceStable] returns. *)
Lemma stable_sort_unique l l1 l2 : stable_sort_of l l1 → stable_sort_of l l2 → l1 = l2.
Proof.
  intros (Hp1 & Hs1 & Ht1) (Hp2 & Hs2 & Ht2).
  assert (l1 ≡ₚ l2) as Hp by (by rewrite Hp1, Hp2).
  assert (∀ x, List.filter (tied x) l1 = List.filter (tied x) l2) as Ht by congruence.
  clear l Hp1 Hp2 Ht1 Ht2. revert l2 Hs2 Hp Ht.
  induction l1 as [|a l1 IH]; intros l2 Hs2 Hp Ht.
  { by apply Permutation_nil_l in Hp. }
  destruct l2 as [|b l2]; [by apply Permutation_nil_r in Hp|].
  assert (a = b) as <-.
  { assert (less a b = false) by (eapply sorted_head_le; [done|]; rewrite <-Hp; left).
    assert (less b a = false) by (eapply sorted_head_le; [done|]; rewrite Hp; left).
    specialize (Ht a). simpl in Ht. rewrite tied_refl in Ht.
    unfold tied at 2 in Ht. rewrite H, H0 in Ht. simpl in Ht. congruence. }
  f_equal. apply IH; [by inversion Hs1|by inversion Hs2|by apply Permutation_cons_inv in Hp|].
  intros x. specialize (Ht x). simpl in Ht. destruct (tied x a); congruence.
Qed.

End StableSort.

(** ** Facts about durations *)

Lemma ParseDuration_lt s d : ParseDuration s = Some d → d < 2 ^ 63.
Proof.
  unfold ParseDuration. intros H.
  repeat case_match; simplify_eq; reflect_bools; try lia;
    match goal with |- context [wrap64 (- wrap64 ?z)] => pose proof (wrap64_range (- wrap64 z)) end;
    unfold int64_range in *; lia.
Qed.

(** The parser of one item consumes at least one byte. *)
Lemma leadingInt_length x s v s' : leadingInt x s = Some (v, s') → (String.length s' <= String.length s)%nat.
Proof.
  revert x. induction s as [|c s IH]; intros x H; simpl in H; [by simplify_eq|].
  repeat case_match; simplify_eq; simpl; try lia. all: apply IH in H; lia.
Qed.

Lemma leadingFraction_length x scale o s f sc s' :
  leadingFraction x scale o s = (f, sc, s') → (String.length s' <= String.length s)%nat.
Proof.
  revert x scale o. induction s as [|c s IH]; intros x scale o H; simpl in H; [by simplify_eq|].
  repeat case_match; simplify_eq; simpl; try lia. all: apply IH in H; lia.
Qed.

Lemma take_unit_length s u s' : take_unit s = (u, s') → (String.length s' <= String.length s)%nat.
Proof.
  revert u. induction s as [|c s IH]; intros u H; simpl in H; [by simplify_eq|].
  destruct (bool_decide _); [by simplify_eq|]. destruct (digit_val c); [by simplify_eq|].
  destruct (take_unit s) as [u0 r0]; simplify_eq. specialize (IH _ eq_refl). simpl. lia.
Qed.

Lemma ParseDuration_fraction_length s f sc s' post :
  ParseDuration_fraction s = (f, sc, s', post) →
  (String.length s' <= String.length s)%nat ∧ (post = true → (String.length s' < String.length s)%nat).
Proof.
  unfold ParseDuration_fraction. intros H. destruct s as [|[[] [] [] [] [] [] [] []] s]; simplify_eq; try by auto.
  destruct (leadingFraction _ _ _ _) as [[g k] r] eqn:E. simplify_eq.
  apply leadingFraction_length in E. simpl. lia.
Qed.

Lemma ParseDuration_item_length s v s' :
  ParseDuration_item s = Some (v, s') → (String.length s' < String.length s)%nat.
Proof.
  unfold ParseDuration_item. destruct s as [|c s0]; [done|]. set (s := String c s0).
  destruct (negb _); [done|]. destruct (leadingInt 0 s) as [[n s1]|] eqn:E1; [|done].
  apply leadingInt_length in E1.
  destruct (ParseDuration_fraction s1) as [[[f sc] s2] post] eqn:E2.
  apply ParseDuration_fraction_length in E2 as [E2 E2'].
  destruct (negb _ && negb post) eqn:E3; [done|]. destruct (take_unit s2) as [u s3] eqn:E4.
  apply take_unit_length in E4. intros H.
  assert (s3 = s') as -> by (repeat case_match; simplify_eq; done).
  apply andb_false_iff in E3 as [E3|E3]; reflect_bools.
  - apply Nat.eqb_neq in E3. lia.
  - specialize (E2' E3). lia.
Qed.

(** The fuel is enough: more of it gives the same result. *)
Lemma ParseDuration_loop_fuel n m d s :
  (String.length s <= n)%nat → (String.length s <= m)%nat →
  ParseDuration_loop n d s = ParseDuration_loop m d s.
Proof.
  revert m d s. induction n as [|n IH]; intros m d s Hn Hm.
  { destruct s; [by destruct m|simpl in Hn; lia]. }
  destruct s as [|c s0]; [by destruct m|]. destruct m as [|m]; [simpl in Hm; lia|].
  cbn [ParseDuration_loop]. destruct (ParseDuration_item (String c s0)) as [[v s']|] eqn:E; [|done].
  apply ParseDuration_item_length in E. destruct (2 ^ 63 <? _); [done|]. apply IH; simpl in *; lia.
Qed.
