(* ===== verification/GoFloat.v ===== *)
(** * Floating-point numbers of the Go program

    [strconv.ParseFloat(s, 64)] as its documentation specifies it: the syntax of Go
    floating-point literals (decimal and hexadecimal, underscores between digits) and the
    names of the infinities and of NaN; the value is the nearest binary64 number, ties to
    even.  The scanner follows [readFloat]; the value is rounded from the exact number, so
    the library's fast paths, which are documented to round the same way, do not appear.
    And the conversion of a float64 to an int64, which the language leaves to the
    implementation when the value does not fit. *)

From Stdlib Require Import Ascii SpecFloat.
From S2P Require Import Prelude GoLib.

(** ** Scanning *)

(** The byte in lower case ([c | ('x' - 'X')]), for letters. *)
Definition lower (c : ascii) : Z := Z.lor (byte_val c) 32.

(** The value of a digit in base 10 or 16. *)
Definition float_digit (hex : bool) (c : ascii) : option Z :=
  match digit_val c with
  | Some d => Some d
  | None =>
      let v := lower c in
      if hex && (97 <=? v) && (v <=? 102) then Some (v - 87) else None
  end.

(** What the mantissa loop has read: the digits as a number, how many of them come after
    the point, and what it has seen. *)
Record Mantissa := {
  mt_digits : Z;
  mt_frac : Z;
  mt_sawdot : bool;
  mt_sawdigits : bool;
  mt_underscores : bool;
}.
Definition no_digits : Mantissa :=
  {| mt_digits := 0; mt_frac := 0; mt_sawdot := false; mt_sawdigits := false; mt_underscores := false |}.

Fixpoint readMantissa (hex : bool) (m : Mantissa) (s : string) : Mantissa * string :=
  match s with
  | "" => (m, s)
  | String c s' =>
      if bool_decide (c = "_"%char) then
        readMantissa hex {| mt_digits := mt_digits m; mt_frac := mt_frac m; mt_sawdot := mt_sawdot m;
                            mt_sawdigits := mt_sawdigits m; mt_underscores := true |} s'
      else if bool_decide (c = "."%char) then
        if mt_sawdot m then (m, s)
        else readMantissa hex {| mt_digits := mt_digits m; mt_frac := mt_frac m; mt_sawdot := true;
                                 mt_sawdigits := mt_sawdigits m; mt_underscores := mt_underscores m |} s'
      else
        match float_digit hex c with
        | None => (m, s)
        | Some d =>
            readMantissa hex
              {| mt_digits := mt_digits m * (if hex then 16 else 10) + d;
                 mt_frac := if mt_sawdot m then mt_frac m + 1 else mt_frac m;
                 mt_sawdot := mt_sawdot m; mt_sawdigits := true;
                 mt_underscores := mt_underscores m |} s'
        end
  end.

(** The digits of the exponent; those after the first five do not count. *)
Fixpoint readExponent (e : Z) (underscores : bool) (s : string) : Z * bool * string :=
  match s with
  | "" => (e, underscores, s)
  | String c s' =>
      if bool_decide (c = "_"%char) then readExponent e true s'
      else
        match digit_val c with
        | None => (e, underscores, s)
        | Some d => readExponent (if e <? 10000 then e * 10 + d else e) underscores s'
        end
  end.

(** The optional exponent after the mantissa: its value, whether it has underscores, and
    what follows.  [None] if it is malformed, or missing after a hexadecimal mantissa. *)
Definition readExp (hex : bool) (s : string) : option (Z * bool * string) :=
  match s with
  | String c s' =>
      if lower c =? (if hex then 112 else 101) then
        let '(neg, digits) :=
          match s' with
          | String "+" t => (false, t)
          | String "-" t => (true, t)
          | _ => (false, s')
          end in
        match digits with
        | String d _ =>
            if bool_decide (is_Some (digit_val d)) then
              let '(e, u, rest) := readExponent 0 false digits in
              Some (if neg then - e else e, u, rest)
            else None
        | "" => None
        end
      else if hex then None else Some (0, false, s)
  | "" => if hex then None else Some (0, false, s)
  end.

(** [underscoreOK]: underscores only between digits, or between a base prefix and a digit.
    [prev] is what the last byte was. *)
Inductive LastSeen := SawStart | SawDigit | SawUnderscore | SawOther.
Fixpoint underscores_from (hex : bool) (prev : LastSeen) (s : string) : bool :=
  match s with
  | "" => match prev with SawUnderscore => false | _ => true end
  | String c s' =>
      if bool_decide (is_Some (float_digit hex c)) then underscores_from hex SawDigit s'
      else if bool_decide (c = "_"%char) then
        match prev with SawDigit => underscores_from hex SawUnderscore s' | _ => false end
      else match prev with SawUnderscore => false | _ => underscores_from hex SawOther s' end
  end.
Definition strip_sign (s : string) : bool * string :=
  match s with
  | String "+" s' => (false, s')
  | String "-" s' => (true, s')
  | _ => (false, s)
  end.
Definition underscoreOK (s : string) : bool :=
  match (strip_sign s).2 with
  | String "0" (String x s') as body =>
      let v := lower x in
      if (v =? 98) || (v =? 111) || (v =? 120)
      then underscores_from (v =? 120) SawDigit s'
      else underscores_from false SawStart body
  | body => underscores_from false SawStart body
  end.

(** [readFloat] on the whole string: the sign, whether it is hexadecimal, and the number as
    [mantissa * base ^ (- fraction digits)] scaled by the exponent. *)
Definition readFloat (s : string) : option (bool * bool * Z * Z) :=
  let '(neg, body) := strip_sign s in
  let '(hex, digits) :=
    match body with
    | String "0" (String x (String c t)) => if lower x =? 120 then (true, String c t) else (false, body)
    | _ => (false, body)
    end in
  let '(m, rest) := readMantissa hex no_digits digits in
  if negb (mt_sawdigits m) then None
  else
    match readExp hex rest with
    | None => None
    | Some (e, u, rest) =>
        if (mt_underscores m || u) && negb (underscoreOK s) then None
        else if bool_decide (rest = "")
        then Some (neg, hex, mt_digits m, e - mt_frac m * (if hex then 4 else 1))
        else None
    end.

(** ** The value *)

(** The nearest binary64 number to [digits * 10 ^ e]. *)
Definition float64_of_decimal (neg : bool) (digits e : Z) : spec_float :=
  match digits with
  | Zpos m =>
      if 0 <=? e then
        binary_normalize 53 1024 ((if neg then -1 else 1) * (digits * 10 ^ e)) 0 neg
      else SFdiv 53 1024 (S754_finite neg m 0) (S754_finite false (Z.to_pos (10 ^ (- e))) 0)
  | _ => S754_zero neg
  end.
(** The nearest binary64 number to [digits * 2 ^ e]. *)
Definition float64_of_binary (neg : bool) (digits e : Z) : spec_float :=
  match digits with
  | Zpos m => binary_normalize 53 1024 ((if neg then -1 else 1) * digits) e neg
  | _ => S754_zero neg
  end.

Fixpoint string_lower (s : string) : string :=
  match s with
  | "" => ""
  | String c s =>
      let v := byte_val c in
      String (if (65 <=? v) && (v <=? 90) then ascii_of_N (Z.to_N (v + 32)) else c) (string_lower s)
  end.

(** [special]: the infinities, with an optional sign, and NaN, in any case. *)
Definition special (s : string) : option spec_float :=
  let '(neg, body) := strip_sign s in
  let low := string_lower body in
  if bool_decide (low = "inf") || bool_decide (low = "infinity") then Some (S754_infinity neg)
  else if bool_decide (string_lower s = "nan") then Some S754_nan
  else None.

Definition is_infinite (f : spec_float) : bool :=
  match f with S754_infinity _ => true | _ => false end.

(** [strconv.ParseFloat(s, 64)].  A finite literal that rounds to an infinity is a range
    error. *)
Definition ParseFloat (s : string) : spec_float + numError :=
  match special s with
  | Some f => inl f
  | None =>
      match readFloat s with
      | None => inr ErrSyntax
      | Some (neg, hex, digits, e) =>
          let f := if hex then float64_of_binary neg digits e else float64_of_decimal neg digits e in
          if is_infinite f then inr ErrRange else inl f
      end
  end.

(** ** Conversion to int64 *)

(** The integer part of a finite value. *)
Definition float64_trunc (f : spec_float) : option Z :=
  match f with
  | S754_zero _ => Some 0
  | S754_finite s m e =>
      let v := if 0 <=? e then Zpos m * 2 ^ e else Zpos m / 2 ^ (- e) in
      Some (if s then - v else v)
  | S754_infinity _ | S754_nan => None
  end.

(** [int64(f)]: the integer part when that is an int64; what else it is depends on the
    implementation, but it is an int64. *)
Class FloatConversion := {
  int64_of_float64 : spec_float → Z;
  int64_of_float64_exact f z : float64_trunc f = Some z → int64_range z → int64_of_float64 f = z;
  int64_of_float64_range f : int64_range (int64_of_float64 f);
}.

Definition convert_or (other : spec_float → Z) (f : spec_float) : Z :=
  match float64_trunc f with
  | Some z => if bool_decide (- 2 ^ 63 <= z) && bool_decide (z < 2 ^ 63) then z else other f
  | None => other f
  end.

Lemma convert_or_exact other f z :
  float64_trunc f = Some z → int64_range z → convert_or other f = z.
Proof.
  unfold convert_or. intros -> [H1 H2]. by rewrite !bool_decide_eq_true_2.
Qed.

Lemma convert_or_range other f :
  (∀ f, int64_range (other f)) → int64_range (convert_or other f).
Proof.
  intros Ho. unfold convert_or. destruct (float64_trunc f) as [z|]; [|done].
  repeat case_bool_decide; simpl; try done.
Qed.

(** On amd64 every value that does not fit becomes the least int64; on arm64 the
    conversion saturates, and NaN becomes zero. *)
Definition amd64_other (f : spec_float) : Z := - 2 ^ 63.
Definition arm64_other (f : spec_float) : Z :=
  match f with
  | S754_nan | S754_zero _ => 0
  | S754_infinity s | S754_finite s _ _ => if s then - 2 ^ 63 else 2 ^ 63 - 1
  end.

Lemma amd64_other_range f : int64_range (amd64_other f).
Proof. done. Qed.
Lemma arm64_other_range f : int64_range (arm64_other f).
Proof. by destruct f as [|[]| |[]]. Qed.

Definition amd64 : FloatConversion :=
  {| int64_of_float64 := convert_or amd64_other;
     int64_of_float64_exact := convert_or_exact amd64_other;
     int64_of_float64_range f := convert_or_range _ f amd64_other_range |}.
Definition arm64 : FloatConversion :=
  {| int64_of_float64 := convert_or arm64_other;
     int64_of_float64_exact := convert_or_exact arm64_other;
     int64_of_float64_range f := convert_or_range _ f arm64_other_range |}.
