(* ===== verification/FloatFacts.v ===== *)
(** * Facts about float64 values

    Integers below [2 ^ 53] are exact: reading one that was printed loses nothing, and
    neither does multiplying two of them when the product has at most 53 significant bits,
    nor converting that back to an integer.  So a whole number of seconds in the
    environment is that number of seconds in the process. *)

From Stdlib Require Import Ascii SpecFloat.
From S2P Require Import Prelude GoLib GoFloat.

(** ** Integers are exact *)

Lemma digits2_log2 p : Zpos (digits2_pos p) = Z.log2 (Zpos p) + 1.
Proof.
  induction p as [p IH|p IH|]; [| |done]; cbn [digits2_pos]; rewrite Pos2Z.inj_succ, IH.
  - rewrite Pos2Z.inj_xI, Z.log2_succ_double by lia. lia.
  - rewrite Pos2Z.inj_xO, Z.log2_double by lia. lia.
Qed.

Lemma iter_pos_iter {A} (f : A → A) p x : SpecFloat.iter_pos f p x = Nat.iter (Pos.to_nat p) f x.
Proof.
  revert x. induction p as [p IH|p IH|]; intros x; cbn [SpecFloat.iter_pos]; [| |done]; rewrite !IH.
  - rewrite Pos2Nat.inj_xI, Nat.iter_succ_r.
    replace (2 * Pos.to_nat p)%nat with (Pos.to_nat p + Pos.to_nat p)%nat by lia. by rewrite Nat.iter_add.
  - rewrite Pos2Nat.inj_xO.
    replace (2 * Pos.to_nat p)%nat with (Pos.to_nat p + Pos.to_nat p)%nat by lia. by rewrite Nat.iter_add.
Qed.

(** Shifting zeros out is exact. *)
Lemma shr_exact q n e :
  0 < q → 0 <= n →
  shr {| shr_m := q * 2 ^ n; shr_r := false; shr_s := false |} e n =
    ({| shr_m := q; shr_r := false; shr_s := false |}, e + n).
Proof.
  intros Hq Hn. destruct n as [|p|]; [by rewrite Z.mul_1_r, Z.add_0_r| |lia].
  unfold shr. f_equal. rewrite iter_pos_iter.
  rewrite <-(positive_nat_Z p). generalize (Pos.to_nat p) as k. clear Hn. intros k.
  induction k as [|k IH]; [by rewrite Z.mul_1_r|]. rewrite Nat.iter_succ_r, <-IH. f_equal.
  rewrite Nat2Z.inj_succ, Z.pow_succ_r, Z.mul_assoc, (Z.mul_comm q), <-Z.mul_assoc by lia.
  assert (0 < q * 2 ^ Z.of_nat k) as Hp by (apply Z.mul_pos_pos; [done|apply Z.pow_pos_nonneg; lia]).
  by destruct (q * 2 ^ Z.of_nat k).
Qed.

#[local] Notation "'digits' z" := (Z.log2 z + 1) (at level 10, z at level 9).

Lemma Zdigits2_digits z : 0 < z → Zdigits2 z = digits z.
Proof. destruct z; try lia. intros _. apply digits2_log2. Qed.

(** Rounding a number [q * 2 ^ n] of [53 + n] digits. *)
Lemma round_exact s q n e :
  0 < q → digits q = 53 → 0 <= n → -1000 <= e + n <= 900 →
  binary_round_aux 53 1024 s (q * 2 ^ n) e loc_Exact = S754_finite s (Z.to_pos q) (e + n).
Proof.
  intros Hq Hd Hn He. assert (0 < 2 ^ n) as H2 by (apply Z.pow_pos_nonneg; lia).
  unfold binary_round_aux, shr_fexp. rewrite Zdigits2_digits by nia.
  rewrite Z.log2_mul_pow2 by lia. unfold fexp, emin.
  replace (Z.max (n + Z.log2 q + 1 + e - 53) (3 - 1024 - 53) - e) with n by lia.
  cbn [shr_record_of_loc]. rewrite shr_exact by lia. cbn [shr_m loc_of_shr_record round_nearest_even].
  rewrite Zdigits2_digits by lia.
  replace (Z.max (Z.log2 q + 1 + (e + n) - 53) (3 - 1024 - 53) - (e + n)) with 0 by lia.
  cbn [shr shr_m]. destruct q as [|q|]; [lia| |lia]. by rewrite (proj2 (Z.leb_le _ _)) by lia.
Qed.

(** The float64 with the value of the integer [z], for [0 < z < 2 ^ 53]. *)
Definition float64_of_int (z : Z) : spec_float :=
  S754_finite false (Z.to_pos (z * 2 ^ (53 - digits z))) (digits z - 53).

Lemma digits_bound z k : 0 < z → z < 2 ^ k → digits z <= k.
Proof. intros Hz Hk. apply Z.log2_lt_pow2 in Hk; lia. Qed.

Lemma digits_scaled z : 0 < z < 2 ^ 53 →
  0 < z * 2 ^ (53 - digits z) ∧ digits (z * 2 ^ (53 - digits z)) = 53.
Proof.
  intros Hz. pose proof (digits_bound z 53). pose proof (Z.log2_nonneg z).
  assert (0 < 2 ^ (53 - digits z)) by (apply Z.pow_pos_nonneg; lia).
  split; [nia|]. rewrite Z.log2_mul_pow2 by lia. lia.
Qed.

Lemma iter_xO p d : Pos.iter xO p d = Z.to_pos (Zpos p * 2 ^ Zpos d).
Proof.
  induction d as [|d IH] using Pos.peano_ind; [by rewrite Z.mul_comm|].
  rewrite Pos.iter_succ, IH, Pos2Z.inj_succ, Z.pow_succ_r by lia.
  assert (0 < 2 ^ Zpos d) by (apply Z.pow_pos_nonneg; lia).
  replace (Zpos p * (2 * 2 ^ Zpos d)) with (2 * (Zpos p * 2 ^ Zpos d)) by lia.
  by destruct (Zpos p * 2 ^ Zpos d) eqn:E; try lia.
Qed.

Lemma round_int_exact s p : Zpos p < 2 ^ 53 →
  binary_round 53 1024 s p 0 =
    S754_finite s (Z.to_pos (Zpos p * 2 ^ (53 - digits (Zpos p)))) (digits (Zpos p) - 53).
Proof.
  intros Hz. destruct (digits_scaled (Zpos p)) as [Hp Hd]; [lia|]. pose proof (digits_bound (Zpos p) 53).
  pose proof (Z.log2_nonneg (Zpos p)). unfold binary_round.
  rewrite digits2_log2, Z.add_0_r. unfold fexp, emin.
  replace (Z.max (digits (Zpos p) - 53) (3 - 1024 - 53)) with (digits (Zpos p) - 53) by lia.
  assert (shl_align p 0 (digits (Zpos p) - 53) =
          (Z.to_pos (Zpos p * 2 ^ (53 - digits (Zpos p))), digits (Zpos p) - 53)) as ->.
  { unfold shl_align. rewrite Z.sub_0_r. destruct (digits (Zpos p) - 53) eqn:E; [|lia|].
    - replace (53 - digits (Zpos p)) with 0 by lia. by rewrite Z.mul_1_r.
    - rewrite iter_xO. replace (53 - digits (Zpos p)) with (Zpos p0) by lia. done. }
  rewrite Z2Pos.id by done.
  pose proof (round_exact s (Zpos p * 2 ^ (53 - digits (Zpos p))) 0 (digits (Zpos p) - 53)) as Hr.
  rewrite Z.mul_1_r, Z.add_0_r in Hr. apply Hr; lia.
Qed.

Lemma normalize_exact z : 0 < z < 2 ^ 53 → binary_normalize 53 1024 z 0 false = float64_of_int z.
Proof. intros Hz. destruct z as [|p|]; try lia. apply round_int_exact. lia. Qed.

(** A product [q * 2 ^ k] with at most 53 significant bits is exact. *)
Lemma mul_trunc a b q k :
  0 < a < 2 ^ 53 → 0 < b < 2 ^ 53 → a * b = q * 2 ^ k → 0 < q < 2 ^ 53 → 0 <= k <= 800 →
  float64_trunc (SFmul 53 1024 (float64_of_int a) (float64_of_int b)) = Some (a * b).
Proof.
  intros Ha Hb E Hq Hk.
  destruct (digits_scaled a Ha) as [Hpa _], (digits_scaled b Hb) as [Hpb _], (digits_scaled q Hq) as [Hp Hd].
  pose proof (digits_bound a 53). pose proof (digits_bound b 53). pose proof (digits_bound q 53).
  pose proof (Z.log2_nonneg a). pose proof (Z.log2_nonneg b). pose proof (Z.log2_nonneg q).
  pose proof (Z.log2_mul_below a b ltac:(lia) ltac:(lia)) as Hlo.
  rewrite E, Z.log2_mul_pow2 in Hlo by lia.
  unfold float64_of_int. cbn [SFmul xorb]. rewrite Pos2Z.inj_mul, !Z2Pos.id by done.
  set (n := k + digits q + 53 - digits a - digits b).
  replace (a * 2 ^ (53 - digits a) * (b * 2 ^ (53 - digits b))) with (q * 2 ^ (53 - digits q) * 2 ^ n).
  - rewrite round_exact by lia. unfold float64_trunc. rewrite Z2Pos.id by done.
    replace (digits a - 53 + (digits b - 53) + n) with (k + digits q - 53) by lia. f_equal. rewrite E.
    destruct (Z.leb_spec 0 (k + digits q - 53)).
    + rewrite <-Z.mul_assoc, <-Z.pow_add_r by lia. do 2 f_equal. lia.
    + replace (53 - digits q) with (k + - (k + digits q - 53)) by lia.
      rewrite Z.pow_add_r, Z.mul_assoc by lia. apply Z.div_mul, Z.pow_nonzero; lia.
  - replace (a * 2 ^ (53 - digits a) * (b * 2 ^ (53 - digits b))) with
      (a * b * (2 ^ (53 - digits a) * 2 ^ (53 - digits b))) by ring.
    rewrite E, <-!Z.mul_assoc, <-!Z.pow_add_r by lia. do 2 f_equal. lia.
Qed.

(** ** Reading a printed integer *)

Lemma digit_cases c : is_Some (digit_val c) →
  c ∈ ["0"; "1"; "2"; "3"; "4"; "5"; "6"; "7"; "8"; "9"]%char.
Proof.
  intros [v Hv]. destruct c as [[] [] [] [] [] [] [] []]; vm_compute in Hv; try discriminate Hv;
    repeat (left || right).
Qed.

(** The mantissa after the digits of [x]. *)
Definition read_digits (x : N) : Mantissa :=
  {| mt_digits := Z.of_N x; mt_frac := 0; mt_sawdot := false; mt_sawdigits := negb (x =? 0)%N;
     mt_underscores := false |}.

Lemma readMantissa_pretty (x : N) (s : string) :
  readMantissa false no_digits (pretty_N_go x s) = readMantissa false (read_digits x) s.
Proof.
  revert s. induction (N.lt_wf_0 x) as [x _ IH]; intros s.
  destruct (decide (x = 0%N)) as [->|Hx0]; [by rewrite pretty_N_go_0|].
  rewrite pretty_N_go_step by lia. rewrite IH by (apply N.div_lt; lia).
  assert (Z.of_N x = Z.of_N (x `div` 10) * 10 + Z.of_N (x `mod` 10)) as Hdm.
  { pose proof (N.div_mod x 10). lia. }
  assert (x `mod` 10 < 10)%N as Hmod by (apply N.mod_lt; lia).
  pose proof (pretty_N_char_digit _ Hmod) as Hc.
  assert (pretty_N_char (x `mod` 10) ≠ "_"%char ∧ pretty_N_char (x `mod` 10) ≠ "."%char) as [H1 H2].
  { split; intros E; by rewrite E in Hc. }
  cbn [readMantissa]. rewrite !bool_decide_eq_false_2 by done. unfold float_digit. rewrite Hc.
  f_equal. unfold read_digits. cbn [mt_digits mt_frac mt_sawdot mt_underscores]. rewrite <-Hdm.
  f_equal. by rewrite (proj2 (N.eqb_neq _ _)).
Qed.

(** Digits with a sign. *)
Definition signed (neg : bool) (s : string) : string := if neg then String "-" s else s.

Lemma special_digits neg c s : is_Some (digit_val c) → special (signed neg (String c s)) = None.
Proof.
  intros Hc%digit_cases. unfold special. set_unfold in Hc.
  destruct neg; repeat destruct Hc as [->|Hc]; try done; cbn; by rewrite !bool_decide_eq_false_2.
Qed.

(** No base prefix. *)
Lemma readFloat_digits neg c s :
  is_Some (digit_val c) → all_digits s →
  readFloat (signed neg (String c s)) =
    (let '(m, rest) := readMantissa false no_digits (String c s) in
     if negb (mt_sawdigits m) then None
     else match readExp false rest with
          | None => None
          | Some (e, u, rest) =>
              if (mt_underscores m || u) && negb (underscoreOK (signed neg (String c s))) then None
              else if bool_decide (rest = "") then Some (neg, false, mt_digits m, e - mt_frac m * 1)
              else None
          end).
Proof.
  intros Hc%digit_cases Hs. unfold readFloat.
  assert (strip_sign (signed neg (String c s)) = (neg, String c s)) as ->.
  { destruct neg; [done|]. set_unfold in Hc. repeat destruct Hc as [->|Hc]; done. }
  assert (∀ x t, s = String x t → (lower x =? 120) = false) as Hx.
  { intros x t ->. simpl in Hs. destruct (decide (is_Some (digit_val x))) as [Hd|Hd].
    - apply digit_cases in Hd. set_unfold in Hd. repeat destruct Hd as [->|Hd]; done.
    - by rewrite bool_decide_eq_false_2 in Hs. }
  set_unfold in Hc. repeat destruct Hc as [->|Hc]; try done.
  destruct s as [|x [|y t]]; [done|done|]. by rewrite (Hx x (String y t)).
Qed.

Lemma read_printed neg (x : N) :
  (0 < x)%N → readFloat (signed neg (pretty x)) = Some (neg, false, Z.of_N x, 0).
Proof.
  intros Hx. pose proof (pretty_N_digits x) as Hd.
  destruct (pretty_N_nonempty x) as (c & s & E & Hc). rewrite E in *. simpl in Hd.
  apply andb_prop_elim in Hd as [_ Hs].
  rewrite readFloat_digits by done. rewrite <-E. unfold pretty at 1, pretty_N.
  rewrite decide_False by lia. rewrite readMantissa_pretty. cbn.
  rewrite (proj2 (N.eqb_neq _ _)) by lia. done.
Qed.

(** Printed and read: the value of the digits, with the sign. *)
Lemma ParseFloat_printed neg (x : N) :
  (0 < x)%N → is_infinite (float64_of_decimal neg (Z.of_N x) 0) = false →
  ParseFloat (signed neg (pretty x)) = inl (float64_of_decimal neg (Z.of_N x) 0).
Proof.
  intros Hx Hi. unfold ParseFloat. pose proof (read_printed neg x Hx) as Hr.
  destruct (pretty_N_nonempty x) as (c & s & E & Hc). rewrite E in *.
  by rewrite special_digits, Hr, Hi by done.
Qed.

Lemma decimal_int neg p :
  Zpos p < 2 ^ 53 →
  float64_of_decimal neg (Zpos p) 0 =
    S754_finite neg (Z.to_pos (Zpos p * 2 ^ (53 - digits (Zpos p)))) (digits (Zpos p) - 53).
Proof.
  intros Hp. rewrite <-round_int_exact by done. unfold float64_of_decimal. cbn [Z.leb Z.compare].
  rewrite Z.mul_1_r. by destruct neg.
Qed.

(** A positive integer below [2 ^ 53], printed and read, is that number. *)
Lemma ParseFloat_FormatInt n : 0 < n < 2 ^ 53 → ParseFloat (FormatInt10 n) = inl (float64_of_int n).
Proof.
  intros Hn. unfold FormatInt10. destruct (pretty_Z_cases n) as [[_ ->]|]; [|lia].
  destruct n as [|p|]; try lia. pose proof (decimal_int false p ltac:(lia)) as Hd.
  pose proof (ParseFloat_printed false (Z.to_N (Zpos p)) ltac:(lia)) as Hp.
  rewrite Z2N.id, Hd in Hp by lia. by apply Hp.
Qed.

(** One that is not positive, above [- 2 ^ 53], is not positive. *)
Lemma ParseFloat_nonpositive n :
  - 2 ^ 53 < n <= 0 → ∃ v, ParseFloat (FormatInt10 n) = inl v ∧ SFleb v (S754_zero false) = true.
Proof.
  intros Hn. destruct n as [|p|p]; [by eexists|lia|]. unfold FormatInt10.
  destruct (pretty_Z_cases (Zneg p)) as [|[_ ->]]; [lia|]. change (- Zneg p) with (Zpos p).
  pose proof (decimal_int true p ltac:(lia)) as Hd.
  pose proof (ParseFloat_printed true (Z.to_N (Zpos p)) ltac:(lia)) as Hp.
  rewrite Z2N.id, Hd in Hp by lia. eexists. split; [by apply Hp|done].
Qed.
