(* ===== verification/GoJSON.v ===== *)
(** * encoding/json and unicode/utf8, as far as the program uses them

    [json.Marshal] and [Encoder.Encode] of a struct whose fields are strings and 32-bit
    integers, and [Decoder.Decode] into such a struct: the grammar of the scanner, the
    unquoting of strings with its repair of invalid UTF-8, the matching of keys with the
    fields of the struct, and the conversion of the values.  [GoJSONFacts] has the round
    trip. *)

From Stdlib Require Import Ascii.
From S2P Require Import Prelude GoLib.

(** ** UTF-8 *)

Fixpoint str_take (n : nat) (s : string) : string :=
  match n, s with
  | S n, String c s => String c (str_take n s)
  | _, _ => ""
  end.
Fixpoint str_drop (n : nat) (s : string) : string :=
  match n, s with
  | S n, String _ s => str_drop n s
  | _, _ => s
  end.

Definition byte_in (lo hi : Z) (c : ascii) : bool := (lo <=? byte_val c) && (byte_val c <=? hi).

(** The length of the encoded rune at the head of the string, 0 if there is none: where
    [utf8.DecodeRune] gives [RuneError] with size 1 (or size 0 for the empty string). *)
Definition rune_size (s : string) : nat :=
  match s with
  | "" => O
  | String c s =>
      let b := byte_val c in
      if b <? 128 then 1%nat
      else if b <? 194 then O
      else if b <? 224 then
        match s with
        | String c1 _ => if byte_in 128 191 c1 then 2%nat else O
        | _ => O
        end
      else if b <? 240 then
        match s with
        | String c1 (String c2 _) =>
            if byte_in (if b =? 224 then 160 else 128) (if b =? 237 then 159 else 191) c1 &&
               byte_in 128 191 c2 then 3%nat else O
        | _ => O
        end
      else if b <? 245 then
        match s with
        | String c1 (String c2 (String c3 _)) =>
            if byte_in (if b =? 240 then 144 else 128) (if b =? 244 then 143 else 191) c1 &&
               byte_in 128 191 c2 && byte_in 128 191 c3 then 4%nat else O
        | _ => O
        end
      else O
  end.

#[global] Arguments rune_size : simpl never.

(** The runes of a string, [None] for a byte that belongs to none.  Every round consumes at
    least one byte, so the length of the string is enough fuel. *)
Fixpoint runes_loop (fuel : nat) (s : string) : list (option string) :=
  match fuel, s with
  | S fuel, String c s' =>
      match rune_size s with
      | O => None :: runes_loop fuel s'
      | n => Some (str_take n s) :: runes_loop fuel (str_drop n s)
      end
  | _, _ => []
  end.
Definition runes (s : string) : list (option string) := runes_loop (String.length s) s.

Definition concat_strings (l : list string) : string := foldr String.append "" l.

Definition chr (z : Z) : ascii := ascii_of_N (Z.to_N z).
(** The encoding of U+FFFD, [unicode.ReplacementChar]. *)
Definition replacement : string := String (chr 239) (String (chr 191) (String (chr 189) "")).

(** What remains of a string when every invalid byte is replaced by U+FFFD, and
    [utf8.ValidString]. *)
Definition coerceUTF8 (s : string) : string := concat_strings (default replacement <$> runes s).
Definition ValidString (s : string) : bool := forallb (λ o, bool_decide (is_Some o)) (runes s).

#[global] Arguments coerceUTF8 : simpl never.
#[global] Arguments ValidString : simpl never.

(** [utf8.EncodeRune]. *)
Definition EncodeRune (r : Z) : string :=
  let cont n := chr (128 + (r / 64 ^ n) mod 64) in
  if r <? 0 then replacement
  else if r <? 128 then String (chr r) ""
  else if r <? 2048 then String (chr (192 + r / 64)) (String (cont 0) "")
  else if ((55296 <=? r) && (r <=? 57343)) || (1114111 <? r) then replacement
  else if r <? 65536 then String (chr (224 + r / 4096)) (String (cont 1) (String (cont 0) ""))
  else String (chr (240 + r / 262144)) (String (cont 2) (String (cont 1) (String (cont 0) ""))).

(** ** Encoding *)

(** A double quote and a backslash. *)
Definition dq : ascii := chr 34.
Definition bslash : ascii := chr 92.

(** The bytes that need no escape: [htmlSafeSet]. *)
Definition htmlSafe (c : ascii) : bool :=
  let b := byte_val c in
  (32 <=? b) && (b <? 128) &&
  negb ((b =? 34) || (b =? 38) || (b =? 60) || (b =? 62) || (b =? 92)).

Definition escape_byte (c : ascii) : string :=
  if htmlSafe c then String c ""
  else
    let b := byte_val c in
    String bslash
      (if (b =? 92) || (b =? 34) then String c ""
       else if b =? 8 then "b" else if b =? 12 then "f" else if b =? 10 then "n"
       else if b =? 13 then "r" else if b =? 9 then "t"
       else "u00" +:+ hex_digit (b / 16) +:+ hex_digit (b mod 16)).

(** U+2028 and U+2029, which are escaped for the sake of JavaScript. *)
Definition line_separator : string := String (chr 226) (String (chr 128) (String (chr 168) "")).
Definition paragraph_separator : string := String (chr 226) (String (chr 128) (String (chr 169) "")).

Definition escape_rune (o : option string) : string :=
  match o with
  | None => String bslash "ufffd"
  | Some (String c "") => escape_byte c
  | Some r =>
      if bool_decide (r = line_separator) then String bslash "u2028"
      else if bool_decide (r = paragraph_separator) then String bslash "u2029"
      else r
  end.

(** [appendString] with [escapeHTML]. *)
Definition json_string (s : string) : string :=
  String dq (concat_strings (escape_rune <$> runes s) +:+ String dq "").

(** The value of a field of a struct. *)
Inductive fieldValue := FString (s : string) | FInt32 (n : Z).

Definition json_value (v : fieldValue) : string :=
  match v with
  | FString s => json_string s
  | FInt32 n => FormatInt10 n
  end.

Definition json_field (f : string * fieldValue) : string := json_string f.1 +:+ ":" +:+ json_value f.2.
Fixpoint json_fields (fs : list (string * fieldValue)) : string :=
  match fs with
  | [] => ""
  | [f] => json_field f
  | f :: fs => json_field f +:+ "," +:+ json_fields fs
  end.
Definition json_object (fs : list (string * fieldValue)) : string := "{" +:+ json_fields fs +:+ "}".

(** ** The grammar *)

(** A parse succeeds with what it consumed it for and the rest of the input, meets a byte
    that cannot continue, or meets the end of the input. *)
Inductive parsed (A : Type) :=
  | Parsed (a : A) (rest : string)
  | Invalid
  | Incomplete.
Arguments Parsed {A} a rest.
Arguments Invalid {A}.
Arguments Incomplete {A}.

Definition pbind {A B} (p : parsed A) (k : A → string → parsed B) : parsed B :=
  match p with
  | Parsed a rest => k a rest
  | Invalid => Invalid
  | Incomplete => Incomplete
  end.

#[local] Notation "'let+' ( x , s ) := p 'in' q" := (pbind p (λ x s, q))
  (at level 10, x name, s name, p at level 100, q at level 200).

Definition isSpace (c : ascii) : bool :=
  let b := byte_val c in (b =? 32) || (b =? 9) || (b =? 13) || (b =? 10).
Fixpoint skip_space (s : string) : string :=
  match s with
  | String c s' => if isSpace c then skip_space s' else s
  | "" => ""
  end.

(** The next byte has to be [c]. *)
Definition expect (c : ascii) (s : string) : parsed unit :=
  match s with
  | "" => Incomplete
  | String c' s => if bool_decide (c' = c) then Parsed tt s else Invalid
  end.
Fixpoint expect_all (w s : string) : parsed unit :=
  match w with
  | "" => Parsed tt s
  | String c w => let+ (_, s) := expect c s in expect_all w s
  end.

Definition hex_val (c : ascii) : option Z :=
  let b := byte_val c in
  if (48 <=? b) && (b <=? 57) then Some (b - 48)
  else if (97 <=? b) && (b <=? 102) then Some (b - 87)
  else if (65 <=? b) && (b <=? 70) then Some (b - 55)
  else None.
(** [n] hexadecimal digits. *)
Fixpoint hex_digits (n : nat) (acc : Z) (s : string) : parsed Z :=
  match n with
  | O => Parsed acc s
  | S n =>
      match s with
      | "" => Incomplete
      | String c s =>
          match hex_val c with
          | Some v => hex_digits n (acc * 16 + v) s
          | None => Invalid
          end
      end
  end.

Definition is_surrogate (r : Z) : bool := (55296 <=? r) && (r <? 57344).
(** [utf16.DecodeRune] of a surrogate [r1] and the escape that follows it, if any. *)
Definition surrogate_pair (r1 : Z) (s : string) : string * string :=
  match s with
  | String c1 (String c2 s') =>
      if bool_decide (c1 = bslash) && bool_decide (c2 = "u"%char) then
        match hex_digits 4 0 s' with
        | Parsed r2 rest =>
            if (r1 <? 56320) && (56320 <=? r2) && (r2 <? 57344)
            then (EncodeRune (65536 + (r1 - 55296) * 1024 + (r2 - 56320)), rest)
            else (replacement, s)
        | _ => (replacement, s)
        end
      else (replacement, s)
  | _ => (replacement, s)
  end.

(** An escape, after its backslash: what it stands for. *)
Definition unescape (s : string) : parsed string :=
  match s with
  | "" => Incomplete
  | String e s =>
      let b := byte_val e in
      if (b =? 34) || (b =? 92) || (b =? 47) then Parsed (String e "") s
      else if b =? 98 then Parsed (String (chr 8) "") s
      else if b =? 102 then Parsed (String (chr 12) "") s
      else if b =? 110 then Parsed (String (chr 10) "") s
      else if b =? 114 then Parsed (String (chr 13) "") s
      else if b =? 116 then Parsed (String (chr 9) "") s
      else if b =? 117 then
        let+ (r, s) := hex_digits 4 0 s in
        if is_surrogate r then let '(t, s) := surrogate_pair r s in Parsed t s
        else Parsed (EncodeRune r) s
      else Invalid
  end.

(** One character of a string literal, not the closing quote. *)
Definition string_char (s : string) : parsed string :=
  match s with
  | "" => Incomplete
  | String c s' =>
      if byte_val c <? 32 then Invalid
      else if bool_decide (c = bslash) then unescape s'
      else match rune_size s with
           | O => Parsed replacement s'
           | n => Parsed (str_take n s) (str_drop n s)
           end
  end.

(** A string literal after its opening quote, unquoted.  Every round consumes at least one
    byte. *)
Fixpoint string_loop (fuel : nat) (s : string) : parsed string :=
  match fuel, s with
  | S fuel, String c s' =>
      if bool_decide (c = dq) then Parsed "" s'
      else
        let+ (t, s) := string_char s in
        let+ (u, s) := string_loop fuel s in
        Parsed (t +:+ u) s
  | _, _ => Incomplete
  end.
Definition string_literal (s : string) : parsed string := string_loop (String.length s) s.

(** Digits, as many as there are, and what follows them. *)
Fixpoint span_digits (s : string) : string * string :=
  match s with
  | "" => ("", "")
  | String c s' =>
      match digit_val c with
      | Some _ => let '(d, r) := span_digits s' in (String c d, r)
      | None => ("", s)
      end
  end.
(** At least one digit. *)
Definition some_digits (s : string) : parsed string :=
  match span_digits s with
  | ("", "") => Incomplete
  | ("", _) => Invalid
  | (d, r) => Parsed d r
  end.

(** The parts of a number literal: the sign, the integer part, the fraction, the
    exponent. *)
Definition number_sign (s : string) : string * string :=
  match s with String "-" s => ("-", s) | _ => ("", s) end.
Definition number_int (s : string) : parsed string :=
  match s with
  | String "0" s => Parsed "0" s
  | _ => some_digits s
  end.
Definition number_frac (s : string) : parsed string :=
  match s with
  | String "." s => let+ (d, s) := some_digits s in Parsed ("." +:+ d) s
  | _ => Parsed "" s
  end.
Definition number_exp (s : string) : parsed string :=
  match s with
  | String c s' =>
      if bool_decide (c = "e"%char) || bool_decide (c = "E"%char) then
        let '(sign, s) :=
          match s' with
          | String "+" s => ("+", s)
          | String "-" s => ("-", s)
          | _ => ("", s')
          end in
        let+ (d, s) := some_digits s in Parsed (String c (sign +:+ d)) s
      else Parsed "" s
  | _ => Parsed "" s
  end.
Definition number_literal (s : string) : parsed string :=
  let '(sign, s) := number_sign s in
  let+ (i, s) := number_int s in
  let+ (f, s) := number_frac s in
  let+ (e, s) := number_exp s in
  Parsed (sign +:+ i +:+ f +:+ e) s.

(** A value: a number is kept as its literal, an object as its members in order. *)
Inductive json :=
  | JNull
  | JBool (b : bool)
  | JNumber (literal : string)
  | JString (s : string)
  | JArray (elements : list json)
  | JObject (members : list (string * json)).

Definition maxNestingDepth : Z := 10000.

(** A value, the rest of an array after its bracket or a comma, and the rest of an object
    after its brace or a comma, at the given depth of nesting. *)
Fixpoint parse_value (fuel : nat) (depth : Z) (s : string) : parsed json :=
  match fuel with
  | O => Incomplete
  | S fuel =>
      match skip_space s with
      | "" => Incomplete
      | String c s' =>
          if bool_decide (c = "{"%char) then
            if maxNestingDepth <=? depth then Invalid
            else
              match skip_space s' with
              | "" => Incomplete
              | String c2 s2 =>
                  if bool_decide (c2 = "}"%char) then Parsed (JObject []) s2
                  else let+ (ms, s) := parse_members fuel (depth + 1) s' in Parsed (JObject ms) s
              end
          else if bool_decide (c = "["%char) then
            if maxNestingDepth <=? depth then Invalid
            else
              match skip_space s' with
              | "" => Incomplete
              | String c2 s2 =>
                  if bool_decide (c2 = "]"%char) then Parsed (JArray []) s2
                  else let+ (vs, s) := parse_elements fuel (depth + 1) s' in Parsed (JArray vs) s
              end
          else if bool_decide (c = dq) then let+ (t, s) := string_literal s' in Parsed (JString t) s
          else if bool_decide (c = "t"%char) then let+ (_, s) := expect_all "rue" s' in Parsed (JBool true) s
          else if bool_decide (c = "f"%char) then let+ (_, s) := expect_all "alse" s' in Parsed (JBool false) s
          else if bool_decide (c = "n"%char) then let+ (_, s) := expect_all "ull" s' in Parsed JNull s
          else let+ (n, s) := number_literal (String c s') in Parsed (JNumber n) s
      end
  end
with parse_elements (fuel : nat) (depth : Z) (s : string) : parsed (list json) :=
  match fuel with
  | O => Incomplete
  | S fuel =>
      let+ (v, s) := parse_value fuel depth s in
      match skip_space s with
      | "" => Incomplete
      | String c s =>
          if bool_decide (c = "]"%char) then Parsed [v] s
          else if bool_decide (c = ","%char) then
            let+ (vs, s) := parse_elements fuel depth s in Parsed (v :: vs) s
          else Invalid
      end
  end
with parse_members (fuel : nat) (depth : Z) (s : string) : parsed (list (string * json)) :=
  match fuel with
  | O => Incomplete
  | S fuel =>
      let+ (_, s) := expect dq (skip_space s) in
      let+ (k, s) := string_literal s in
      let+ (_, s) := expect ":"%char (skip_space s) in
      let+ (v, s) := parse_value fuel depth s in
      match skip_space s with
      | "" => Incomplete
      | String c s =>
          if bool_decide (c = "}"%char) then Parsed [(k, v)] s
          else if bool_decide (c = ","%char) then
            let+ (ms, s) := parse_members fuel depth s in Parsed ((k, v) :: ms) s
          else Invalid
      end
  end.

(** Every byte is looked at by at most two nested calls. *)
Definition parse (s : string) : parsed json := parse_value (S (2 * String.length s)) 0 s.

(** ** Decoding into a struct *)

(** [foldName]: the name in upper case; U+017F and U+212A are the only other runes that fold
    to a letter of ASCII. *)
Fixpoint foldName (s : string) : string :=
  match s with
  | "" => ""
  | String c s' =>
      let keep := String (if byte_in 97 122 c then chr (byte_val c - 32) else c) (foldName s') in
      match s' with
      | String c1 s2 =>
          if bool_decide (c = chr 197) && bool_decide (c1 = chr 191) then String "S" (foldName s2)
          else
            match s2 with
            | String c2 s3 =>
                if bool_decide (c = chr 226) && bool_decide (c1 = chr 132) && bool_decide (c2 = chr 170)
                then String "K" (foldName s3)
                else keep
            | _ => keep
            end
      | _ => keep
      end
  end.

(** [literalStore] and its like: a field after a value has been stored into it, [None] for
    an [UnmarshalTypeError].  The literal null leaves a string or an integer as it is. *)
Definition store (v : json) (f : fieldValue) : option fieldValue :=
  match v, f with
  | JNull, _ => Some f
  | JString s, FString _ => Some (FString s)
  | JNumber lit, FInt32 _ =>
      match ParseInt10 64 lit with
      | inl n => if bool_decide (- 2 ^ 31 <= n) && bool_decide (n < 2 ^ 31) then Some (FInt32 n) else None
      | inr _ => None
      end
  | _, _ => None
  end.

(** The index of the field a key stands for: the one of that name, or else the first whose
    name folds to the same. *)
Fixpoint index_of {A} (p : A → bool) (l : list A) : option nat :=
  match l with
  | [] => None
  | x :: l => if p x then Some O else S <$> index_of p l
  end.
Definition find_field (fs : list (string * fieldValue)) (key : string) : option nat :=
  match index_of (λ f, bool_decide (f.1 = key)) fs with
  | Some i => Some i
  | None => index_of (λ f, bool_decide (foldName f.1 = foldName key)) fs
  end.

(** The members of an object, in order; a key without a field is skipped. *)
Fixpoint store_members (ms : list (string * json)) (fs : list (string * fieldValue))
    : option (list (string * fieldValue)) :=
  match ms with
  | [] => Some fs
  | (k, v) :: ms =>
      match find_field fs k ≫= λ i, (i,.) <$> fs !! i with
      | None => store_members ms fs
      | Some (i, (name, f)) =>
          match store v f with
          | Some f' => store_members ms (<[i := (name, f')]> fs)
          | None => None
          end
      end
  end.
Definition store_struct (v : json) (fs : list (string * fieldValue)) : option (list (string * fieldValue)) :=
  match v with
  | JNull => Some fs
  | JObject ms => store_members ms fs
  | _ => None
  end.

(** A struct type with its zero value and its exported fields by their JSON names. *)
Class JSONStruct (T : Type) := {
  json_zero : T;
  struct_fields : T → list (string * fieldValue);
  of_fields : list fieldValue → option T;
}.

(** [json.Marshal], and [Encoder.Encode], which ends the value with a newline. *)
Definition Marshal `{JSONStruct T} (t : T) : string := json_object (struct_fields t).
Definition Encode `{JSONStruct T} (t : T) : string := Marshal t +:+ String (chr 10) "".

#[global] Arguments Marshal : simpl never.
#[global] Arguments Encode : simpl never.

(** A body as it is read: its bytes, and then the end or an error. *)
Record Body := { b_bytes : string; b_err : option goerror }.
Definition whole (s : string) : Body := {| b_bytes := s; b_err := None |}.

Definition EOF : goerror := Sentinel "io.EOF" "EOF".
Definition ErrUnexpectedEOF : goerror := Sentinel "io.ErrUnexpectedEOF" "unexpected EOF".
(** The texts of these errors, which name a byte or a field, are left out. *)
Definition SyntaxError : goerror := PlainError "invalid character".
Definition UnmarshalTypeError : goerror := PlainError "json: cannot unmarshal".

(** [json.NewDecoder(body).Decode(&out)] for a zero [out]: the first value of the body; what
    follows it is not looked at, except that a number ends only there. *)
Definition Decode `{JSONStruct T} (body : Body) : result T :=
  match parse (b_bytes body) with
  | Invalid => Err SyntaxError
  | Incomplete =>
      Err (default (if bool_decide (skip_space (b_bytes body) = "") then EOF else ErrUnexpectedEOF)
             (b_err body))
  | Parsed v rest =>
      match v, rest, b_err body with
      | JNumber _, "", Some err => Err err
      | _, _, _ =>
          match store_struct v (struct_fields json_zero) ≫= λ fs, of_fields fs.*2 with
          | Some t => Ok t
          | None => Err UnmarshalTypeError
          end
      end
  end.
