(* ===== verification/GoJSONFacts.v ===== *)
(** * Facts about the model of encoding/json

    The fuel of every loop is enough, strings and numbers are read back after they were
    written, and so is a struct: up to the repair of invalid UTF-8, which valid strings do
    not need. *)

From Stdlib Require Import Ascii.
From S2P Require Import Prelude GoLib GoJSON.

(** ** Runes *)

Lemma length_app_string (s t : string) :
  String.length (s +:+ t) = (String.length s + String.length t)%nat.
Proof. induction s as [|c s IH]; [done|]. rewrite string_app_cons. simpl. by rewrite IH. Qed.

Lemma str_drop_length n s : (String.length (str_drop n s) <= String.length s)%nat.
Proof. revert s. induction n as [|n IH]; intros [|c s]; simpl; try lia. specialize (IH s). lia. Qed.

Lemma str_take_drop n s : str_take n s +:+ str_drop n s = s.
Proof.
  revert s. induction n as [|n IH]; intros [|c s]; try done. cbn [str_take str_drop].
  by rewrite string_app_cons, IH.
Qed.

Lemma str_take_app n (s t : string) : (n <= String.length s)%nat → str_take n (s +:+ t) = str_take n s.
Proof.
  revert s. induction n as [|n IH]; intros [|c s] H; try done; [simpl in H; lia|].
  rewrite string_app_cons. cbn [str_take]. simpl in H. by rewrite IH by lia.
Qed.
Lemma str_drop_app n (s t : string) : (n <= String.length s)%nat → str_drop n (s +:+ t) = str_drop n s +:+ t.
Proof.
  revert s. induction n as [|n IH]; intros [|c s] H; try done; [simpl in H; lia|].
  rewrite string_app_cons. cbn [str_drop]. simpl in H. by rewrite IH by lia.
Qed.

Lemma str_take_length n s : (n <= String.length s)%nat → String.length (str_take n s) = n.
Proof.
  revert s. induction n as [|n IH]; intros [|c s] H; try done; [simpl in H; lia|].
  cbn [str_take String.length] in *. by rewrite IH by lia.
Qed.
Lemma str_take_all s : str_take (String.length s) s = s.
Proof. induction s as [|c s IH]; [done|]. cbn [String.length str_take]. by rewrite IH. Qed.
Lemma str_drop_all s : str_drop (String.length s) s = "".
Proof. induction s as [|c s IH]; [done|]. exact IH. Qed.

Lemma rune_size_length s : (rune_size s <= String.length s)%nat.
Proof.
  destruct s as [|c [|c1 [|c2 [|c3 s]]]]; unfold rune_size; cbv zeta;
    repeat case_match; simpl; lia.
Qed.

Lemma rune_size_app s t n : rune_size s = S n → rune_size (s +:+ t) = S n.
Proof.
  destruct s as [|c [|c1 [|c2 [|c3 s]]]]; rewrite ?string_app_cons; unfold rune_size; cbv zeta;
    [done|..]; repeat case_match; done.
Qed.

Lemma rune_size_take s n : rune_size s = S n → rune_size (str_take (S n) s) = S n.
Proof.
  destruct s as [|c [|c1 [|c2 [|c3 s]]]]; unfold rune_size; cbv zeta; [done|..];
    repeat case_match; try done; intros [= <-]; cbn [str_take] in *; repeat case_match; congruence.
Qed.

(** A rune of one byte is that of an ASCII character, a longer one has a first byte above. *)
Lemma rune_size_ascii c s : byte_val c < 128 → rune_size (String c s) = 1%nat.
Proof. intros H. unfold rune_size. cbv zeta. by rewrite (proj2 (Z.ltb_lt _ _)). Qed.
Lemma rune_size_long c s n : rune_size (String c s) = S (S n) → 128 <= byte_val c.
Proof. unfold rune_size. cbv zeta. destruct (Z.ltb_spec (byte_val c) 128); [done|]. lia. Qed.
Lemma rune_size_one c s : rune_size (String c s) = 1%nat → byte_val c < 128.
Proof.
  unfold rune_size. cbv zeta. destruct (Z.ltb_spec (byte_val c) 128); [done|]. repeat case_match; done.
Qed.
Lemma rune_size_zero c s : rune_size (String c s) = 0%nat → 128 <= byte_val c.
Proof. unfold rune_size. cbv zeta. destruct (Z.ltb_spec (byte_val c) 128); [done|]. lia. Qed.

Lemma runes_loop_fuel n s : (String.length s <= n)%nat → runes_loop n s = runes s.
Proof.
  unfold runes. intros H. remember (String.length s) as m eqn:Em.
  assert (String.length s <= m)%nat as Hm by lia. clear Em.
  revert m s H Hm. induction n as [|n IH]; intros m [|c s] H Hm; simpl in *;
    try (destruct m; simpl; done || lia); try lia.
  destruct m as [|m]; [lia|]. cbn [runes_loop]. destruct (rune_size (String c s)) as [|k] eqn:E.
  - f_equal. apply IH; lia.
  - f_equal. simpl str_drop. pose proof (str_drop_length k s). apply IH; lia.
Qed.

(** The runes of a string by its first one. *)
Lemma runes_invalid c s : rune_size (String c s) = 0%nat → runes (String c s) = None :: runes s.
Proof. intros E. unfold runes at 1. cbn [String.length runes_loop]. by rewrite E. Qed.
Lemma runes_valid s n :
  rune_size s = S n → runes s = Some (str_take (S n) s) :: runes (str_drop (S n) s).
Proof.
  destruct s as [|c s]; [done|]. intros E. unfold runes at 1. cbn [String.length runes_loop]. rewrite E.
  f_equal. simpl str_drop. apply runes_loop_fuel, str_drop_length.
Qed.

(** Induction on a string rune by rune. *)
Lemma runes_ind (P : string → Prop) :
  P "" →
  (∀ c s, rune_size (String c s) = 0%nat → P s → P (String c s)) →
  (∀ s n, rune_size s = S n → P (str_drop (S n) s) → P s) →
  ∀ s, P s.
Proof.
  intros H0 H1 H2 s. remember (String.length s) as l eqn:El. revert s El.
  induction (lt_wf l) as [l _ IH]; intros [|c s] ->; [done|].
  destruct (rune_size (String c s)) as [|n] eqn:E.
  - apply H1; [done|]. eapply IH; [|reflexivity]. simpl. lia.
  - apply (H2 _ n E). eapply IH; [|reflexivity]. pose proof (str_drop_length n s). simpl. lia.
Qed.

(** Valid UTF-8 needs no repair. *)
Lemma coerceUTF8_valid s : ValidString s = true → coerceUTF8 s = s.
Proof.
  unfold ValidString, coerceUTF8. induction s as [|c s E IH|s n E IH] using runes_ind; [done|..].
  - by rewrite runes_invalid.
  - rewrite (runes_valid s n) by done. cbn [forallb fmap list_fmap concat_strings foldr default].
    intros H. apply andb_true_iff in H as [_ H]. fold (concat_strings (default replacement <$> runes (str_drop (S n) s))).
    rewrite IH by done. apply str_take_drop.
Qed.

Lemma runes_app r t : (∃ n, rune_size r = S n ∧ String.length r = S n) → runes (r +:+ t) = Some r :: runes t.
Proof.
  intros (n & E & Hl). rewrite (runes_valid (r +:+ t) n) by (by apply rune_size_app).
  rewrite str_take_app, str_drop_app by lia. rewrite <-Hl at 1 2. by rewrite str_take_all, str_drop_all.
Qed.

(** A repaired string is valid, so that repairing it again does nothing. *)
Lemma coerceUTF8_is_valid s : ValidString (coerceUTF8 s) = true.
Proof.
  unfold ValidString, coerceUTF8. induction s as [|c s E IH|s n E IH] using runes_ind; [done|..].
  - rewrite runes_invalid by done. cbn [fmap list_fmap default concat_strings foldr].
    rewrite runes_app by (exists 2%nat; by vm_compute). exact IH.
  - rewrite (runes_valid s n) by done. cbn [fmap list_fmap default concat_strings foldr].
    rewrite runes_app; [exact IH|]. exists n. split; [by apply rune_size_take|].
    apply str_take_length. rewrite <-E. apply rune_size_length.
Qed.
Lemma coerceUTF8_idemp s : coerceUTF8 (coerceUTF8 s) = coerceUTF8 s.
Proof. apply coerceUTF8_valid, coerceUTF8_is_valid. Qed.

(** ** Strings *)

Lemma concat_strings_cons x l : concat_strings (x :: l) = x +:+ concat_strings l.
Proof. done. Qed.

Lemma string_char_shorter s t r :
  string_char s = Parsed t r → (String.length r < String.length s)%nat.
Proof.
  assert (∀ n acc s v r, hex_digits n acc s = Parsed v r → (String.length r <= String.length s)%nat) as Hh.
  { clear. induction n as [|n IH]; intros acc s v r; simpl; [by intros [= <- <-]|].
    destruct s as [|c s]; [done|]. destruct (hex_val c); [|done]. intros H%IH. simpl. lia. }
  assert (∀ r1 s, (String.length (surrogate_pair r1 s).2 <= String.length s)%nat) as Hp.
  { clear -Hh. intros r1 [|c1 [|c2 s]]; unfold surrogate_pair; try (simpl; lia).
    destruct (_ && _); [|simpl; lia]. destruct (hex_digits 4 0 s) as [v r| |] eqn:E; try (simpl; lia).
    apply Hh in E. destruct (_ && _); simpl; lia. }
  destruct s as [|c s]; [done|]. unfold string_char. destruct (_ <? _); [done|].
  case_bool_decide as Hb.
  - unfold unescape. destruct s as [|e s]; [done|]. cbv zeta.
    repeat (destruct (_ || _); [intros [= <- <-]; simpl; lia|]).
    repeat (destruct (byte_val e =? _); [try (intros [= <- <-]; simpl; lia)|]); try done.
    destruct (hex_digits 4 0 s) as [v r'| |] eqn:E; cbn [pbind]; try done. apply Hh in E.
    destruct (is_surrogate v).
    + specialize (Hp v r'). destruct (surrogate_pair v r') as [t' r2]. intros [= <- <-]. simpl in *. lia.
    + intros [= <- <-]. simpl. lia.
  - destruct (rune_size (String c s)) as [|n] eqn:E; intros [= <- <-]; simpl; [lia|].
    pose proof (str_drop_length n s). lia.
Qed.

Lemma string_loop_fuel n s : (String.length s <= n)%nat → string_loop n s = string_literal s.
Proof.
  unfold string_literal. intros H. remember (String.length s) as m eqn:Em.
  assert (String.length s <= m)%nat as Hm by lia. clear Em.
  revert m s H Hm. induction n as [|n IH]; intros m [|c s] H Hm; simpl in Hm;
    try (destruct m; done || lia); try lia.
  destruct m as [|m]; [lia|]. cbn [string_loop]. case_bool_decide; [done|].
  destruct (string_char (String c s)) as [t r| |] eqn:E; cbn [pbind]; [|done..].
  apply string_char_shorter in E. simpl in E. by rewrite (IH m r) by lia.
Qed.

(** A string literal by its first character. *)
Lemma string_literal_cons c s :
  string_literal (String c s) =
    if bool_decide (c = dq) then Parsed "" s
    else pbind (string_char (String c s)) (λ t r, pbind (string_literal r) (λ u r, Parsed (t +:+ u) r)).
Proof.
  unfold string_literal at 1. cbn [String.length string_loop]. case_bool_decide; [done|].
  destruct (string_char (String c s)) as [t r| |] eqn:E; cbn [pbind]; [|done..].
  apply string_char_shorter in E. simpl in E. by rewrite string_loop_fuel by lia.
Qed.

(** What an escape is read back as. *)
Lemma escape_byte_read c t :
  byte_val c < 128 →
  ∃ c' s', escape_byte c +:+ t = String c' s' ∧ c' ≠ dq ∧ string_char (String c' s') = Parsed (String c "") t.
Proof.
  destruct c as [[] [] [] [] [] [] [] []]; intros H; try (by vm_compute in H);
    eexists _, _; (split; [reflexivity|]); (split; [by vm_compute|reflexivity]).
Qed.

Lemma escape_rune_read s n t :
  rune_size s = S n →
  ∃ c' s', escape_rune (Some (str_take (S n) s)) +:+ t = String c' s' ∧ c' ≠ dq ∧
    string_char (String c' s') = Parsed (str_take (S n) s) t.
Proof.
  intros E. destruct s as [|c s]; [done|]. destruct n as [|n].
  { simpl str_take. apply escape_byte_read. by eapply rune_size_one. }
  pose proof (rune_size_long _ _ _ E) as Hc. pose proof (rune_size_length (String c s)) as Hl. rewrite E in Hl.
  cbn [str_take] in *. destruct s as [|c1 s]; [simpl in Hl; lia|]. cbn [str_take escape_rune].
  case_bool_decide as E1.
  { injection E1 as -> -> ->. eexists _, _. split; [reflexivity|]. by vm_compute. }
  case_bool_decide as E2.
  { injection E2 as -> -> ->. eexists _, _. split; [reflexivity|]. by vm_compute. }
  eexists _, _. split; [rewrite string_app_cons; reflexivity|].
  assert (c ≠ dq ∧ c ≠ bslash) as [Hq Hb] by (split; intros ->; by vm_compute in Hc).
  split; [done|]. unfold string_char. rewrite (proj2 (Z.ltb_ge _ _)) by lia.
  rewrite bool_decide_eq_false_2 by done. rewrite <-!string_app_cons.
  change (String c (String c1 (str_take n s))) with (str_take (S (S n)) (String c (String c1 s))) in *.
  pose proof (rune_size_take _ _ E) as Er. apply str_take_length in Hl.
  rewrite (rune_size_app _ t _ Er). rewrite str_take_app, str_drop_app by lia.
  rewrite <-Hl at 1 3. by rewrite str_take_all, str_drop_all.
Qed.

(** A string that was written is read back, repaired. *)
Lemma string_roundtrip s rest :
  string_literal (concat_strings (escape_rune <$> runes s) +:+ String dq rest) = Parsed (coerceUTF8 s) rest.
Proof.
  unfold coerceUTF8. induction s as [|c s E IH|s n E IH] using runes_ind.
  - cbn [runes runes_loop String.length fmap list_fmap concat_strings foldr].
    rewrite string_app_nil_l, string_literal_cons. by rewrite bool_decide_eq_true_2.
  - rewrite runes_invalid by done. cbn [fmap list_fmap]. rewrite !concat_strings_cons.
    rewrite <-string_app_assoc. cbn [escape_rune default]. rewrite string_app_cons, string_literal_cons.
    rewrite bool_decide_eq_false_2 by done.
    match goal with |- context [string_char (String bslash (?u +:+ ?v))] =>
      assert (string_char (String bslash (u +:+ v)) = Parsed replacement v) as -> by reflexivity end.
    cbn [pbind]. by rewrite IH.
  - rewrite (runes_valid s n) by done. cbn [fmap list_fmap]. rewrite !concat_strings_cons.
    rewrite <-string_app_assoc. cbn [default].
    destruct (escape_rune_read s n (concat_strings (escape_rune <$> runes (str_drop (S n) s)) +:+ String dq rest) E)
      as (c' & s' & -> & Hq & Hc).
    rewrite string_literal_cons, bool_decide_eq_false_2 by done. rewrite Hc. cbn [pbind]. by rewrite IH.
Qed.

(** ** Numbers *)

(** What may follow a number in an object. *)
Definition ends_number (s : string) : Prop :=
  match s with
  | "" => True
  | String c _ => c = ","%char ∨ c = "}"%char
  end.

Lemma span_digits_app d t : all_digits d → ends_number t → span_digits (d +:+ t) = (d, t).
Proof.
  intros Hd Ht. induction d as [|c d IH].
  - rewrite string_app_nil_l. destruct t as [|c t]; [done|]. by destruct Ht as [-> | ->].
  - rewrite string_app_cons. cbn [span_digits all_digits] in *. apply andb_True in Hd as [Hc Hd].
    apply bool_decide_unpack in Hc as [v ->]. by rewrite IH.
Qed.

Lemma some_digits_app c d t :
  all_digits (String c d) → ends_number t → some_digits (String c d +:+ t) = Parsed (String c d) t.
Proof. intros Hd Ht. unfold some_digits. by rewrite span_digits_app. Qed.

(** No leading zero. *)
Lemma pretty_N_go_first (x : N) s :
  (0 < x)%N → ∃ c s', pretty_N_go x s = String c s' ∧ c ≠ "0"%char.
Proof.
  revert s. induction (N.lt_wf_0 x) as [x _ IH]; intros s Hx. rewrite pretty_N_go_step by done.
  destruct (decide (x `div` 10 = 0)%N) as [E|E].
  - rewrite E, pretty_N_go_0. eexists _, _. split; [done|]. apply N.div_small_iff in E; [|done].
    rewrite N.mod_small by done. intros H. pose proof (pretty_N_char_digit x E) as Hd. rewrite H in Hd.
    change (digit_val "0") with (Some 0) in Hd. injection Hd as Hd. lia.
  - apply IH; [apply N.div_lt; lia|by apply N.neq_0_lt_0].
Qed.

Lemma number_int_pretty (x : N) t : ends_number t → number_int (pretty x +:+ t) = Parsed (pretty x) t.
Proof.
  intros Ht. pose proof (pretty_N_digits x) as Hd. destruct (decide (x = 0%N)) as [->|Hx]; [done|].
  destruct (pretty_N_go_first x "") as (c & s & E & Hc); [lia|].
  assert (pretty x = String c s) as Ep.
  { unfold pretty, pretty_N. by rewrite decide_False. }
  rewrite Ep in *. rewrite <-(some_digits_app c s t) by done. rewrite string_app_cons. unfold number_int.
  by destruct c as [[] [] [] [] [] [] [] []].
Qed.

Lemma number_tail t : ends_number t → number_frac t = Parsed "" t ∧ number_exp t = Parsed "" t.
Proof. destruct t as [|c t]; [done|]. by intros [-> | ->]. Qed.

Lemma number_roundtrip n t : ends_number t → number_literal (FormatInt10 n +:+ t) = Parsed (FormatInt10 n) t.
Proof.
  intros Ht. destruct (number_tail t Ht) as [Hf He]. unfold FormatInt10, number_literal.
  destruct (pretty_Z_cases n) as [[_ ->]|[_ ->]].
  - destruct (pretty_N_nonempty (Z.to_N n)) as (c & s & E & Hc).
    assert (number_sign (pretty (Z.to_N n) +:+ t) = ("", pretty (Z.to_N n) +:+ t)) as ->.
    { rewrite E, string_app_cons. apply digit_val_not_sign in Hc as [Hc _].
      by destruct c as [[] [] [] [] [] [] [] []]. }
    rewrite number_int_pretty by done. cbn [pbind]. rewrite Hf. cbn [pbind]. rewrite He. cbn [pbind].
    by rewrite string_app_nil_l, !string_app_nil_r.
  - rewrite <-string_app_assoc. rewrite (string_app_cons _ ""), string_app_nil_l. cbn [number_sign].
    rewrite number_int_pretty by done. cbn [pbind]. rewrite Hf. cbn [pbind]. rewrite He. cbn [pbind].
    by rewrite !string_app_nil_r.
Qed.

(** ** The fuel of the parser is enough *)

Lemma skip_space_length s : (String.length (skip_space s) <= String.length s)%nat.
Proof. induction s as [|c s IH]; simpl; [done|]. destruct (isSpace c); simpl; lia. Qed.

Lemma string_literal_shorter s t r : string_literal s = Parsed t r → (String.length r < String.length s)%nat.
Proof.
  revert t r. remember (String.length s) as l eqn:El. revert s El.
  induction (lt_wf l) as [l _ IH]; intros [|c s] -> t r; [done|]. rewrite string_literal_cons.
  case_bool_decide; [intros [= <- <-]; simpl; lia|].
  destruct (string_char (String c s)) as [t1 r1| |] eqn:E; cbn [pbind]; [|done..].
  apply string_char_shorter in E.
  destruct (string_literal r1) as [u r2| |] eqn:E2; cbn [pbind]; [|done..]. intros [= <- <-].
  specialize (IH _ E r1 eq_refl u r2 E2). lia.
Qed.

Lemma expect_all_length w s u r : expect_all w s = Parsed u r → (String.length r <= String.length s)%nat.
Proof.
  revert s. induction w as [|c w IH]; intros s; simpl; [by intros [= _ <-]|].
  destruct s as [|c' s]; simpl; [done|]. case_bool_decide; simpl; [|done]. intros Hw%IH. lia.
Qed.

Lemma span_digits_eq s : (span_digits s).1 +:+ (span_digits s).2 = s.
Proof.
  induction s as [|c s IH]; [done|]. cbn [span_digits]. destruct (digit_val c); [|done].
  destruct (span_digits s) as [d r]. cbn [fst snd] in *. by rewrite string_app_cons, IH.
Qed.
Lemma some_digits_shorter s d r : some_digits s = Parsed d r → (String.length r < String.length s)%nat.
Proof.
  unfold some_digits. pose proof (span_digits_eq s) as E. destruct (span_digits s) as [[|c d'] r'].
  - by destruct r'.
  - intros [= <- <-]. cbn [fst snd] in E. rewrite <-E, length_app_string. simpl. lia.
Qed.

Lemma number_literal_shorter s d r : number_literal s = Parsed d r → (String.length r < String.length s)%nat.
Proof.
  unfold number_literal.
  assert (String.length (number_sign s).2 <= String.length s)%nat as Hs.
  { destruct s as [|[[] [] [] [] [] [] [] []] s]; simpl; lia. }
  destruct (number_sign s) as [sg s1]. cbn [snd] in Hs.
  assert (∀ i s2, number_int s1 = Parsed i s2 → (String.length s2 < String.length s1)%nat) as Hi.
  { unfold number_int. intros i s2. destruct s1 as [|[[] [] [] [] [] [] [] []] s1'];
      try exact (some_digits_shorter _ _ _). intros [= _ <-]. simpl. lia. }
  assert (∀ s2 i s3, number_frac s2 = Parsed i s3 → (String.length s3 <= String.length s2)%nat) as Hf.
  { clear. intros s2 i s3. unfold number_frac. destruct s2 as [|[[] [] [] [] [] [] [] []] s2]; try (intros [= _ <-]; lia).
    destruct (some_digits s2) as [d s'| |] eqn:E; cbn [pbind]; [|done..]. intros [= _ <-].
    apply some_digits_shorter in E. simpl. lia. }
  assert (∀ s2 i s3, number_exp s2 = Parsed i s3 → (String.length s3 <= String.length s2)%nat) as He.
  { clear. intros s2 i s3. unfold number_exp. destruct s2 as [|c s2]; [intros [= _ <-]; lia|].
    destruct (_ || _); [|intros [= _ <-]; lia].
    assert (∃ sg s', match s2 with String "+" s => ("+", s) | String "-" s => ("-", s) | _ => ("", s2) end = (sg, s')
      ∧ (String.length s' <= String.length s2)%nat) as (sg & s' & -> & Hl).
    { destruct s2 as [|[[] [] [] [] [] [] [] []] s2]; eexists _, _; (split; [reflexivity|simpl; lia]). }
    destruct (some_digits s') as [d s4| |] eqn:E; cbn [pbind]; [|done..]. intros [= _ <-].
    apply some_digits_shorter in E. simpl. lia. }
  destruct (number_int s1) as [i s2| |] eqn:E1; cbn [pbind]; [|done..]. specialize (Hi _ _ eq_refl).
  destruct (number_frac s2) as [f s3| |] eqn:E2; cbn [pbind]; [|done..]. apply Hf in E2.
  destruct (number_exp s3) as [e s4| |] eqn:E3; cbn [pbind]; [|done..]. apply He in E3.
  intros [= _ <-]. lia.
Qed.

(** What the parsers consume. *)
Lemma parse_shorter n :
  (∀ d s v r, parse_value n d s = Parsed v r → (String.length r < String.length s)%nat) ∧
  (∀ d s v r, parse_elements n d s = Parsed v r → (String.length r < String.length s)%nat) ∧
  (∀ d s v r, parse_members n d s = Parsed v r → (String.length r < String.length s)%nat).
Proof.
  induction n as [|n (IHv & IHe & IHm)]; [done|]. split_and!; intros d s v r.
  - cbn [parse_value]. pose proof (skip_space_length s) as Hs. destruct (skip_space s) as [|c s']; [done|].
    simpl in Hs. pose proof (skip_space_length s') as Hs'.
    repeat case_bool_decide; try (destruct (_ <=? _); [done|]).
    1,2: destruct (skip_space s') as [|c2 s2]; [done|]; simpl in Hs'; case_bool_decide;
      [intros [= _ <-]; lia|].
    1: destruct (parse_members n (d + 1) s') as [ms r'| |] eqn:E; cbn [pbind]; [|done..]; apply IHm in E.
    2: destruct (parse_elements n (d + 1) s') as [ms r'| |] eqn:E; cbn [pbind]; [|done..]; apply IHe in E.
    3: destruct (string_literal s') as [ms r'| |] eqn:E; cbn [pbind]; [|done..]; apply string_literal_shorter in E.
    4-6: destruct (expect_all _ s') as [[] r'| |] eqn:E; cbn [pbind]; [|done..]; apply expect_all_length in E.
    7: destruct (number_literal (String c s')) as [ms r'| |] eqn:E; cbn [pbind]; [|done..];
       apply number_literal_shorter in E; simpl in E.
    all: intros [= _ <-]; lia.
  - cbn [parse_elements]. destruct (parse_value n d s) as [v1 r1| |] eqn:E; cbn [pbind]; [|done..].
    apply IHv in E. pose proof (skip_space_length r1) as Hs. destruct (skip_space r1) as [|c r2]; [done|].
    simpl in Hs. case_bool_decide; [intros [= _ <-]; lia|]. case_bool_decide; [|done].
    destruct (parse_elements n d r2) as [vs r3| |] eqn:E2; cbn [pbind]; [|done..]. apply IHe in E2.
    intros [= _ <-]. lia.
  - cbn [parse_members]. pose proof (skip_space_length s) as Hs. destruct (skip_space s) as [|c s1]; cbn [expect]; [done|].
    simpl in Hs. case_bool_decide; cbn [pbind]; [|done].
    destruct (string_literal s1) as [k s2| |] eqn:E1; cbn [pbind]; [|done..]. apply string_literal_shorter in E1.
    pose proof (skip_space_length s2) as Hs2. destruct (skip_space s2) as [|c3 s3]; cbn [expect]; [done|].
    simpl in Hs2. case_bool_decide; cbn [pbind]; [|done].
    destruct (parse_value n d s3) as [v1 r1| |] eqn:E; cbn [pbind]; [|done..].
    apply IHv in E. pose proof (skip_space_length r1) as Hs1. destruct (skip_space r1) as [|c4 r2]; [done|].
    simpl in Hs1. case_bool_decide; [intros [= _ <-]; lia|]. case_bool_decide; [|done].
    destruct (parse_members n d r2) as [vs r3| |] eqn:E2; cbn [pbind]; [|done..]. apply IHm in E2.
    intros [= _ <-]. lia.
Qed.

Lemma parse_value_shorter n d s v r : parse_value n d s = Parsed v r → (String.length r < String.length s)%nat.
Proof. apply parse_shorter. Qed.

(** With twice the length of the input, more fuel makes no difference. *)
Lemma parse_fuel n m :
  (∀ d s, (2 * String.length s < n)%nat → (2 * String.length s < m)%nat → parse_value n d s = parse_value m d s) ∧
  (∀ d s, (2 * String.length s + 1 < n)%nat → (2 * String.length s + 1 < m)%nat →
     parse_elements n d s = parse_elements m d s) ∧
  (∀ d s, (2 * String.length s < n)%nat → (2 * String.length s < m)%nat → parse_members n d s = parse_members m d s).
Proof.
  revert m. induction n as [|n IH]; intros m; [split_and!; intros; lia|].
  destruct m as [|m]; [split_and!; intros; lia|]. destruct (IH m) as (IHv & IHe & IHm).
  split_and!; intros d s Hn Hm.
  - cbn [parse_value]. pose proof (skip_space_length s) as Hs. destruct (skip_space s) as [|c s']; [done|].
    simpl in Hs. by rewrite IHm, IHe by lia.
  - cbn [parse_elements]. rewrite IHv by lia.
    destruct (parse_value m d s) as [v1 r1| |] eqn:E; cbn [pbind]; [|done..]. apply parse_value_shorter in E.
    pose proof (skip_space_length r1) as Hs. destruct (skip_space r1) as [|c r2]; [done|]. simpl in Hs.
    by rewrite IHe by lia.
  - cbn [parse_members]. pose proof (skip_space_length s) as Hs.
    destruct (skip_space s) as [|c s1]; cbn [expect]; [done|]. simpl in Hs.
    case_bool_decide; cbn [pbind]; [|done].
    destruct (string_literal s1) as [k s2| |] eqn:E1; cbn [pbind]; [|done..]. apply string_literal_shorter in E1.
    pose proof (skip_space_length s2) as Hs2. destruct (skip_space s2) as [|c3 s3]; cbn [expect]; [done|].
    simpl in Hs2. case_bool_decide; cbn [pbind]; [|done]. rewrite IHv by lia.
    destruct (parse_value m d s3) as [v1 r1| |] eqn:E; cbn [pbind]; [|done..]. apply parse_value_shorter in E.
    pose proof (skip_space_length r1) as Hs3. destruct (skip_space r1) as [|c4 r2]; [done|]. simpl in Hs3.
    by rewrite IHm by lia.
Qed.

Lemma parse_enough n s : (2 * String.length s < n)%nat → parse_value n 0 s = parse s.
Proof. intros H. apply parse_fuel; lia. Qed.

(** ** Objects *)

(** The tree that a field's text is parsed to. *)
Definition field_tree (v : fieldValue) : json :=
  match v with
  | FString s => JString (coerceUTF8 s)
  | FInt32 n => JNumber (FormatInt10 n)
  end.
Definition member (f : string * fieldValue) : string * json := (coerceUTF8 f.1, field_tree f.2).

Lemma json_string_app s t :
  json_string s +:+ t = String dq (concat_strings (escape_rune <$> runes s) +:+ String dq t).
Proof. unfold json_string. by rewrite string_app_cons, <-string_app_assoc. Qed.

(** A number begins with a sign or a digit. *)
Lemma FormatInt10_first n :
  ∃ c s, FormatInt10 n = String c s ∧ (c = "-"%char ∨ is_Some (digit_val c)).
Proof.
  unfold FormatInt10. destruct (pretty_Z_cases n) as [[_ ->]|[_ ->]].
  - destruct (pretty_N_nonempty (Z.to_N n)) as (c & s & -> & Hc). eauto.
  - eexists _, _. split; [reflexivity|]. by left.
Qed.

Lemma value_roundtrip n d v t :
  ends_number t → parse_value (S n) d (json_value v +:+ t) = Parsed (field_tree v) t.
Proof.
  intros Ht. destruct v as [s|z]; cbn [json_value field_tree].
  - rewrite json_string_app. cbn [parse_value skip_space isSpace].
    change (isSpace dq) with false. cbv iota. repeat (rewrite bool_decide_eq_false_2 by done).
    rewrite bool_decide_eq_true_2 by done. by rewrite string_roundtrip.
  - pose proof (number_roundtrip z t Ht) as Hz. destruct (FormatInt10_first z) as (c & s & E & Hc).
    rewrite E in *. rewrite string_app_cons in *. cbn [parse_value skip_space].
    assert (isSpace c = false ∧ c ≠ "{"%char ∧ c ≠ "["%char ∧ c ≠ dq ∧ c ≠ "t"%char ∧ c ≠ "f"%char ∧ c ≠ "n"%char)
      as (-> & ? & ? & ? & ? & ? & ?).
    { destruct Hc as [-> | [v Hv]]; [by vm_compute|].
      destruct c as [[] [] [] [] [] [] [] []]; vm_compute in Hv; try discriminate Hv; by vm_compute. }
    repeat (rewrite bool_decide_eq_false_2 by done). by rewrite Hz.
Qed.

Lemma members_roundtrip fs n d t :
  fs ≠ [] → (length fs < n)%nat →
  parse_members n d (json_fields fs +:+ String "}" t) = Parsed (member <$> fs) t.
Proof.
  revert n. induction fs as [|[k v] fs IH]; intros n Hne Hn; [done|]. destruct n as [|n]; [simpl in Hn; lia|].
  assert (∀ u, ends_number u → parse_members (S n) d (json_field (k, v) +:+ u) =
    match skip_space u with
    | "" => Incomplete
    | String c s =>
        if bool_decide (c = "}"%char) then Parsed [member (k, v)] s
        else if bool_decide (c = ","%char) then
          pbind (parse_members n d s) (λ ms s, Parsed (member (k, v) :: ms) s)
        else Invalid
    end) as Hf.
  { intros u Hu. unfold json_field. cbn [fst snd]. rewrite <-!string_app_assoc, json_string_app.
    cbn [parse_members skip_space]. change (isSpace dq) with false. cbn [expect].
    rewrite bool_decide_eq_true_2 by done. cbn [pbind]. rewrite string_roundtrip. cbn [pbind].
    rewrite (string_app_cons ":"), string_app_nil_l. cbn [skip_space]. change (isSpace ":") with false.
    cbn [expect]. rewrite bool_decide_eq_true_2 by done. cbn [pbind].
    destruct n as [|n]; [simpl in Hn; lia|]. by rewrite value_roundtrip. }
  destruct fs as [|f fs].
  - cbn [json_fields fmap list_fmap]. rewrite Hf by (by right). cbn [skip_space].
    done.
  - change (json_fields ((k, v) :: f :: fs)) with (json_field (k, v) +:+ ("," +:+ json_fields (f :: fs))).
    rewrite <-!string_app_assoc. rewrite (string_app_cons ","), string_app_nil_l. rewrite Hf by (by left).
    cbn [skip_space]. change (isSpace ",") with false. cbv iota. rewrite bool_decide_eq_false_2 by done.
    rewrite bool_decide_eq_true_2 by done. rewrite IH by (done || simpl in *; lia). done.
Qed.

Lemma object_roundtrip fs rest :
  fs ≠ [] → parse (json_object fs +:+ rest) = Parsed (JObject (member <$> fs)) rest.
Proof.
  intros Hne. unfold json_object. rewrite <-!string_app_assoc. rewrite (string_app_cons "{"), string_app_nil_l.
  rewrite (string_app_cons "}"), string_app_nil_l. set (s := json_fields fs +:+ String "}" rest).
  rewrite <-(parse_enough (S (S (length fs + 2 * String.length (String "{" s))))) by lia.
  cbn [parse_value skip_space]. change (isSpace "{") with false. cbv iota.
  rewrite bool_decide_eq_true_2 by done. change (maxNestingDepth <=? 0) with false. cbv iota.
  assert (∃ s', skip_space s = String dq s') as (s' & ->).
  { unfold s. destruct fs as [|[k v] fs]; [done|].
    assert (∃ u, json_fields ((k, v) :: fs) = json_string k +:+ u) as (u & ->).
    { destruct fs; eexists; [reflexivity|]. cbn [json_fields]. unfold json_field. cbn [fst].
      by rewrite <-!string_app_assoc. }
    rewrite <-string_app_assoc, json_string_app. by eexists. }
  rewrite bool_decide_eq_false_2 by done. unfold s. by rewrite members_roundtrip by (done || lia).
Qed.

(** ** Structs *)

(** An integer that is read back from its text is the one that was written, at any size. *)
Lemma ParseUint_loop_large (x : N) (s : string) :
  maxUint64 < Z.of_N x → ∃ e, ParseUint_loop maxUint64 0 (pretty_N_go x s) = inr e.
Proof.
  unfold maxUint64. revert s. induction (N.lt_wf_0 x) as [x _ IH]; intros s Hx.
  rewrite pretty_N_go_step by lia.
  assert (Z.of_N x = Z.of_N (x `div` 10) * 10 + Z.of_N (x `mod` 10)) as Hdm.
  { pose proof (N.div_mod x 10). lia. }
  assert (x `mod` 10 < 10)%N as Hmod by (apply N.mod_lt; lia).
  assert (x `div` 10 < x)%N as Hlt by (apply N.div_lt; lia).
  generalize dependent (x `mod` 10)%N. generalize dependent (x `div` 10)%N. intros q Hq r Hdm Hr.
  destruct (decide (2 ^ 64 - 1 < Z.of_N q)) as [Hb|Hb]; [by apply IH|].
  rewrite (ParseUint_loop_pretty (2 ^ 64 - 1)) by (unfold maxUint64; lia).
  cbn [ParseUint_loop]. rewrite pretty_N_char_digit by done. unfold maxUint64, wrapu64.
  change ((2 ^ 64 - 1) / 10 + 1) with 1844674407370955162.
  destruct (Z.leb_spec 1844674407370955162 (Z.of_N q)); [by eexists|]. exists ErrRange.
  assert ((Z.of_N q * 10 + Z.of_N r) mod 2 ^ 64 = Z.of_N q * 10 + Z.of_N r - 2 ^ 64) as E.
  { symmetry. apply (Z.mod_unique _ _ 1); lia. }
  rewrite E. by rewrite (proj2 (Z.ltb_lt _ _)) by lia.
Qed.

Lemma ParseInt64_FormatInt n m : ParseInt10 64 (FormatInt10 n) = inl m → m = n.
Proof.
  intros H. destruct (decide (int64_range n)) as [Hn|Hn].
  { rewrite ParseInt_FormatInt in H by (unfold int64_range in Hn; lia). congruence. }
  unfold int64_range in Hn. exfalso.
  assert (∀ x : N, ParseUint10 64 (pretty x) = inl (Z.of_N x) ∨ ∃ e, ParseUint10 64 (pretty x) = inr e) as Hu.
  { intros x. destruct (pretty_N_nonempty x) as (c & s & E & _). unfold ParseUint10. rewrite E, <-E.
    destruct (decide (Z.of_N x <= maxUint64)) as [Hx|Hx].
    - left. by apply (pretty_N_ParseUint (2 ^ 64 - 1)).
    - right. unfold pretty, pretty_N. rewrite decide_False by (unfold maxUint64 in Hx; lia).
      apply ParseUint_loop_large. lia. }
  unfold FormatInt10 in H. destruct (pretty_Z_cases n) as [[Hs E]|[Hs E]]; rewrite E in H; clear E.
  - destruct (pretty_N_nonempty (Z.to_N n)) as (c & s & E & Hc). specialize (Hu (Z.to_N n)). rewrite E in *.
    apply digit_val_not_sign in Hc as [Hm Hp]. unfold ParseInt10 in H.
    rewrite (bool_decide_eq_false_2 (c = "-"%char)), (bool_decide_eq_false_2 (c = "+"%char)) in H by done.
    cbn [orb negb andb] in H. destruct Hu as [Hu|[e Hu]]; rewrite Hu in H; [|done].
    rewrite (proj2 (Z.leb_le _ _)) in H by lia. done.
  - specialize (Hu (Z.to_N (- n))). rewrite (string_app_cons "-"), string_app_nil_l in H. unfold ParseInt10 in H.
    rewrite (bool_decide_eq_true_2 ("-"%char = "-"%char)) in H by done. cbn [orb negb andb] in H.
    destruct Hu as [Hu|[e Hu]]; rewrite Hu in H; [|done]. rewrite (proj2 (Z.ltb_lt _ _)) in H by lia. done.
Qed.

Definition in_range (v : fieldValue) : bool :=
  match v with
  | FString _ => true
  | FInt32 n => bool_decide (- 2 ^ 31 <= n) && bool_decide (n < 2 ^ 31)
  end.
Definition coerce_value (v : fieldValue) : fieldValue :=
  match v with
  | FString s => FString (coerceUTF8 s)
  | FInt32 n => FInt32 n
  end.
Definition same_kind (v w : fieldValue) : Prop :=
  match v, w with
  | FString _, FString _ | FInt32 _, FInt32 _ => True
  | _, _ => False
  end.

Lemma store_field v z :
  same_kind v z → store (field_tree v) z = if in_range v then Some (coerce_value v) else None.
Proof.
  destruct v as [s|n], z as [s'|n']; try done. intros _. cbn [field_tree store coerce_value in_range].
  destruct (ParseInt10 64 (FormatInt10 n)) as [m|e] eqn:E.
  - apply ParseInt64_FormatInt in E as ->. done.
  - repeat case_bool_decide; try done. rewrite ParseInt_FormatInt in E by lia. done.
Qed.

(** What a struct type has to satisfy: the fields make up the value, their names are plain,
    different and the same for all values, and so are their types. *)
Class JSONStructLaws (T : Type) `{JSONStruct T} : Prop := {
  fields_made t : of_fields (struct_fields t).*2 = Some t;
  fields_coerced t : is_Some (of_fields (coerce_value <$> (struct_fields t).*2));
  fields_some t : struct_fields t ≠ [];
  names_fixed t : (struct_fields t).*1 = (struct_fields (json_zero : T)).*1;
  names_distinct : NoDup (struct_fields (json_zero : T)).*1;
  names_plain : Forall (λ n, coerceUTF8 n = n) (struct_fields (json_zero : T)).*1;
  kinds_fixed t : Forall2 same_kind (struct_fields t).*2 (struct_fields (json_zero : T)).*2;
}.

Lemma index_of_middle {A} (p : A → bool) l1 x l2 :
  Forall (λ y, p y = false) l1 → p x = true → index_of p (l1 ++ x :: l2) = Some (length l1).
Proof. induction 1 as [|y l1 Hy _ IH]; simpl; intros Hx; [by rewrite Hx|]. by rewrite Hy, IH. Qed.

Lemma store_members_fields fs zs pre :
  fs.*1 = zs.*1 → Forall2 same_kind fs.*2 zs.*2 → NoDup (pre ++ zs).*1 →
  Forall (λ n, coerceUTF8 n = n) fs.*1 →
  store_members (member <$> fs) (pre ++ zs) =
    if forallb in_range fs.*2 then Some (pre ++ (prod_map id coerce_value <$> fs)) else None.
Proof.
  revert zs pre. induction fs as [|[k v] fs IH]; intros [|[k' z] zs] pre Hn Hk Hd Hp; try done.
  cbn [fmap list_fmap fst snd] in *. injection Hn as <- Hn. apply Forall2_cons in Hk as [Hk Hks].
  apply Forall_cons in Hp as [Hp Hps]. cbn [member store_members fst snd].
  assert (find_field (pre ++ (k, z) :: zs) (coerceUTF8 k) = Some (length pre)) as ->.
  { unfold find_field. rewrite Hp, index_of_middle; [done| |by apply bool_decide_eq_true_2].
    rewrite fmap_app in Hd. apply NoDup_app in Hd as (_ & Hd & _). apply Forall_forall. intros [k1 z1] Hin.
    apply bool_decide_eq_false_2. cbn [fst]. intros ->. apply (Hd k); [|cbn; left].
    apply list_elem_of_fmap. by exists (k, z1). }
  cbn [mbind option_bind]. rewrite list_lookup_middle by done. cbn [fmap option_fmap option_map].
  rewrite store_field by done. cbn [forallb]. destruct (in_range v); [|done]. cbn [andb].
  rewrite insert_app_r_alt by done. rewrite Nat.sub_diag. cbn [insert list_insert].
  specialize (IH zs (pre ++ [(k, coerce_value v)])). rewrite <-!app_assoc in IH. cbn [app] in IH.
  rewrite IH; [done|done|done| |done]. rewrite fmap_app in *. exact Hd.
Qed.

Section RoundTrip.
Context {T : Type} `{JSONStructLaws T}.

(** The struct with every string repaired. *)
Definition coerced (t : T) : T := default t (of_fields (coerce_value <$> (struct_fields t).*2)).

(** What is decoded from a body that begins with the text of [t]: the struct repaired, if
    its integers are of 32 bits. *)
Lemma Decode_Marshal (t : T) rest err :
  Decode {| b_bytes := Marshal t +:+ rest; b_err := err |} =
    if forallb in_range (struct_fields t).*2 then Ok (coerced t) else Err UnmarshalTypeError.
Proof.
  unfold Decode, Marshal. cbn [b_bytes b_err]. rewrite object_roundtrip by apply fields_some.
  cbn [store_struct]. pose proof (store_members_fields (struct_fields t) (struct_fields json_zero) []) as Hs.
  cbn [app] in Hs. rewrite Hs; clear Hs.
  - destruct (forallb in_range _); [|done]. cbn [mbind option_bind].
    assert ((prod_map id coerce_value <$> struct_fields t).*2 = coerce_value <$> (struct_fields t).*2) as ->.
    { rewrite <-!list_fmap_compose. by apply list_fmap_ext. }
    unfold coerced. by destruct (fields_coerced t) as [t' ->].
  - apply names_fixed.
  - apply kinds_fixed.
  - apply names_distinct.
  - rewrite names_fixed. apply names_plain.
Qed.

Definition plain_value (v : fieldValue) : bool :=
  match v with FString s => ValidString s | FInt32 _ => true end.

Lemma coerced_plain (t : T) : forallb plain_value (struct_fields t).*2 = true → coerced t = t.
Proof.
  intros Hp. unfold coerced.
  assert (coerce_value <$> (struct_fields t).*2 = (struct_fields t).*2) as ->.
  { revert Hp. generalize (struct_fields t).*2. intros l. induction l as [|v l IH]; [done|]. cbn [forallb].
    intros [Hv Hl]%andb_true_iff. rewrite fmap_cons, IH by done. f_equal. destruct v as [s|n]; [|done].
    cbn [coerce_value]. by rewrite coerceUTF8_valid. }
  by rewrite fields_made.
Qed.

End RoundTrip.
