(* ===== verification/GoHeap.v ===== *)
(** * The Go heap, and deep copies in it

    Objects in a heap, and Go values that refer to them: pointers, slices, maps.  [view]
    gives the tree a value stands for, with the set of the locations it is made of; two
    values that share a location can be changed through each other, two values with disjoint
    sets cannot.  A [copier] is a function that makes a value with the same tree out of new
    locations.  The loops of generated copy functions are copiers, given one for the
    elements. *)

From S2P Require Import Prelude.

Definition loc := positive.

Section Heap.
Context {obj : Type}.

#[local] Abbreviation heap := (gmap loc obj).

(** Code that reads and changes the heap; [None] is a run-time panic. *)
Definition HeapM (A : Type) : Type := heap → option (A * heap).
#[export] Instance HeapM_ret : MRet HeapM := λ A x h, Some (x, h).
#[export] Instance HeapM_bind : MBind HeapM := λ A B k m h,
  match m h with Some (x, h) => k x h | None => None end.

(** A type of which there are variables in the heap. *)
Class Storable (T : Type) := {
  box : T → obj;
  unbox : obj → option T;
  unbox_box x : unbox (box x) = Some x;
}.

Definition read {T} `{Storable T} (h : heap) (l : loc) : option T := h !! l ≫= unbox.

(** [new] with an initial value, reading and writing a variable. *)
Definition alloc {T} `{Storable T} (x : T) : HeapM loc := λ h,
  let l := fresh (dom h) in Some (l, <[l := box x]> h).
Definition load {T} `{Storable T} (l : loc) : HeapM T := λ h, (., h) <$> read h l.
Definition write {T} `{Storable T} (l : loc) (x : T) : HeapM unit := λ h,
  match h !! l with Some _ => Some (tt, <[l := box x]> h) | None => None end.

(** ** References *)

(** [*T], [[]T] (an array, where the slice begins in it, its length and its capacity) and
    [map[string]string]. *)
Inductive ptr (T : Type) := Nil | Ref (l : loc).
Inductive slice (T : Type) := NilSlice | Slice (array : loc) (off len cap : nat).
Inductive strmap := NilMap | MapRef (l : loc).
#[global] Arguments Nil {T}.
#[global] Arguments Ref {T} l.
#[global] Arguments NilSlice {T}.
#[global] Arguments Slice {T} array off len cap.

(** ** Views *)

(** The tree a value stands for in a heap, and its locations. *)
Class Viewable (T : Type) := {
  tree : Type;
  view : heap → T → option (tree * gset loc);
}.
#[global] Arguments tree T {_}.

Class ViewLaws (T : Type) `{Viewable T} : Prop := {
  view_frame h h' (v : T) d F :
    view h v = Some (d, F) → (∀ l, l ∈ F → h' !! l = h !! l) → view h' v = Some (d, F);
  view_dom h (v : T) d F : view h v = Some (d, F) → F ⊆ dom h;
}.

(** The trees of a list of values. *)
Fixpoint views {T} `{Viewable T} (h : heap) (vs : list T) : option (list (tree T) * gset loc) :=
  match vs with
  | [] => Some ([], ∅)
  | v :: vs =>
      '(d, F) ← view h v; '(ds, Fs) ← views h vs; Some (d :: ds, F ∪ Fs)
  end.

#[export] Instance ptr_view {T} `{Storable T, Viewable T} : Viewable (ptr T) := {|
  tree := option (tree T);
  view h p :=
    match p with
    | Nil => Some (None, ∅)
    | Ref l => x ← read h l; '(d, F) ← view h x; Some (Some d, {[l]} ∪ F)
    end;
|}.

(** The elements of a slice are where the array has them. *)
Definition window {A} (off len : nat) (l : list A) : option (list A) :=
  if bool_decide (off + len <= length l)%nat then Some (take len (drop off l)) else None.
#[export] Instance slice_view {T} `{Storable (list T), Viewable T} : Viewable (slice T) := {|
  tree := option (list (tree T));
  view h s :=
    match s with
    | NilSlice => Some (None, ∅)
    | Slice a off len _ =>
        xs ← read h a; xs ← window off len xs; '(ds, F) ← views h xs; Some (Some ds, {[a]} ∪ F)
    end;
|}.

#[export] Instance strmap_view `{Storable (gmap string string)} : Viewable strmap := {|
  tree := option (gmap string string);
  view h m :=
    match m with
    | NilMap => Some (None, ∅)
    | MapRef l => x ← read h l; Some (Some x, {[l]})
    end;
|}.

(** A value without references. *)
Definition plain_view (T : Type) : Viewable T := {| tree := T; view h v := Some (v, ∅) |}.

(** ** Copying *)

(** [copy] makes a copy: it does not panic, everything that was there stays, and the result
    stands for the same tree, with new locations only. *)
Definition copied {T} `{Viewable T} (h : heap) (m : HeapM T) (d : tree T) : Prop :=
  ∃ v' h' F', m h = Some (v', h') ∧ h ⊆ h' ∧ view h' v' = Some (d, F') ∧ F' ## dom h.
Definition copier {T} `{Viewable T} (copy : T → HeapM T) : Prop :=
  ∀ h v d F, view h v = Some (d, F) → copied h (copy v) d.

(** A new variable with the zero value, into which [*in] is copied. *)
Definition copy_ptr {T} `{Storable T} (zero : T) (copyInto : T → HeapM T) (p : ptr T) : HeapM (ptr T) :=
  match p with
  | Nil => mret Nil
  | Ref l =>
      out ← alloc zero;
      x ← load l;
      y ← copyInto x;
      _ ← write out y;
      mret (Ref out)
  end.

(** The element [i] of a slice. *)
Definition index {T} `{Storable (list T)} (a : loc) (i : nat) : HeapM T :=
  xs ← load a; λ h, (., h) <$> (xs : list T) !! i.
Definition set_index {T} `{Storable (list T)} (a : loc) (i : nat) (x : T) : HeapM unit :=
  xs ← load a;
  if bool_decide (i < length (xs : list T))%nat then write a (<[i := x]> xs) else λ _, None.

(** The loop over the elements of a slice: [n] rounds from the element [i], each copied from
    the array [src] into the array [dst]. *)
Fixpoint copy_elements {T} `{Storable (list T)} (copyInto : T → HeapM T) (src : loc) (off : nat)
    (dst : loc) (i n : nat) : HeapM unit :=
  match n with
  | O => mret tt
  | S n =>
      x ← index src (off + i);
      y ← copyInto x;
      _ ← set_index dst i y;
      copy_elements copyInto src off dst (S i) n
  end.
(** A slice that is not nil is copied into a new array of its length. *)
Definition copy_slice {T} `{Storable (list T)} (zero : T) (copyInto : T → HeapM T) (s : slice T)
    : HeapM (slice T) :=
  match s with
  | NilSlice => mret NilSlice
  | Slice a off len _ =>
      out ← alloc (replicate len zero);
      _ ← copy_elements copyInto a off out 0 len;
      mret (Slice out 0 len len)
  end.

(** The loop over a map, whose entries come in some order, and a map that is not nil. *)
Fixpoint copy_entries `{Storable (gmap string string)} (out : loc) (kvs : list (string * string)) : HeapM unit :=
  match kvs with
  | [] => mret tt
  | (key, val) :: kvs =>
      m ← load out;
      _ ← write out (<[key := val]> (m : gmap string string));
      copy_entries out kvs
  end.
Definition copy_map `{Storable (gmap string string)} (m : strmap) : HeapM strmap :=
  match m with
  | NilMap => mret NilMap
  | MapRef l =>
      out ← alloc (∅ : gmap string string);
      x ← load l;
      _ ← copy_entries out (map_to_list (x : gmap string string));
      mret (MapRef out)
  end.

(** ** Facts *)

Lemma read_insert {T} `{Storable T} (h : heap) l (x : T) : read (<[l := box x]> h) l = Some x.
Proof. unfold read. rewrite lookup_insert_eq. apply unbox_box. Qed.
Lemma read_dom {T} `{Storable T} (h : heap) l (x : T) : read h l = Some x → l ∈ dom h.
Proof. unfold read. intros (o & Ho & _)%bind_Some. by apply elem_of_dom_2 in Ho. Qed.
Lemma read_agree {T} `{Storable T} (h h' : heap) l : h' !! l = h !! l → read (T:=T) h' l = read h l.
Proof. unfold read. by intros ->. Qed.

Lemma fresh_dom (h : heap) : fresh (dom h) ∉ dom h.
Proof. apply is_fresh. Qed.

(** What a larger heap keeps. *)
Lemma subseteq_agree (h h' : heap) l : h ⊆ h' → l ∈ dom h → h' !! l = h !! l.
Proof. intros Hs [x Hx]%elem_of_dom. rewrite Hx. by eapply lookup_weaken. Qed.
Lemma agree_subseteq (h h' : heap) : (∀ l, l ∈ dom h → h' !! l = h !! l) → h ⊆ h'.
Proof. intros Ha. apply map_subseteq_spec. intros l x Hx. rewrite Ha; [done|by eapply elem_of_dom_2]. Qed.
Lemma insert_fresh_agree (h : heap) l o l' : l ∉ dom h → l' ∈ dom h → <[l := o]> h !! l' = h !! l'.
Proof. intros Hl Hl'. apply lookup_insert_ne. by intros ->. Qed.

Section Views.
Context {T : Type} `{ViewLaws T}.

Lemma view_mono h h' (v : T) d F : view h v = Some (d, F) → h ⊆ h' → view h' v = Some (d, F).
Proof.
  intros Hv Hs. eapply view_frame; [done|]. intros l Hl. apply subseteq_agree; [done|].
  by eapply view_dom.
Qed.

Lemma views_frame h h' (vs : list T) ds F :
  views h vs = Some (ds, F) → (∀ l, l ∈ F → h' !! l = h !! l) → views h' vs = Some (ds, F).
Proof.
  revert ds F. induction vs as [|v vs IH]; intros ds F; cbn [views]; [done|].
  intros ([d F1] & Hv & ([ds' F2] & Hvs & [= <- <-])%bind_Some)%bind_Some Ha.
  rewrite (view_frame h h' v d F1), (IH ds' F2) by set_solver. done.
Qed.

Lemma views_dom h (vs : list T) ds F : views h vs = Some (ds, F) → F ⊆ dom h.
Proof.
  revert ds F. induction vs as [|v vs IH]; intros ds F; cbn [views]; [by intros [= <- <-]|].
  intros ([d F1] & Hv & ([ds' F2] & Hvs & [= <- <-])%bind_Some)%bind_Some.
  apply view_dom in Hv. apply IH in Hvs. set_solver.
Qed.

Lemma views_length h (vs : list T) ds F : views h vs = Some (ds, F) → length ds = length vs.
Proof.
  revert ds F. induction vs as [|v vs IH]; intros ds F; cbn [views]; [by intros [= <- <-]|].
  intros ([d F1] & Hv & ([ds' F2] & Hvs & [= <- <-])%bind_Some)%bind_Some. simpl. by rewrite (IH ds' F2).
Qed.

Lemma views_lookup h (vs : list T) ds F i v :
  views h vs = Some (ds, F) → vs !! i = Some v →
  ∃ d F', ds !! i = Some d ∧ view h v = Some (d, F') ∧ F' ⊆ F.
Proof.
  revert ds F i. induction vs as [|v' vs IH]; intros ds F i; cbn [views]; [done|].
  intros ([d F1] & Hv & ([ds' F2] & Hvs & [= <- <-])%bind_Some)%bind_Some Hi. destruct i as [|i]; simpl in *.
  - injection Hi as <-. exists d, F1. split; [done|]. split; [done|set_solver].
  - destruct (IH ds' F2 i Hvs Hi) as (d' & F' & H1 & H2 & H3). exists d', F'.
    split; [done|]. split; [done|set_solver].
Qed.

Lemma views_snoc h (vs : list T) ds F v d F1 :
  views h vs = Some (ds, F) → view h v = Some (d, F1) → views h (vs ++ [v]) = Some (ds ++ [d], F ∪ F1).
Proof.
  revert ds F. induction vs as [|v' vs IH]; intros ds F; cbn [views app].
  - intros [= <- <-] ->. cbn. f_equal. f_equal. set_solver.
  - intros ([d' F1'] & Hv & ([ds' F2] & Hvs & [= <- <-])%bind_Some)%bind_Some Hd. rewrite Hv.
    cbn [mbind option_bind]. rewrite (IH ds' F2) by done. cbn [mbind option_bind]. f_equal. f_equal. set_solver.
Qed.

End Views.

#[export] Instance ptr_laws {T} `{Storable T, ViewLaws T} : ViewLaws (ptr T).
Proof.
  split.
  - intros h h' [|l] d F; [done|]. cbn. intros (x & Hx & ([d' F'] & Hv & [= <- <-])%bind_Some)%bind_Some Ha.
    rewrite (read_agree h h') by (apply Ha; set_solver). rewrite Hx. cbn [mbind option_bind].
    rewrite (view_frame h h' x d' F') by set_solver. done.
  - intros h [|l] d F; cbn; [by intros [= <- <-]|].
    intros (x & Hx & ([d' F'] & Hv & [= <- <-])%bind_Some)%bind_Some.
    apply read_dom in Hx. apply view_dom in Hv. set_solver.
Qed.

#[export] Instance slice_laws {T} `{Storable (list T), ViewLaws T} : ViewLaws (slice T).
Proof.
  split.
  - intros h h' [|a off len cap] d F; [done|]. cbn.
    intros (x & Hx & (xs & Hw & ([d' F'] & Hv & [= <- <-])%bind_Some)%bind_Some)%bind_Some Ha.
    rewrite (read_agree h h') by (apply Ha; set_solver). rewrite Hx. cbn [mbind option_bind]. rewrite Hw.
    cbn [mbind option_bind]. rewrite (views_frame h h' xs d' F') by set_solver. done.
  - intros h [|a off len cap] d F; cbn; [by intros [= <- <-]|].
    intros (x & Hx & (xs & Hw & ([d' F'] & Hv & [= <- <-])%bind_Some)%bind_Some)%bind_Some.
    apply read_dom in Hx. apply views_dom in Hv. set_solver.
Qed.

#[export] Instance strmap_laws `{Storable (gmap string string)} : ViewLaws strmap.
Proof.
  split.
  - intros h h' [|l] d F; [done|]. cbn. intros (x & Hx & [= <- <-])%bind_Some Ha.
    rewrite (read_agree h h') by (apply Ha; set_solver). by rewrite Hx.
  - intros h [|l] d F; cbn; [by intros [= <- <-]|]. intros (x & Hx & [= <- <-])%bind_Some.
    apply read_dom in Hx. set_solver.
Qed.

Lemma plain_laws (T : Type) : @ViewLaws T (plain_view T).
Proof. split; cbn; intros; simplify_eq; [done|set_solver]. Qed.

(** ** The generated loops are copiers *)

Lemma bind_eq {A B} (m : HeapM A) (k : A → HeapM B) (h h1 : heap) x :
  m h = Some (x, h1) → (x ← m; k x) h = k x h1.
Proof. intros E. unfold mbind, HeapM_bind. by rewrite E. Qed.

Lemma load_eq {T} `{Storable T} (h : heap) l (x : T) : read h l = Some x → load l h = Some (x, h).
Proof. intros E. unfold load. by rewrite E. Qed.
Lemma write_eq {T} `{Storable T} (h : heap) l (x : T) : l ∈ dom h → write l x h = Some (tt, <[l := box x]> h).
Proof. intros [o Ho]%elem_of_dom. unfold write. by rewrite Ho. Qed.

Section Copiers.
Context {T : Type} `{ViewLaws T}.
Context (zero : T) (copyInto : T → HeapM T) (Hcopy : copier copyInto).

Lemma copy_ptr_copier `{!Storable T} : copier (copy_ptr zero copyInto).
Proof using Hcopy H0.
  intros h [|l] d F; cbn.
  { intros [= <- <-]. exists Nil, h, ∅. split_and!; [done..|set_solver]. }
  intros (x & Hx & ([d' F1] & Hv & [= <- <-])%bind_Some)%bind_Some.
  set (out := fresh (dom h)). pose proof (fresh_dom h) as Hf. fold out in Hf.
  set (h1 := <[out := box zero]> h).
  assert (h ⊆ h1) as Hs1 by (apply insert_subseteq, not_elem_of_dom; done).
  destruct (Hcopy h1 x d' F1 (view_mono _ _ _ _ _ Hv Hs1)) as (y & h2 & F2 & Hc & Hs2 & Hy & Hd).
  assert (out ∈ dom h1) as Ho by (unfold h1; set_solver).
  assert (out ∈ dom h2) as Ho2 by (apply subseteq_dom in Hs2; set_solver).
  exists (Ref out), (<[out := box y]> h2), ({[out]} ∪ F2). split_and!.
  - rewrite (bind_eq _ _ _ h1 out) by done.
    rewrite (bind_eq _ _ _ h1 x) by (apply load_eq; rewrite (read_agree h); [done|];
      apply subseteq_agree; [done|by eapply read_dom]).
    rewrite (bind_eq _ _ _ h2 y) by done. by rewrite (bind_eq _ _ _ _ tt (write_eq h2 out y Ho2)).
  - apply agree_subseteq. intros l' Hl'. rewrite lookup_insert_ne by (by intros ->).
    rewrite <-(subseteq_agree h h1), (subseteq_agree h1 h2) by (done || apply subseteq_dom in Hs1; set_solver). done.
  - cbn. rewrite read_insert. cbn [mbind option_bind].
    rewrite (view_frame h2 _ y d' F2); [done|done|]. intros l' Hl'. apply lookup_insert_ne. set_solver.
  - apply subseteq_dom in Hs1. set_solver.
Qed.

Context `{!Storable (list T)}.

(** One round, and all of them: [h0] is the heap before the copy, [xs] are the elements and
    [ds] their trees. *)
Lemma copy_elements_spec (h0 : heap) src off dst arr xs ds F n :
  read h0 src = Some arr → window off (length ds) arr = Some xs → views h0 xs = Some (ds, F) → dst ∉ dom h0 →
  ∀ i (h : heap) ys G, (i + n = length ds)%nat →
  (∀ l, l ∈ dom h0 → h !! l = h0 !! l) → read h dst = Some ys → length ys = length ds →
  views h (take i ys) = Some (take i ds, G) → dst ∉ G → G ## dom h0 →
  ∃ h' ys' G', copy_elements copyInto src off dst i n h = Some (tt, h') ∧
    (∀ l, l ∈ dom h0 → h' !! l = h0 !! l) ∧ read h' dst = Some ys' ∧ length ys' = length ds ∧
    views h' ys' = Some (ds, G') ∧ G' ## dom h0.
Proof using Hcopy H0.
  intros Hr Hw Hxs Hdst. induction n as [|n IH]; intros i h ys G Hi Ha Hy Hl Hv HG HG0.
  { exists h, ys, G. rewrite !take_ge in Hv by lia. split_and!; done. }
  assert (∃ x, xs !! i = Some x ∧ arr !! (off + i)%nat = Some x) as (x & Hx & Hx').
  { unfold window in Hw. case_bool_decide; [|done]. injection Hw as <-.
    destruct (lookup_lt_is_Some_2 arr (off + i)) as [x Hx]; [lia|]. exists x. split; [|done].
    rewrite lookup_take_lt by lia. by rewrite lookup_drop. }
  destruct (views_lookup h0 xs ds F i x Hxs Hx) as (d & F1 & Hd & Hvx & _).
  assert (view h x = Some (d, F1)) as Hvx'.
  { eapply view_frame; [done|]. intros l Hin. apply Ha. by eapply view_dom. }
  destruct (Hcopy h x d F1 Hvx') as (y & h1 & F2 & Hc & Hs & Hvy & HF2).
  pose proof (read_dom _ _ _ Hy) as Hdom.
  assert (∀ l, l ∈ dom h0 → l ∈ dom h) as Hdom0.
  { intros l Hl0. apply elem_of_dom. rewrite Ha by done. by apply elem_of_dom. }
  assert (read h1 dst = Some ys) as Hy1 by (by rewrite (read_agree h) by (by apply subseteq_agree)).
  set (h2 := <[dst := box (<[i := y]> ys)]> h1).
  destruct (IH (S i) h2 (<[i := y]> ys) (G ∪ F2)) as (h' & ys' & G' & E & Hrest).
  - lia.
  - intros l Hl0. unfold h2. rewrite lookup_insert_ne by (by intros ->).
    rewrite (subseteq_agree h) by auto. by apply Ha.
  - apply read_insert.
  - by rewrite length_insert.
  - rewrite (take_S_r _ _ d) by done. rewrite (take_S_r _ _ y) by (apply list_lookup_insert_eq; lia).
    rewrite take_insert_ge by lia. apply views_snoc.
    + eapply views_frame; [exact Hv|]. intros l Hin. unfold h2. rewrite lookup_insert_ne by (by intros ->).
      apply subseteq_agree; [done|]. eapply views_dom; [exact Hv|done].
    + eapply view_frame; [exact Hvy|]. intros l Hin. unfold h2. apply lookup_insert_ne.
      intros <-. set_solver.
  - set_solver.
  - set_solver.
  - exists h', ys', G'. split; [|done]. cbn [copy_elements].
    rewrite (bind_eq _ _ _ h x).
    2:{ unfold index. rewrite (bind_eq _ _ _ h arr); [by rewrite Hx'|]. apply load_eq.
        rewrite (read_agree h0); [done|]. apply Ha. by eapply read_dom. }
    rewrite (bind_eq _ _ _ h1 y) by done. rewrite (bind_eq _ _ _ h2 tt); [exact E|].
    unfold set_index. rewrite (bind_eq _ _ _ h1 ys) by (by apply load_eq).
    rewrite bool_decide_eq_true_2 by lia. apply write_eq. by eapply read_dom.
Qed.

Lemma copy_slice_copier : copier (copy_slice zero copyInto).
Proof using Hcopy H0.
  intros h [|a off len cap] d F; cbn.
  { intros [= <- <-]. exists NilSlice, h, ∅. split_and!; [done..|set_solver]. }
  intros (arr & Hr & (xs & Hw & ([ds F1] & Hv & [= <- <-])%bind_Some)%bind_Some)%bind_Some.
  assert (len = length ds) as ->.
  { rewrite (views_length _ _ _ _ Hv). unfold window in Hw. case_bool_decide; [|done]. injection Hw as <-.
    rewrite length_take, length_drop. lia. }
  set (out := fresh (dom h)). pose proof (fresh_dom h) as Hf. fold out in Hf.
  set (h1 := <[out := box (replicate (length ds) zero)]> h).
  destruct (copy_elements_spec h a off out arr xs ds F1 (length ds) Hr Hw Hv Hf 0 h1
    (replicate (length ds) zero) ∅) as (h' & ys & G & E & Ha & Hy & Hl & Hvy & HG).
  - done.
  - intros l Hl. by apply insert_fresh_agree.
  - apply read_insert.
  - apply length_replicate.
  - done.
  - set_solver.
  - set_solver.
  - exists (Slice out 0 (length ds) (length ds)), h', ({[out]} ∪ G). split_and!.
    + rewrite (bind_eq _ _ _ h1 out) by done. by rewrite (bind_eq _ _ _ h' tt).
    + by apply agree_subseteq.
    + cbn. rewrite Hy. cbn [mbind option_bind]. unfold window. rewrite bool_decide_eq_true_2 by lia.
      cbn [mbind option_bind]. rewrite drop_0, take_ge by lia. by rewrite Hvy.
    + set_solver.
Qed.

End Copiers.

Lemma copy_entries_spec `{Storable (gmap string string)} out kvs (acc : gmap string string) (h : heap) :
  NoDup kvs.*1 → read h out = Some acc →
  ∃ h', copy_entries out kvs h = Some (tt, h') ∧ read h' out = Some (list_to_map kvs ∪ acc) ∧
    ∀ l, l ≠ out → h' !! l = h !! l.
Proof.
  revert acc h. induction kvs as [|[k v] kvs IH]; intros acc h Hn Hr.
  { exists h. split_and!; [done| |done]. rewrite list_to_map_nil. by rewrite (left_id_L ∅ (∪)). }
  cbn in Hn. apply NoDup_cons in Hn as [Hk Hn]. set (h1 := <[out := box (<[k := v]> acc)]> h).
  destruct (IH (<[k := v]> acc) h1 Hn) as (h' & E & Hr' & Ha); [apply read_insert|].
  exists h'. split_and!.
  - cbn [copy_entries]. rewrite (bind_eq _ _ _ h acc) by (by apply load_eq).
    rewrite (bind_eq _ _ _ h1 tt); [done|]. apply write_eq. by eapply read_dom.
  - rewrite Hr'. f_equal. cbn [list_to_map foldr curry fst snd]. rewrite <-insert_union_l.
    symmetry. apply insert_union_r. by apply not_elem_of_list_to_map_1.
  - intros l Hl. rewrite Ha by done. unfold h1. by apply lookup_insert_ne.
Qed.

Lemma copy_map_copier `{Storable (gmap string string)} : copier copy_map.
Proof.
  intros h [|l] d F; cbn.
  { intros [= <- <-]. exists NilMap, h, ∅. split_and!; [done..|set_solver]. }
  intros (m & Hm & [= <- <-])%bind_Some.
  set (out := fresh (dom h)). pose proof (fresh_dom h) as Hf. fold out in Hf.
  set (h1 := <[out := box (∅ : gmap string string)]> h).
  destruct (copy_entries_spec out (map_to_list m) ∅ h1) as (h' & E & Hr & Ha);
    [apply NoDup_fst_map_to_list|apply read_insert|].
  rewrite list_to_map_to_list, map_union_empty in Hr.
  exists (MapRef out), h', {[out]}. split_and!.
  - rewrite (bind_eq _ _ _ h1 out) by done.
    rewrite (bind_eq _ _ _ h1 m) by (apply load_eq; rewrite (read_agree h); [done|];
      apply insert_fresh_agree; [done|by eapply read_dom]).
    by rewrite (bind_eq _ _ _ h' tt).
  - apply agree_subseteq. intros l' Hl'. rewrite Ha by (by intros ->). by apply insert_fresh_agree.
  - cbn. by rewrite Hr.
  - set_solver.
Qed.

Lemma plain_copier (T : Type) : @copier T (plain_view T) mret.
Proof. intros h v d F [= <- <-]. exists v, h, ∅. split_and!; [done..|set_solver]. Qed.

(** ** Copying field by field *)

(** A copy made on the way, when the heap has grown from [h0] to [h]. *)
Definition copied_since {T} `{Viewable T} (h0 h : heap) (m : HeapM T) (d : tree T) : Prop :=
  ∃ v' h' F', m h = Some (v', h') ∧ h ⊆ h' ∧ view h' v' = Some (d, F') ∧ F' ## dom h0.

Lemma copied_since_start {T} `{Viewable T} h (m : HeapM T) d : copied_since h h m d → copied h m d.
Proof. done. Qed.

Lemma copied_since_bind {T U} `{Viewable T, Viewable U} (h0 h : heap) (m : HeapM T) (k : T → HeapM U) d dU :
  h0 ⊆ h → copied h m d →
  (∀ v' h' F', h ⊆ h' → h0 ⊆ h' → view h' v' = Some (d, F') → F' ## dom h0 → copied_since h0 h' (k v') dU) →
  copied_since h0 h (x ← m; k x) dU.
Proof.
  intros Hh (v & h1 & F & E & Hs & Hv & Hd) Hk. pose proof (subseteq_dom _ _ Hh).
  destruct (Hk v h1 F) as (u & h2 & F2 & E2 & Hs2 & Hv2 & Hd2); [done|by etrans|done|set_solver|].
  exists u, h2, F2. split_and!; [|by etrans|done|done]. by rewrite (bind_eq _ _ _ h1 v).
Qed.

Lemma copied_since_ret {T} `{Viewable T} (h0 h : heap) (u : T) d F :
  view h u = Some (d, F) → F ## dom h0 → copied_since h0 h (mret u) d.
Proof. intros Hv Hd. exists u, h, F. by split_and!. Qed.

End Heap.

(** The laws of the view of a struct, from those of its fields. *)
Ltac view_fields H :=
  repeat (let d := fresh "d" in let F := fresh "F" in let E := fresh "E" in
          apply bind_Some in H as ([d F] & E & H)).
Tactic Notation "struct_laws" reference(V) :=
  split;
  [ intros h h' v d0 F0 Hv Ha; unfold V in Hv |- *; cbn [view] in Hv |- *; view_fields Hv;
    injection Hv as <- <-;
    repeat match goal with
    | E : view h ?x = Some (?d, ?F) |- context [view h' ?x] =>
        rewrite (view_frame h h' x d F E) by set_solver; cbn [mbind option_bind]
    end; reflexivity
  | intros h v d0 F0 Hv; unfold V in Hv; cbn [view] in Hv; view_fields Hv; injection Hv as <- <-;
    repeat match goal with E : view h ?x = Some (?d, ?F) |- _ => apply view_dom in E end; set_solver ].

(** The fields of a struct, its copy function and the view of the copy. *)
Tactic Notation "copy_struct" reference(V) reference(copy) :=
  intros h x d F Hv; unfold V in Hv; cbn [view] in Hv; view_fields Hv; injection Hv as <- _;
  apply copied_since_start; unfold copy.

(** A field is copied by [C]; what is known of the other fields carries over. *)
Ltac copy_field C :=
  eapply copied_since_bind;
  [ first [eassumption|reflexivity] | eapply C; eassumption
  | let v := fresh "v" in let h := fresh "h" in let F := fresh "F" in
    let Hs := fresh "Hs" in let H0 := fresh "Hh" in let Hv := fresh "Hv" in let Hd := fresh "Hd" in
    intros v h F Hs H0 Hv Hd;
    repeat match goal with
    | E : view ?h1 ?x = Some _, Hs' : ?h1 ⊆ h |- _ =>
        lazymatch h1 with h => fail | _ => apply (view_mono h1 h) in E; [|exact Hs'] end
    end; clear Hs ].
(** The struct of the copied fields. *)
Tactic Notation "copy_done" reference(V) :=
  eapply copied_since_ret;
  [ unfold V; cbn [view];
    repeat (apply bind_Some; eexists (_, _); split; [eassumption|]; cbv beta iota); reflexivity
  | set_solver ].
