(* ===== verification/Names.v ===== *)
(** * The shared vocabulary: [src/api/v1alpha1/names.go]

    Label and annotation keys, their values and defaults, the derived lease name and
    the parsed Deployment settings. *)

From Stdlib Require Import Ascii.
From S2P Require Import Prelude GoLib.

(** ** Constants *)

Definition Finalizer : string := "poc.llm-d.ai/release-lease".

Definition StateLabelKey : string := "gpu-lease.llm-d.ai/state".
Definition StateWarm : string := "warm".
Definition StateActivating : string := "activating".
Definition StateHot : string := "hot".
Definition StateReleasing : string := "releasing".

Definition AnnotationManaged : string := "gpu-lease.llm-d.ai/managed".
Definition AnnotationWarmReplicas : string := "gpu-lease.llm-d.ai/warm-replicas".
Definition AnnotationMinHotReplicas : string := "gpu-lease.llm-d.ai/min-hot-replicas".
Definition AnnotationLocalQueue : string := "gpu-lease.llm-d.ai/local-queue".
Definition AnnotationPodCapacityRPS : string := "gpu-lease.llm-d.ai/pod-capacity-rps".
Definition AnnotationActivationTimeout : string := "gpu-lease.llm-d.ai/activation-timeout".
Definition AnnotationAdmissionTimeout : string := "gpu-lease.llm-d.ai/admission-timeout".

Definition AnnotationLease : string := "gpu-lease.llm-d.ai/lease".
Definition AnnotationGPUID : string := "gpu-lease.llm-d.ai/gpu-id".
Definition AnnotationGPUModel : string := "gpu-lease.llm-d.ai/gpu-model".
Definition AnnotationPodDeletionCost : string := "controller.kubernetes.io/pod-deletion-cost".
Definition PodDeletionCostHot : string := "100".
Definition PodDeletionCostWarm : string := "-100".

Definition NodeLabelGPUCount : string := "poc.llm-d.ai/gpu-count".
Definition NodeLabelGPUModel : string := "poc.llm-d.ai/gpu-model".
Definition KueueResourceName : string := "poc.llm-d.ai/gpu".

Definition DefaultWarmReplicas : Z := 2.
Definition DefaultMinHotReplicas : Z := 1.
Definition DefaultPodCapacityRPS : Z := 10.
Definition DefaultActivationTimeout : Z := 120 * Second.
Definition DefaultAdmissionTimeout : Z := 60 * Second.

(** ** Names derived from other names *)

(** ["<node>-gpu-<id>"]. *)
Definition LeaseName (node : string) (gpuID : Z) : string :=
  node +:+ "-gpu-" +:+ FormatInt10 gpuID.

Definition DefaultLocalQueueName (deployment : string) : string := deployment +:+ "-gpu".

(** ** Deployment settings *)

(** [int32] fields are [Z]s; the two timeouts are Durations. *)
Record DeploymentSettings := {
  WarmReplicas : Z;
  MinHotReplicas : Z;
  LocalQueueName : string;
  PodCapacityRPS : Z;
  ActivationTimeout : Z;
  AdmissionTimeout : Z;
}.

(** [strconv.ParseInt(v, 10, 32)] guarded by [ok] and by a test on the number: the
    new value of a count, or the value it had. *)
Definition parseCount (annotations : gmap string string) (key : string) (okb : Z → bool) (dflt : Z) : Z :=
  match annotations !! key with
  | Some v => match ParseInt10 32 v with
              | inl n => if okb n then wrap32 n else dflt
              | inr _ => dflt
              end
  | None => dflt
  end.
(** [time.ParseDuration(v)] guarded by [ok] and by [d > 0]. *)
Definition parseTimeout (annotations : gmap string string) (key : string) (dflt : Z) : Z :=
  match annotations !! key with
  | Some v => match ParseDuration v with
              | Some d => if 0 <? d then d else dflt
              | None => dflt
              end
  | None => dflt
  end.

(** A nil annotation map reads like the empty one. *)
Definition ParseDeploymentSettings (annotations : gmap string string) (deploymentName : string)
    : DeploymentSettings :=
  {| WarmReplicas :=
       parseCount annotations AnnotationWarmReplicas (λ n, 0 <=? n) DefaultWarmReplicas;
     MinHotReplicas :=
       parseCount annotations AnnotationMinHotReplicas (λ n, 0 <=? n) DefaultMinHotReplicas;
     LocalQueueName :=
       match annotations !! AnnotationLocalQueue with
       | Some v => if bool_decide (v ≠ "") then v else DefaultLocalQueueName deploymentName
       | None => DefaultLocalQueueName deploymentName
       end;
     PodCapacityRPS :=
       parseCount annotations AnnotationPodCapacityRPS (λ n, 0 <? n) DefaultPodCapacityRPS;
     ActivationTimeout :=
       parseTimeout annotations AnnotationActivationTimeout DefaultActivationTimeout;
     AdmissionTimeout :=
       parseTimeout annotations AnnotationAdmissionTimeout DefaultAdmissionTimeout |}.

Definition IsManaged (annotations : gmap string string) : bool :=
  bool_decide (annotations !! AnnotationManaged = Some "true").

(** ** The lease name identifies the pair *)

(** The bytes of a string, last one first, so that what a name ends with is what the
    list begins with. *)
Definition rev_bytes (s : string) : list ascii := reverse (String.list_ascii_of_string s).

Definition is_digit (c : ascii) : bool := bool_decide (is_Some (digit_val c)).

Lemma rev_bytes_app s t : rev_bytes (s +:+ t) = rev_bytes t ++ rev_bytes s.
Proof.
  unfold rev_bytes. rewrite <-reverse_app. f_equal.
  induction s as [|c s IH]; [done|]. rewrite string_app_cons. simpl. by rewrite IH.
Qed.

Lemma rev_bytes_inj s t : rev_bytes s = rev_bytes t → s = t.
Proof.
  unfold rev_bytes. intros H%(inj reverse).
  rewrite <-(String.string_of_list_ascii_of_string s), H.
  apply String.string_of_list_ascii_of_string.
Qed.

Lemma all_digits_rev_bytes s : all_digits s → Forall is_digit (rev_bytes s).
Proof.
  intros Hs. unfold rev_bytes. apply Forall_reverse.
  induction s as [|c s IH]; simpl in *; constructor; unfold is_digit; naive_solver.
Qed.

(** Two digit runs followed by a non-digit: the runs and the rests are equal. *)
Lemma digits_split (d1 d2 r1 r2 : list ascii) (c1 c2 : ascii) :
  Forall is_digit d1 → Forall is_digit d2 → is_digit c1 = false → is_digit c2 = false →
  d1 ++ c1 :: r1 = d2 ++ c2 :: r2 → d1 = d2 ∧ c1 :: r1 = c2 :: r2.
Proof.
  intros H1 H2 Hc1 Hc2. revert d2 H2. induction d1 as [|a d1 IH]; intros [|b d2] H2; simpl.
  - done.
  - intros [= ??]; subst. inversion H2; subst. by rewrite Hc1 in *.
  - intros [= ??]; subst. inversion H1; subst. by rewrite Hc2 in *.
  - intros [= -> Heq]. inversion H1; inversion H2; subst.
    destruct (IH ltac:(done) d2 ltac:(done) Heq) as [-> ->]. done.
Qed.

(** A lease name read backwards: the digits of the id, then its sign, if any, then
    ["-upg-"], then the node. *)
Lemma LeaseName_rev node id :
  ∃ d, all_digits d ∧ Z.of_N (Z.to_N (Z.abs id)) = Z.abs id ∧ d = pretty (Z.to_N (Z.abs id)) ∧
    rev_bytes (LeaseName node id) =
      rev_bytes d ++ (if id <? 0 then ["-"%char] else []) ++
      ["-"; "u"; "p"; "g"; "-"]%char ++ rev_bytes node.
Proof.
  exists (pretty (Z.to_N (Z.abs id))).
  split; [apply pretty_N_digits|]. split; [lia|]. split; [done|].
  unfold LeaseName, FormatInt10. rewrite !rev_bytes_app.
  destruct (pretty_Z_cases id) as [[Hs ->]|[Hs ->]].
  - rewrite (proj2 (Z.ltb_ge _ _)) by done. rewrite Z.abs_eq by done.
    by rewrite <-!(assoc (++)).
  - rewrite (proj2 (Z.ltb_lt _ _)) by done. rewrite Z.abs_neq by lia.
    rewrite rev_bytes_app. by rewrite <-!(assoc (++)).
Qed.

Lemma LeaseName_eq (node1 node2 : string) (id1 id2 : Z) :
  LeaseName node1 id1 = LeaseName node2 id2 ↔ node1 = node2 ∧ id1 = id2.
Proof.
  split; [|by intros [-> ->]]. intros H%(f_equal rev_bytes).
  destruct (LeaseName_rev node1 id1) as (d1 & Hd1 & Hz1 & Hp1 & E1).
  destruct (LeaseName_rev node2 id2) as (d2 & Hd2 & Hz2 & Hp2 & E2).
  rewrite E1, E2 in H.
  apply all_digits_rev_bytes in Hd1, Hd2.
  assert (d1 = d2 → Z.abs id1 = Z.abs id2) as Habs.
  { intros ->. rewrite Hp1 in Hp2. apply (inj pretty) in Hp2. congruence. }
  destruct (id1 <? 0) eqn:S1, (id2 <? 0) eqn:S2; simpl in H;
    apply digits_split in H as [Hd H]; try done; simplify_eq;
    apply rev_bytes_inj in Hd; specialize (Habs Hd); reflect_bools;
    (split; [by apply rev_bytes_inj|lia]).
Qed.

(** The lease name is a faithful identity of the pair it stands for: two pairs
    (node, gpuID) with the same name are the same pair, for arbitrary node strings and
    integers, so a name that is unique in etcd makes the pair unique. *)
Lemma LeaseName_inj (node1 node2 : string) (id1 id2 : Z) :
  LeaseName node1 id1 = LeaseName node2 id2 ↔ node1 = node2 ∧ id1 = id2.
Proof. apply LeaseName_eq. Qed.

(** ** Facts about the settings *)

Lemma parseCount_range annotations key okb dflt :
  int32_range dflt → int32_range (parseCount annotations key okb dflt).
Proof. unfold parseCount. intros. repeat case_match; auto with gpulease. Qed.

Lemma parseCount_ok annotations key okb dflt :
  okb dflt = true → okb (parseCount annotations key okb dflt) = true.
Proof.
  unfold parseCount. intros Hd. destruct (annotations !! key) as [v|]; [|done].
  destruct (ParseInt10 32 v) as [n|] eqn:E; [|done]. destruct (okb n) eqn:Ho; [|done].
  apply ParseInt_range in E; [|lia]. by rewrite wrap32_id.
Qed.

Lemma parseTimeout_range annotations key dflt :
  0 < dflt < 2 ^ 63 → 0 < parseTimeout annotations key dflt < 2 ^ 63.
Proof.
  unfold parseTimeout. intros. destruct (annotations !! key) as [v|]; [|done].
  destruct (ParseDuration v) as [d|] eqn:E; [|done]. apply ParseDuration_lt in E.
  destruct (0 <? d) eqn:Ed; reflect_bools; lia.
Qed.

(** The settings are usable, whatever the annotations say. *)
Definition settings_ok (s : DeploymentSettings) : Prop :=
  0 <= WarmReplicas s < 2 ^ 31 ∧ 0 <= MinHotReplicas s < 2 ^ 31 ∧
  0 < PodCapacityRPS s < 2 ^ 31 ∧ 0 < ActivationTimeout s < 2 ^ 63 ∧
  0 < AdmissionTimeout s < 2 ^ 63 ∧ LocalQueueName s ≠ "".

Lemma ParseDeploymentSettings_ok annotations dep : settings_ok (ParseDeploymentSettings annotations dep).
Proof.
  unfold settings_ok. cbn [WarmReplicas MinHotReplicas PodCapacityRPS ActivationTimeout
    AdmissionTimeout LocalQueueName ParseDeploymentSettings].
  pose proof (parseCount_range annotations AnnotationWarmReplicas (λ n, 0 <=? n) DefaultWarmReplicas ltac:(done)).
  pose proof (parseCount_range annotations AnnotationMinHotReplicas (λ n, 0 <=? n) DefaultMinHotReplicas ltac:(done)).
  pose proof (parseCount_range annotations AnnotationPodCapacityRPS (λ n, 0 <? n) DefaultPodCapacityRPS ltac:(done)).
  pose proof (parseCount_ok annotations AnnotationWarmReplicas (λ n, 0 <=? n) DefaultWarmReplicas eq_refl).
  pose proof (parseCount_ok annotations AnnotationMinHotReplicas (λ n, 0 <=? n) DefaultMinHotReplicas eq_refl).
  pose proof (parseCount_ok annotations AnnotationPodCapacityRPS (λ n, 0 <? n) DefaultPodCapacityRPS eq_refl).
  unfold int32_range in *. reflect_bools.
  split_and!; try lia; try (apply parseTimeout_range; done).
  repeat case_match; reflect_bools; try done;
    unfold DefaultLocalQueueName; by destruct dep.
Qed.

(** Whatever the annotations say, the parsed settings are usable: the replica
    counts are non-negative and the pod capacity positive, all three as int32 values,
    the timeouts are positive durations within int64, and the queue name is not empty. *)
Lemma ParseDeploymentSettings_wf (annotations : gmap string string) (dep : string) :
  let s := ParseDeploymentSettings annotations dep in
  0 <= WarmReplicas s < 2 ^ 31 ∧ 0 <= MinHotReplicas s < 2 ^ 31 ∧
  0 < PodCapacityRPS s < 2 ^ 31 ∧ 0 < ActivationTimeout s < 2 ^ 63 ∧
  0 < AdmissionTimeout s < 2 ^ 63 ∧ LocalQueueName s ≠ "".
Proof. exact (ParseDeploymentSettings_ok annotations dep). Qed.

Lemma parseCount_print annotations key okb dflt n :
  int32_range n → okb n = true → annotations !! key = Some (FormatInt10 n) →
  parseCount annotations key okb dflt = n.
Proof.
  unfold parseCount, int32_range. intros Hr Ho ->.
  rewrite ParseInt_FormatInt by lia. rewrite Ho. by apply wrap32_id.
Qed.

(** Round trip of the replica annotations: a Deployment annotated with the decimal
    forms of two non-negative int32 counts is parsed to exactly those counts, and a
    non-empty queue annotation is taken as it is. *)
Lemma ParseDeploymentSettings_roundtrip (annotations : gmap string string) (dep q : string) (w h : Z) :
  0 <= w < 2 ^ 31 → 0 <= h < 2 ^ 31 → q ≠ "" →
  annotations !! AnnotationWarmReplicas = Some (FormatInt10 w) →
  annotations !! AnnotationMinHotReplicas = Some (FormatInt10 h) →
  annotations !! AnnotationLocalQueue = Some q →
  let s := ParseDeploymentSettings annotations dep in
  WarmReplicas s = w ∧ MinHotReplicas s = h ∧ LocalQueueName s = q.
Proof.
  intros Hw Hh Hq Aw Ah Aq. simpl. rewrite Aq, bool_decide_eq_true_2 by done.
  split_and!; [..|done]; (apply parseCount_print; [unfold int32_range; lia|apply Z.leb_le; lia|done]).
Qed.

Definition example_annotations : gmap string string :=
  {[ AnnotationWarmReplicas := "3"; AnnotationMinHotReplicas := "0";
     AnnotationLocalQueue := "team-gpu"; AnnotationAdmissionTimeout := "1m30s" ]}.

Lemma ParseDeploymentSettings_roundtrip_witness :
  WarmReplicas (ParseDeploymentSettings example_annotations "app") = 3 ∧
  MinHotReplicas (ParseDeploymentSettings example_annotations "app") = 0 ∧
  LocalQueueName (ParseDeploymentSettings example_annotations "app") = "team-gpu".
Proof.
  apply (ParseDeploymentSettings_roundtrip example_annotations "app" "team-gpu" 3 0);
    first [lia | discriminate | vm_compute; reflexivity].
Defined.
