(* ===== verification/Kube.v ===== *)
(** * The API objects

    The repository's own types ([src/api/v1alpha1/gpulease_types.go],
    [src/internal/kueue/v1beta2]) and the fields of the Kubernetes objects it reads,
    with the functions of the Kubernetes libraries it calls as a parameter: the class
    [KubeLib], whose documented behaviour is the class [KubeLibLaws].

    Go maps are [gmap]s: a nil map reads like an empty one, and the code writes to a map
    only after a nil check, so the two need not be told apart.  A [metav1.Time] is a
    [time.Time] (nanoseconds since the zero Time), a pointer to one an [option]. *)

From S2P Require Import Prelude GoLib Names.

(** ** GPULease *)

(** [GPULeasePhase] is a string; [PhaseOther] is any string but the six constants and
    the empty one. *)
Inductive GPULeasePhase :=
  | PhaseEmpty
  | GPULeasePhasePending
  | GPULeasePhaseAdmitted
  | GPULeasePhaseActivating
  | GPULeasePhaseBound
  | GPULeasePhaseFailed
  | GPULeasePhaseReleasing
  | PhaseOther (s : string).

#[export] Instance GPULeasePhase_eq_dec : EqDecision GPULeasePhase.
Proof. solve_decision. Defined.

Definition ConditionQuotaReserved : string := "QuotaReserved".
Definition ConditionPodActivated : string := "PodActivated".
Definition ConditionReady : string := "Ready".

Definition ReasonQuotaExhaustedOnNode : string := "QuotaExhaustedOnNode".
Definition ReasonNoFreeGPUOnAnyPodNode : string := "NoFreeGPUOnAnyPodNode".
Definition ReasonPodUnreachable : string := "PodUnreachable".
Definition ReasonActivationTimeout : string := "ActivationTimeout".
Definition ReasonPodGone : string := "PodGone".
Definition ReasonNodeMismatch : string := "NodeMismatch".
Definition ReasonQueueMisconfigured : string := "QueueMisconfigured".

Definition DefaultFailedLeaseRetention : Z := 60 * Second.

Record ObjectRef := { ref_Namespace : string; ref_Name : string; ref_UID : string }.

Record GPULeaseSpec := {
  spec_NodeName : string;
  spec_GPUID : Z;
  spec_GPUModel : string;
  spec_ClaimRef : ObjectRef;
  spec_DeploymentRef : ObjectRef;
  spec_LocalQueueName : string;
}.

(** [metav1.ConditionStatus]. *)
Inductive ConditionStatus := ConditionTrue | ConditionFalse | ConditionUnknown.
#[export] Instance ConditionStatus_eq_dec : EqDecision ConditionStatus.
Proof. solve_decision. Defined.

(** [metav1.Condition]. *)
Record Condition := {
  cond_Type : string;
  cond_Status : ConditionStatus;
  cond_ObservedGeneration : Z;
  cond_LastTransitionTime : Z;
  cond_Reason : string;
  cond_Message : string;
}.

Record GPULeaseStatus := {
  st_Phase : GPULeasePhase;
  st_WorkloadName : string;
  st_Message : string;
  st_AdmittedAt : option Z;
  st_BoundAt : option Z;
  st_Conditions : list Condition;
}.

(** The [ObjectMeta] fields the code reads, the spec and the status.  The resource
    version is opaque; only its equality matters. *)
Record GPULease := {
  lease_Name : string;
  lease_ResourceVersion : Z;
  lease_Generation : Z;
  lease_CreationTimestamp : Z;
  lease_DeletionTimestamp : option Z;
  lease_Finalizers : list string;
  lease_Spec : GPULeaseSpec;
  lease_Status : GPULeaseStatus;
}.

#[export] Instance ObjectRef_eq_dec : EqDecision ObjectRef.
Proof. solve_decision. Defined.
#[export] Instance GPULeaseSpec_eq_dec : EqDecision GPULeaseSpec.
Proof. solve_decision. Defined.
#[export] Instance Condition_eq_dec : EqDecision Condition.
Proof. solve_decision. Defined.
#[export] Instance GPULeaseStatus_eq_dec : EqDecision GPULeaseStatus.
Proof. solve_decision. Defined.
#[export] Instance GPULease_eq_dec : EqDecision GPULease.
Proof. solve_decision. Defined.

(** Assignments to a field of a lease. *)
Definition with_status (l : GPULease) (st : GPULeaseStatus) : GPULease :=
  {| lease_Name := lease_Name l; lease_ResourceVersion := lease_ResourceVersion l;
     lease_Generation := lease_Generation l;
     lease_CreationTimestamp := lease_CreationTimestamp l;
     lease_DeletionTimestamp := lease_DeletionTimestamp l;
     lease_Finalizers := lease_Finalizers l; lease_Spec := lease_Spec l; lease_Status := st |}.
Definition with_finalizers (l : GPULease) (fs : list string) : GPULease :=
  {| lease_Name := lease_Name l; lease_ResourceVersion := lease_ResourceVersion l;
     lease_Generation := lease_Generation l;
     lease_CreationTimestamp := lease_CreationTimestamp l;
     lease_DeletionTimestamp := lease_DeletionTimestamp l;
     lease_Finalizers := fs; lease_Spec := lease_Spec l; lease_Status := lease_Status l |}.
Definition with_phase (l : GPULease) (p : GPULeasePhase) : GPULease :=
  with_status l
    {| st_Phase := p; st_WorkloadName := st_WorkloadName (lease_Status l);
       st_Message := st_Message (lease_Status l); st_AdmittedAt := st_AdmittedAt (lease_Status l);
       st_BoundAt := st_BoundAt (lease_Status l); st_Conditions := st_Conditions (lease_Status l) |}.
Definition with_workloadName (l : GPULease) (n : string) : GPULease :=
  with_status l
    {| st_Phase := st_Phase (lease_Status l); st_WorkloadName := n;
       st_Message := st_Message (lease_Status l); st_AdmittedAt := st_AdmittedAt (lease_Status l);
       st_BoundAt := st_BoundAt (lease_Status l); st_Conditions := st_Conditions (lease_Status l) |}.
Definition with_message (l : GPULease) (m : string) : GPULease :=
  with_status l
    {| st_Phase := st_Phase (lease_Status l); st_WorkloadName := st_WorkloadName (lease_Status l);
       st_Message := m; st_AdmittedAt := st_AdmittedAt (lease_Status l);
       st_BoundAt := st_BoundAt (lease_Status l); st_Conditions := st_Conditions (lease_Status l) |}.
Definition with_admittedAt (l : GPULease) (t : option Z) : GPULease :=
  with_status l
    {| st_Phase := st_Phase (lease_Status l); st_WorkloadName := st_WorkloadName (lease_Status l);
       st_Message := st_Message (lease_Status l); st_AdmittedAt := t;
       st_BoundAt := st_BoundAt (lease_Status l); st_Conditions := st_Conditions (lease_Status l) |}.
Definition with_boundAt (l : GPULease) (t : option Z) : GPULease :=
  with_status l
    {| st_Phase := st_Phase (lease_Status l); st_WorkloadName := st_WorkloadName (lease_Status l);
       st_Message := st_Message (lease_Status l); st_AdmittedAt := st_AdmittedAt (lease_Status l);
       st_BoundAt := t; st_Conditions := st_Conditions (lease_Status l) |}.
Definition with_conditions (l : GPULease) (cs : list Condition) : GPULease :=
  with_status l
    {| st_Phase := st_Phase (lease_Status l); st_WorkloadName := st_WorkloadName (lease_Status l);
       st_Message := st_Message (lease_Status l); st_AdmittedAt := st_AdmittedAt (lease_Status l);
       st_BoundAt := st_BoundAt (lease_Status l); st_Conditions := cs |}.

(** ** Pods and nodes *)

(** [corev1.PodPhase] and the type of a pod condition are strings. *)
Definition PodRunning : string := "Running".
Definition PodReady : string := "Ready".
Definition LabelHostname : string := "kubernetes.io/hostname".

Record PodCondition := { pc_Type : string; pc_Status : ConditionStatus }.

Record Pod := {
  pod_Namespace : string;
  pod_Name : string;
  pod_UID : string;
  pod_Labels : gmap string string;
  pod_Annotations : gmap string string;
  pod_CreationTimestamp : Z;
  pod_DeletionTimestamp : option Z;
  pod_NodeName : string;
  pod_Phase : string;
  pod_IP : string;
  pod_Conditions : list PodCondition;
}.
#[export] Instance PodCondition_eq_dec : EqDecision PodCondition.
Proof. solve_decision. Defined.
#[export] Instance Pod_eq_dec : EqDecision Pod.
Proof. solve_decision. Defined.

Definition with_labels (p : Pod) (m : gmap string string) : Pod :=
  {| pod_Namespace := pod_Namespace p; pod_Name := pod_Name p; pod_UID := pod_UID p;
     pod_Labels := m; pod_Annotations := pod_Annotations p;
     pod_CreationTimestamp := pod_CreationTimestamp p;
     pod_DeletionTimestamp := pod_DeletionTimestamp p; pod_NodeName := pod_NodeName p;
     pod_Phase := pod_Phase p; pod_IP := pod_IP p; pod_Conditions := pod_Conditions p |}.
Definition with_annotations (p : Pod) (m : gmap string string) : Pod :=
  {| pod_Namespace := pod_Namespace p; pod_Name := pod_Name p; pod_UID := pod_UID p;
     pod_Labels := pod_Labels p; pod_Annotations := m;
     pod_CreationTimestamp := pod_CreationTimestamp p;
     pod_DeletionTimestamp := pod_DeletionTimestamp p; pod_NodeName := pod_NodeName p;
     pod_Phase := pod_Phase p; pod_IP := pod_IP p; pod_Conditions := pod_Conditions p |}.

Record Node := { node_Name : string; node_Labels : gmap string string }.
#[export] Instance Node_eq_dec : EqDecision Node.
Proof. solve_decision. Defined.

(** ** The types of the Kubernetes libraries that are opaque here *)

(** [metav1.LabelSelector], [labels.Selector] and [resource.Quantity]. *)
Class KubeTypes := {
  LabelSelector : Type;
  Selector : Type;
  Quantity : Type;
}.

Section Objects.
Context `{KubeTypes}.

Record Deployment := {
  dep_Namespace : string;
  dep_Name : string;
  dep_UID : string;
  dep_Annotations : gmap string string;
  dep_Selector : option LabelSelector;
}.

(** ** Kueue objects *)

Record Container := {
  ctr_Name : string;
  ctr_Image : string;
  ctr_Requests : gmap string Quantity;
}.
Record PodTemplateSpec := {
  tpl_RestartPolicy : string;
  tpl_NodeSelector : gmap string string;
  tpl_Containers : list Container;
}.
Record PodSet := { ps_Name : string; ps_Count : Z; ps_Template : PodTemplateSpec }.
Record WorkloadSpec := {
  wls_QueueName : string;
  wls_PodSets : list PodSet;
  wls_PriorityClassName : string;
}.
Record PodSetAssignment := { psa_Name : string; psa_Flavors : gmap string string }.
Record Admission := { adm_ClusterQueue : string; adm_PodSetAssignments : list PodSetAssignment }.
Record WorkloadStatus := { wlst_Conditions : list Condition; wlst_Admission : option Admission }.
Record Workload := {
  wl_Namespace : string;
  wl_Name : string;
  wl_CreationTimestamp : Z;
  wl_OwnerReferences : list string;
  wl_Spec : WorkloadSpec;
  wl_Status : WorkloadStatus;
}.
Record ResourceFlavor := { rf_Name : string; rf_NodeLabels : gmap string string }.

End Objects.

Definition ConditionAdmitted : string := "Admitted".
Definition KueueConditionQuotaReserved : string := "QuotaReserved".
Definition PodSetName : string := "main".

(** ** The functions of the Kubernetes libraries *)

Class KubeLib `{KT : KubeTypes} := {
  (** [metav1.LabelSelectorAsSelector], and the methods of a [labels.Selector]. *)
  LabelSelectorAsSelector : LabelSelector → result Selector;
  sel_Matches : Selector → gmap string string → bool;
  sel_Empty : Selector → bool;
  (** [resource.MustParse]. *)
  MustParse : string → Quantity;
  (** [meta.FindStatusCondition]; [meta.SetStatusCondition] with what [time.Now]
      returns as its first argument. *)
  FindStatusCondition : list Condition → string → option Condition;
  SetStatusCondition : Z → list Condition → Condition → list Condition;
  (** [controllerutil] on a list of finalizers, and the owner reference. *)
  ContainsFinalizer : list string → string → bool;
  AddFinalizer : list string → string → list string;
  RemoveFinalizer : list string → string → list string;
  SetControllerReference : GPULease → Workload → result Workload;
  (** [equality.Semantic.DeepEqual] on two Workload specs. *)
  SemanticDeepEqual : WorkloadSpec → WorkloadSpec → bool;
}.

(** What the documentation of those functions says, as far as the code relies on it.
    A condition passed to [SetStatusCondition] here always has a zero
    LastTransitionTime, which the function then fills in. *)
Class KubeLibLaws `{KL : KubeLib} : Prop := {
  find_set_eq now cs c :
    cond_LastTransitionTime c = 0 →
    FindStatusCondition (SetStatusCondition now cs c) (cond_Type c) =
      Some {| cond_Type := cond_Type c; cond_Status := cond_Status c;
              cond_ObservedGeneration := cond_ObservedGeneration c;
              cond_LastTransitionTime :=
                match FindStatusCondition cs (cond_Type c) with
                | Some old => if bool_decide (cond_Status old = cond_Status c)
                              then cond_LastTransitionTime old else now
                | None => now
                end;
              cond_Reason := cond_Reason c; cond_Message := cond_Message c |};
  find_set_ne now cs c ty :
    ty ≠ cond_Type c →
    FindStatusCondition (SetStatusCondition now cs c) ty = FindStatusCondition cs ty;
  contains_nil f : ContainsFinalizer [] f = false;
  contains_add fs f : ContainsFinalizer (AddFinalizer fs f) f = true;
  contains_remove fs f : ContainsFinalizer (RemoveFinalizer fs f) f = false;
  controller_ref_keeps l w w' :
    SetControllerReference l w = Ok w' →
    wl_Namespace w' = wl_Namespace w ∧ wl_Name w' = wl_Name w ∧ wl_Spec w' = wl_Spec w;
  deep_equal_refl s : SemanticDeepEqual s s = true;
}.
