(* ===== verification/DeepCopy.v ===== *)
(** * Deep copies: [src/api/v1alpha1/zz_generated.deepcopy.go] and
    [src/internal/kueue/v1beta2/zz_generated.deepcopy.go]

    The structs of both packages as they are in memory, with pointers, slices and maps, and
    their generated copy functions.  A cached object is handed out as a deep copy, and the
    base of a patch is one, so what matters is that a copy is equal to the original and
    shares nothing with it.

    The structs of the Kubernetes libraries and their copy functions are parameters
    ([MetaTypes], [MetaCopies]), with the documented behaviour that they copy ([MetaLaws]). *)

From S2P Require Import Prelude GoLib Names Kube GoHeap.

Module DeepCopy.

(** ** Types *)

(** The library types that occur in the structs, their zero values, and the variables of
    library types there can be on the heap. *)
Class MetaTypes := {
  TypeMeta : Type; zero_TypeMeta : TypeMeta;
  ObjectMeta : Type; zero_ObjectMeta : ObjectMeta;
  ListMeta : Type; zero_ListMeta : ListMeta;
  Condition : Type; zero_Condition : Condition;
  Time : Type;
  PodTemplateSpec : Type; zero_PodTemplateSpec : PodTemplateSpec;
  LibObj : Type;
}.

(** The structs, over the types of the fields that are or contain references: with those of
    the code they are what is in memory, with trees they are what that stands for. *)
Record GPULeaseStatusOf (T Cs : Type) := {
  Phase : GPULeasePhase; WorkloadName : string; Message : string;
  AdmittedAt : T; BoundAt : T; Conditions : Cs }.
Record GPULeaseOf (TM OM St : Type) := {
  gl_TypeMeta : TM; gl_ObjectMeta : OM; gl_Spec : GPULeaseSpec; gl_Status : St }.
Record ListOf (TM LM Is : Type) := { li_TypeMeta : TM; li_ListMeta : LM; Items : Is }.
Record PodSetAssignmentOf (Fl : Type) := { psa_Name : string; Flavors : Fl }.
Record AdmissionOf (As : Type) := { ClusterQueue : string; PodSetAssignments : As }.
Record PodSetOf (Te : Type) := { ps_Name : string; Count : Z; Template : Te }.
Record WorkloadSpecOf (Ps : Type) := { QueueName : string; PodSets : Ps; PriorityClassName : string }.
Record WorkloadStatusOf (Cs Ad : Type) := { wls_Conditions : Cs; wls_Admission : Ad }.
Record WorkloadOf (TM OM Sp St : Type) := {
  wl_TypeMeta : TM; wl_ObjectMeta : OM; wl_Spec : Sp; wl_Status : St }.
Record ResourceFlavorSpecOf (Ls : Type) := { NodeLabels : Ls }.
Record ResourceFlavorOf (TM OM Sp : Type) := { rf_TypeMeta : TM; rf_ObjectMeta : OM; rf_Spec : Sp }.

#[global] Arguments Phase {T Cs} _.
#[global] Arguments WorkloadName {T Cs} _.
#[global] Arguments Message {T Cs} _.
#[global] Arguments AdmittedAt {T Cs} _.
#[global] Arguments BoundAt {T Cs} _.
#[global] Arguments Conditions {T Cs} _.
#[global] Arguments gl_TypeMeta {TM OM St} _.
#[global] Arguments gl_ObjectMeta {TM OM St} _.
#[global] Arguments gl_Spec {TM OM St} _.
#[global] Arguments gl_Status {TM OM St} _.
#[global] Arguments li_TypeMeta {TM LM Is} _.
#[global] Arguments li_ListMeta {TM LM Is} _.
#[global] Arguments Items {TM LM Is} _.
#[global] Arguments psa_Name {Fl} _.
#[global] Arguments Flavors {Fl} _.
#[global] Arguments ClusterQueue {As} _.
#[global] Arguments PodSetAssignments {As} _.
#[global] Arguments ps_Name {Te} _.
#[global] Arguments Count {Te} _.
#[global] Arguments Template {Te} _.
#[global] Arguments QueueName {Ps} _.
#[global] Arguments PodSets {Ps} _.
#[global] Arguments PriorityClassName {Ps} _.
#[global] Arguments wls_Conditions {Cs Ad} _.
#[global] Arguments wls_Admission {Cs Ad} _.
#[global] Arguments wl_TypeMeta {TM OM Sp St} _.
#[global] Arguments wl_ObjectMeta {TM OM Sp St} _.
#[global] Arguments wl_Spec {TM OM Sp St} _.
#[global] Arguments wl_Status {TM OM Sp St} _.
#[global] Arguments NodeLabels {Ls} _.
#[global] Arguments rf_TypeMeta {TM OM Sp} _.
#[global] Arguments rf_ObjectMeta {TM OM Sp} _.
#[global] Arguments rf_Spec {TM OM Sp} _.

Section Types.
Context `{MT : MetaTypes}.

(** The types of the code. *)
Definition GPULeaseStatus := GPULeaseStatusOf (ptr Time) (slice Condition).
Definition GPULease := GPULeaseOf TypeMeta ObjectMeta GPULeaseStatus.
Definition GPULeaseList := ListOf TypeMeta ListMeta (slice GPULease).
Definition PodSetAssignment := PodSetAssignmentOf strmap.
Definition Admission := AdmissionOf (slice PodSetAssignment).
Definition PodSet := PodSetOf PodTemplateSpec.
Definition WorkloadSpec := WorkloadSpecOf (slice PodSet).
Definition WorkloadStatus := WorkloadStatusOf (slice Condition) (ptr Admission).
Definition Workload := WorkloadOf TypeMeta ObjectMeta WorkloadSpec WorkloadStatus.
Definition WorkloadList := ListOf TypeMeta ListMeta (slice Workload).
Definition ResourceFlavorSpec := ResourceFlavorSpecOf strmap.
Definition ResourceFlavor := ResourceFlavorOf TypeMeta ObjectMeta ResourceFlavorSpec.
Definition ResourceFlavorList := ListOf TypeMeta ListMeta (slice ResourceFlavor).

(** What there is on the heap: variables of these types, arrays, maps, and what belongs to
    the libraries. *)
Inductive obj :=
  | ODeploymentSettings (x : DeploymentSettings) | OObjectRef (x : ObjectRef)
  | OGPULeaseSpec (x : GPULeaseSpec) | OGPULeaseStatus (x : GPULeaseStatus)
  | OGPULease (x : GPULease) | OGPULeaseList (x : GPULeaseList)
  | OPodSetAssignment (x : PodSetAssignment) | OAdmission (x : Admission) | OPodSet (x : PodSet)
  | OWorkloadSpec (x : WorkloadSpec) | OWorkloadStatus (x : WorkloadStatus)
  | OWorkload (x : Workload) | OWorkloadList (x : WorkloadList)
  | OResourceFlavorSpec (x : ResourceFlavorSpec)
  | OResourceFlavor (x : ResourceFlavor) | OResourceFlavorList (x : ResourceFlavorList)
  | OTime (x : Time)
  | AConditions (x : list Condition) | AGPULeases (x : list GPULease)
  | APodSetAssignments (x : list PodSetAssignment) | APodSets (x : list PodSet)
  | AWorkloads (x : list Workload) | AResourceFlavors (x : list ResourceFlavor)
  | OMap (x : gmap string string)
  | OLib (x : LibObj).

End Types.

Section Copies.
Context `{MT : MetaTypes}.
#[local] Abbreviation M := (@HeapM obj).

(** ** Variables *)

#[export] Instance DeploymentSettings_storable : Storable (obj:=obj) DeploymentSettings :=
  {| box := ODeploymentSettings; unbox o := match o with ODeploymentSettings x => Some x | _ => None end; unbox_box x := eq_refl |}.
#[export] Instance ObjectRef_storable : Storable (obj:=obj) ObjectRef :=
  {| box := OObjectRef; unbox o := match o with OObjectRef x => Some x | _ => None end; unbox_box x := eq_refl |}.
#[export] Instance GPULeaseSpec_storable : Storable (obj:=obj) GPULeaseSpec :=
  {| box := OGPULeaseSpec; unbox o := match o with OGPULeaseSpec x => Some x | _ => None end; unbox_box x := eq_refl |}.
#[export] Instance GPULeaseStatus_storable : Storable (obj:=obj) GPULeaseStatus :=
  {| box := OGPULeaseStatus; unbox o := match o with OGPULeaseStatus x => Some x | _ => None end; unbox_box x := eq_refl |}.
#[export] Instance GPULease_storable : Storable (obj:=obj) GPULease :=
  {| box := OGPULease; unbox o := match o with OGPULease x => Some x | _ => None end; unbox_box x := eq_refl |}.
#[export] Instance GPULeaseList_storable : Storable (obj:=obj) GPULeaseList :=
  {| box := OGPULeaseList; unbox o := match o with OGPULeaseList x => Some x | _ => None end; unbox_box x := eq_refl |}.
#[export] Instance PodSetAssignment_storable : Storable (obj:=obj) PodSetAssignment :=
  {| box := OPodSetAssignment; unbox o := match o with OPodSetAssignment x => Some x | _ => None end; unbox_box x := eq_refl |}.
#[export] Instance Admission_storable : Storable (obj:=obj) Admission :=
  {| box := OAdmission; unbox o := match o with OAdmission x => Some x | _ => None end; unbox_box x := eq_refl |}.
#[export] Instance PodSet_storable : Storable (obj:=obj) PodSet :=
  {| box := OPodSet; unbox o := match o with OPodSet x => Some x | _ => None end; unbox_box x := eq_refl |}.
#[export] Instance WorkloadSpec_storable : Storable (obj:=obj) WorkloadSpec :=
  {| box := OWorkloadSpec; unbox o := match o with OWorkloadSpec x => Some x | _ => None end; unbox_box x := eq_refl |}.
#[export] Instance WorkloadStatus_storable : Storable (obj:=obj) WorkloadStatus :=
  {| box := OWorkloadStatus; unbox o := match o with OWorkloadStatus x => Some x | _ => None end; unbox_box x := eq_refl |}.
#[export] Instance Workload_storable : Storable (obj:=obj) Workload :=
  {| box := OWorkload; unbox o := match o with OWorkload x => Some x | _ => None end; unbox_box x := eq_refl |}.
#[export] Instance WorkloadList_storable : Storable (obj:=obj) WorkloadList :=
  {| box := OWorkloadList; unbox o := match o with OWorkloadList x => Some x | _ => None end; unbox_box x := eq_refl |}.
#[export] Instance ResourceFlavorSpec_storable : Storable (obj:=obj) ResourceFlavorSpec :=
  {| box := OResourceFlavorSpec; unbox o := match o with OResourceFlavorSpec x => Some x | _ => None end; unbox_box x := eq_refl |}.
#[export] Instance ResourceFlavor_storable : Storable (obj:=obj) ResourceFlavor :=
  {| box := OResourceFlavor; unbox o := match o with OResourceFlavor x => Some x | _ => None end; unbox_box x := eq_refl |}.
#[export] Instance ResourceFlavorList_storable : Storable (obj:=obj) ResourceFlavorList :=
  {| box := OResourceFlavorList; unbox o := match o with OResourceFlavorList x => Some x | _ => None end; unbox_box x := eq_refl |}.
#[export] Instance Time_storable : Storable (obj:=obj) Time :=
  {| box := OTime; unbox o := match o with OTime x => Some x | _ => None end; unbox_box x := eq_refl |}.
#[export] Instance Condition_array_storable : Storable (obj:=obj) (list Condition) :=
  {| box := AConditions; unbox o := match o with AConditions x => Some x | _ => None end; unbox_box x := eq_refl |}.
#[export] Instance GPULease_array_storable : Storable (obj:=obj) (list GPULease) :=
  {| box := AGPULeases; unbox o := match o with AGPULeases x => Some x | _ => None end; unbox_box x := eq_refl |}.
#[export] Instance PodSetAssignment_array_storable : Storable (obj:=obj) (list PodSetAssignment) :=
  {| box := APodSetAssignments; unbox o := match o with APodSetAssignments x => Some x | _ => None end; unbox_box x := eq_refl |}.
#[export] Instance PodSet_array_storable : Storable (obj:=obj) (list PodSet) :=
  {| box := APodSets; unbox o := match o with APodSets x => Some x | _ => None end; unbox_box x := eq_refl |}.
#[export] Instance Workload_array_storable : Storable (obj:=obj) (list Workload) :=
  {| box := AWorkloads; unbox o := match o with AWorkloads x => Some x | _ => None end; unbox_box x := eq_refl |}.
#[export] Instance ResourceFlavor_array_storable : Storable (obj:=obj) (list ResourceFlavor) :=
  {| box := AResourceFlavors; unbox o := match o with AResourceFlavors x => Some x | _ => None end; unbox_box x := eq_refl |}.
#[export] Instance map_storable : Storable (obj:=obj) (gmap string string) :=
  {| box := OMap; unbox o := match o with OMap x => Some x | _ => None end; unbox_box x := eq_refl |}.

(** ** The libraries *)

(** What the library types stand for, and their copy functions.  [TypeMeta] is two strings,
    and is copied by assignment. *)
Class MetaCopies := {
  #[global] ObjectMeta_view :: Viewable (obj:=obj) ObjectMeta;
  #[global] ListMeta_view :: Viewable (obj:=obj) ListMeta;
  #[global] Condition_view :: Viewable (obj:=obj) Condition;
  #[global] Time_view :: Viewable (obj:=obj) Time;
  #[global] PodTemplateSpec_view :: Viewable (obj:=obj) PodTemplateSpec;
  ObjectMeta_DeepCopyInto : ObjectMeta → M ObjectMeta;
  ListMeta_DeepCopyInto : ListMeta → M ListMeta;
  Condition_DeepCopyInto : Condition → M Condition;
  Time_DeepCopy : ptr Time → M (ptr Time);
  PodTemplateSpec_DeepCopyInto : PodTemplateSpec → M PodTemplateSpec;
}.

Class MetaLaws `{MC : MetaCopies} : Prop := {
  #[global] ObjectMeta_laws :: ViewLaws ObjectMeta;
  #[global] ListMeta_laws :: ViewLaws ListMeta;
  #[global] Condition_laws :: ViewLaws Condition;
  #[global] Time_laws :: ViewLaws Time;
  #[global] PodTemplateSpec_laws :: ViewLaws PodTemplateSpec;
  ObjectMeta_copier : copier ObjectMeta_DeepCopyInto;
  ListMeta_copier : copier ListMeta_DeepCopyInto;
  Condition_copier : copier Condition_DeepCopyInto;
  Time_copier : copier Time_DeepCopy;
  PodTemplateSpec_copier : copier PodTemplateSpec_DeepCopyInto;
}.

Context `{MC : MetaCopies}.

(** ** What the structs stand for *)

#[export] Instance TypeMeta_view : Viewable (obj:=obj) TypeMeta := plain_view TypeMeta.
#[export] Instance DeploymentSettings_view : Viewable (obj:=obj) DeploymentSettings := plain_view DeploymentSettings.
#[export] Instance ObjectRef_view : Viewable (obj:=obj) ObjectRef := plain_view ObjectRef.
#[export] Instance GPULeaseSpec_view : Viewable (obj:=obj) GPULeaseSpec := plain_view GPULeaseSpec.
#[export] Instance GPULeaseStatus_view : Viewable GPULeaseStatus := {|
  tree := GPULeaseStatusOf (tree (ptr Time)) (tree (slice Condition));
  view h x :=
    '(admittedAt, F1) ← view h (AdmittedAt x);
    '(boundAt, F2) ← view h (BoundAt x);
    '(conditions, F3) ← view h (Conditions x);
    Some ({| Phase := Phase x; WorkloadName := WorkloadName x; Message := Message x; AdmittedAt :=
          admittedAt; BoundAt := boundAt; Conditions := conditions |}, F1 ∪ F2 ∪ F3);
|}.
#[export] Instance GPULease_view : Viewable GPULease := {|
  tree := GPULeaseOf TypeMeta (tree ObjectMeta) (tree GPULeaseStatus);
  view h x :=
    '(objectMeta, F1) ← view h (gl_ObjectMeta x);
    '(status, F2) ← view h (gl_Status x);
    Some ({| gl_TypeMeta := gl_TypeMeta x; gl_ObjectMeta := objectMeta; gl_Spec := gl_Spec x;
          gl_Status := status |}, F1 ∪ F2);
|}.
#[export] Instance GPULeaseList_view : Viewable GPULeaseList := {|
  tree := ListOf TypeMeta (tree ListMeta) (tree (slice GPULease));
  view h x :=
    '(listMeta, F1) ← view h (li_ListMeta x);
    '(items, F2) ← view h (Items x);
    Some ({| li_TypeMeta := li_TypeMeta x; li_ListMeta := listMeta; Items := items |}, F1 ∪ F2);
|}.
#[export] Instance PodSetAssignment_view : Viewable PodSetAssignment := {|
  tree := PodSetAssignmentOf (tree strmap);
  view h x :=
    '(flavors, F1) ← view h (Flavors x);
    Some ({| psa_Name := psa_Name x; Flavors := flavors |}, F1);
|}.
#[export] Instance Admission_view : Viewable Admission := {|
  tree := AdmissionOf (tree (slice PodSetAssignment));
  view h x :=
    '(podSetAssignments, F1) ← view h (PodSetAssignments x);
    Some ({| ClusterQueue := ClusterQueue x; PodSetAssignments := podSetAssignments |}, F1);
|}.
#[export] Instance PodSet_view : Viewable PodSet := {|
  tree := PodSetOf (tree PodTemplateSpec);
  view h x :=
    '(template, F1) ← view h (Template x);
    Some ({| ps_Name := ps_Name x; Count := Count x; Template := template |}, F1);
|}.
#[export] Instance WorkloadSpec_view : Viewable WorkloadSpec := {|
  tree := WorkloadSpecOf (tree (slice PodSet));
  view h x :=
    '(podSets, F1) ← view h (PodSets x);
    Some ({| QueueName := QueueName x; PodSets := podSets; PriorityClassName := PriorityClassName
          x |}, F1);
|}.
#[export] Instance WorkloadStatus_view : Viewable WorkloadStatus := {|
  tree := WorkloadStatusOf (tree (slice Condition)) (tree (ptr Admission));
  view h x :=
    '(conditions, F1) ← view h (wls_Conditions x);
    '(admission, F2) ← view h (wls_Admission x);
    Some ({| wls_Conditions := conditions; wls_Admission := admission |}, F1 ∪ F2);
|}.
#[export] Instance Workload_view : Viewable Workload := {|
  tree := WorkloadOf TypeMeta (tree ObjectMeta) (tree WorkloadSpec) (tree WorkloadStatus);
  view h x :=
    '(objectMeta, F1) ← view h (wl_ObjectMeta x);
    '(spec, F2) ← view h (wl_Spec x);
    '(status, F3) ← view h (wl_Status x);
    Some ({| wl_TypeMeta := wl_TypeMeta x; wl_ObjectMeta := objectMeta; wl_Spec := spec; wl_Status
          := status |}, F1 ∪ F2 ∪ F3);
|}.
#[export] Instance WorkloadList_view : Viewable WorkloadList := {|
  tree := ListOf TypeMeta (tree ListMeta) (tree (slice Workload));
  view h x :=
    '(listMeta, F1) ← view h (li_ListMeta x);
    '(items, F2) ← view h (Items x);
    Some ({| li_TypeMeta := li_TypeMeta x; li_ListMeta := listMeta; Items := items |}, F1 ∪ F2);
|}.
#[export] Instance ResourceFlavorSpec_view : Viewable ResourceFlavorSpec := {|
  tree := ResourceFlavorSpecOf (tree strmap);
  view h x :=
    '(nodeLabels, F1) ← view h (NodeLabels x);
    Some ({| NodeLabels := nodeLabels |}, F1);
|}.
#[export] Instance ResourceFlavor_view : Viewable ResourceFlavor := {|
  tree := ResourceFlavorOf TypeMeta (tree ObjectMeta) (tree ResourceFlavorSpec);
  view h x :=
    '(objectMeta, F1) ← view h (rf_ObjectMeta x);
    '(spec, F2) ← view h (rf_Spec x);
    Some ({| rf_TypeMeta := rf_TypeMeta x; rf_ObjectMeta := objectMeta; rf_Spec := spec |}, F1 ∪
          F2);
|}.
#[export] Instance ResourceFlavorList_view : Viewable ResourceFlavorList := {|
  tree := ListOf TypeMeta (tree ListMeta) (tree (slice ResourceFlavor));
  view h x :=
    '(listMeta, F1) ← view h (li_ListMeta x);
    '(items, F2) ← view h (Items x);
    Some ({| li_TypeMeta := li_TypeMeta x; li_ListMeta := listMeta; Items := items |}, F1 ∪ F2);
|}.

(** ** Zero values *)

Definition zero_ObjectRef : ObjectRef := {| ref_Namespace := ""; ref_Name := ""; ref_UID := "" |}.
Definition zero_DeploymentSettings : DeploymentSettings :=
  {| WarmReplicas := 0; MinHotReplicas := 0; LocalQueueName := ""; PodCapacityRPS := 0;
     ActivationTimeout := 0; AdmissionTimeout := 0 |}.
Definition zero_GPULeaseSpec : GPULeaseSpec :=
  {| spec_NodeName := ""; spec_GPUID := 0; spec_GPUModel := ""; spec_ClaimRef := zero_ObjectRef;
     spec_DeploymentRef := zero_ObjectRef; spec_LocalQueueName := "" |}.
Definition zero_GPULeaseStatus : GPULeaseStatus := {| Phase := PhaseEmpty; WorkloadName := "";
     Message := ""; AdmittedAt := Nil; BoundAt := Nil; Conditions := NilSlice |}.
Definition zero_GPULease : GPULease := {| gl_TypeMeta := zero_TypeMeta; gl_ObjectMeta :=
     zero_ObjectMeta; gl_Spec := zero_GPULeaseSpec; gl_Status := zero_GPULeaseStatus |}.
Definition zero_GPULeaseList : GPULeaseList := {| li_TypeMeta := zero_TypeMeta; li_ListMeta :=
     zero_ListMeta; Items := NilSlice |}.
Definition zero_PodSetAssignment : PodSetAssignment := {| psa_Name := ""; Flavors := NilMap |}.
Definition zero_Admission : Admission := {| ClusterQueue := ""; PodSetAssignments := NilSlice
     |}.
Definition zero_PodSet : PodSet := {| ps_Name := ""; Count := 0; Template :=
     zero_PodTemplateSpec |}.
Definition zero_WorkloadSpec : WorkloadSpec := {| QueueName := ""; PodSets := NilSlice;
     PriorityClassName := "" |}.
Definition zero_WorkloadStatus : WorkloadStatus := {| wls_Conditions := NilSlice; wls_Admission
     := Nil |}.
Definition zero_Workload : Workload := {| wl_TypeMeta := zero_TypeMeta; wl_ObjectMeta :=
     zero_ObjectMeta; wl_Spec := zero_WorkloadSpec; wl_Status := zero_WorkloadStatus |}.
Definition zero_WorkloadList : WorkloadList := {| li_TypeMeta := zero_TypeMeta; li_ListMeta :=
     zero_ListMeta; Items := NilSlice |}.
Definition zero_ResourceFlavorSpec : ResourceFlavorSpec := {| NodeLabels := NilMap |}.
Definition zero_ResourceFlavor : ResourceFlavor := {| rf_TypeMeta := zero_TypeMeta;
     rf_ObjectMeta := zero_ObjectMeta; rf_Spec := zero_ResourceFlavorSpec |}.
Definition zero_ResourceFlavorList : ResourceFlavorList := {| li_TypeMeta := zero_TypeMeta;
     li_ListMeta := zero_ListMeta; Items := NilSlice |}.

(** ** [DeepCopyInto]

    The value that [*out] has at the end: first [*in], then with fields replaced by copies. *)

(** A pointer to a time that is not nil. *)
Definition copy_time (p : ptr Time) : M (ptr Time) :=
  match p with
  | Nil => mret Nil
  | Ref _ => Time_DeepCopy p
  end.

Definition DeploymentSettings_DeepCopyInto (x : DeploymentSettings) : M DeploymentSettings := mret x.
Definition ObjectRef_DeepCopyInto (x : ObjectRef) : M ObjectRef := mret x.
(** Both references are structs of strings, and are assigned. *)
Definition GPULeaseSpec_DeepCopyInto (x : GPULeaseSpec) : M GPULeaseSpec :=
  mret {| spec_NodeName := spec_NodeName x; spec_GPUID := spec_GPUID x; spec_GPUModel := spec_GPUModel x;
          spec_ClaimRef := spec_ClaimRef x; spec_DeploymentRef := spec_DeploymentRef x;
          spec_LocalQueueName := spec_LocalQueueName x |}.
Definition GPULeaseStatus_DeepCopyInto (x : GPULeaseStatus) : M GPULeaseStatus :=
  admittedAt ← copy_time (AdmittedAt x);
  boundAt ← copy_time (BoundAt x);
  conditions ← copy_slice zero_Condition Condition_DeepCopyInto (Conditions x);
  mret {| Phase := Phase x; WorkloadName := WorkloadName x; Message := Message x; AdmittedAt
          := admittedAt; BoundAt := boundAt; Conditions := conditions |}.
Definition GPULease_DeepCopyInto (x : GPULease) : M GPULease :=
  objectMeta ← ObjectMeta_DeepCopyInto (gl_ObjectMeta x);
  status ← GPULeaseStatus_DeepCopyInto (gl_Status x);
  mret {| gl_TypeMeta := gl_TypeMeta x; gl_ObjectMeta := objectMeta; gl_Spec := gl_Spec x;
          gl_Status := status |}.
Definition GPULeaseList_DeepCopyInto (x : GPULeaseList) : M GPULeaseList :=
  listMeta ← ListMeta_DeepCopyInto (li_ListMeta x);
  items ← copy_slice zero_GPULease GPULease_DeepCopyInto (Items x);
  mret {| li_TypeMeta := li_TypeMeta x; li_ListMeta := listMeta; Items := items |}.
Definition PodSetAssignment_DeepCopyInto (x : PodSetAssignment) : M PodSetAssignment :=
  flavors ← copy_map (Flavors x);
  mret {| psa_Name := psa_Name x; Flavors := flavors |}.
Definition Admission_DeepCopyInto (x : Admission) : M Admission :=
  podSetAssignments ← copy_slice zero_PodSetAssignment PodSetAssignment_DeepCopyInto (PodSetAssignments x);
  mret {| ClusterQueue := ClusterQueue x; PodSetAssignments := podSetAssignments |}.
Definition PodSet_DeepCopyInto (x : PodSet) : M PodSet :=
  template ← PodTemplateSpec_DeepCopyInto (Template x);
  mret {| ps_Name := ps_Name x; Count := Count x; Template := template |}.
Definition WorkloadSpec_DeepCopyInto (x : WorkloadSpec) : M WorkloadSpec :=
  podSets ← copy_slice zero_PodSet PodSet_DeepCopyInto (PodSets x);
  mret {| QueueName := QueueName x; PodSets := podSets; PriorityClassName := PriorityClassName
          x |}.
Definition WorkloadStatus_DeepCopyInto (x : WorkloadStatus) : M WorkloadStatus :=
  conditions ← copy_slice zero_Condition Condition_DeepCopyInto (wls_Conditions x);
  admission ← copy_ptr zero_Admission Admission_DeepCopyInto (wls_Admission x);
  mret {| wls_Conditions := conditions; wls_Admission := admission |}.
Definition Workload_DeepCopyInto (x : Workload) : M Workload :=
  objectMeta ← ObjectMeta_DeepCopyInto (wl_ObjectMeta x);
  spec ← WorkloadSpec_DeepCopyInto (wl_Spec x);
  status ← WorkloadStatus_DeepCopyInto (wl_Status x);
  mret {| wl_TypeMeta := wl_TypeMeta x; wl_ObjectMeta := objectMeta; wl_Spec := spec;
          wl_Status := status |}.
Definition WorkloadList_DeepCopyInto (x : WorkloadList) : M WorkloadList :=
  listMeta ← ListMeta_DeepCopyInto (li_ListMeta x);
  items ← copy_slice zero_Workload Workload_DeepCopyInto (Items x);
  mret {| li_TypeMeta := li_TypeMeta x; li_ListMeta := listMeta; Items := items |}.
Definition ResourceFlavorSpec_DeepCopyInto (x : ResourceFlavorSpec) : M ResourceFlavorSpec :=
  nodeLabels ← copy_map (NodeLabels x);
  mret {| NodeLabels := nodeLabels |}.
Definition ResourceFlavor_DeepCopyInto (x : ResourceFlavor) : M ResourceFlavor :=
  objectMeta ← ObjectMeta_DeepCopyInto (rf_ObjectMeta x);
  spec ← ResourceFlavorSpec_DeepCopyInto (rf_Spec x);
  mret {| rf_TypeMeta := rf_TypeMeta x; rf_ObjectMeta := objectMeta; rf_Spec := spec |}.
Definition ResourceFlavorList_DeepCopyInto (x : ResourceFlavorList) : M ResourceFlavorList :=
  listMeta ← ListMeta_DeepCopyInto (li_ListMeta x);
  items ← copy_slice zero_ResourceFlavor ResourceFlavor_DeepCopyInto (Items x);
  mret {| li_TypeMeta := li_TypeMeta x; li_ListMeta := listMeta; Items := items |}.

(** ** [DeepCopy] *)

Definition DeploymentSettings_DeepCopy : ptr DeploymentSettings → M (ptr DeploymentSettings) :=
  copy_ptr zero_DeploymentSettings DeploymentSettings_DeepCopyInto.
Definition ObjectRef_DeepCopy : ptr ObjectRef → M (ptr ObjectRef) :=
  copy_ptr zero_ObjectRef ObjectRef_DeepCopyInto.
Definition GPULeaseSpec_DeepCopy : ptr GPULeaseSpec → M (ptr GPULeaseSpec) :=
  copy_ptr zero_GPULeaseSpec GPULeaseSpec_DeepCopyInto.
Definition GPULeaseStatus_DeepCopy : ptr GPULeaseStatus → M (ptr GPULeaseStatus) :=
  copy_ptr zero_GPULeaseStatus GPULeaseStatus_DeepCopyInto.
Definition GPULease_DeepCopy : ptr GPULease → M (ptr GPULease) :=
  copy_ptr zero_GPULease GPULease_DeepCopyInto.
Definition GPULeaseList_DeepCopy : ptr GPULeaseList → M (ptr GPULeaseList) :=
  copy_ptr zero_GPULeaseList GPULeaseList_DeepCopyInto.
Definition PodSetAssignment_DeepCopy : ptr PodSetAssignment → M (ptr PodSetAssignment) :=
  copy_ptr zero_PodSetAssignment PodSetAssignment_DeepCopyInto.
Definition Admission_DeepCopy : ptr Admission → M (ptr Admission) :=
  copy_ptr zero_Admission Admission_DeepCopyInto.
Definition PodSet_DeepCopy : ptr PodSet → M (ptr PodSet) :=
  copy_ptr zero_PodSet PodSet_DeepCopyInto.
Definition WorkloadSpec_DeepCopy : ptr WorkloadSpec → M (ptr WorkloadSpec) :=
  copy_ptr zero_WorkloadSpec WorkloadSpec_DeepCopyInto.
Definition WorkloadStatus_DeepCopy : ptr WorkloadStatus → M (ptr WorkloadStatus) :=
  copy_ptr zero_WorkloadStatus WorkloadStatus_DeepCopyInto.
Definition Workload_DeepCopy : ptr Workload → M (ptr Workload) :=
  copy_ptr zero_Workload Workload_DeepCopyInto.
Definition WorkloadList_DeepCopy : ptr WorkloadList → M (ptr WorkloadList) :=
  copy_ptr zero_WorkloadList WorkloadList_DeepCopyInto.
Definition ResourceFlavorSpec_DeepCopy : ptr ResourceFlavorSpec → M (ptr ResourceFlavorSpec) :=
  copy_ptr zero_ResourceFlavorSpec ResourceFlavorSpec_DeepCopyInto.
Definition ResourceFlavor_DeepCopy : ptr ResourceFlavor → M (ptr ResourceFlavor) :=
  copy_ptr zero_ResourceFlavor ResourceFlavor_DeepCopyInto.
Definition ResourceFlavorList_DeepCopy : ptr ResourceFlavorList → M (ptr ResourceFlavorList) :=
  copy_ptr zero_ResourceFlavorList ResourceFlavorList_DeepCopyInto.

(** ** [DeepCopyObject] *)

(** A [runtime.Object] that is one of the registered types. *)
Inductive Object :=
  | ObjGPULease (p : ptr GPULease) | ObjGPULeaseList (p : ptr GPULeaseList)
  | ObjWorkload (p : ptr Workload) | ObjWorkloadList (p : ptr WorkloadList)
  | ObjResourceFlavor (p : ptr ResourceFlavor) | ObjResourceFlavorList (p : ptr ResourceFlavorList).

(** A pointer as an interface value; the nil pointer becomes the nil interface, [None], not
    an interface with a nil pointer in it. *)
Definition as_object {T} (obj_of : ptr T → Object) (c : ptr T) : option Object :=
  match c with
  | Nil => None
  | Ref _ => Some (obj_of c)
  end.
Definition GPULease_DeepCopyObject (x : ptr GPULease) : M (option Object) :=
  c ← GPULease_DeepCopy x; mret (as_object ObjGPULease c).
Definition GPULeaseList_DeepCopyObject (x : ptr GPULeaseList) : M (option Object) :=
  c ← GPULeaseList_DeepCopy x; mret (as_object ObjGPULeaseList c).
Definition Workload_DeepCopyObject (x : ptr Workload) : M (option Object) :=
  c ← Workload_DeepCopy x; mret (as_object ObjWorkload c).
Definition WorkloadList_DeepCopyObject (x : ptr WorkloadList) : M (option Object) :=
  c ← WorkloadList_DeepCopy x; mret (as_object ObjWorkloadList c).
Definition ResourceFlavor_DeepCopyObject (x : ptr ResourceFlavor) : M (option Object) :=
  c ← ResourceFlavor_DeepCopy x; mret (as_object ObjResourceFlavor c).
Definition ResourceFlavorList_DeepCopyObject (x : ptr ResourceFlavorList) : M (option Object) :=
  c ← ResourceFlavorList_DeepCopy x; mret (as_object ObjResourceFlavorList c).
(** The method of an object. *)
Definition DeepCopyObject (o : Object) : M (option Object) :=
  match o with
  | ObjGPULease p => GPULease_DeepCopyObject p
  | ObjGPULeaseList p => GPULeaseList_DeepCopyObject p
  | ObjWorkload p => Workload_DeepCopyObject p
  | ObjWorkloadList p => WorkloadList_DeepCopyObject p
  | ObjResourceFlavor p => ResourceFlavor_DeepCopyObject p
  | ObjResourceFlavorList p => ResourceFlavorList_DeepCopyObject p
  end.

(** The tree of an object, by its type. *)
Inductive object_tree :=
  | TreeGPULease (t : option (tree GPULease))
  | TreeGPULeaseList (t : option (tree GPULeaseList))
  | TreeWorkload (t : option (tree Workload))
  | TreeWorkloadList (t : option (tree WorkloadList))
  | TreeResourceFlavor (t : option (tree ResourceFlavor))
  | TreeResourceFlavorList (t : option (tree ResourceFlavorList)).
#[export] Instance Object_view : Viewable Object := {|
  tree := object_tree;
  view h o :=
    match o with
    | ObjGPULease p => '(t, F) ← view h p; Some (TreeGPULease t, F)
    | ObjGPULeaseList p => '(t, F) ← view h p; Some (TreeGPULeaseList t, F)
    | ObjWorkload p => '(t, F) ← view h p; Some (TreeWorkload t, F)
    | ObjWorkloadList p => '(t, F) ← view h p; Some (TreeWorkloadList t, F)
    | ObjResourceFlavor p => '(t, F) ← view h p; Some (TreeResourceFlavor t, F)
    | ObjResourceFlavorList p => '(t, F) ← view h p; Some (TreeResourceFlavorList t, F)
    end;
|}.
Definition is_nil (o : Object) : bool :=
  match o with
  | ObjGPULease Nil | ObjGPULeaseList Nil | ObjWorkload Nil
  | ObjWorkloadList Nil | ObjResourceFlavor Nil | ObjResourceFlavorList Nil => true
  | _ => false
  end.

(** ** Laws *)

#[export] Instance TypeMeta_laws : ViewLaws TypeMeta := plain_laws _.
#[export] Instance DeploymentSettings_laws : ViewLaws DeploymentSettings := plain_laws _.
#[export] Instance ObjectRef_laws : ViewLaws ObjectRef := plain_laws _.
#[export] Instance GPULeaseSpec_laws : ViewLaws GPULeaseSpec := plain_laws _.

Context `{!MetaLaws}.

#[export] Instance GPULeaseStatus_laws : ViewLaws GPULeaseStatus.
Proof. struct_laws GPULeaseStatus_view. Qed.
#[export] Instance GPULease_laws : ViewLaws GPULease.
Proof. struct_laws GPULease_view. Qed.
#[export] Instance GPULeaseList_laws : ViewLaws GPULeaseList.
Proof. struct_laws GPULeaseList_view. Qed.
#[export] Instance PodSetAssignment_laws : ViewLaws PodSetAssignment.
Proof. struct_laws PodSetAssignment_view. Qed.
#[export] Instance Admission_laws : ViewLaws Admission.
Proof. struct_laws Admission_view. Qed.
#[export] Instance PodSet_laws : ViewLaws PodSet.
Proof. struct_laws PodSet_view. Qed.
#[export] Instance WorkloadSpec_laws : ViewLaws WorkloadSpec.
Proof. struct_laws WorkloadSpec_view. Qed.
#[export] Instance WorkloadStatus_laws : ViewLaws WorkloadStatus.
Proof. struct_laws WorkloadStatus_view. Qed.
#[export] Instance Workload_laws : ViewLaws Workload.
Proof. struct_laws Workload_view. Qed.
#[export] Instance WorkloadList_laws : ViewLaws WorkloadList.
Proof. struct_laws WorkloadList_view. Qed.
#[export] Instance ResourceFlavorSpec_laws : ViewLaws ResourceFlavorSpec.
Proof. struct_laws ResourceFlavorSpec_view. Qed.
#[export] Instance ResourceFlavor_laws : ViewLaws ResourceFlavor.
Proof. struct_laws ResourceFlavor_view. Qed.
#[export] Instance ResourceFlavorList_laws : ViewLaws ResourceFlavorList.
Proof. struct_laws ResourceFlavorList_view. Qed.
#[export] Instance Object_laws : ViewLaws Object.
Proof.
  split.
  - intros h h' o d F Hv Ha. unfold Object_view in *. destruct o; cbn [view] in *; view_fields Hv;
      injection Hv as <- <-;
      lazymatch type of E with
      | @view _ ?T ?V _ _ = _ => by rewrite (@view_frame _ T V _ h h' _ _ _ E Ha)
      end.
  - intros h o d F Hv. unfold Object_view in *. destruct o; cbn [view] in *; view_fields Hv;
      injection Hv as <- <-;
      lazymatch type of E with @view _ ?T ?V _ _ = _ => exact (@view_dom _ T V _ h _ _ _ E) end.
Qed.

(** ** The functions copy *)

Lemma copy_time_copier : copier copy_time.
Proof.
  intros h [|l] d F Hv; [|by eapply Time_copier]. injection Hv as <- <-.
  exists Nil, h, ∅. split_and!; [done..|set_solver].
Qed.

Lemma DeploymentSettings_copier : copier DeploymentSettings_DeepCopyInto.
Proof. apply plain_copier. Qed.
Lemma ObjectRef_copier : copier ObjectRef_DeepCopyInto.
Proof. apply plain_copier. Qed.
Lemma GPULeaseSpec_copier : copier GPULeaseSpec_DeepCopyInto.
Proof. intros h [] d F Hv. by apply (plain_copier GPULeaseSpec) in Hv. Qed.
Lemma GPULeaseStatus_copier : copier GPULeaseStatus_DeepCopyInto.
Proof.
  copy_struct GPULeaseStatus_view GPULeaseStatus_DeepCopyInto. copy_field copy_time_copier.
  copy_field copy_time_copier. copy_field (copy_slice_copier zero_Condition _ Condition_copier).
  copy_done GPULeaseStatus_view.
Qed.

Lemma GPULease_copier : copier GPULease_DeepCopyInto.
Proof.
  copy_struct GPULease_view GPULease_DeepCopyInto. copy_field ObjectMeta_copier. copy_field GPULeaseStatus_copier.
  copy_done GPULease_view.
Qed.
Lemma GPULeaseList_copier : copier GPULeaseList_DeepCopyInto.
Proof.
  copy_struct GPULeaseList_view GPULeaseList_DeepCopyInto. copy_field ListMeta_copier. copy_field (copy_slice_copier zero_GPULease _ GPULease_copier).
  copy_done GPULeaseList_view.
Qed.
Lemma PodSetAssignment_copier : copier PodSetAssignment_DeepCopyInto.
Proof.
  copy_struct PodSetAssignment_view PodSetAssignment_DeepCopyInto. copy_field copy_map_copier.
  copy_done PodSetAssignment_view.
Qed.
Lemma Admission_copier : copier Admission_DeepCopyInto.
Proof.
  copy_struct Admission_view Admission_DeepCopyInto. copy_field (copy_slice_copier zero_PodSetAssignment _ PodSetAssignment_copier).
  copy_done Admission_view.
Qed.
Lemma PodSet_copier : copier PodSet_DeepCopyInto.
Proof.
  copy_struct PodSet_view PodSet_DeepCopyInto. copy_field PodTemplateSpec_copier.
  copy_done PodSet_view.
Qed.
Lemma WorkloadSpec_copier : copier WorkloadSpec_DeepCopyInto.
Proof.
  copy_struct WorkloadSpec_view WorkloadSpec_DeepCopyInto. copy_field (copy_slice_copier zero_PodSet _ PodSet_copier).
  copy_done WorkloadSpec_view.
Qed.
Lemma WorkloadStatus_copier : copier WorkloadStatus_DeepCopyInto.
Proof.
  copy_struct WorkloadStatus_view WorkloadStatus_DeepCopyInto. copy_field (copy_slice_copier zero_Condition _ Condition_copier). copy_field (copy_ptr_copier zero_Admission _ Admission_copier).
  copy_done WorkloadStatus_view.
Qed.
Lemma Workload_copier : copier Workload_DeepCopyInto.
Proof.
  copy_struct Workload_view Workload_DeepCopyInto. copy_field ObjectMeta_copier. copy_field WorkloadSpec_copier. copy_field WorkloadStatus_copier.
  copy_done Workload_view.
Qed.
Lemma WorkloadList_copier : copier WorkloadList_DeepCopyInto.
Proof.
  copy_struct WorkloadList_view WorkloadList_DeepCopyInto. copy_field ListMeta_copier. copy_field (copy_slice_copier zero_Workload _ Workload_copier).
  copy_done WorkloadList_view.
Qed.
Lemma ResourceFlavorSpec_copier : copier ResourceFlavorSpec_DeepCopyInto.
Proof.
  copy_struct ResourceFlavorSpec_view ResourceFlavorSpec_DeepCopyInto. copy_field copy_map_copier.
  copy_done ResourceFlavorSpec_view.
Qed.
Lemma ResourceFlavor_copier : copier ResourceFlavor_DeepCopyInto.
Proof.
  copy_struct ResourceFlavor_view ResourceFlavor_DeepCopyInto. copy_field ObjectMeta_copier. copy_field ResourceFlavorSpec_copier.
  copy_done ResourceFlavor_view.
Qed.
Lemma ResourceFlavorList_copier : copier ResourceFlavorList_DeepCopyInto.
Proof.
  copy_struct ResourceFlavorList_view ResourceFlavorList_DeepCopyInto. copy_field ListMeta_copier. copy_field (copy_slice_copier zero_ResourceFlavor _ ResourceFlavor_copier).
  copy_done ResourceFlavorList_view.
Qed.

#[local] Hint Resolve copy_ptr_copier DeploymentSettings_copier ObjectRef_copier GPULeaseSpec_copier
  GPULeaseStatus_copier GPULease_copier GPULeaseList_copier PodSetAssignment_copier Admission_copier
  PodSet_copier WorkloadSpec_copier WorkloadStatus_copier Workload_copier WorkloadList_copier
  ResourceFlavorSpec_copier ResourceFlavor_copier ResourceFlavorList_copier : gpulease.

(** C31. Every generated copy function copies.  For each of the sixteen types, [DeepCopy] of a
    pointer to a well-formed value (or of nil) does not panic, changes nothing that was
    there, and returns a pointer to a value that stands for the same tree, nil slices and
    maps included, and is made of new variables only, however much the original shares. *)
Theorem generated_copies :
  copier DeploymentSettings_DeepCopy ∧ copier ObjectRef_DeepCopy ∧ copier GPULeaseSpec_DeepCopy ∧
  copier GPULeaseStatus_DeepCopy ∧ copier GPULease_DeepCopy ∧ copier GPULeaseList_DeepCopy ∧
  copier PodSetAssignment_DeepCopy ∧ copier Admission_DeepCopy ∧ copier PodSet_DeepCopy ∧
  copier WorkloadSpec_DeepCopy ∧ copier WorkloadStatus_DeepCopy ∧ copier Workload_DeepCopy ∧
  copier WorkloadList_DeepCopy ∧ copier ResourceFlavorSpec_DeepCopy ∧ copier ResourceFlavor_DeepCopy ∧
  copier ResourceFlavorList_DeepCopy.
Proof. split_and!; apply copy_ptr_copier; auto with gpulease. Qed.

(** A copy through the interface, for one type. *)
Lemma object_copied {T} `{Storable obj T, ViewLaws obj T} (zero : T) copyInto (obj_of : ptr T → Object) h p d F :
  copier copyInto → p ≠ Nil → view h p = Some (d, F) →
  ∃ q h' F', (c ← copy_ptr zero copyInto p; mret (as_object obj_of c)) h = Some (Some (obj_of q), h') ∧
    h ⊆ h' ∧ view h' q = Some (d, F') ∧ F' ## dom h.
Proof.
  intros Hc Hp Hv. destruct (copy_ptr_copier zero copyInto Hc h p d F Hv) as (q & h' & F' & E & Hs & Hv' & Hd).
  exists q, h', F'. split_and!; [|done..]. rewrite (bind_eq _ _ _ h' q) by done.
  destruct p as [|l]; [done|]. destruct q as [|l']; [|done]. cbn in Hv, Hv'.
  apply bind_Some in Hv as (? & _ & ([? ?] & _ & ?)%bind_Some). by simplify_eq.
Qed.

#[local] Ltac copied_as zero C L :=
  lazymatch goal with
  | E : view ?h ?p = Some (?d, ?F) |- _ =>
      let q := fresh "q" in let h' := fresh "h'" in let F' := fresh "F'" in
      let Eq := fresh "Eq" in let Hs := fresh "Hs" in let Hq := fresh "Hq" in let Hd := fresh "Hd" in
      destruct (object_copied zero _ C h p d F L) as (q & h' & F' & Eq & Hs & Hq & Hd);
      [ by intros ->|exact E
      | exists (C q), h', F'; split_and!; [exact Eq|exact Hs|cbn [view]; by rewrite Hq|exact Hd] ]
  end.

(** C32. A copied object is independent of the original.  [DeepCopyObject] of an object that
    is not nil returns an object of the same type that stands for the same tree; whatever
    is changed later outside the variables of the copy, such as everything the original is
    made of, the copy still stands for that tree, and whatever is changed outside the
    variables of the original, the original does.  For a nil pointer it returns the nil
    interface and does nothing. *)
Theorem copied_object_independent (o : Object) h d F :
  view h o = Some (d, F) →
  if is_nil o then DeepCopyObject o h = Some (None, h)
  else
    ∃ o' h' F', DeepCopyObject o h = Some (Some o', h') ∧ h ⊆ h' ∧ F ## F' ∧
      view h' o' = Some (d, F') ∧ view h' o = Some (d, F) ∧
      (∀ h2, (∀ l, l ∈ F' → h2 !! l = h' !! l) → view h2 o' = Some (d, F')) ∧
      (∀ h2, (∀ l, l ∈ F → h2 !! l = h' !! l) → view h2 o = Some (d, F)).
Proof.
  intros Hv. destruct (is_nil o) eqn:En; [by destruct o as [[]|[]|[]|[]|[]|[]]|].
  assert (∃ o' h' F', DeepCopyObject o h = Some (Some o', h') ∧ h ⊆ h' ∧
    view h' o' = Some (d, F') ∧ F' ## dom h) as (o' & h' & F' & E & Hs & Hv' & Hd).
  { pose proof Hv as Hv0. unfold Object_view in Hv0. unfold DeepCopyObject, Object_view.
    destruct o; cbn [view] in Hv0; view_fields Hv0; injection Hv0 as <- <-;
    [ copied_as zero_GPULease ObjGPULease GPULease_copier
    | copied_as zero_GPULeaseList ObjGPULeaseList GPULeaseList_copier
    | copied_as zero_Workload ObjWorkload Workload_copier
    | copied_as zero_WorkloadList ObjWorkloadList WorkloadList_copier
    | copied_as zero_ResourceFlavor ObjResourceFlavor ResourceFlavor_copier
    | copied_as zero_ResourceFlavorList ObjResourceFlavorList ResourceFlavorList_copier ]. }
  pose proof (view_dom _ _ _ _ Hv) as HF. pose proof (view_mono _ _ _ _ _ Hv Hs) as Hv2.
  exists o', h', F'. split_and!; [done|done|set_solver|done|done| |]; intros h2 Ha; by eapply view_frame.
Qed.

End Copies.
(** ** A sample heap *)

(** Library types with and without references: the metadata of an object are its name and its
    labels, those of a list are its resource version, a template is its node selector. *)
#[export] Instance sample_types : MetaTypes := {|
  TypeMeta := string * string; zero_TypeMeta := ("", "");
  ObjectMeta := string * strmap; zero_ObjectMeta := ("", NilMap);
  ListMeta := string; zero_ListMeta := "";
  Condition := Kube.Condition;
  zero_Condition := {| cond_Type := ""; cond_Status := ConditionUnknown; cond_ObservedGeneration := 0;
                       cond_LastTransitionTime := 0; cond_Reason := ""; cond_Message := "" |};
  Time := Z;
  PodTemplateSpec := strmap; zero_PodTemplateSpec := NilMap;
  LibObj := Empty_set;
|}.

Definition sample_meta_view : Viewable (obj:=obj) (string * strmap) := {|
  tree := string * tree strmap;
  view h x := '(labels, F) ← view h x.2; Some ((x.1, labels), F);
|}.
Definition sample_meta_copy (x : string * strmap) : @HeapM obj (string * strmap) :=
  labels ← copy_map x.2; mret (x.1, labels).
#[export] Instance sample_copies : MetaCopies := {|
  ObjectMeta_view := sample_meta_view;
  ListMeta_view := plain_view string;
  Condition_view := plain_view Kube.Condition;
  Time_view := plain_view Z;
  PodTemplateSpec_view := strmap_view;
  ObjectMeta_DeepCopyInto := sample_meta_copy;
  ListMeta_DeepCopyInto := mret;
  Condition_DeepCopyInto := mret;
  Time_DeepCopy := copy_ptr (T:=Z) 0 mret;
  PodTemplateSpec_DeepCopyInto := copy_map;
|}.

#[export] Instance sample_meta_laws : @ViewLaws obj (string * strmap) sample_meta_view.
Proof. struct_laws sample_meta_view. Qed.
Lemma sample_meta_copier : @copier obj (string * strmap) sample_meta_view sample_meta_copy.
Proof.
  copy_struct sample_meta_view sample_meta_copy. copy_field copy_map_copier. copy_done sample_meta_view.
Qed.
#[export] Instance sample_laws : MetaLaws.
Proof.
  split; try exact (plain_laws _); try exact (plain_copier _).
  - exact sample_meta_laws.
  - exact strmap_laws.
  - exact sample_meta_copier.
  - exact (@copy_ptr_copier obj Z (plain_view Z) (plain_laws Z) 0 mret (plain_copier Z) Time_storable).
  - exact copy_map_copier.
Qed.

(** A bound lease: its labels, its conditions, and one time that both of its pointers point
    to. *)
Definition sample_condition (status : ConditionStatus) : Kube.Condition :=
  {| cond_Type := ConditionReady; cond_Status := status; cond_ObservedGeneration := 1;
     cond_LastTransitionTime := 5; cond_Reason := "Hot"; cond_Message := "" |}.
Definition sample_lease : GPULease :=
  {| gl_TypeMeta := ("GPULease", "poc.llm-d.ai/v1alpha1"); gl_ObjectMeta := (LeaseName "n1" 0, MapRef 2%positive);
     gl_Spec := zero_GPULeaseSpec;
     gl_Status := {| Phase := GPULeasePhaseBound; WorkloadName := "w"; Message := "";
                     AdmittedAt := Ref 3%positive; BoundAt := Ref 3%positive; Conditions := Slice 4%positive 0 1 4 |} |}.
Definition sample_heap : gmap loc obj :=
  {[ 1%positive := OGPULease sample_lease; 2%positive := OMap {[ "app" := "gpu" ]};
     3%positive := OTime (5 : Time);
     4%positive := AConditions [sample_condition ConditionTrue; zero_Condition; zero_Condition; zero_Condition] ]}.
Definition sample_object : Object := ObjGPULease (Ref 1%positive).

(** The sample lease is well formed; its tree and its four variables. *)
Definition sample_tree : object_tree :=
  TreeGPULease (Some {|
    gl_TypeMeta := ("GPULease", "poc.llm-d.ai/v1alpha1");
    gl_ObjectMeta := (LeaseName "n1" 0, Some {[ "app" := "gpu" ]});
    gl_Spec := zero_GPULeaseSpec;
    gl_Status := {| Phase := GPULeasePhaseBound; WorkloadName := "w"; Message := "";
                    AdmittedAt := Some 5; BoundAt := Some 5;
                    Conditions := Some [sample_condition ConditionTrue] |} |}).

Definition sample_variables : gset loc := {[1; 2; 3; 4]}%positive.

Lemma sample_view : view sample_heap sample_object = Some (sample_tree, sample_variables).
Proof. reflexivity. Qed.

Lemma generated_copies_witness :
  ∃ p h' F', GPULease_DeepCopy (Ref 1%positive) sample_heap = Some (p, h') ∧
    (λ x, TreeGPULease x.1) <$> view h' p = Some sample_tree ∧ F' ## dom sample_heap.
Proof.
  destruct generated_copies as (_ & _ & _ & _ & H & _).
  destruct (H sample_heap (Ref 1%positive) _ _ eq_refl) as (p & h' & F' & E & _ & Hv & Hd).
  exists p, h', F'. split; [exact E|]. split; [rewrite Hv; reflexivity|exact Hd].
Defined.

(** When the Ready condition of the original is changed in place, the copy keeps it. *)
Lemma copied_object_independent_witness :
  ∃ o' h', DeepCopyObject sample_object sample_heap = Some (Some o', h') ∧
    fst <$> view (T:=Object) (<[4%positive := AConditions [sample_condition ConditionFalse]]> h') o' = Some sample_tree.
Proof.
  destruct (copied_object_independent sample_object sample_heap sample_tree sample_variables sample_view)
    as (o' & h' & F' & E & _ & Hd & _ & _ & Hc & _).
  exists o', h'. split; [exact E|]. rewrite Hc; [reflexivity|]. intros l Hl. apply lookup_insert_ne.
  intros <-. refine (Hd 4%positive _ Hl). unfold sample_variables. set_solver.
Defined.

(** The assignment of the struct alone shares the conditions with the original. *)
Lemma assignment_shares :
  let h := <[5%positive := OGPULease sample_lease]> sample_heap in
  fst <$> view (T:=Object) h (ObjGPULease (Ref 5%positive)) = Some sample_tree ∧
  fst <$> view (T:=Object) (<[4%positive := AConditions [sample_condition ConditionFalse]]> h) (ObjGPULease (Ref 5%positive)) ≠
    Some sample_tree.
Proof. split; [reflexivity|discriminate]. Qed.

End DeepCopy.
