(* ===== verification/Effects.v ===== *)
(** * Programs that call the cluster

    The reconcilers are sequences of calls (Kubernetes API, pod REST API, clock, event
    recorder, metrics) with ordinary code between them.  A program is a finite tree of
    such calls ([Prog]): each call [e : Eff R] is answered by a response of type [R], and
    the rest of the program is a function of that response.  Nothing is said here about
    what the cluster answers, so a property of [runs] holds for every cluster, whatever
    fails and whatever other actors do between two calls. *)

From S2P Require Import Prelude Kube.

(** ** The calls *)

(** The body of [POST /lease] and of [GET /state] ([podclient.ActivateRequest],
    [podclient.StateResponse]). *)
Record ActivateRequest := {
  ar_LeaseName : string; ar_Node : string; ar_GPUID : Z; ar_GPUModel : string }.
Record StateResponse := {
  sr_State : string; sr_LeaseName : string; sr_Node : string; sr_GPUID : Z }.
#[export] Instance ActivateRequest_eq_dec : EqDecision ActivateRequest.
Proof. solve_decision. Defined.
#[export] Instance StateResponse_eq_dec : EqDecision StateResponse.
Proof. solve_decision. Defined.

(** The object an Event is recorded on, and its type. *)
Inductive EventObject := OnLease (name : string) | OnDeployment (ns name : string).
Inductive EventType := EventTypeNormal | EventTypeWarning.

Section Effects.
Context `{KT : KubeTypes}.

(** Every call the reconcilers make.  The object a write returns is the one the client
    decodes the server's reply into; a patch is given by the object before and after the
    change ([client.MergeFrom]). *)
Inductive Eff : Type → Type :=
  | GetLease (name : string) : Eff (result GPULease)
  | ListLeases : Eff (result (list GPULease))
  | CreateLease (l : GPULease) : Eff (result GPULease)
  | UpdateLease (l : GPULease) : Eff (result GPULease)
  | UpdateLeaseStatus (l : GPULease) : Eff (result GPULease)
  | DeleteLease (l : GPULease) : Eff (result unit)
  | GetPod (ns name : string) : Eff (result Pod)
  | ListPods (ns : string) (sel : Selector) : Eff (result (list Pod))
  | PatchPod (orig new : Pod) : Eff (result Pod)
  | GetDeployment (ns name : string) : Eff (result Deployment)
  | ListDeployments (ns : string) : Eff (result (list Deployment))
  | GetNode (name : string) : Eff (result Node)
  | ListNodes : Eff (result (list Node))
  | GetWorkload (ns name : string) : Eff (result Workload)
  | CreateWorkload (w : Workload) : Eff (result Workload)
  | DeleteWorkload (ns name : string) : Eff (result unit)
  | ListResourceFlavors : Eff (result (list ResourceFlavor))
  | PodActivate (podIP : string) (req : ActivateRequest) : Eff (result unit)
  | PodRelease (podIP : string) : Eff (result unit)
  | PodState (podIP : string) : Eff (result StateResponse)
  | ClockNow : Eff Z
  | TimeNow : Eff Z
  | RecordEvent (o : EventObject) (ty : EventType) (reason msg : string) : Eff unit
  | MetricSet (name : string) (labels : list string) (v : Z) : Eff unit
  | MetricInc (name : string) (labels : list string) : Eff unit.

(** ** Programs *)

Inductive Prog (A : Type) : Type :=
  | Ret (a : A)
  | Vis {R : Type} (e : Eff R) (k : R → Prog A).
Arguments Ret {A} a.
Arguments Vis {A R} e k.

Definition call {R} (e : Eff R) : Prog R := Vis e Ret.

Fixpoint bind {A B} (p : Prog A) (f : A → Prog B) : Prog B :=
  match p with
  | Ret a => f a
  | Vis e k => Vis e (λ r, bind (k r) f)
  end.

(** ** Traces *)

(** One call with its answer. *)
Inductive Obs :=
  | MkObs {R : Type} (e : Eff R) (r : R).

(** [runs p t a]: answered as the trace [t] says, [p] makes exactly the calls of [t], in
    that order, and returns [a]. *)
Fixpoint runs {A} (p : Prog A) (t : list Obs) (a : A) : Prop :=
  match p with
  | Ret x => t = [] ∧ a = x
  | Vis e k => ∃ r t', t = MkObs e r :: t' ∧ runs (k r) t' a
  end.

(** ** What a trace shows *)

(** The calls that change the cluster or ask a pod for its state, with their answers,
    as plain data. *)
Inductive Act :=
  | ActCreateLease (l : GPULease) (r : result GPULease)
  | ActUpdateLease (l : GPULease) (r : result GPULease)
  | ActUpdateStatus (l : GPULease) (r : result GPULease)
  | ActDeleteLease (l : GPULease) (r : result unit)
  | ActPatchPod (orig new : Pod) (r : result Pod)
  | ActCreateWorkload (w : Workload) (r : result Workload)
  | ActDeleteWorkload (ns name : string) (r : result unit)
  | ActActivate (podIP : string) (req : ActivateRequest) (r : result unit)
  | ActRelease (podIP : string) (r : result unit)
  | ActPodState (podIP : string) (r : result StateResponse).

Definition act_of (o : Obs) : option Act :=
  match o with
  | MkObs e r =>
      match e in Eff R return R → option Act with
      | CreateLease l => λ r, Some (ActCreateLease l r)
      | UpdateLease l => λ r, Some (ActUpdateLease l r)
      | UpdateLeaseStatus l => λ r, Some (ActUpdateStatus l r)
      | DeleteLease l => λ r, Some (ActDeleteLease l r)
      | PatchPod orig new => λ r, Some (ActPatchPod orig new r)
      | CreateWorkload w => λ r, Some (ActCreateWorkload w r)
      | DeleteWorkload ns name => λ r, Some (ActDeleteWorkload ns name r)
      | PodActivate ip req => λ r, Some (ActActivate ip req r)
      | PodRelease ip => λ r, Some (ActRelease ip r)
      | PodState ip => λ r, Some (ActPodState ip r)
      | _ => λ _, None
      end r
  end.

(** The actions of a trace, in order. *)
Definition acts (t : list Obs) : list Act := omap act_of t.

(** The answer of a read of a lease. *)
Definition got_lease (o : Obs) : option (result GPULease) :=
  match o with
  | MkObs e r =>
      match e in Eff R return R → option (result GPULease) with
      | GetLease _ => λ r, Some r
      | _ => λ _, None
      end r
  end.

(** The answers of reads of the clock and of a Workload. *)
Definition got_clock (o : Obs) : option Z :=
  match o with
  | MkObs e r => match e in Eff R return R → option Z with ClockNow => λ r, Some r | _ => λ _, None end r
  end.
Definition got_workload (o : Obs) : option Workload :=
  match o with
  | MkObs e r =>
      match e in Eff R return R → option Workload with
      | GetWorkload _ _ => λ r, match r with Ok wl => Some wl | Err _ => None end
      | _ => λ _, None
      end r
  end.

(** ** Running against a server *)

(** A deterministic server with state [S]. *)
Definition Server (S : Type) : Type := ∀ R : Type, Eff R → S → R * S.

Fixpoint run {S A} (srv : Server S) (p : Prog A) (s : S) : A * list Obs * S :=
  match p with
  | Ret a => (a, [], s)
  | Vis e k =>
      let '(r, s1) := srv _ e s in
      let '(a, t, s2) := run srv (k r) s1 in
      (a, MkObs e r :: t, s2)
  end.

(** ** Facts *)

Lemma runs_ret {A} (x a : A) t : runs (Ret x) t a ↔ t = [] ∧ a = x.
Proof. done. Qed.

Lemma runs_call {R} (e : Eff R) t r : runs (call e) t r ↔ t = [MkObs e r].
Proof.
  simpl. split.
  - intros (r' & t' & -> & -> & ->). done.
  - intros ->. eauto.
Qed.

Lemma runs_bind {A B} (p : Prog A) (f : A → Prog B) t b :
  runs (bind p f) t b ↔ ∃ t1 t2 a, t = t1 ++ t2 ∧ runs p t1 a ∧ runs (f a) t2 b.
Proof.
  revert t. induction p as [x|R e k IH]; intros t; simpl.
  - split; [intros H; by exists [], t, x|]. intros (t1 & t2 & a & -> & [-> ->] & H). done.
  - split.
    + intros (r & t' & -> & H). apply IH in H as (t1 & t2 & a & -> & H1 & H2).
      exists (MkObs e r :: t1), t2, a. split; [done|]. split; [eauto|done].
    + intros (t1 & t2 & a & -> & (r & t' & -> & H1) & H2).
      exists r, (t' ++ t2). split; [done|]. apply IH. eauto 10.
Qed.

Lemma acts_app t1 t2 : acts (t1 ++ t2) = acts t1 ++ acts t2.
Proof. apply omap_app. Qed.

Lemma acts_nil : acts [] = [].
Proof. reflexivity. Qed.

Lemma acts_cons o t : acts (o :: t) = from_option (λ a, [a]) [] (act_of o) ++ acts t.
Proof. unfold acts. cbn [omap list_omap]. by destruct (act_of o). Qed.

(** What a server makes of a program is one of its runs. *)
Lemma run_runs {S A} (srv : Server S) (p : Prog A) (s : S) :
  runs p (run srv p s).1.2 (run srv p s).1.1.
Proof.
  revert s. induction p as [x|R e k IH]; intros s; simpl; [done|].
  destruct (srv R e s) as [r s1]. specialize (IH r s1).
  destruct (run srv (k r) s1) as [[a t] s2]. simpl in *. eauto.
Qed.

Lemma run_head {S A R} (srv : Server S) (e : Eff R) (k : R → Prog A) (s : S) :
  (run srv (Vis e k) s).1.2 = MkObs e (srv R e s).1 :: tail (run srv (Vis e k) s).1.2.
Proof. cbn [run]. destruct (srv R e s) as [x s1]. by destruct (run srv (k x) s1) as [[a t] s2]. Qed.

(** Every program has a run, whatever the server: no program gets stuck or loops. *)
Lemma runs_total {A} (p : Prog A) (answer : ∀ R, Eff R → R) : ∃ t a, runs p t a.
Proof.
  induction p as [x|R e k IH]; simpl; [eauto|].
  destruct (IH (answer R e)) as (t & a & H). eauto 10.
Qed.

End Effects.

Arguments Ret {KT A} a.
Arguments Vis {KT A R} e k.

(** ** Notations *)

Declare Scope prog_scope.
Delimit Scope prog_scope with prog.
#[global] Open Scope prog_scope.

(** [x <- p ;; q]: run [p], then [q] with its result. *)
Notation "x <- p ;; q" := (bind p (λ x, q))
  (at level 100, p at next level, right associativity) : prog_scope.
Notation "p ;;; q" := (bind p (λ _, q))
  (at level 100, right associativity) : prog_scope.
(** [x <-? p 'else' w ;; q]: the Go idiom [x, err := p; if err != nil { return w(err) }]. *)
Notation "x <-? p 'else' w ;; q" :=
  (bind p (λ r, match r with Ok x => q | Err err => Ret (Err (w err)) end))
  (at level 100, p at next level, w at next level, right associativity) : prog_scope.

(** ** Tactics *)

(** Unfold the monad in a hypothesis, leaving [runs] and the code's own functions
    folded. *)
Ltac simpl_prog H := cbn [bind call] in H.

(** Take one step of a run of the context. *)
Ltac runs_step :=
  match goal with
  | H : runs (Ret _) _ _ |- _ => destruct H as [? ?]; simplify_eq
  | H : runs (Vis _ _) _ _ |- _ =>
      let r := fresh "r" in let t := fresh "t" in
      destruct H as (r & t & ? & H); simplify_eq; simpl_prog H
  | H : runs (call _) _ _ |- _ => apply runs_call in H; simplify_eq
  | H : runs (bind (call _) _) _ _ |- _ =>
      let r := fresh "r" in let t := fresh "t" in
      destruct H as (r & t & ? & H); simplify_eq; simpl_prog H
  | H : runs (bind (Ret _) _) _ _ |- _ => simpl_prog H
  | H : runs (bind (bind _ _) _) _ _ |- _ =>
      let t1 := fresh "t" in let t2 := fresh "t" in let a := fresh "a" in
      let H1 := fresh "Hr" in
      apply runs_bind in H as (t1 & t2 & a & ? & H1 & H); simplify_eq; simpl_prog H
  | H : runs (bind _ _) _ _ |- _ =>
      let t1 := fresh "t" in let t2 := fresh "t" in let a := fresh "a" in
      let H1 := fresh "Hr" in
      apply runs_bind in H as (t1 & t2 & a & ? & H1 & H); simplify_eq; simpl_prog H
  | H : runs (match ?x with _ => _ end) _ _ |- _ =>
      let E := fresh "E" in destruct x eqn:E; simpl_prog H
  end.
Ltac runs_all := repeat runs_step.

(** Compute the actions of a trace, with the hypotheses about the actions of its parts. *)
Ltac acts_norm :=
  repeat first
    [ rewrite acts_app | rewrite acts_cons | rewrite acts_nil
    | match goal with H : acts ?t = _ |- context [acts ?t] => rewrite H end ];
  cbn [act_of from_option app]; rewrite ?app_nil_r.
