(* ===== verification/MemServer.v ===== *)
(** * An executable cluster

    A concrete instance of every parameter of the development, on which the reconcilers
    run by evaluation: the library functions of [KubeLib] (with their laws proved), an
    in-memory API server that keeps its objects in maps, checks resource versions and
    honours finalizers, and the in-memory pod client of
    [src/internal/controller/podclient/podclient.go] ([FakeClient]).  The server answers
    call [i] with the error [m_faults !! i], if there is one, so failures can be placed
    anywhere.  It serves the witnesses; the theorems do not depend on it. *)

From S2P Require Import Prelude GoLib Names Kube Effects.

(** ** The library functions *)

(** A label selector is a set of required labels. *)
#[export] Instance mem_types : KubeTypes :=
  {| LabelSelector := gmap string string; Selector := gmap string string; Quantity := string |}.

#[export] Instance Container_eq_dec : EqDecision (@Container mem_types).
Proof. intros [] []; solve_decision. Defined.
#[export] Instance PodTemplateSpec_eq_dec : EqDecision (@PodTemplateSpec mem_types).
Proof. solve_decision. Defined.
#[export] Instance PodSet_eq_dec : EqDecision (@PodSet mem_types).
Proof. solve_decision. Defined.
#[export] Instance WorkloadSpec_eq_dec : EqDecision (@WorkloadSpec mem_types).
Proof. solve_decision. Defined.

Fixpoint mem_find (cs : list Condition) (ty : string) : option Condition :=
  match cs with
  | [] => None
  | c :: cs => if bool_decide (cond_Type c = ty) then Some c else mem_find cs ty
  end.

Definition with_transition (c : Condition) (t : Z) : Condition :=
  {| cond_Type := cond_Type c; cond_Status := cond_Status c;
     cond_ObservedGeneration := cond_ObservedGeneration c; cond_LastTransitionTime := t;
     cond_Reason := cond_Reason c; cond_Message := cond_Message c |}.

Definition transition_time (now : Z) (c : Condition) : Z :=
  if Time_IsZero (cond_LastTransitionTime c) then now else cond_LastTransitionTime c.

Fixpoint mem_set (now : Z) (cs : list Condition) (c : Condition) : list Condition :=
  match cs with
  | [] => [with_transition c (transition_time now c)]
  | old :: cs =>
      if bool_decide (cond_Type old = cond_Type c) then
        with_transition c
          (if bool_decide (cond_Status old = cond_Status c)
           then cond_LastTransitionTime old else transition_time now c) :: cs
      else old :: mem_set now cs c
  end.

Definition mem_matches (sel labels : gmap string string) : bool :=
  bool_decide (map_Forall (λ k v, labels !! k = Some v) sel).
Definition mem_sel_empty (sel : gmap string string) : bool := bool_decide (sel = ∅).

#[export] Instance mem_lib : KubeLib :=
  {| LabelSelectorAsSelector := Ok;
     sel_Matches := mem_matches;
     sel_Empty := mem_sel_empty;
     MustParse s := s;
     FindStatusCondition := mem_find;
     SetStatusCondition := mem_set;
     ContainsFinalizer fs f := bool_decide (f ∈ fs);
     AddFinalizer fs f := if bool_decide (f ∈ fs) then fs else fs ++ [f];
     RemoveFinalizer fs f := filter (λ g, g ≠ f) fs;
     SetControllerReference l w :=
       Ok {| wl_Namespace := wl_Namespace w; wl_Name := wl_Name w;
             wl_CreationTimestamp := wl_CreationTimestamp w;
             wl_OwnerReferences := wl_OwnerReferences w ++ [lease_Name l];
             wl_Spec := wl_Spec w; wl_Status := wl_Status w |};
     SemanticDeepEqual s1 s2 := bool_decide (s1 = s2) |}.

(** ** The server's state *)

(** [FakeClient]: the pods by IP with their state, and the calls recorded. *)
Record FakeClient := {
  fc_pods : gmap string string;
  fc_ActivateErr : gmap string goerror;
  fc_ReleaseErr : gmap string goerror;
  fc_StateErr : gmap string goerror;
  fc_ActivateCalls : list (string * ActivateRequest);
  fc_ReleaseCalls : list string;
}.

Definition NewFakeClient : FakeClient :=
  {| fc_pods := ∅; fc_ActivateErr := ∅; fc_ReleaseErr := ∅; fc_StateErr := ∅;
     fc_ActivateCalls := []; fc_ReleaseCalls := [] |}.

Definition FakeClient_SetState (f : FakeClient) (podIP state : string) : FakeClient :=
  {| fc_pods := <[ podIP := state ]> (fc_pods f); fc_ActivateErr := fc_ActivateErr f;
     fc_ReleaseErr := fc_ReleaseErr f; fc_StateErr := fc_StateErr f;
     fc_ActivateCalls := fc_ActivateCalls f; fc_ReleaseCalls := fc_ReleaseCalls f |}.

Definition FakeClient_Activate (f : FakeClient) (podIP : string) (req : ActivateRequest)
    : result unit * FakeClient :=
  let calls := fc_ActivateCalls f ++ [(podIP, req)] in
  let keep pods :=
    {| fc_pods := pods; fc_ActivateErr := fc_ActivateErr f; fc_ReleaseErr := fc_ReleaseErr f;
       fc_StateErr := fc_StateErr f; fc_ActivateCalls := calls;
       fc_ReleaseCalls := fc_ReleaseCalls f |} in
  match fc_ActivateErr f !! podIP with
  | Some err => (Err err, keep (fc_pods f))
  | None => (Ok tt, keep (<[ podIP := StateHot ]> (fc_pods f)))
  end.

Definition FakeClient_Release (f : FakeClient) (podIP : string) : result unit * FakeClient :=
  let calls := fc_ReleaseCalls f ++ [podIP] in
  let keep pods :=
    {| fc_pods := pods; fc_ActivateErr := fc_ActivateErr f; fc_ReleaseErr := fc_ReleaseErr f;
       fc_StateErr := fc_StateErr f; fc_ActivateCalls := fc_ActivateCalls f;
       fc_ReleaseCalls := calls |} in
  match fc_ReleaseErr f !! podIP with
  | Some err => (Err err, keep (fc_pods f))
  | None => (Ok tt, keep (<[ podIP := StateWarm ]> (fc_pods f)))
  end.

Definition FakeClient_State (f : FakeClient) (podIP : string) : result StateResponse :=
  match fc_StateErr f !! podIP with
  | Some err => Err err
  | None =>
      let state := default "" (fc_pods f !! podIP) in
      Ok {| sr_State := if bool_decide (state = "") then StateWarm else state;
            sr_LeaseName := ""; sr_Node := ""; sr_GPUID := 0 |}
  end.

Record Mem := {
  m_leases : gmap string GPULease;
  m_pods : gmap (string * string) Pod;
  m_deployments : gmap (string * string) Deployment;
  m_nodes : gmap string Node;
  m_workloads : gmap (string * string) Workload;
  m_flavors : list ResourceFlavor;
  m_fake : FakeClient;
  m_now : Z;
  m_rv : Z;
  m_faults : list (option goerror);
}.

Definition mem_empty : Mem :=
  {| m_leases := ∅; m_pods := ∅; m_deployments := ∅; m_nodes := ∅; m_workloads := ∅;
     m_flavors := [];
     m_fake := NewFakeClient;
     m_now := 1000 * Second; m_rv := 1; m_faults := [] |}.

Definition set_leases (m : Mem) (x : gmap string GPULease) : Mem :=
  {| m_leases := x; m_pods := m_pods m; m_deployments := m_deployments m; m_nodes := m_nodes m;
     m_workloads := m_workloads m; m_flavors := m_flavors m; m_fake := m_fake m;
     m_now := m_now m; m_rv := m_rv m + 1; m_faults := m_faults m |}.
Definition set_pods (m : Mem) (x : gmap (string * string) Pod) : Mem :=
  {| m_leases := m_leases m; m_pods := x; m_deployments := m_deployments m; m_nodes := m_nodes m;
     m_workloads := m_workloads m; m_flavors := m_flavors m; m_fake := m_fake m;
     m_now := m_now m; m_rv := m_rv m; m_faults := m_faults m |}.
Definition set_workloads (m : Mem) (x : gmap (string * string) Workload) : Mem :=
  {| m_leases := m_leases m; m_pods := m_pods m; m_deployments := m_deployments m;
     m_nodes := m_nodes m; m_workloads := x; m_flavors := m_flavors m; m_fake := m_fake m;
     m_now := m_now m; m_rv := m_rv m; m_faults := m_faults m |}.
Definition set_fake (m : Mem) (x : FakeClient) : Mem :=
  {| m_leases := m_leases m; m_pods := m_pods m; m_deployments := m_deployments m;
     m_nodes := m_nodes m; m_workloads := m_workloads m; m_flavors := m_flavors m; m_fake := x;
     m_now := m_now m; m_rv := m_rv m; m_faults := m_faults m |}.
Definition set_faults (m : Mem) (x : list (option goerror)) : Mem :=
  {| m_leases := m_leases m; m_pods := m_pods m; m_deployments := m_deployments m;
     m_nodes := m_nodes m; m_workloads := m_workloads m; m_flavors := m_flavors m;
     m_fake := m_fake m; m_now := m_now m; m_rv := m_rv m; m_faults := x |}.
Definition set_now (m : Mem) (x : Z) : Mem :=
  {| m_leases := m_leases m; m_pods := m_pods m; m_deployments := m_deployments m;
     m_nodes := m_nodes m; m_workloads := m_workloads m; m_flavors := m_flavors m;
     m_fake := m_fake m; m_now := x; m_rv := m_rv m; m_faults := m_faults m |}.

(** ** The server *)

Definition empty_status : GPULeaseStatus :=
  {| st_Phase := PhaseEmpty; st_WorkloadName := ""; st_Message := ""; st_AdmittedAt := None;
     st_BoundAt := None; st_Conditions := [] |}.

(** A lease as the server stores it: metadata of the server, spec and finalizers [fs]
    of the client, status [st]. *)
Definition stored_lease (rv gen created : Z) (deleted : option Z) (fs : list string)
    (l : GPULease) (st : GPULeaseStatus) : GPULease :=
  {| lease_Name := lease_Name l; lease_ResourceVersion := rv; lease_Generation := gen;
     lease_CreationTimestamp := created; lease_DeletionTimestamp := deleted;
     lease_Finalizers := fs; lease_Spec := lease_Spec l; lease_Status := st |}.

(** What a write under version [rv] makes of the stored lease [old]: an update takes spec
    and finalizers of the object sent, and a status update only its status; a new spec is
    a new generation; a deletion sets the timestamp. *)
Definition updated (rv : Z) (old l : GPULease) : GPULease :=
  stored_lease rv
    (if bool_decide (lease_Spec l = lease_Spec old) then lease_Generation old else lease_Generation old + 1)
    (lease_CreationTimestamp old) (lease_DeletionTimestamp old) (lease_Finalizers l) l (lease_Status old).
Definition status_updated (rv : Z) (old l : GPULease) : GPULease :=
  stored_lease rv (lease_Generation old) (lease_CreationTimestamp old)
    (lease_DeletionTimestamp old) (lease_Finalizers old) old (lease_Status l).
Definition marked_deleted (rv : Z) (old : GPULease) (t : Z) : GPULease :=
  stored_lease rv (lease_Generation old) (lease_CreationTimestamp old) (Some t)
    (lease_Finalizers old) old (lease_Status old).

Definition mem_create_lease (l : GPULease) (m : Mem) : result GPULease * Mem :=
  match m_leases m !! lease_Name l with
  | Some _ => (Err (ApiError AlreadyExists ("gpuleases " +:+ Quote (lease_Name l) +:+ " already exists")), m)
  | None =>
      let l' := stored_lease (m_rv m) 1 (m_now m) None (lease_Finalizers l) l empty_status in
      (Ok l', set_leases m (<[ lease_Name l := l' ]> (m_leases m)))
  end.

(** A write to a stored lease, refused on a stale resource version. *)
Definition mem_write_lease (l : GPULease) (f : GPULease → GPULease) (m : Mem) : result GPULease * Mem :=
  match m_leases m !! lease_Name l with
  | None => (Err (ApiError NotFound ("gpuleases " +:+ Quote (lease_Name l) +:+ " not found")), m)
  | Some old =>
      if bool_decide (lease_ResourceVersion old = lease_ResourceVersion l) then
        let l' := f old in
        if bool_decide (is_Some (lease_DeletionTimestamp l') ∧ lease_Finalizers l' = [])
        then (Ok l', set_leases m (delete (lease_Name l) (m_leases m)))
        else (Ok l', set_leases m (<[ lease_Name l := l' ]> (m_leases m)))
      else (Err (ApiError Conflict "the object has been modified"), m)
  end.

Definition mem_delete_lease (l : GPULease) (m : Mem) : result unit * Mem :=
  match m_leases m !! lease_Name l with
  | None => (Err (ApiError NotFound ("gpuleases " +:+ Quote (lease_Name l) +:+ " not found")), m)
  | Some old =>
      if bool_decide (lease_Finalizers old = [])
      then (Ok tt, set_leases m (delete (lease_Name l) (m_leases m)))
      else
        match lease_DeletionTimestamp old with
        | Some _ => (Ok tt, m)
        | None => (Ok tt, set_leases m (<[ lease_Name l := marked_deleted (m_rv m) old (m_now m) ]> (m_leases m)))
        end
  end.

(** A JSON merge patch of a string map: only the keys that differ between [orig] and
    [new] are sent, a removed key as null. *)
Definition merge_patch (orig new cur : gmap string string) : gmap string string :=
  map_imap (λ k v, if bool_decide (orig !! k = new !! k) then Some v else new !! k) cur ∪
  map_imap (λ k v, if bool_decide (orig !! k = Some v) then None else Some v) new.

Definition mem_patch_pod (orig new : Pod) (m : Mem) : result Pod * Mem :=
  let key := (pod_Namespace new, pod_Name new) in
  match m_pods m !! key with
  | None => (Err (ApiError NotFound ("pods " +:+ Quote (pod_Name new) +:+ " not found")), m)
  | Some cur =>
      let p := with_annotations
                 (with_labels cur (merge_patch (pod_Labels orig) (pod_Labels new) (pod_Labels cur)))
                 (merge_patch (pod_Annotations orig) (pod_Annotations new) (pod_Annotations cur)) in
      (Ok p, set_pods m (<[ key := p ]> (m_pods m)))
  end.

Definition lookup_result {A} (what : string) (o : option A) : result A :=
  match o with Some a => Ok a | None => Err (ApiError NotFound (what +:+ " not found")) end.

(** The values of a map, in the order of its keys' encoding. *)
Definition map_values {K A} `{Countable K} (m : gmap K A) : list A := (map_to_list m).*2.

Definition mem_answer {R} (e : Eff R) (m : Mem) : R * Mem :=
  match e in Eff R return R * Mem with
  | GetLease name => (lookup_result ("gpuleases " +:+ name) (m_leases m !! name), m)
  | ListLeases => (Ok (map_values (m_leases m)), m)
  | CreateLease l => mem_create_lease l m
  | UpdateLease l => mem_write_lease l (λ old, updated (m_rv m) old l) m
  | UpdateLeaseStatus l => mem_write_lease l (λ old, status_updated (m_rv m) old l) m
  | DeleteLease l => mem_delete_lease l m
  | GetPod ns name => (lookup_result ("pods " +:+ name) (m_pods m !! (ns, name)), m)
  | ListPods ns sel =>
      (Ok (filter (λ p, pod_Namespace p = ns ∧ mem_matches sel (pod_Labels p) = true)
             (map_values (m_pods m))), m)
  | PatchPod orig new => mem_patch_pod orig new m
  | GetDeployment ns name =>
      (lookup_result ("deployments " +:+ name) (m_deployments m !! (ns, name)), m)
  | ListDeployments ns =>
      (Ok (filter (λ d, dep_Namespace d = ns) (map_values (m_deployments m))), m)
  | GetNode name => (lookup_result ("nodes " +:+ name) (m_nodes m !! name), m)
  | ListNodes => (Ok (map_values (m_nodes m)), m)
  | GetWorkload ns name => (lookup_result ("workloads " +:+ name) (m_workloads m !! (ns, name)), m)
  | CreateWorkload w =>
      let key := (wl_Namespace w, wl_Name w) in
      match m_workloads m !! key with
      | Some _ => (Err (ApiError AlreadyExists "workload already exists"), m)
      | None =>
          let w' := {| wl_Namespace := wl_Namespace w; wl_Name := wl_Name w;
                       wl_CreationTimestamp := m_now m;
                       wl_OwnerReferences := wl_OwnerReferences w; wl_Spec := wl_Spec w;
                       wl_Status := {| wlst_Conditions := []; wlst_Admission := None |} |} in
          (Ok w', set_workloads m (<[ key := w' ]> (m_workloads m)))
      end
  | DeleteWorkload ns name =>
      match m_workloads m !! (ns, name) with
      | None => (Err (ApiError NotFound "workload not found"), m)
      | Some _ => (Ok tt, set_workloads m (delete (ns, name) (m_workloads m)))
      end
  | ListResourceFlavors => (Ok (m_flavors m), m)
  | PodActivate ip req => let '(r, f) := FakeClient_Activate (m_fake m) ip req in (r, set_fake m f)
  | PodRelease ip => let '(r, f) := FakeClient_Release (m_fake m) ip in (r, set_fake m f)
  | PodState ip => (FakeClient_State (m_fake m) ip, m)
  | ClockNow => (m_now m, m)
  | TimeNow => (m_now m, m)
  | RecordEvent _ _ _ _ => (tt, m)
  | MetricSet _ _ _ => (tt, m)
  | MetricInc _ _ => (tt, m)
  end.

(** The answer of a failed call. *)
Definition mem_fail {R} (e : Eff R) (err : goerror) (dflt : R) : R :=
  match e in Eff R return R → R with
  | GetLease _ | CreateLease _ | UpdateLease _ | UpdateLeaseStatus _ => λ _, Err err
  | ListLeases => λ _, Err err
  | DeleteLease _ | DeleteWorkload _ _ | PodActivate _ _ | PodRelease _ => λ _, Err err
  | GetPod _ _ | PatchPod _ _ => λ _, Err err
  | ListPods _ _ => λ _, Err err
  | GetDeployment _ _ => λ _, Err err
  | ListDeployments _ => λ _, Err err
  | GetNode _ => λ _, Err err
  | ListNodes => λ _, Err err
  | GetWorkload _ _ | CreateWorkload _ => λ _, Err err
  | ListResourceFlavors => λ _, Err err
  | PodState _ => λ _, Err err
  | _ => λ d, d
  end dflt.

Definition mem_server : Server Mem := λ R e m,
  match m_faults m with
  | Some err :: fs => (mem_fail e err (mem_answer e m).1, set_faults m fs)
  | None :: fs => mem_answer e (set_faults m fs)
  | [] => mem_answer e m
  end.

(** ** The laws hold *)

Lemma mem_find_set now cs c :
  cond_LastTransitionTime c = 0 →
  mem_find (mem_set now cs c) (cond_Type c) =
    Some (with_transition c
      match mem_find cs (cond_Type c) with
      | Some old => if bool_decide (cond_Status old = cond_Status c)
                    then cond_LastTransitionTime old else now
      | None => now
      end).
Proof.
  intros Hz. assert (transition_time now c = now) as Ht.
  { unfold transition_time, Time_IsZero. by rewrite Hz. }
  induction cs as [|old cs IH]; simpl.
  - by rewrite bool_decide_eq_true_2, Ht.
  - destruct (bool_decide (cond_Type old = cond_Type c)) eqn:E; simpl.
    + rewrite bool_decide_eq_true_2 by done. by rewrite Ht.
    + rewrite E. done.
Qed.

Lemma mem_find_set_ne now cs c ty :
  ty ≠ cond_Type c → mem_find (mem_set now cs c) ty = mem_find cs ty.
Proof.
  intros Hne. induction cs as [|old cs IH]; simpl.
  - by rewrite bool_decide_eq_false_2.
  - destruct (bool_decide (cond_Type old = cond_Type c)) eqn:E; simpl; reflect_bools.
    + rewrite !bool_decide_eq_false_2; congruence.
    + by rewrite IH.
Qed.

#[export] Instance mem_laws : KubeLibLaws.
Proof.
  split; simpl.
  - intros now cs c Hz. by apply mem_find_set.
  - intros. by apply mem_find_set_ne.
  - done.
  - intros fs f. apply bool_decide_eq_true_2. destruct (bool_decide (f ∈ fs)) eqn:E; reflect_bools; set_solver.
  - intros fs f. apply bool_decide_eq_false_2. rewrite list_elem_of_filter. naive_solver.
  - intros l w w' [= <-]. done.
  - intros s. by apply bool_decide_eq_true_2.
Qed.
