(* ===== verification/Scenario.v ===== *)
(** * A small cluster

    Concrete objects on which the theorems are tried out: one node with four GPUs, one
    managed Deployment, its pods, and a lease in any phase, held by the server of
    [MemServer]. *)

From S2P Require Import Prelude GoLib Names Kube Effects MemServer.

Definition example_node (name count : string) : Node :=
  {| node_Name := name; node_Labels := {[ NodeLabelGPUCount := count; NodeLabelGPUModel := "H100" ]} |}.

Definition example_lease (node : string) (id : Z) (pod dep : string) : GPULease :=
  {| lease_Name := LeaseName node id; lease_ResourceVersion := 1; lease_Generation := 1;
     lease_CreationTimestamp := 1; lease_DeletionTimestamp := None;
     lease_Finalizers := [Finalizer];
     lease_Spec :=
       {| spec_NodeName := node; spec_GPUID := id; spec_GPUModel := "H100";
          spec_ClaimRef := {| ref_Namespace := "ns"; ref_Name := pod; ref_UID := "uid-" +:+ pod |};
          spec_DeploymentRef := {| ref_Namespace := "ns"; ref_Name := dep; ref_UID := "uid-" +:+ dep |};
          spec_LocalQueueName := dep +:+ "-gpu" |};
     lease_Status := empty_status |}.

(** A ready pod of the Deployment "app" in the given state. *)
Definition example_pod (name node ip state : string) (created : Z) : Pod :=
  {| pod_Namespace := "ns"; pod_Name := name; pod_UID := "uid-" +:+ name;
     pod_Labels := {[ "app" := "app"; StateLabelKey := state ]}; pod_Annotations := ∅;
     pod_CreationTimestamp := created; pod_DeletionTimestamp := None; pod_NodeName := node;
     pod_Phase := PodRunning; pod_IP := ip;
     pod_Conditions := [ {| pc_Type := PodReady; pc_Status := ConditionTrue |} ] |}.

Definition example_deployment : Deployment :=
  {| dep_Namespace := "ns"; dep_Name := "app"; dep_UID := "uid-app";
     dep_Annotations := {[ AnnotationManaged := "true"; AnnotationWarmReplicas := "1";
                           AnnotationMinHotReplicas := "1"; AnnotationAdmissionTimeout := "30s" ]};
     dep_Selector := Some ({[ "app" := "app" ]} : gmap string string) |}.

(** The lease of GPU 0 of node n1, claimed by pod p0, in the given phase. *)
Definition lease_in (phase : GPULeasePhase) : GPULease :=
  with_phase (example_lease "n1" 0 "p0" "app") phase.

(** The lease, its Deployment, its node and its pod in the given state; the pod reports
    [reported] on GET /state. *)
Definition cluster (l : GPULease) (wls : gmap (string * string) Workload) (state reported : string) : Mem :=
  {| m_leases := {[ lease_Name l := l ]};
     m_pods := {[ ("ns", "p0") := example_pod "p0" "n1" "10.0.0.1" state (900 * Second) ]};
     m_deployments := {[ ("ns", "app") := example_deployment ]};
     m_nodes := {[ "n1" := example_node "n1" "4" ]};
     m_workloads := wls; m_flavors := [];
     m_fake := FakeClient_SetState NewFakeClient "10.0.0.1" reported;
     m_now := 1000 * Second; m_rv := 10; m_faults := [] |}.

Definition example_condition (ty : string) (st : ConditionStatus) (reason : string) (at_ : Z) : Condition :=
  {| cond_Type := ty; cond_Status := st; cond_ObservedGeneration := 1; cond_LastTransitionTime := at_;
     cond_Reason := reason; cond_Message := "" |}.
