(* ===== verification/Inventory.v ===== *)
(** * GPU inventory: [src/internal/controller/inventory/inventory.go]

    Which GPU indices of a node are free, from the node's labels and the leases that
    exist: the operations of [clientInventory], the implementation of the Go interface
    [Inventory]. *)

From S2P Require Import Prelude GoLib Names Kube Effects MemServer Scenario.

Section Inventory.
Context `{KT : KubeTypes}.

(** ** The interface *)

(** The methods of the Go interface [Inventory]. *)
Class InventoryOps := {
  inv_NodeCapacity : string → Prog (result (Z * string));
  inv_FreeGPUIDs : string → Prog (result (list Z));
  inv_AllocateID : string → Prog (result Z);
  inv_NodeFreeCounts : Prog (result (gmap string Z));
}.
#[global] Arguments inv_NodeCapacity _ _ : clear implicits.
#[global] Arguments inv_FreeGPUIDs _ _ : clear implicits.
#[global] Arguments inv_AllocateID _ _ : clear implicits.
#[global] Arguments inv_NodeFreeCounts _ : clear implicits.

(** What an implementation promises the reconcilers: it only reads, and the free ids of a
    node are distinct, non-negative int32 indices. *)
Class InventoryLaws (I : InventoryOps) : Prop := {
  inv_NodeCapacity_reads node t r : runs (inv_NodeCapacity I node) t r → acts t = [];
  inv_FreeGPUIDs_reads node t r : runs (inv_FreeGPUIDs I node) t r → acts t = [];
  inv_NodeFreeCounts_reads t r : runs (inv_NodeFreeCounts I) t r → acts t = [];
  inv_FreeGPUIDs_ids node t ids :
    runs (inv_FreeGPUIDs I node) t (Ok ids) →
    NoDup ids ∧ Forall (λ id, 0 <= id ∧ int32_range id) ids;
}.

(** ** Operations *)

Definition ErrNodeNotFound : goerror :=
  Sentinel "inventory.ErrNodeNotFound"
    ("inventory: node not found or has no " +:+ NodeLabelGPUCount +:+ " label").
Definition ErrExhausted : goerror :=
  Sentinel "inventory.ErrExhausted" "inventory: no free GPU id on node".

Definition NodeCapacity (node : string) : Prog (result (Z * string)) :=
  r <- call (GetNode node) ;;
  match r with
  | Err err => Ret (Err (Wrapf "" ErrNodeNotFound (": " +:+ error_text err)))
  | Ok n =>
      match node_Labels n !! NodeLabelGPUCount with
      | None => Ret (Err ErrNodeNotFound)
      | Some countStr =>
          let malformed (why : string) :=
            PlainError ("inventory: node " +:+ node +:+ " has malformed " +:+ NodeLabelGPUCount
                        +:+ " label " +:+ Quote countStr +:+ ": " +:+ why) in
          match ParseInt10 32 countStr with
          | inr e => Ret (Err (malformed (numError_text countStr e)))
          | inl count =>
              if count <? 0 then Ret (Err (malformed "<nil>"))
              else Ret (Ok (wrap32 count, default "" (node_Labels n !! NodeLabelGPUModel)))
          end
      end
  end.

(** The ids on [node] held by one of the leases [ls], whatever their phase. *)
Definition usedOn (node : string) (ls : list GPULease) : gset Z :=
  foldl (λ used l, if bool_decide (spec_NodeName (lease_Spec l) = node)
                   then {[ spec_GPUID (lease_Spec l) ]} ∪ used else used) ∅ ls.

Definition usedGPUIDs (node : string) : Prog (result (gset Z)) :=
  all <-? call ListLeases else wrap "inventory: list GPULeases" ;;
  Ret (Ok (usedOn node all)).

(** [for id := range count { if !used[id] { free = append(free, id) } }]. *)
Definition freeIDs (count : Z) (used : gset Z) : list Z :=
  filter (λ id, id ∉ used) (seqZ 0 count).

Definition FreeGPUIDs (node : string) : Prog (result (list Z)) :=
  c <-? NodeCapacity node else id ;;
  used <-? usedGPUIDs node else id ;;
  Ret (Ok (freeIDs c.1 used)).

Definition AllocateID (node : string) : Prog (result Z) :=
  free <-? FreeGPUIDs node else id ;;
  match free with
  | [] => Ret (Err ErrExhausted)
  | id :: _ => Ret (Ok id)
  end.

(** [usedByNode[l.Spec.NodeName][l.Spec.GPUID] = true] for every lease. *)
Definition usedByNode (ls : list GPULease) : gmap string (gset Z) :=
  foldl (λ m l,
    let node := spec_NodeName (lease_Spec l) in
    <[ node := {[ spec_GPUID (lease_Spec l) ]} ∪ default ∅ (m !! node) ]> m) ∅ ls.

(** The count of one node, [None] when the loop skips it; the counter is an int32. *)
Definition nodeFree (used : gmap string (gset Z)) (n : Node) : option Z :=
  match node_Labels n !! NodeLabelGPUCount with
  | None => None
  | Some countStr =>
      match ParseInt10 32 countStr with
      | inr _ => None
      | inl count64 =>
          if count64 <? 0 then None
          else Some (foldl (λ free id, if bool_decide (id ∉ default ∅ (used !! node_Name n))
                                       then wrap32 (free + 1) else free) 0
                           (seqZ 0 (wrap32 count64)))
      end
  end.

Definition freeCounts (nodes : list Node) (used : gmap string (gset Z)) : gmap string Z :=
  foldl (λ out n, match nodeFree used n with
                  | Some free => <[ node_Name n := free ]> out
                  | None => out
                  end) ∅ nodes.

Definition NodeFreeCounts : Prog (result (gmap string Z)) :=
  nodes <-? call ListNodes else wrap "inventory: list nodes" ;;
  leases <-? call ListLeases else wrap "inventory: list GPULeases" ;;
  Ret (Ok (freeCounts nodes (usedByNode leases))).

#[export] Instance clientInventory : InventoryOps :=
  {| inv_NodeCapacity := NodeCapacity; inv_FreeGPUIDs := FreeGPUIDs;
     inv_AllocateID := AllocateID; inv_NodeFreeCounts := NodeFreeCounts |}.

(** ** What the operations return *)

Lemma elem_of_usedOn node ls id :
  id ∈ usedOn node ls ↔
  ∃ l, l ∈ ls ∧ spec_NodeName (lease_Spec l) = node ∧ spec_GPUID (lease_Spec l) = id.
Proof.
  unfold usedOn. induction ls as [|l ls IH] using rev_ind; simpl; [set_solver|].
  rewrite foldl_app. simpl. case_bool_decide; set_solver.
Qed.

Lemma elem_of_freeIDs count used id : id ∈ freeIDs count used ↔ 0 <= id < count ∧ id ∉ used.
Proof. unfold freeIDs. rewrite list_elem_of_filter, elem_of_seqZ. naive_solver lia. Qed.

Lemma seqZ_sorted m n : StronglySorted Z.lt (seqZ m n).
Proof.
  destruct (decide (0 <= n)) as [Hn|Hn].
  - revert m. pattern n. apply natlike_ind; [|clear n Hn; intros n Hn IH m|done].
    { intros m. rewrite seqZ_nil by lia. constructor. }
    rewrite seqZ_cons by lia. constructor; [by rewrite Z.pred_succ|].
    apply Forall_forall. intros x Hx%elem_of_seqZ. lia.
  - rewrite seqZ_nil by lia. constructor.
Qed.

Lemma StronglySorted_filter {A} (R : relation A) (P : A → Prop) `{∀ x, Decision (P x)} l :
  StronglySorted R l → StronglySorted R (filter P l).
Proof.
  induction 1 as [|x l Hl IH Hx]; [constructor|].
  rewrite filter_cons. case_decide; [|done]. constructor; [done|].
  apply Forall_forall. intros y [? Hy]%list_elem_of_filter. rewrite Forall_forall in Hx. auto.
Qed.

Lemma freeIDs_sorted count used : StronglySorted Z.lt (freeIDs count used).
Proof. apply StronglySorted_filter, seqZ_sorted. Qed.

(** The id [id] of node [node] is free when the node has [count] GPUs and [ls] are the
    leases that exist. *)
Definition gpu_free (node : string) (count : Z) (ls : list GPULease) (id : Z) : Prop :=
  0 <= id < count ∧
  ∀ l, l ∈ ls → spec_NodeName (lease_Spec l) = node → spec_GPUID (lease_Spec l) ≠ id.

Lemma freeIDs_usedOn node count ls id :
  id ∈ freeIDs count (usedOn node ls) ↔ gpu_free node count ls id.
Proof. rewrite elem_of_freeIDs, elem_of_usedOn. unfold gpu_free. naive_solver. Qed.

(** The count label of a node, when it is well formed. *)
Definition labelCount (n : Node) : option Z :=
  match node_Labels n !! NodeLabelGPUCount with
  | None => None
  | Some s => match ParseInt10 32 s with
              | inl c => if c <? 0 then None else Some c
              | inr _ => None
              end
  end.

Lemma labelCount_range n c : labelCount n = Some c → 0 <= c ∧ int32_range c.
Proof.
  unfold labelCount. intros H. repeat case_match; simplify_eq; reflect_bools.
  match goal with E : ParseInt10 _ _ = _ |- _ => apply ParseInt_range in E; [|lia] end.
  unfold int32_range. lia.
Qed.

(** A run of [NodeCapacity]: one read of the node, and a count exactly when the label is
    well formed. *)
Lemma runs_NodeCapacity node t r :
  runs (NodeCapacity node) t r →
  ∃ a, t = [MkObs (GetNode node) a] ∧
    match a, r with
    | Ok n, Ok (c, _) => labelCount n = Some c
    | Ok n, Err e => labelCount n = None ∧ errors_Is e "inventory.ErrExhausted" = false
    | Err _, Ok _ => False
    | Err _, Err e => errors_Is e "inventory.ErrExhausted" = false
    end.
Proof.
  unfold NodeCapacity. intros H. runs_step. exists r0. unfold labelCount.
  destruct r0 as [n|e]; simpl_prog H; runs_all; simplify_eq; split; try done.
  all: repeat case_match; simplify_eq; try done.
  f_equal. symmetry. apply wrap32_id.
  match goal with E : ParseInt10 _ _ = _ |- _ => apply ParseInt_range in E; [|lia] end.
  unfold int32_range. lia.
Qed.

Lemma runs_FreeGPUIDs node t r :
  runs (FreeGPUIDs node) t r →
  (∃ n ls c, t = [MkObs (GetNode node) (Ok n); MkObs ListLeases (Ok ls)] ∧
     labelCount n = Some c ∧ r = Ok (freeIDs c (usedOn node ls))) ∨
  (∃ n e e', t = [MkObs (GetNode node) (Ok n); MkObs ListLeases (Err e)] ∧ r = Err e' ∧
     errors_Is e' "inventory.ErrExhausted" = errors_Is e "inventory.ErrExhausted") ∨
  (∃ a e, t = [MkObs (GetNode node) a] ∧ r = Err e ∧
     errors_Is e "inventory.ErrExhausted" = false ∧
     match a with Ok n => labelCount n = None | Err _ => True end).
Proof.
  unfold FreeGPUIDs, usedGPUIDs. intros H. runs_step.
  apply runs_NodeCapacity in Hr as (a' & -> & Hr).
  destruct a as [[c m]|e]; simpl_prog H; runs_all; simplify_eq.
  - destruct a' as [n|]; [|done]. left. eauto 10.
  - destruct a' as [n|]; [|done]. right. left. eauto 10.
  - right. right. exists a', e. destruct a' as [n|]; naive_solver.
Qed.

(** C33. Allocation takes the lowest free index.  A run of [AllocateID] reads the node
    and the leases; when both reads succeed and the count label is well formed, it
    returns an id that is within the label's count, that no existing lease of the node
    holds (in any phase) and below which every index is held, or reports exhaustion and
    then every index of the node is held.  In every other run it returns an error that
    is not the exhaustion error. *)
Theorem AllocateID_lowest_free (node : string) (t : list Obs) (r : result Z) :
  runs (AllocateID node) t r →
  (∃ n ls c, t = [MkObs (GetNode node) (Ok n); MkObs ListLeases (Ok ls)] ∧
     labelCount n = Some c ∧
     ((∃ id, r = Ok id ∧ gpu_free node c ls id ∧ ∀ j, 0 <= j < id → ¬ gpu_free node c ls j) ∨
      (r = Err ErrExhausted ∧ ∀ j, ¬ gpu_free node c ls j))) ∨
  (∃ e, r = Err e ∧
     ((∃ n e0, t = [MkObs (GetNode node) (Ok n); MkObs ListLeases (Err e0)] ∧
         errors_Is e "inventory.ErrExhausted" = errors_Is e0 "inventory.ErrExhausted") ∨
      (∃ a, t = [MkObs (GetNode node) a] ∧ errors_Is e "inventory.ErrExhausted" = false))).
Proof.
  unfold AllocateID. intros H. runs_step.
  apply runs_FreeGPUIDs in Hr as [(n & ls & c & -> & Hc & ->)
    |[(n & e & e' & -> & -> & He)|(a' & e & -> & -> & He & Ha)]]; simpl_prog H.
  - left. exists n, ls, c. split; [by destruct (freeIDs c _); runs_all|]. split; [done|].
    destruct (freeIDs c (usedOn node ls)) as [|id l] eqn:E; runs_all.
    + right. split; [done|]. intros j Hj%freeIDs_usedOn. rewrite E in Hj. by apply not_elem_of_nil in Hj.
    + left. exists id. split; [done|]. split; [apply freeIDs_usedOn; rewrite E; left|].
      intros j Hj Hf%freeIDs_usedOn. pose proof (freeIDs_sorted c (usedOn node ls)) as Hs.
      rewrite E in *. apply elem_of_cons in Hf as [->|Hf]; [lia|].
      inversion Hs as [|?? _ Hall]; subst. rewrite Forall_forall in Hall. specialize (Hall j Hf). lia.
  - runs_all. right. eexists. split; [done|]. left. exists n, e. split; [done|]. done.
  - runs_all. right. eexists. split; [done|]. right. eauto.
Qed.

(** [clientInventory] keeps the promises of the interface. *)

Lemma freeIDs_NoDup count used : NoDup (freeIDs count used).
Proof. apply NoDup_filter, NoDup_seqZ. Qed.

#[export] Instance clientInventory_laws : InventoryLaws clientInventory.
Proof.
  split; cbn [inv_NodeCapacity inv_FreeGPUIDs inv_NodeFreeCounts clientInventory].
  - intros node t r (a & -> & _)%runs_NodeCapacity. done.
  - intros node t r [(n & ls & c & -> & _)|[(n & e & e' & -> & _)|(a & e & -> & _)]]%runs_FreeGPUIDs; done.
  - unfold NodeFreeCounts. intros t r H. runs_all; done.
  - intros node t ids [(n & ls & c & -> & Hc & [= ->])|[(n & e & e' & _ & ? & _)|(a & e & _ & ? & _)]]%runs_FreeGPUIDs;
      [|done|done].
    split; [apply freeIDs_NoDup|]. apply Forall_forall. intros id [Hid _]%elem_of_freeIDs.
    apply labelCount_range in Hc as [_ Hc]. unfold int32_range in *. lia.
Qed.

(** ** The two ways of counting agree *)

Lemma lookup_usedByNode ls node : default ∅ (usedByNode ls !! node) = usedOn node ls.
Proof.
  unfold usedByNode, usedOn. induction ls as [|l ls IH] using rev_ind; [done|].
  rewrite !foldl_app. simpl. rewrite lookup_insert.
  destruct (decide (spec_NodeName (lease_Spec l) = node)) as [<-|Hne].
  - rewrite bool_decide_eq_true_2 by done. simpl. by rewrite IH.
  - rewrite bool_decide_eq_false_2 by done. exact IH.
Qed.

Lemma count_free_foldl (used : gset Z) l k :
  0 <= k → k + Z.of_nat (length l) < 2 ^ 31 →
  foldl (λ free id, if bool_decide (id ∉ used) then wrap32 (free + 1) else free) k l =
  k + Z.of_nat (length (filter (λ id, id ∉ used) l)).
Proof.
  revert k. induction l as [|x l IH]; intros k Hk Hl; cbn [length foldl] in *; [simpl; lia|].
  rewrite filter_cons. destruct (decide (x ∉ used)) as [Hx|Hx].
  - rewrite bool_decide_eq_true_2, wrap32_id, IH by (try done; unfold int32_range; lia).
    cbn [length]. lia.
  - rewrite bool_decide_eq_false_2, IH by (try done; lia). done.
Qed.

Lemma nodeFree_freeIDs ls n :
  nodeFree (usedByNode ls) n =
  (λ c, Z.of_nat (length (freeIDs c (usedOn (node_Name n) ls)))) <$> labelCount n.
Proof.
  destruct (labelCount n) as [c|] eqn:E; simpl.
  - pose proof (labelCount_range _ _ E) as [Hc Hr]. unfold labelCount, nodeFree in *.
    repeat case_match; simplify_eq. rewrite (wrap32_id c), lookup_usedByNode by done.
    f_equal. rewrite count_free_foldl; [done|done|].
    rewrite length_seqZ. unfold int32_range in Hr. lia.
  - unfold labelCount, nodeFree in *. by repeat case_match; simplify_eq.
Qed.

Lemma freeCounts_lookup_ne nodes used name :
  name ∉ node_Name <$> nodes → freeCounts nodes used !! name = None.
Proof.
  unfold freeCounts. induction nodes as [|n nodes IH] using rev_ind; [done|].
  rewrite fmap_app, not_elem_of_app. intros [Hn Hx]. rewrite foldl_app. simpl.
  destruct (nodeFree used n); [|by apply IH]. rewrite lookup_insert_ne; [by apply IH|].
  intros <-. apply Hx. left.
Qed.

Lemma freeCounts_lookup nodes used n :
  NoDup (node_Name <$> nodes) → n ∈ nodes → freeCounts nodes used !! node_Name n = nodeFree used n.
Proof.
  induction nodes as [|n' nodes IH] using rev_ind; [intros _ []%not_elem_of_nil|].
  rewrite fmap_app, NoDup_app, elem_of_app. intros (Hnd & Hdis & _) Hn.
  unfold freeCounts. rewrite foldl_app. simpl.
  destruct Hn as [Hn|Hn%list_elem_of_singleton].
  - assert (node_Name n' ≠ node_Name n) as Hne.
    { intros Heq. apply (Hdis (node_Name n)); [by apply list_elem_of_fmap_2|rewrite <-Heq; left]. }
    destruct (nodeFree used n'); [rewrite lookup_insert_ne by done|]; by apply IH.
  - subst n'. destruct (nodeFree used n); [apply lookup_insert_eq|].
    apply freeCounts_lookup_ne. intros Hin. apply (Hdis _ Hin). left.
Qed.

(** The two routines that answer "how many GPUs are free" agree: on a cluster whose
    node list and node reads show the same nodes (with distinct names), [NodeFreeCounts]
    succeeds and reports for every node exactly the number of ids [FreeGPUIDs] returns
    for it, and omits exactly the nodes for which [FreeGPUIDs] fails.  In particular its
    int32 counter never wraps. *)
Lemma NodeFreeCounts_FreeGPUIDs {S} (srv : Server S) (s : S) (nodes : list Node) (ls : list GPULease) :
  srv _ ListNodes s = (Ok nodes, s) →
  srv _ ListLeases s = (Ok ls, s) →
  (∀ n, n ∈ nodes → srv _ (GetNode (node_Name n)) s = (Ok n, s)) →
  NoDup (node_Name <$> nodes) →
  ∃ m, (run srv NodeFreeCounts s).1.1 = Ok m ∧
    ∀ n, n ∈ nodes →
      match (run srv (FreeGPUIDs (node_Name n)) s).1.1 with
      | Ok ids => m !! node_Name n = Some (Z.of_nat (length ids))
      | Err _ => m !! node_Name n = None
      end.
Proof.
  intros Hnodes Hls Hget Hnd. exists (freeCounts nodes (usedByNode ls)). split.
  { unfold NodeFreeCounts. simpl. rewrite Hnodes. simpl. by rewrite Hls. }
  intros n Hn. rewrite freeCounts_lookup, nodeFree_freeIDs by done.
  unfold FreeGPUIDs, usedGPUIDs, NodeCapacity. simpl. rewrite (Hget n Hn). simpl.
  unfold labelCount. destruct (node_Labels n !! NodeLabelGPUCount) as [cs|]; [|done]. simpl.
  destruct (ParseInt10 32 cs) as [c|] eqn:E; [|done]. simpl.
  destruct (c <? 0); [done|]. simpl. rewrite Hls. simpl.
  rewrite wrap32_id; [done|]. apply ParseInt_range in E; [|lia]. unfold int32_range. lia.
Qed.

End Inventory.

(** ** Witnesses *)

(** Two nodes, one with a malformed label, and two leases on the first. *)
Definition example_inventory : Mem :=
  {| m_leases := {[ LeaseName "n1" 0 := example_lease "n1" 0 "p0" "app";
                    LeaseName "n1" 2 := example_lease "n1" 2 "p2" "app" ]};
     m_pods := ∅; m_deployments := ∅;
     m_nodes := {[ "n1" := example_node "n1" "4"; "n2" := example_node "n2" "four" ]};
     m_workloads := ∅; m_flavors := []; m_fake := m_fake mem_empty;
     m_now := m_now mem_empty; m_rv := 10; m_faults := [] |}.

Lemma AllocateID_lowest_free_witness :
  (run mem_server (AllocateID "n1") example_inventory).1.1 = Ok 1 ∧
  ∃ n ls c, (run mem_server (AllocateID "n1") example_inventory).1.2 =
              [MkObs (GetNode "n1") (Ok n); MkObs ListLeases (Ok ls)] ∧ labelCount n = Some c.
Proof.
  split; [vm_compute; reflexivity|].
  destruct (AllocateID_lowest_free "n1" _ _ (run_runs mem_server (AllocateID "n1") example_inventory))
    as [(n & ls & c & Ht & Hc & _)|(e & He & _)].
  - exists n, ls, c. split; [exact Ht|exact Hc].
  - exfalso. vm_compute in He. discriminate.
Defined.

Lemma NodeFreeCounts_FreeGPUIDs_witness :
  ∃ m : gmap string Z, (run mem_server NodeFreeCounts example_inventory).1.1 = Ok m ∧
    m !! "n1" = Some 2 ∧ m !! "n2" = None.
Proof.
  set (nodes := map_values (m_nodes example_inventory)).
  destruct (NodeFreeCounts_FreeGPUIDs mem_server example_inventory nodes
              (map_values (m_leases example_inventory))) as (m & Hm & Hall).
  - reflexivity.
  - reflexivity.
  - intros n Hn. vm_compute in Hn. repeat (apply elem_of_cons in Hn as [->|Hn]; [vm_compute; reflexivity|]).
    by apply not_elem_of_nil in Hn.
  - apply (bool_decide_unpack _). vm_compute. exact I.
  - exists m. split; [exact Hm|]. split.
    + apply (Hall (example_node "n1" "4")). apply (bool_decide_unpack _). vm_compute. exact I.
    + apply (Hall (example_node "n2" "four")). apply (bool_decide_unpack _). vm_compute. exact I.
Defined.
