(* ===== verification/PodClient.v ===== *)
(** * The REST client of a workload pod: [src/internal/controller/podclient/podclient.go]

    [HTTPClient] as a function of what the transport gives back, with the bodies as bytes:
    the requests and responses are encoded and decoded as JSON ([GoJSON]). *)

From S2P Require Import Prelude GoLib GoJSON GoJSONFacts Names Kube Effects.

Definition DefaultPort : Z := 8000.
Definition DefaultTimeout : Z := 5 * Second.

Definition StatusOK : Z := 200.
Definition StatusAccepted : Z := 202.
Definition StatusNoContent : Z := 204.
Definition StatusBadRequest : Z := 400.
Definition StatusConflict : Z := 409.
Definition StatusInternalServerError : Z := 500.
Definition StatusServiceUnavailable : Z := 503.

Definition ErrNodeMismatchName : string := "podclient.ErrNodeMismatch".
Definition ErrNodeMismatch : goerror :=
  Sentinel ErrNodeMismatchName "podclient: node mismatch (409)".

(** The [http.Client] underneath, of which only the timeout is set. *)
Record httpClient := { Timeout : Z }.

(** The fields [HTTPClient], which may be nil, and [Port], zero when it is not set. *)
Record HTTPClient := { hc_HTTPClient : option httpClient; hc_Port : Z }.
Definition NewHTTPClient : HTTPClient :=
  {| hc_HTTPClient := Some {| Timeout := DefaultTimeout |}; hc_Port := DefaultPort |}.

Definition client (c : HTTPClient) : httpClient :=
  match hc_HTTPClient c with
  | Some h => h
  | None => {| Timeout := DefaultTimeout |}
  end.

Definition port (c : HTTPClient) : Z :=
  if bool_decide (hc_Port c ≠ 0) then hc_Port c else DefaultPort.

Definition baseURL (c : HTTPClient) (podIP : string) : string :=
  "http://" +:+ podIP +:+ ":" +:+ FormatInt10 (port c).

(** ** The bodies *)

(** [ActivateRequest] and [StateResponse] with their JSON names. *)
Definition ActivateRequest_json : JSONStruct ActivateRequest := {|
  json_zero := {| ar_LeaseName := ""; ar_Node := ""; ar_GPUID := 0; ar_GPUModel := "" |};
  struct_fields req :=
    [ ("leaseName", FString (ar_LeaseName req)); ("node", FString (ar_Node req));
      ("gpuID", FInt32 (ar_GPUID req)); ("gpuModel", FString (ar_GPUModel req)) ];
  of_fields vs :=
    match vs with
    | [FString leaseName; FString node; FInt32 gpuID; FString gpuModel] =>
        Some {| ar_LeaseName := leaseName; ar_Node := node; ar_GPUID := gpuID; ar_GPUModel := gpuModel |}
    | _ => None
    end;
|}.
#[export] Existing Instance ActivateRequest_json.

Definition StateResponse_json : JSONStruct StateResponse := {|
  json_zero := {| sr_State := ""; sr_LeaseName := ""; sr_Node := ""; sr_GPUID := 0 |};
  struct_fields st :=
    [ ("state", FString (sr_State st)); ("leaseName", FString (sr_LeaseName st));
      ("node", FString (sr_Node st)); ("gpuID", FInt32 (sr_GPUID st)) ];
  of_fields vs :=
    match vs with
    | [FString state; FString leaseName; FString node; FInt32 gpuID] =>
        Some {| sr_State := state; sr_LeaseName := leaseName; sr_Node := node; sr_GPUID := gpuID |}
    | _ => None
    end;
|}.
#[export] Existing Instance StateResponse_json.

(** ** The exchanges *)

(** A request as the client builds it, with the [http.Client] that carries it out: the URL is
    kept as its base and its path. *)
Record HTTPRequest := {
  hr_Client : httpClient;
  hr_Method : string;
  hr_Base : string;
  hr_Path : string;
  hr_ContentType : option string;
  hr_Body : string;
}.

(** One HTTP exchange: the request cannot be built, it cannot be carried out, or there is
    a response with a status code and a body to read. *)
Inductive Exchange :=
  | BuildError (err : goerror)
  | DoError (err : goerror)
  | Responded (status : Z) (body : Body).

Definition unexpected_status (what podIP : string) (status : Z) : goerror :=
  PlainError ("podclient: " +:+ what +:+ " to " +:+ podIP +:+ ": unexpected status " +:+ FormatInt10 status).

(** The three methods, given the transport [do].  Marshalling an [ActivateRequest]
    (strings and an integer) cannot fail. *)
Definition activate_http (c : HTTPClient) (podIP : string) (req : ActivateRequest) : HTTPRequest :=
  {| hr_Client := client c; hr_Method := "POST"; hr_Base := baseURL c podIP; hr_Path := "/lease";
     hr_ContentType := Some "application/json"; hr_Body := Marshal req |}.
Definition HTTP_Activate (do : HTTPRequest → Exchange) (c : HTTPClient) (podIP : string)
    (req : ActivateRequest) : result unit :=
  match do (activate_http c podIP req) with
  | BuildError err => Err (wrap "podclient: build POST /lease request" err)
  | DoError err => Err (wrap ("podclient: POST /lease to " +:+ podIP) err)
  | Responded status _ =>
      if (status =? StatusAccepted) || (status =? StatusOK) then Ok tt
      else if status =? StatusConflict then Err ErrNodeMismatch
      else Err (unexpected_status "POST /lease" podIP status)
  end.

Definition release_http (c : HTTPClient) (podIP : string) : HTTPRequest :=
  {| hr_Client := client c; hr_Method := "DELETE"; hr_Base := baseURL c podIP; hr_Path := "/lease";
     hr_ContentType := None; hr_Body := "" |}.
Definition HTTP_Release (do : HTTPRequest → Exchange) (c : HTTPClient) (podIP : string) : result unit :=
  match do (release_http c podIP) with
  | BuildError err => Err (wrap "podclient: build DELETE /lease request" err)
  | DoError err => Err (wrap ("podclient: DELETE /lease to " +:+ podIP) err)
  | Responded status _ =>
      if (status <? 200) || (300 <=? status) then Err (unexpected_status "DELETE /lease" podIP status)
      else Ok tt
  end.

Definition state_http (c : HTTPClient) (podIP : string) : HTTPRequest :=
  {| hr_Client := client c; hr_Method := "GET"; hr_Base := baseURL c podIP; hr_Path := "/state";
     hr_ContentType := None; hr_Body := "" |}.
Definition HTTP_State (do : HTTPRequest → Exchange) (c : HTTPClient) (podIP : string)
    : result StateResponse :=
  match do (state_http c podIP) with
  | BuildError err => Err (wrap "podclient: build GET /state request" err)
  | DoError err => Err (wrap ("podclient: GET /state to " +:+ podIP) err)
  | Responded status body =>
      if negb (status =? StatusOK) then Err (unexpected_status "GET /state" podIP status)
      else
        match Decode body with
        | Err err => Err (wrap ("podclient: decode /state response from " +:+ podIP) err)
        | Ok out => Ok out
        end
  end.

(** ** The wire format *)

#[export] Instance ActivateRequest_laws : JSONStructLaws ActivateRequest.
Proof.
  split; cbn; try done; [by intros []|..|intros ?; by repeat constructor].
  - repeat (constructor; [set_solver|]). constructor.
  - repeat (constructor; [by vm_compute|]). constructor.
Qed.
#[export] Instance StateResponse_laws : JSONStructLaws StateResponse.
Proof.
  split; cbn; try done; [by intros []|..|intros ?; by repeat constructor].
  - repeat (constructor; [set_solver|]). constructor.
  - repeat (constructor; [by vm_compute|]). constructor.
Qed.

(** The values with their strings repaired. *)
Definition repaired_request (req : ActivateRequest) : ActivateRequest :=
  {| ar_LeaseName := coerceUTF8 (ar_LeaseName req); ar_Node := coerceUTF8 (ar_Node req);
     ar_GPUID := ar_GPUID req; ar_GPUModel := coerceUTF8 (ar_GPUModel req) |}.
Definition repaired_state (st : StateResponse) : StateResponse :=
  {| sr_State := coerceUTF8 (sr_State st); sr_LeaseName := coerceUTF8 (sr_LeaseName st);
     sr_Node := coerceUTF8 (sr_Node st); sr_GPUID := sr_GPUID st |}.

Lemma int32_in_range n : bool_decide (- 2 ^ 31 <= n) && bool_decide (n < 2 ^ 31) = bool_decide (int32_range n).
Proof. unfold int32_range. repeat case_bool_decide; simpl; try done; lia. Qed.

#[local] Arguments repaired_request / .
#[local] Arguments repaired_state / .

(** What is read of a body that begins with an encoded request or state. *)
Lemma decode_request req rest err :
  Decode {| b_bytes := Marshal req +:+ rest; b_err := err |} =
    if bool_decide (int32_range (ar_GPUID req)) then Ok (repaired_request req) else Err UnmarshalTypeError.
Proof. rewrite Decode_Marshal. cbn -[Z.pow]. by rewrite int32_in_range, ?andb_true_r. Qed.
Lemma decode_state st rest err :
  Decode {| b_bytes := Marshal st +:+ rest; b_err := err |} =
    if bool_decide (int32_range (sr_GPUID st)) then Ok (repaired_state st) else Err UnmarshalTypeError.
Proof. rewrite Decode_Marshal. cbn -[Z.pow]. by rewrite int32_in_range, andb_true_r. Qed.

Lemma decode_state_encoded st :
  Decode (whole (Encode st)) =
    if bool_decide (int32_range (sr_GPUID st)) then Ok (repaired_state st) else Err UnmarshalTypeError.
Proof. apply decode_state. Qed.
Lemma decode_request_sent req :
  Decode (whole (Marshal req)) =
    if bool_decide (int32_range (ar_GPUID req)) then Ok (repaired_request req) else Err UnmarshalTypeError.
Proof. rewrite <-(decode_request req "" None). by rewrite string_app_nil_r. Qed.

(** Values whose strings are valid UTF-8 need no repair. *)
Definition valid_request (req : ActivateRequest) : Prop :=
  ValidString (ar_LeaseName req) ∧ ValidString (ar_Node req) ∧ ValidString (ar_GPUModel req).
Definition valid_state (st : StateResponse) : Prop :=
  ValidString (sr_State st) ∧ ValidString (sr_LeaseName st) ∧ ValidString (sr_Node st).

Lemma repaired_valid_request req : valid_request req → repaired_request req = req.
Proof. intros (? & ? & ?). destruct req. simpl in *. by rewrite !coerceUTF8_valid by (by apply Is_true_true). Qed.
Lemma repaired_valid_state st : valid_state st → repaired_state st = st.
Proof. intros (? & ? & ?). destruct st. simpl in *. by rewrite !coerceUTF8_valid by (by apply Is_true_true). Qed.

(** C27. The wire format.  A body that begins with an encoded request or state decodes,
    whatever comes after it and however the connection ends, to the request or state that
    was encoded, its strings repaired where they are not UTF-8; valid UTF-8 comes back as it
    was; and a GPU number that is not an int32 is a decoding error. *)
Theorem wire_roundtrip (req : ActivateRequest) (st : StateResponse) (rest : string) (err : option goerror) :
  Decode {| b_bytes := Marshal req +:+ rest; b_err := err |} =
    (if bool_decide (int32_range (ar_GPUID req)) then Ok (repaired_request req) else Err UnmarshalTypeError) ∧
  Decode {| b_bytes := Encode st +:+ rest; b_err := err |} =
    (if bool_decide (int32_range (sr_GPUID st)) then Ok (repaired_state st) else Err UnmarshalTypeError) ∧
  (valid_request req → repaired_request req = req) ∧ (valid_state st → repaired_state st = st).
Proof.
  split; [apply decode_request|]. split; [|by split; [apply repaired_valid_request|apply repaired_valid_state]].
  unfold Encode. rewrite <-string_app_assoc. apply decode_state.
Qed.
