(* ===== verification/Pods.v ===== *)
(** * Pod selection and classification: [src/internal/controller/pods.go]

    Which pods of a Deployment count, how many of them should be hot, in which order they
    are promoted and demoted, and when a lease's claim on a pod is no longer valid. *)

From S2P Require Import Prelude GoLib Names Kube Effects MemServer.

Section Pods.
Context `{KL : KubeLib}.

(** ** Selecting the pods *)

Definition deploymentSelector (dep : Deployment) : result Selector :=
  let who := "deployment " +:+ dep_Namespace dep +:+ "/" +:+ dep_Name dep in
  match dep_Selector dep with
  | None => Err (PlainError (who +:+ " has no spec.selector"))
  | Some s =>
      match LabelSelectorAsSelector s with
      | Err err => Err (wrap (who +:+ ": invalid spec.selector") err)
      | Ok sel => Ok sel
      end
  end.

Definition listDeploymentPods (dep : Deployment) : Prog (result (list Pod)) :=
  match deploymentSelector dep with
  | Err err => Ret (Err err)
  | Ok sel =>
      items <-? call (ListPods (dep_Namespace dep) sel)
        else wrap ("list pods for deployment " +:+ dep_Namespace dep +:+ "/" +:+ dep_Name dep) ;;
      Ret (Ok items)
  end.

(** ** Classifying a pod *)

(** The first condition of type Ready decides. *)
Fixpoint readyCondition (cs : list PodCondition) : bool :=
  match cs with
  | [] => false
  | c :: cs => if bool_decide (pc_Type c = PodReady)
               then bool_decide (pc_Status c = ConditionTrue) else readyCondition cs
  end.
Definition isPodReady (pod : Pod) : bool := readyCondition (pod_Conditions pod).

Definition isPodConsidered (pod : Pod) : bool :=
  if bool_decide (is_Some (pod_DeletionTimestamp pod)) then false
  else if bool_decide (pod_NodeName pod = "") then false
  else if negb (bool_decide (pod_Phase pod = PodRunning)) then false
  else isPodReady pod.

Definition podState (pod : Pod) : string :=
  match pod_Labels pod !! StateLabelKey with
  | Some s => if bool_decide (s ≠ "") then s else StateWarm
  | None => StateWarm
  end.

Definition isHeld (state : string) : bool :=
  bool_decide (state = StateHot) || bool_decide (state = StateActivating).

(** ** How many, and in which order *)

(** [readyCount] is a Go int, the other two are int32. *)
Definition targetHot (readyCount desiredWarm minHot : Z) : Z :=
  let t := wrap64 (readyCount - desiredWarm) in
  let t := if t <? minHot then minHot else t in
  if t >? readyCount then readyCount else t.

Definition freeOn (freeByNode : gmap string Z) (p : Pod) : Z :=
  default 0 (freeByNode !! pod_NodeName p).

Definition promotionLess (freeByNode : gmap string Z) (p q : Pod) : bool :=
  let fi := freeOn freeByNode p in
  let fj := freeOn freeByNode q in
  if negb (fi =? fj) then fi >? fj
  else Time_Before (pod_CreationTimestamp p) (pod_CreationTimestamp q).

Definition sortPromotionCandidates (pods : list Pod) (freeByNode : gmap string Z) : list Pod :=
  let eligible := List.filter (λ p, freeOn freeByNode p >? 0) pods in
  SliceStable (promotionLess freeByNode) eligible.

Definition demotionLess (p q : Pod) : bool :=
  Time_Before (pod_CreationTimestamp q) (pod_CreationTimestamp p).

Definition sortDemotionCandidates (pods : list Pod) : list Pod := SliceStable demotionLess pods.

(** ** Patches *)

(** The pod with the label set, as the client sends it; on success the client decodes
    the server's reply into the pod. *)
Definition patchPodStateLabel (pod : Pod) (state : string) : Prog (result Pod) :=
  let new := with_labels pod (<[ StateLabelKey := state ]> (pod_Labels pod)) in
  pod' <-? call (PatchPod pod new)
    else wrap ("patch pod " +:+ pod_Namespace pod +:+ "/" +:+ pod_Name pod +:+ " state=" +:+ state) ;;
  Ret (Ok pod').

Definition initializePodWarmState (pod : Pod) : Prog (result Pod) :=
  let new :=
    with_annotations (with_labels pod (<[ StateLabelKey := StateWarm ]> (pod_Labels pod)))
      (<[ AnnotationPodDeletionCost := PodDeletionCostWarm ]> (pod_Annotations pod)) in
  pod' <-? call (PatchPod pod new)
    else wrap ("initialize pod " +:+ pod_Namespace pod +:+ "/" +:+ pod_Name pod +:+ " warm state") ;;
  Ret (Ok pod').

(** ** Orphans *)

(** A non-empty reason when the claim of [lease] on [pod] is no longer valid. *)
Definition leaseOrphanReason (pod : option Pod) (lease : GPULease) (sel : option Selector) : string :=
  match pod with
  | None => ReasonPodGone
  | Some pod =>
      let claimUID := ref_UID (spec_ClaimRef (lease_Spec lease)) in
      if bool_decide (claimUID ≠ "") && bool_decide (pod_UID pod ≠ claimUID) then ReasonPodGone
      else if bool_decide (is_Some (pod_DeletionTimestamp pod)) || negb (isPodReady pod)
      then ReasonPodGone
      else if match sel with Some sel => negb (sel_Matches sel (pod_Labels pod)) | None => false end
      then ReasonPodGone
      else if bool_decide (pod_NodeName pod ≠ spec_NodeName (lease_Spec lease))
      then ReasonNodeMismatch
      else ""
  end.

(** ** The target *)

(** C34. The target number of hot pods.  For a count of ready pods within Go's int and
    non-negative int32 settings, [targetHot] computes without wrap-around the clamp of
    [readyCount - desiredWarm] between [minHot] and [readyCount], so that the target is
    between 0 and the number of ready pods, the hot floor is met as far as pods exist,
    and the pods left warm are the desired number, less whatever the hot floor takes. *)
Theorem targetHot_clamp (readyCount desiredWarm minHot : Z) :
  0 <= readyCount < 2 ^ 63 → 0 <= desiredWarm → int32_range desiredWarm →
  0 <= minHot → int32_range minHot →
  let t := targetHot readyCount desiredWarm minHot in
  t = Z.min readyCount (Z.max minHot (readyCount - desiredWarm)) ∧
  0 <= t <= readyCount ∧ Z.min minHot readyCount <= t ∧
  readyCount - t = Z.max 0 (Z.min desiredWarm (readyCount - minHot)).
Proof.
  intros Hr Hd0 Hd Hm0 Hm. unfold targetHot, int32_range in *.
  rewrite wrap64_id by (unfold int64_range; lia).
  destruct (Z.ltb_spec (readyCount - desiredWarm) minHot);
    [destruct (Z.gtb_spec minHot readyCount)|destruct (Z.gtb_spec (readyCount - desiredWarm) readyCount)];
    cbv zeta; lia.
Qed.

(** ** The orders *)

#[export] Instance promotionLess_order free : StrictWeakOrder (promotionLess free).
Proof.
  split; unfold promotionLess, Time_Before; intros *;
    repeat case_match; reflect_bools; rewrite ?Z.gtb_lt, ?Z.ltb_lt, ?Z.ltb_ge in *; try lia; try done.
Qed.

#[export] Instance demotionLess_order : StrictWeakOrder demotionLess.
Proof.
  split; unfold demotionLess, Time_Before; intros *; rewrite ?Z.ltb_lt; lia.
Qed.

Lemma eligible_filter (free : gmap string Z) pods p :
  p ∈ List.filter (λ p, freeOn free p >? 0) pods ↔ p ∈ pods ∧ 0 < freeOn free p.
Proof. rewrite !list_elem_of_In, filter_In, Z.gtb_lt. done. Qed.

Lemma elem_of_sortPromotionCandidates pods free p :
  p ∈ sortPromotionCandidates pods free ↔ p ∈ pods ∧ 0 < freeOn free p.
Proof. unfold sortPromotionCandidates. rewrite SliceStable_perm. apply eligible_filter. Qed.

Lemma sortDemotionCandidates_perm pods : sortDemotionCandidates pods ≡ₚ pods.
Proof. apply SliceStable_perm. Qed.

(** Promotion order.  The candidates are exactly the warm pods that sit on a node
    with a free GPU, each as often as it was given; a pod comes before another only if
    its node has more free GPUs, or as many and it is not the younger one; and pods that
    tie keep the order they were given in.  No other list has these properties, so the
    order does not depend on the sorting algorithm. *)
Lemma sortPromotionCandidates_order (pods : list Pod) (free : gmap string Z) :
  let eligible := List.filter (λ p, freeOn free p >? 0) pods in
  let out := sortPromotionCandidates pods free in
  (∀ p, p ∈ out ↔ p ∈ pods ∧ 0 < freeOn free p) ∧
  out ≡ₚ eligible ∧
  StronglySorted (λ p q, freeOn free q < freeOn free p ∨
    freeOn free q = freeOn free p ∧ pod_CreationTimestamp p <= pod_CreationTimestamp q) out ∧
  (∀ l, stable_sort_of (promotionLess free) eligible l ↔ l = out).
Proof.
  intros eligible out.
  destruct (SliceStable_spec (promotionLess free) eligible) as (Hp & Hs & Ht).
  split; [apply elem_of_sortPromotionCandidates|]. split; [exact Hp|]. split.
  - eapply StronglySorted_weaken; [|exact Hs]. intros p q. unfold promotionLess, Time_Before.
    rewrite !Z.gtb_ltb. case_match; intros; reflect_bools; lia.
  - intros l. split; [|intros ->; exact (conj Hp (conj Hs Ht))].
    intros Hl. apply (stable_sort_unique (promotionLess free) eligible); [done|exact (conj Hp (conj Hs Ht))].
Qed.

(** Demotion order.  The candidates are exactly the pods given, newest first, and
    pods created at the same instant keep the order they were given in. *)
Lemma sortDemotionCandidates_order (pods : list Pod) :
  let out := sortDemotionCandidates pods in
  out ≡ₚ pods ∧
  StronglySorted (λ p q, pod_CreationTimestamp q <= pod_CreationTimestamp p) out ∧
  (∀ l, stable_sort_of demotionLess pods l ↔ l = out).
Proof.
  intros out. destruct (SliceStable_spec demotionLess pods) as (Hp & Hs & Ht).
  split; [exact Hp|]. split.
  - eapply StronglySorted_weaken; [|exact Hs]. intros p q. unfold demotionLess, Time_Before.
    intros. by reflect_bools.
  - intros l. split; [|intros ->; exact (conj Hp (conj Hs Ht))].
    intros Hl. apply (stable_sort_unique demotionLess pods); [done|exact (conj Hp (conj Hs Ht))].
Qed.

(** C35. The orders of the candidates.  The candidates for promotion are exactly the warm
    pods that sit on a node with a free GPU, those on nodes with more free GPUs first and
    older pods before younger ones; the candidates for demotion are the pods given, newest
    first.  In both, pods that tie keep the order they were given in, and no other list has
    these properties, so the order does not depend on the sorting algorithm. *)
Theorem sortCandidates_order (pods : list Pod) (free : gmap string Z) :
  let eligible := List.filter (λ p, freeOn free p >? 0) pods in
  let up := sortPromotionCandidates pods free in
  let down := sortDemotionCandidates pods in
  (∀ p, p ∈ up ↔ p ∈ pods ∧ 0 < freeOn free p) ∧ up ≡ₚ eligible ∧
  StronglySorted (λ p q, freeOn free q < freeOn free p ∨
    freeOn free q = freeOn free p ∧ pod_CreationTimestamp p <= pod_CreationTimestamp q) up ∧
  (∀ l, stable_sort_of (promotionLess free) eligible l ↔ l = up) ∧
  down ≡ₚ pods ∧
  StronglySorted (λ p q, pod_CreationTimestamp q <= pod_CreationTimestamp p) down ∧
  (∀ l, stable_sort_of demotionLess pods l ↔ l = down).
Proof.
  destruct (sortPromotionCandidates_order pods free) as (H1 & H2 & H3 & H4).
  destruct (sortDemotionCandidates_order pods) as (H5 & H6 & H7). by split_and!.
Qed.

(** ** Valid claims *)

(** The claim of a lease on a pod holds: the pod is the one that was claimed, it is not
    terminating, it is ready and it is still selected. *)
Definition claim_alive (pod : Pod) (lease : GPULease) (sel : option Selector) : Prop :=
  let uid := ref_UID (spec_ClaimRef (lease_Spec lease)) in
  (uid = "" ∨ pod_UID pod = uid) ∧ pod_DeletionTimestamp pod = None ∧ isPodReady pod = true ∧
  match sel with Some sel => sel_Matches sel (pod_Labels pod) = true | None => True end.

(** Why a claim is not valid, as a decision table. *)
Lemma leaseOrphanReason_cases pod lease sel :
  let r := leaseOrphanReason pod lease sel in
  (r = "" ∧ ∃ p, pod = Some p ∧ claim_alive p lease sel ∧
     pod_NodeName p = spec_NodeName (lease_Spec lease)) ∨
  (r = ReasonNodeMismatch ∧ ∃ p, pod = Some p ∧ claim_alive p lease sel ∧
     pod_NodeName p ≠ spec_NodeName (lease_Spec lease)) ∨
  (r = ReasonPodGone ∧ ∀ p, pod = Some p → ¬ claim_alive p lease sel).
Proof.
  destruct pod as [p|]; [|right; right; done].
  set (uid := ref_UID (spec_ClaimRef (lease_Spec lease))).
  assert (∀ P : Prop, (claim_alive p lease sel → False) → P ∨ ReasonPodGone = ReasonPodGone ∧
    (∀ q, Some p = Some q → ¬ claim_alive q lease sel)) as Hgone.
  { intros P HP. right. split; [done|]. intros q [= <-]. exact HP. }
  unfold leaseOrphanReason. cbv zeta. fold uid.
  destruct (bool_decide (uid ≠ "") && bool_decide (pod_UID p ≠ uid)) eqn:E1.
  { right. apply Hgone. unfold claim_alive. fold uid. reflect_bools. tauto. }
  destruct (bool_decide (is_Some (pod_DeletionTimestamp p)) || negb (isPodReady p)) eqn:E2.
  { right. apply Hgone. unfold claim_alive. apply orb_true_iff in E2 as [E2|E2]; reflect_bools.
    - destruct E2 as [? ->]. intros (_ & ? & _). done.
    - rewrite E2. intros (_ & _ & ? & _). done. }
  destruct (match sel with Some sel => negb (sel_Matches sel (pod_Labels p)) | None => false end) eqn:E3.
  { right. apply Hgone. unfold claim_alive. destruct sel; [|done]. reflect_bools. rewrite E3.
    intros (_ & _ & _ & ?). done. }
  assert (claim_alive p lease sel) as Halive.
  { unfold claim_alive. fold uid. apply andb_false_iff in E1. reflect_bools.
    split; [destruct E1; reflect_bools; destruct (decide (uid = "")), (decide (pod_UID p = uid)); tauto|].
    rewrite eq_None_not_Some. split; [done|]. split; [done|].
    destruct sel; [by reflect_bools|done]. }
  destruct (bool_decide (pod_NodeName p ≠ spec_NodeName (lease_Spec lease))) eqn:E4; reflect_bools.
  - right. left. split; [done|]. by exists p.
  - left. split; [done|]. exists p. split; [done|]. split; [done|]. by apply dec_stable.
Qed.

(** Orphan detection.  [leaseOrphanReason] returns no reason exactly when the
    claimed pod exists, is the claimed one, is ready, not terminating, still selected and
    on the lease's node; it returns NodeMismatch exactly when only the node is wrong, and
    PodGone in every other case. *)
Lemma leaseOrphanReason_spec (pod : option Pod) (lease : GPULease) (sel : option Selector) :
  let r := leaseOrphanReason pod lease sel in
  let node := spec_NodeName (lease_Spec lease) in
  (r = "" ↔ ∃ p, pod = Some p ∧ claim_alive p lease sel ∧ pod_NodeName p = node) ∧
  (r = ReasonNodeMismatch ↔ ∃ p, pod = Some p ∧ claim_alive p lease sel ∧ pod_NodeName p ≠ node) ∧
  (r = ReasonPodGone ↔ ∀ p, pod = Some p → ¬ claim_alive p lease sel).
Proof.
  intros r node.
  destruct (leaseOrphanReason_cases pod lease sel) as [[Hr H]|[[Hr H]|[Hr H]]];
    change (leaseOrphanReason pod lease sel) with r in Hr; rewrite Hr; subst node;
    (split; [|split]); split; naive_solver.
Qed.

End Pods.

(** ** Witnesses *)

(** Ten ready pods, two of them kept warm. *)
Lemma targetHot_clamp_witness : targetHot 10 2 1 = 8 ∧ 10 - 8 = Z.max 0 (Z.min 2 (10 - 1)).
Proof.
  destruct (targetHot_clamp 10 2 1) as (H1 & _ & _ & H4);
    [lia|lia|unfold int32_range; lia|lia|unfold int32_range; lia|].
  split; [exact H1|]. rewrite H1 in H4. exact H4.
Defined.
