(* ===== verification/Kueue.v ===== *)
(** * Kueue Workloads: [src/internal/controller/kueue.go]

    The Workload that reserves the quota of a lease, and what its status says. *)

From S2P Require Import Prelude GoLib Names Kube Effects MemServer.

Section Kueue.
Context `{KL : KubeLib}.

(** ** Construction *)

Definition placeholderContainerImage : string := "registry.k8s.io/pause:3.9".
Definition placeholderContainerName : string := "main".
Definition kueueReasonInadmissible : string := "Inadmissible".
Definition RestartPolicyNever : string := "Never".

Definition workloadName (lease : GPULease) : string := lease_Name lease.

Definition buildWorkload (lease : GPULease) : Workload :=
  {| wl_Name := workloadName lease;
     wl_Namespace := ref_Namespace (spec_ClaimRef (lease_Spec lease));
     wl_CreationTimestamp := 0;
     wl_OwnerReferences := [];
     wl_Spec :=
       {| wls_QueueName := spec_LocalQueueName (lease_Spec lease);
          wls_PodSets :=
            [ {| ps_Name := PodSetName;
                 ps_Count := 1;
                 ps_Template :=
                   {| tpl_RestartPolicy := RestartPolicyNever;
                      tpl_NodeSelector := {[ LabelHostname := spec_NodeName (lease_Spec lease) ]};
                      tpl_Containers :=
                        [ {| ctr_Name := placeholderContainerName;
                             ctr_Image := placeholderContainerImage;
                             ctr_Requests := {[ KueueResourceName := MustParse "1" ]} |} ] |} |} ];
          wls_PriorityClassName := "" |};
     wl_Status := {| wlst_Conditions := []; wlst_Admission := None |} |}.

Definition workloadMatchesSpec (existing want : Workload) : bool :=
  SemanticDeepEqual (wl_Spec existing) (wl_Spec want).

(** ** Inspection *)

Definition isWorkloadAdmitted (wl : Workload) : bool :=
  match FindStatusCondition (wlst_Conditions (wl_Status wl)) ConditionAdmitted with
  | Some c => bool_decide (cond_Status c = ConditionTrue)
  | None => false
  end.

Definition quotaReserved (wl : Workload) : option Condition :=
  FindStatusCondition (wlst_Conditions (wl_Status wl)) KueueConditionQuotaReserved.

Definition workloadInadmissible (wl : Workload) : bool * string :=
  match quotaReserved wl with
  | Some c =>
      if bool_decide (cond_Status c = ConditionFalse) &&
         bool_decide (cond_Reason c = kueueReasonInadmissible)
      then (true, cond_Message c) else (false, "")
  | None => (false, "")
  end.

Definition quotaReservedMessage (wl : Workload) : string :=
  match quotaReserved wl with
  | Some c => cond_Message c
  | None => "Workload not yet observed by Kueue"
  end.

Definition admissionAnchor (wl : Workload) : Z :=
  match quotaReserved wl with
  | Some c => cond_LastTransitionTime c
  | None => wl_CreationTimestamp wl
  end.

(** The flavor, and whether there is one. *)
Definition assignedFlavor (wl : Workload) : string * bool :=
  match wlst_Admission (wl_Status wl) with
  | None => ("", false)
  | Some adm =>
      match adm_PodSetAssignments adm with
      | [] => ("", false)
      | psa :: _ =>
          match psa_Flavors psa !! KueueResourceName with
          | Some flavor => (flavor, true)
          | None => ("", false)
          end
      end
  end.

(** [for _, rf := range list.Items]: a flavor without the label reads as the empty
    string. *)
Fixpoint flavorFor (node : string) (items : list ResourceFlavor) : option string :=
  match items with
  | [] => None
  | rf :: items =>
      if bool_decide (default "" (rf_NodeLabels rf !! LabelHostname) = node)
      then Some (rf_Name rf) else flavorFor node items
  end.

Definition expectedFlavorForNode (node : string) : Prog (result string) :=
  items <-? call ListResourceFlavors else wrap "list ResourceFlavors" ;;
  match flavorFor node items with
  | Some name => Ret (Ok name)
  | None => Ret (Err (PlainError ("no ResourceFlavor selects node " +:+ node)))
  end.

(** ** Facts *)

(** The Workload the code builds matches itself once the owner is set, so a reconcile
    that finds the Workload it created leaves it alone. *)
Lemma workloadMatchesSpec_built `{HKL : !KubeLibLaws} lease lease' w w' :
  lease_Spec lease' = lease_Spec lease →
  SetControllerReference lease (buildWorkload lease) = Ok w →
  wl_Spec w' = wl_Spec w →
  workloadMatchesSpec w' (buildWorkload lease') = true.
Proof.
  intros Hl Hw Hs. unfold workloadMatchesSpec.
  destruct (controller_ref_keeps _ _ _ Hw) as (_ & _ & Hk). rewrite Hs, Hk. simpl. rewrite Hl.
  apply deep_equal_refl.
Qed.

End Kueue.
