(* ===== verification/GPULeaseController.v ===== *)
(** * The GPULease reconciler: [src/internal/controller/gpulease_controller.go]

    One run of [Reconcile] drives one lease by one step of its life cycle
    Pending, Admitted, Activating, Bound, with the exits Failed and Releasing. *)

From S2P Require Import Prelude GoLib Names Kube Effects MemServer Inventory PodClient Pods Kueue.

(** [ctrl.Result]. *)
Record CtrlResult := { Requeue : bool; RequeueAfter : Z }.
#[export] Instance CtrlResult_eq_dec : EqDecision CtrlResult.
Proof. solve_decision. Defined.

Definition NoRequeue : CtrlResult := {| Requeue := false; RequeueAfter := 0 |}.
Definition RequeueNow : CtrlResult := {| Requeue := true; RequeueAfter := 0 |}.
Definition RequeueIn (d : Z) : CtrlResult := {| Requeue := false; RequeueAfter := d |}.

Definition pollInterval : Z := 2 * Second.
Definition boundPollInterval : Z := 15 * Second.

Definition EventReasonQuotaReserved : string := "QuotaReserved".
Definition EventReasonActivating : string := "Activating".
Definition EventReasonBound : string := "Bound".
Definition EventReasonReleased : string := "LeaseReleased".
Definition EventReasonFlavorMismatch : string := "FlavorMismatch".

(** Metric names ([metrics.go]). *)
Definition LeasesActive : string := "gpulease_leases_active".
Definition NodeGPUsFree : string := "gpulease_node_gpus_free".
Definition LeaseAcquireFailuresTotal : string := "gpulease_lease_acquire_failures_total".

Section GPULeaseController.
Context `{KL : KubeLib}.

(** The fields of the reconciler that steer it: whether there is a Recorder, and the
    Inventory, nil or not.  The calls [ClockNow] stand for [Clock] or [time.Now]. *)
Record GPULeaseReconciler := {
  glr_Recorder : bool;
  glr_Inventory : option InventoryOps;
}.

(** ** Helpers *)

Definition event (r : GPULeaseReconciler) (lease : GPULease) (ty : EventType)
    (reason message : string) : Prog unit :=
  if glr_Recorder r then call (RecordEvent (OnLease (lease_Name lease)) ty reason message)
  else Ret tt.

Definition now : Prog Z := call ClockNow.

(** The lease with one of its conditions set at time [t]: the condition passed has a zero
    LastTransitionTime, which [SetStatusCondition] fills in when the status flips. *)
Definition stampCondition (t : Z) (lease : GPULease) (condType : string) (status : ConditionStatus)
    (reason message : string) : GPULease :=
  with_conditions lease
    (SetStatusCondition t (st_Conditions (lease_Status lease))
       {| cond_Type := condType; cond_Status := status;
          cond_ObservedGeneration := lease_Generation lease;
          cond_LastTransitionTime := 0;
          cond_Reason := reason; cond_Message := message |}).

Definition setLeaseCondition (lease : GPULease) (condType : string) (status : ConditionStatus)
    (reason message : string) : Prog GPULease :=
  t <- call TimeNow ;;
  Ret (stampCondition t lease condType status reason message).

Definition podActivatedAnchor (lease : GPULease) : Z :=
  match FindStatusCondition (st_Conditions (lease_Status lease)) ConditionPodActivated with
  | Some c => cond_LastTransitionTime c
  | None => lease_CreationTimestamp lease
  end.

Definition nextPoll (remaining : Z) : Z :=
  if remaining <? pollInterval then remaining else pollInterval.

Definition deploymentSettings (lease : GPULease) : Prog DeploymentSettings :=
  let ref := spec_DeploymentRef (lease_Spec lease) in
  dep <- call (GetDeployment (ref_Namespace ref) (ref_Name ref)) ;;
  match dep with
  | Err _ => Ret (ParseDeploymentSettings ∅ (ref_Name ref))
  | Ok dep => Ret (ParseDeploymentSettings (dep_Annotations dep) (dep_Name dep))
  end.

(** [None] when the pod does not exist. *)
Definition getClaimPod (lease : GPULease) : Prog (result (option Pod)) :=
  let ref := spec_ClaimRef (lease_Spec lease) in
  pod <- call (GetPod (ref_Namespace ref) (ref_Name ref)) ;;
  match pod with
  | Ok pod => Ret (Ok (Some pod))
  | Err err =>
      if IsNotFound err then Ret (Ok None)
      else Ret (Err (wrap ("get claim pod " +:+ ref_Namespace ref +:+ "/" +:+ ref_Name ref) err))
  end.

Definition podKey (pod : Pod) : string := pod_Namespace pod +:+ "/" +:+ pod_Name pod.

Definition hotPod (pod : Pod) (lease : GPULease) : Pod :=
  with_annotations (with_labels pod (<[ StateLabelKey := StateHot ]> (pod_Labels pod)))
    (<[ AnnotationPodDeletionCost := PodDeletionCostHot ]>
     (<[ AnnotationGPUModel := spec_GPUModel (lease_Spec lease) ]>
     (<[ AnnotationGPUID := FormatInt10 (spec_GPUID (lease_Spec lease)) ]>
     (<[ AnnotationLease := lease_Name lease ]> (pod_Annotations pod))))).

Definition markPodHot (pod : Pod) (lease : GPULease) : Prog (result Pod) :=
  pod' <-? call (PatchPod pod (hotPod pod lease))
    else wrap ("patch pod " +:+ podKey pod +:+ " hot") ;;
  Ret (Ok pod').

Definition warmPod (pod : Pod) : Pod :=
  with_annotations (with_labels pod (<[ StateLabelKey := StateWarm ]> (pod_Labels pod)))
    (<[ AnnotationPodDeletionCost := PodDeletionCostWarm ]>
     (delete AnnotationGPUModel
     (delete AnnotationGPUID
     (delete AnnotationLease (pod_Annotations pod))))).

Definition revertPodToWarm (pod : Pod) : Prog (result Pod) :=
  pod' <-? call (PatchPod pod (warmPod pod))
    else wrap ("patch pod " +:+ podKey pod +:+ " warm") ;;
  Ret (Ok pod').

(** Best effort: every error is dropped. *)
Definition releaseClaimPod (lease : GPULease) : Prog unit :=
  pod <- getClaimPod lease ;;
  match pod with
  | Err _ => Ret tt
  | Ok None => Ret tt
  | Ok (Some pod) =>
      let uid := ref_UID (spec_ClaimRef (lease_Spec lease)) in
      if bool_decide (uid ≠ "") && bool_decide (pod_UID pod ≠ uid) then Ret tt
      else
        (if bool_decide (pod_IP pod ≠ "")
         then call (PodRelease (pod_IP pod)) ;;; Ret tt
         else Ret tt) ;;;
        revertPodToWarm pod ;;;
        Ret tt
  end.

Definition deleteWorkload (lease : GPULease) : Prog (result unit) :=
  let ns := ref_Namespace (spec_ClaimRef (lease_Spec lease)) in
  let name := workloadName lease in
  r <- call (DeleteWorkload ns name) ;;
  match r with
  | Ok _ => Ret (Ok tt)
  | Err err =>
      if IsNotFound err then Ret (Ok tt)
      else Ret (Err (wrap ("delete workload " +:+ ns +:+ "/" +:+ name) err))
  end.

(** ** Failure *)

Definition transitionToFailed (r : GPULeaseReconciler) (lease : GPULease) (reason message : string)
    : Prog (result CtrlResult) :=
  _ <-? deleteWorkload lease else id ;;
  releaseClaimPod lease ;;;
  let lease := with_message (with_phase lease GPULeasePhaseFailed) message in
  lease <- setLeaseCondition lease ConditionReady ConditionFalse reason message ;;
  lease <-? call (UpdateLeaseStatus lease) else wrap "update lease status to Failed" ;;
  call (MetricInc LeaseAcquireFailuresTotal
          [ref_Name (spec_DeploymentRef (lease_Spec lease)); reason]) ;;;
  event r lease EventTypeWarning reason message ;;;
  Ret (Ok NoRequeue).

(** ** Pending *)

Definition createWorkload (lease : GPULease) (want : Workload) : Prog (result CtrlResult) :=
  let key := wl_Namespace want +:+ "/" +:+ wl_Name want in
  match SetControllerReference lease want with
  | Err err => Ret (Err (wrap ("set owner reference on workload " +:+ key) err))
  | Ok want =>
      created <- call (CreateWorkload want) ;;
      let record (want : Workload) : Prog (result CtrlResult) :=
        if bool_decide (st_WorkloadName (lease_Status lease) ≠ wl_Name want) then
          let lease := with_workloadName lease (wl_Name want) in
          _ <-? call (UpdateLeaseStatus lease) else wrap "record workload name on lease" ;;
          Ret (Ok (RequeueIn pollInterval))
        else Ret (Ok (RequeueIn pollInterval)) in
      match created with
      | Ok want => record want
      | Err err =>
          if IsAlreadyExists err then record want
          else Ret (Err (wrap ("create workload " +:+ key) err))
      end
  end.

Definition admitLease (r : GPULeaseReconciler) (lease : GPULease) (wl : Workload)
    : Prog (result CtrlResult) :=
  let node := spec_NodeName (lease_Spec lease) in
  let flavor := (assignedFlavor wl).1 in
  let message := "admitted with ResourceFlavor " +:+ Quote flavor in
  expected <- expectedFlavorForNode node ;;
  message <-
    match expected with
    | Err _ => Ret message
    | Ok expected =>
        if bool_decide (expected ≠ flavor) then
          event r lease EventTypeWarning EventReasonFlavorMismatch
            ("Workload " +:+ wl_Name wl +:+ " admitted with flavor " +:+ Quote flavor +:+
             " but node " +:+ node +:+ " expected flavor " +:+ Quote expected) ;;;
          Ret (message +:+ " (expected " +:+ Quote expected +:+ " for node " +:+ node +:+
               "; proceeding anyway, this check is diagnostic-only)")
        else Ret message
    end ;;
  t <- now ;;
  let lease := with_message (with_admittedAt (with_phase lease GPULeasePhaseAdmitted) (Some t)) message in
  lease <- setLeaseCondition lease ConditionQuotaReserved ConditionTrue "Admitted" message ;;
  lease <-? call (UpdateLeaseStatus lease) else wrap "update lease status to Admitted" ;;
  event r lease EventTypeNormal EventReasonQuotaReserved message ;;;
  Ret (Ok RequeueNow).

Definition evaluateAdmission (r : GPULeaseReconciler) (lease : GPULease) (wl : Workload)
    : Prog (result CtrlResult) :=
  if isWorkloadAdmitted wl then admitLease r lease wl
  else
    let '(bad, kueueMsg) := workloadInadmissible wl in
    if bad then
      transitionToFailed r lease ReasonQueueMisconfigured
        ("Workload " +:+ wl_Name wl +:+ " is Inadmissible (misconfigured LocalQueue " +:+
         Quote (wls_QueueName (wl_Spec wl)) +:+ "): " +:+ kueueMsg)
    else
      settings <- deploymentSettings lease ;;
      t <- now ;;
      let elapsed := Time_Sub t (admissionAnchor wl) in
      if AdmissionTimeout settings <=? elapsed then
        transitionToFailed r lease ReasonQuotaExhaustedOnNode
          ("Workload " +:+ wl_Name wl +:+ " not admitted within admission-timeout (" +:+
           Duration_String (AdmissionTimeout settings) +:+ "): " +:+ quotaReservedMessage wl)
      else Ret (Ok (RequeueIn (nextPoll (wrap64 (AdmissionTimeout settings - elapsed))))).

Definition reconcilePending (r : GPULeaseReconciler) (lease : GPULease) : Prog (result CtrlResult) :=
  let want := buildWorkload lease in
  let key := wl_Namespace want +:+ "/" +:+ wl_Name want in
  existing <- call (GetWorkload (wl_Namespace want) (wl_Name want)) ;;
  match existing with
  | Err err =>
      if IsNotFound err then createWorkload lease want
      else Ret (Err (wrap ("get workload " +:+ key) err))
  | Ok existing =>
      if negb (workloadMatchesSpec existing want) then
        d <- call (DeleteWorkload (wl_Namespace existing) (wl_Name existing)) ;;
        match d with
        | Ok _ => Ret (Ok RequeueNow)
        | Err err =>
            if IsNotFound err then Ret (Ok RequeueNow)
            else Ret (Err (wrap ("delete stale workload " +:+ wl_Namespace existing +:+ "/" +:+
                                 wl_Name existing) err))
        end
      else evaluateAdmission r lease existing
  end.

(** ** Admitted *)

Definition reconcileAdmitted (r : GPULeaseReconciler) (lease : GPULease) : Prog (result CtrlResult) :=
  pod <-? getClaimPod lease else id ;;
  let reason := leaseOrphanReason pod lease None in
  match pod with
  | Some pod =>
    if bool_decide (reason ≠ "") then
      transitionToFailed r lease reason ("claim pod invalid before activation: reason " +:+ reason)
    else if bool_decide (pod_IP pod = "") then
      transitionToFailed r lease ReasonPodUnreachable ("claim pod " +:+ podKey pod +:+ " has no PodIP yet")
    else
      activated <- call (PodActivate (pod_IP pod)
        {| ar_LeaseName := lease_Name lease; ar_Node := spec_NodeName (lease_Spec lease);
           ar_GPUID := spec_GPUID (lease_Spec lease); ar_GPUModel := spec_GPUModel (lease_Spec lease) |}) ;;
      match activated with
      | Err activateErr =>
          if errors_Is activateErr ErrNodeMismatchName then
            transitionToFailed r lease ReasonNodeMismatch
              ("pod " +:+ podKey pod +:+ " rejected activation: node mismatch")
          else
            transitionToFailed r lease ReasonPodUnreachable
              ("POST /lease to pod " +:+ podKey pod +:+ " (" +:+ pod_IP pod +:+ ") failed: " +:+
               error_text activateErr)
      | Ok _ =>
          let message := "POST /lease accepted by pod " +:+ podKey pod +:+ "; waiting for state hot" in
          let lease := with_message (with_phase lease GPULeasePhaseActivating) message in
          lease <- setLeaseCondition lease ConditionPodActivated ConditionFalse "Activating" message ;;
          lease <-? call (UpdateLeaseStatus lease) else wrap "update lease status to Activating" ;;
          event r lease EventTypeNormal EventReasonActivating message ;;;
          Ret (Ok (RequeueIn pollInterval))
      end
  | None =>
      (* [leaseOrphanReason] of a nil pod is not empty. *)
      transitionToFailed r lease reason ("claim pod invalid before activation: reason " +:+ reason)
  end.

(** ** Activating *)

Definition bindLease (r : GPULeaseReconciler) (lease : GPULease) (pod : Pod) : Prog (result CtrlResult) :=
  pod <-? markPodHot pod lease else wrap "mark pod hot" ;;
  t <- now ;;
  let message := "pod " +:+ podKey pod +:+ " reported state hot" in
  let lease := with_message (with_boundAt (with_phase lease GPULeasePhaseBound) (Some t)) message in
  lease <- setLeaseCondition lease ConditionPodActivated ConditionTrue "Hot" message ;;
  lease <- setLeaseCondition lease ConditionReady ConditionTrue "Bound" message ;;
  lease <-? call (UpdateLeaseStatus lease) else wrap "update lease status to Bound" ;;
  event r lease EventTypeNormal EventReasonBound (message +:+ "; lease bound") ;;;
  Ret (Ok (RequeueIn boundPollInterval)).

Definition awaitHot (r : GPULeaseReconciler) (lease : GPULease) (pod : Pod) : Prog (result CtrlResult) :=
  settings <- deploymentSettings lease ;;
  t <- now ;;
  let elapsed := Time_Sub t (podActivatedAnchor lease) in
  if ActivationTimeout settings <=? elapsed then
    transitionToFailed r lease ReasonActivationTimeout
      ("pod " +:+ podKey pod +:+ " did not report state hot within activation-timeout (" +:+
       Duration_String (ActivationTimeout settings) +:+ ")")
  else Ret (Ok (RequeueIn (nextPoll (wrap64 (ActivationTimeout settings - elapsed))))).

Definition reconcileActivating (r : GPULeaseReconciler) (lease : GPULease) : Prog (result CtrlResult) :=
  pod <-? getClaimPod lease else id ;;
  let reason := leaseOrphanReason pod lease None in
  match pod with
  | Some pod =>
    if bool_decide (reason ≠ "") then
      transitionToFailed r lease reason ("claim pod invalid during activation: reason " +:+ reason)
    else
      state <- call (PodState (pod_IP pod)) ;;
      match state with
      | Err _ => awaitHot r lease pod
      | Ok state =>
          if bool_decide (sr_State state = StateHot) then bindLease r lease pod
          else awaitHot r lease pod
      end
  | None =>
      transitionToFailed r lease reason ("claim pod invalid during activation: reason " +:+ reason)
  end.

(** ** Bound *)

Definition reconcileBound (r : GPULeaseReconciler) (lease : GPULease) : Prog (result CtrlResult) :=
  pod <-? getClaimPod lease else id ;;
  let reason := leaseOrphanReason pod lease None in
  if bool_decide (reason ≠ "") then
    transitionToFailed r lease reason ("claim pod invalid while bound: reason " +:+ reason)
  else Ret (Ok (RequeueIn boundPollInterval)).

(** ** Releasing *)

Definition finishDeletion (r : GPULeaseReconciler) (lease : GPULease) : Prog (result CtrlResult) :=
  _ <-? deleteWorkload lease else id ;;
  releaseClaimPod lease ;;;
  let lease := with_finalizers lease (RemoveFinalizer (lease_Finalizers lease) Finalizer) in
  lease <-? call (UpdateLease lease) else wrap "remove finalizer" ;;
  event r lease EventTypeNormal EventReasonReleased
    ("released GPU lease (node " +:+ spec_NodeName (lease_Spec lease) +:+ ", gpu " +:+
     FormatInt10 (spec_GPUID (lease_Spec lease)) +:+ ")") ;;;
  Ret (Ok NoRequeue).

Definition reconcileDeletion (r : GPULeaseReconciler) (lease : GPULease) : Prog (result CtrlResult) :=
  if negb (ContainsFinalizer (lease_Finalizers lease) Finalizer) then Ret (Ok NoRequeue)
  else if bool_decide (st_Phase (lease_Status lease) ≠ GPULeasePhaseReleasing) then
    let lease := with_phase lease GPULeasePhaseReleasing in
    lease <-? call (UpdateLeaseStatus lease) else wrap "update lease status to Releasing" ;;
    finishDeletion r lease
  else finishDeletion r lease.

(** ** Metrics *)

(** [counts[l.Spec.NodeName]++] over the leases. *)
Definition leaseCounts (ls : list GPULease) : gmap string Z :=
  foldl (λ m l, let node := spec_NodeName (lease_Spec l) in
                <[ node := wrap64 (default 0 (m !! node) + 1) ]> m) ∅ ls.

(** [for node, n := range m { gauge.WithLabelValues(node).Set(n) }]; Go leaves the order
    of the range open, and gauges of different nodes are independent. *)
Fixpoint setGauges (gauge : string) (l : list (string * Z)) : Prog unit :=
  match l with
  | [] => Ret tt
  | (node, n) :: l => call (MetricSet gauge [node] n) ;;; setGauges gauge l
  end.

Definition refreshMetrics (r : GPULeaseReconciler) : Prog (result unit) :=
  all <-? call ListLeases else wrap "list GPULeases for metrics" ;;
  setGauges LeasesActive (map_to_list (leaseCounts all)) ;;;
  match glr_Inventory r with
  | None => Ret (Ok tt)
  | Some inv =>
      free <-? inv_NodeFreeCounts inv else wrap "node free GPU counts for metrics" ;;
      setGauges NodeGPUsFree (map_to_list free) ;;;
      Ret (Ok tt)
  end.

(** ** Reconcile *)

Definition reconcilePhase (r : GPULeaseReconciler) (lease : GPULease) : Prog (result CtrlResult) :=
  match st_Phase (lease_Status lease) with
  | PhaseEmpty | GPULeasePhasePending => reconcilePending r lease
  | GPULeasePhaseAdmitted => reconcileAdmitted r lease
  | GPULeasePhaseActivating => reconcileActivating r lease
  | GPULeasePhaseBound => reconcileBound r lease
  | GPULeasePhaseFailed => Ret (Ok NoRequeue)
  | GPULeasePhaseReleasing => Ret (Ok NoRequeue)
  | PhaseOther _ => Ret (Ok NoRequeue)
  end.

Definition Reconcile (r : GPULeaseReconciler) (name : string) : Prog (result CtrlResult) :=
  got <- call (GetLease name) ;;
  match got with
  | Err err =>
      if IsNotFound err then Ret (Ok NoRequeue) else Ret (Err (wrap "get GPULease" err))
  | Ok lease =>
      if bool_decide (is_Some (lease_DeletionTimestamp lease)) then
        res <- reconcileDeletion r lease ;;
        refreshMetrics r ;;;
        Ret res
      else if negb (ContainsFinalizer (lease_Finalizers lease) Finalizer) then
        let lease := with_finalizers lease (AddFinalizer (lease_Finalizers lease) Finalizer) in
        _ <-? call (UpdateLease lease) else wrap "add finalizer" ;;
        Ret (Ok RequeueNow)
      else
        res <- reconcilePhase r lease ;;
        refreshMetrics r ;;;
        Ret res
  end.

End GPULeaseController.
