(* ===== verification/GPULeaseFacts.v ===== *)
(** * What the GPULease reconciler does

    The possible action sequences of one reconcile as an inductive relation
    ([LeaseActs]), the proof that every run of [Reconcile] is one of them, and the
    properties of the lease life cycle that follow. *)

From S2P Require Import Prelude GoLib Names Kube Effects MemServer Inventory PodClient Pods Kueue.
From S2P Require Import GPULeaseController.

Section LeaseActs.
Context `{KL : KubeLib}.

(** The whole trace of the reconcile, to which the objects the actions depend on are
    tied: they are answers to reads in this trace. *)
Context (T : list Obs).

(** ** What was read *)

(** The read of the claim pod of [l]: the pod, or [None] if it does not exist. *)
Definition read_claim (l : GPULease) (pod : option Pod) : Prop :=
  let ref := spec_ClaimRef (lease_Spec l) in
  ∃ got, MkObs (GetPod (ref_Namespace ref) (ref_Name ref)) got ∈ T ∧
    match got, pod with
    | Ok p, Some q => p = q
    | Err e, None => IsNotFound e = true
    | _, _ => False
    end.

(** The read of the Workload of [l], and of the clock. *)
Definition read_workload (l : GPULease) (wl : Workload) : Prop :=
  MkObs (GetWorkload (ref_Namespace (spec_ClaimRef (lease_Spec l))) (workloadName l)) (Ok wl) ∈ T.
Definition read_clock (now : Z) : Prop := MkObs ClockNow now ∈ T.

(** ** The action sequences *)

(** The Workload is gone once its deletion succeeded or reported NotFound. *)
Definition gone (d : result unit) : bool :=
  match d with Ok _ => true | Err e => IsNotFound e end.

(** The deletion of the Workload that backs [l]. *)
Definition delete_workload (l : GPULease) (d : result unit) : Act :=
  ActDeleteWorkload (ref_Namespace (spec_ClaimRef (lease_Spec l))) (workloadName l) d.

(** The claim pod as read, if it is the one that was claimed as far as its UID tells. *)
Definition claimed_pod (l : GPULease) (p : Pod) : Prop :=
  let uid := ref_UID (spec_ClaimRef (lease_Spec l)) in
  read_claim l (Some p) ∧ (uid = "" ∨ pod_UID p = uid).

(** Best-effort release of the claim pod. *)
Inductive ReleaseActs (l : GPULease) : list Act → Prop :=
  | release_nothing : ReleaseActs l []
  | release_unreachable p pa :
      claimed_pod l p → pod_IP p = "" →
      ReleaseActs l [ActPatchPod p (warmPod p) pa]
  | release_pod p ra pa :
      claimed_pod l p → pod_IP p ≠ "" →
      ReleaseActs l [ActRelease (pod_IP p) ra; ActPatchPod p (warmPod p) pa].

(** The lease as it is written when it fails at time [t]. *)
Definition failed_lease (t : Z) (l : GPULease) (reason message : string) : GPULease :=
  stampCondition t (with_message (with_phase l GPULeasePhaseFailed) message)
    ConditionReady ConditionFalse reason message.

(** A write of the lease, and the result of the reconcile: [ok] if the write succeeded. *)
Definition after_write (a : result GPULease) (ok : CtrlResult) (res : result CtrlResult) : Prop :=
  match a with Ok _ => res = Ok ok | Err e => ∃ ctx, res = Err (wrap ctx e) end.

Inductive FailActs (l : GPULease) (reason : string) : list Act → result CtrlResult → Prop :=
  | fail_blocked d e :
      gone d = false → FailActs l reason [delete_workload l d] (Err e)
  | fail_written t message d rel a res :
      gone d = true → ReleaseActs l rel → after_write a NoRequeue res →
      FailActs l reason
        (delete_workload l d :: rel ++ [ActUpdateStatus (failed_lease t l reason message) a]) res.

(** Deletion, once the phase Releasing is persisted. *)
Inductive DeletionActs (l : GPULease) : list Act → result CtrlResult → Prop :=
  | deletion_blocked d e :
      gone d = false → DeletionActs l [delete_workload l d] (Err e)
  | deletion_done d rel a res :
      gone d = true → ReleaseActs l rel → after_write a NoRequeue res →
      DeletionActs l
        (delete_workload l d :: rel ++
         [ActUpdateLease (with_finalizers l (RemoveFinalizer (lease_Finalizers l) Finalizer)) a]) res.

(** The request sent to the claim pod. *)
Definition activate_request (l : GPULease) : ActivateRequest :=
  {| ar_LeaseName := lease_Name l; ar_Node := spec_NodeName (lease_Spec l);
     ar_GPUID := spec_GPUID (lease_Spec l); ar_GPUModel := spec_GPUModel (lease_Spec l) |}.

(** What the reconciler requires of the claim pod before it touches it. *)
Definition valid_claim (l : GPULease) (p : Pod) : Prop :=
  read_claim l (Some p) ∧ claim_alive p l None ∧ pod_NodeName p = spec_NodeName (lease_Spec l).

Definition admitted_lease (t t' : Z) (l : GPULease) (message : string) : GPULease :=
  stampCondition t'
    (with_message (with_admittedAt (with_phase l GPULeasePhaseAdmitted) (Some t)) message)
    ConditionQuotaReserved ConditionTrue "Admitted" message.

Definition activating_lease (t : Z) (l : GPULease) (message : string) : GPULease :=
  stampCondition t (with_message (with_phase l GPULeasePhaseActivating) message)
    ConditionPodActivated ConditionFalse "Activating" message.

Definition bound_lease (t t' t'' : Z) (l : GPULease) (message : string) : GPULease :=
  stampCondition t''
    (stampCondition t'
       (with_message (with_boundAt (with_phase l GPULeasePhaseBound) (Some t)) message)
       ConditionPodActivated ConditionTrue "Hot" message)
    ConditionReady ConditionTrue "Bound" message.

(** The delay before the next poll when [elapsed] of [timeout] has passed. *)
Definition poll_delay (timeout elapsed d : Z) : Prop :=
  0 < timeout < 2 ^ 63 ∧ elapsed < timeout ∧ d = nextPoll (wrap64 (timeout - elapsed)).

(** What a reconcile of the lease [l], which is not being deleted, does in each phase. *)
Inductive PendingActs (l : GPULease) : list Act → result CtrlResult → Prop :=
  | pending_read_error e : PendingActs l [] (Err e)
  | pending_create_error w e e' :
      SetControllerReference l (buildWorkload l) = Ok w → IsAlreadyExists e = false →
      PendingActs l [ActCreateWorkload w (Err e)] (Err e')
  | pending_created w c :
      SetControllerReference l (buildWorkload l) = Ok w →
      match c with Ok _ => True | Err e => IsAlreadyExists e = true end →
      PendingActs l [ActCreateWorkload w c] (Ok (RequeueIn pollInterval))
  | pending_recorded w c name a res :
      SetControllerReference l (buildWorkload l) = Ok w →
      match c with Ok w' => name = wl_Name w' | Err e => IsAlreadyExists e = true ∧ name = wl_Name w end →
      after_write a (RequeueIn pollInterval) res →
      PendingActs l [ActCreateWorkload w c; ActUpdateStatus (with_workloadName l name) a] res
  | pending_stale wl d res :
      read_workload l wl → workloadMatchesSpec wl (buildWorkload l) = false →
      (if gone d then res = Ok RequeueNow else ∃ e, res = Err e) →
      PendingActs l [ActDeleteWorkload (wl_Namespace wl) (wl_Name wl) d] res
  | pending_wait wl now timeout d :
      read_workload l wl → read_clock now →
      poll_delay timeout (Time_Sub now (admissionAnchor wl)) d → PendingActs l [] (Ok (RequeueIn d))
  | pending_admitted wl t t' message a res :
      read_workload l wl → isWorkloadAdmitted wl = true → workloadMatchesSpec wl (buildWorkload l) = true →
      after_write a RequeueNow res →
      PendingActs l [ActUpdateStatus (admitted_lease t t' l message) a] res
  | pending_failed wl reason out res :
      read_workload l wl → isWorkloadAdmitted wl = false →
      (reason = ReasonQueueMisconfigured ∧ (workloadInadmissible wl).1 = true ∨
       reason = ReasonQuotaExhaustedOnNode ∧ (workloadInadmissible wl).1 = false) →
      FailActs l reason out res → PendingActs l out res.

Inductive AdmittedActs (l : GPULease) : list Act → result CtrlResult → Prop :=
  | admitted_read_error e : AdmittedActs l [] (Err e)
  | admitted_failed pod reason out res :
      read_claim l pod →
      (reason = leaseOrphanReason pod l None ∧ reason ≠ "" ∨
       reason = ReasonPodUnreachable ∧ ∃ p, pod = Some p ∧ valid_claim l p ∧ pod_IP p = "") →
      FailActs l reason out res → AdmittedActs l out res
  | admitted_refused p e reason out res :
      valid_claim l p → pod_IP p ≠ "" →
      reason = (if errors_Is e ErrNodeMismatchName then ReasonNodeMismatch else ReasonPodUnreachable) →
      FailActs l reason out res →
      AdmittedActs l (ActActivate (pod_IP p) (activate_request l) (Err e) :: out) res
  | admitted_activated p t message a res :
      valid_claim l p → pod_IP p ≠ "" → after_write a (RequeueIn pollInterval) res →
      AdmittedActs l [ActActivate (pod_IP p) (activate_request l) (Ok tt);
                      ActUpdateStatus (activating_lease t l message) a] res.

Inductive ActivatingActs (l : GPULease) : list Act → result CtrlResult → Prop :=
  | activating_read_error e : ActivatingActs l [] (Err e)
  | activating_orphan pod out res :
      read_claim l pod → leaseOrphanReason pod l None ≠ "" →
      FailActs l (leaseOrphanReason pod l None) out res → ActivatingActs l out res
  | activating_wait p s now timeout d :
      valid_claim l p → read_clock now → poll_delay timeout (Time_Sub now (podActivatedAnchor l)) d →
      match s with Ok st => sr_State st ≠ StateHot | Err _ => True end →
      ActivatingActs l [ActPodState (pod_IP p) s] (Ok (RequeueIn d))
  | activating_timeout p s out res :
      valid_claim l p →
      match s with Ok st => sr_State st ≠ StateHot | Err _ => True end →
      FailActs l ReasonActivationTimeout out res →
      ActivatingActs l (ActPodState (pod_IP p) s :: out) res
  | activating_patch_error p st e e' :
      valid_claim l p → sr_State st = StateHot →
      ActivatingActs l [ActPodState (pod_IP p) (Ok st); ActPatchPod p (hotPod p l) (Err e)] (Err e')
  | activating_bound p st p' t t' t'' message a res :
      valid_claim l p → sr_State st = StateHot → after_write a (RequeueIn boundPollInterval) res →
      ActivatingActs l [ActPodState (pod_IP p) (Ok st); ActPatchPod p (hotPod p l) (Ok p');
                        ActUpdateStatus (bound_lease t t' t'' l message) a] res.

Inductive BoundActs (l : GPULease) : list Act → result CtrlResult → Prop :=
  | bound_read_error e : BoundActs l [] (Err e)
  | bound_kept p : valid_claim l p → BoundActs l [] (Ok (RequeueIn boundPollInterval))
  | bound_orphan pod out res :
      read_claim l pod → leaseOrphanReason pod l None ≠ "" →
      FailActs l (leaseOrphanReason pod l None) out res → BoundActs l out res.

(** What a reconcile does once it has read the lease [l]. *)
Inductive LeaseActs (l : GPULease) : list Act → result CtrlResult → Prop :=
  | lease_released :
      is_Some (lease_DeletionTimestamp l) → ContainsFinalizer (lease_Finalizers l) Finalizer = false →
      LeaseActs l [] (Ok NoRequeue)
  | lease_releasing_error a e ctx :
      is_Some (lease_DeletionTimestamp l) → ContainsFinalizer (lease_Finalizers l) Finalizer = true →
      st_Phase (lease_Status l) ≠ GPULeasePhaseReleasing → a = Err e →
      LeaseActs l [ActUpdateStatus (with_phase l GPULeasePhaseReleasing) a] (Err (wrap ctx e))
  | lease_releasing l' out res :
      is_Some (lease_DeletionTimestamp l) → ContainsFinalizer (lease_Finalizers l) Finalizer = true →
      st_Phase (lease_Status l) ≠ GPULeasePhaseReleasing → DeletionActs l' out res →
      LeaseActs l (ActUpdateStatus (with_phase l GPULeasePhaseReleasing) (Ok l') :: out) res
  | lease_deletion out res :
      is_Some (lease_DeletionTimestamp l) → ContainsFinalizer (lease_Finalizers l) Finalizer = true →
      st_Phase (lease_Status l) = GPULeasePhaseReleasing → DeletionActs l out res →
      LeaseActs l out res
  | lease_add_finalizer a res :
      lease_DeletionTimestamp l = None → ContainsFinalizer (lease_Finalizers l) Finalizer = false →
      after_write a RequeueNow res →
      LeaseActs l [ActUpdateLease (with_finalizers l (AddFinalizer (lease_Finalizers l) Finalizer)) a] res
  | lease_phase out res :
      lease_DeletionTimestamp l = None → ContainsFinalizer (lease_Finalizers l) Finalizer = true →
      match st_Phase (lease_Status l) with
      | PhaseEmpty | GPULeasePhasePending => PendingActs l out res
      | GPULeasePhaseAdmitted => AdmittedActs l out res
      | GPULeasePhaseActivating => ActivatingActs l out res
      | GPULeasePhaseBound => BoundActs l out res
      | GPULeasePhaseFailed | GPULeasePhaseReleasing | PhaseOther _ => out = [] ∧ res = Ok NoRequeue
      end → LeaseActs l out res.

(** ** Every run is one of them *)

(** A part of the trace is within the whole trace. *)
Ltac sub_trace :=
  lazymatch goal with
  | HT : _ ⊆ T |- _ ⊆ T => clear -HT; set_solver
  | HT : _ ⊆ T |- _ ∈ T => apply HT; clear; set_solver
  end.

Lemma event_acts r l ty reason msg t u : runs (event r l ty reason msg) t u → acts t = [].
Proof. unfold event. destruct (glr_Recorder r); intros H; runs_all; done. Qed.

Lemma getClaimPod_acts l t r :
  runs (getClaimPod l) t r → t ⊆ T →
  acts t = [] ∧ match r with Ok pod => read_claim l pod | Err _ => True end.
Proof.
  unfold getClaimPod. intros H HT. runs_all; (split; [done|]); try done.
  - eexists. split; [apply HT; left|done].
  - eexists. split; [apply HT; left|done].
Qed.

Lemma deploymentSettings_acts l t s : runs (deploymentSettings l) t s → acts t = [] ∧ settings_ok s.
Proof.
  unfold deploymentSettings. intros H. runs_all; (split; [done|apply ParseDeploymentSettings_ok]).
Qed.

Lemma expectedFlavorForNode_acts node t r : runs (expectedFlavorForNode node) t r → acts t = [].
Proof. unfold expectedFlavorForNode. intros H. runs_all; done. Qed.

Lemma setLeaseCondition_acts l ty st reason msg t l' :
  runs (setLeaseCondition l ty st reason msg) t l' →
  acts t = [] ∧ ∃ n, l' = stampCondition n l ty st reason msg.
Proof. unfold setLeaseCondition. intros H. runs_all. eauto. Qed.

Lemma deleteWorkload_acts l t r :
  runs (deleteWorkload l) t r →
  ∃ d, acts t = [delete_workload l d] ∧
    match r with Ok _ => gone d = true | Err _ => gone d = false end.
Proof.
  unfold deleteWorkload. intros H. runs_all; (eexists; split; [reflexivity|]); simpl; done.
Qed.

Lemma releaseClaimPod_acts l t u : runs (releaseClaimPod l) t u → t ⊆ T → ReleaseActs l (acts t).
Proof.
  unfold releaseClaimPod. intros H HT. apply runs_bind in H as (t1 & t2 & a & -> & Hg & H).
  apply getClaimPod_acts in Hg as [Hg Hread]; [|sub_trace]. clear HT. rewrite acts_app, Hg. simpl.
  destruct a as [[p|]|e]; [|runs_all; constructor|runs_all; constructor].
  destruct (bool_decide _ && bool_decide _) eqn:Eu; [runs_all; constructor|].
  assert (claimed_pod l p) as Hc.
  { split; [done|]. apply andb_false_iff in Eu as [E|E]; reflect_bools.
    - left. by apply dec_stable.
    - right. by apply dec_stable. }
  unfold revertPodToWarm in H. destruct (bool_decide (pod_IP p ≠ "")) eqn:Ei; reflect_bools;
    runs_all; simpl; constructor; try done; by apply dec_stable.
Qed.

Lemma setGauges_acts g l t u : runs (setGauges g l) t u → acts t = [].
Proof.
  revert t. induction l as [|[n v] l IH]; intros t H; cbn [setGauges] in H; runs_all; [done|].
  exact (IH _ H).
Qed.

Lemma transitionToFailed_acts r l reason msg t res :
  runs (transitionToFailed r l reason msg) t res → t ⊆ T → FailActs l reason (acts t) res.
Proof.
  unfold transitionToFailed. intros H HT. apply runs_bind in H as (t1 & t2 & a & -> & Hd & H).
  apply deleteWorkload_acts in Hd as (d & Hd & Hg).
  destruct a as [u|e]; [|runs_all; acts_norm; by constructor].
  apply runs_bind in H as (t3 & t4 & u' & -> & Hr & H). apply releaseClaimPod_acts in Hr; [|sub_trace].
  apply runs_bind in H as (t5 & t6 & l' & -> & Hs & H).
  apply setLeaseCondition_acts in Hs as (Hs & n & ->). runs_step.
  match goal with H : runs (match ?a with _ => _ end) _ _ |- _ => destruct a as [l'|e] end.
  - runs_all. apply event_acts in Hr0. acts_norm. by eapply fail_written with (a := Ok l').
  - runs_all. acts_norm. eapply fail_written with (a := Err e); eauto. simpl. eauto.
Qed.

(** Replace the runs of the helpers by what they do. *)
Ltac known_acts :=
  repeat match goal with
  | H : runs (event _ _ _ _ _) _ _ |- _ => apply event_acts in H
  | H : runs (getClaimPod _) _ _ |- _ =>
      let Hs := fresh "Hread" in apply getClaimPod_acts in H as [H Hs]; [|sub_trace]
  | H : runs (deploymentSettings _) _ _ |- _ => 
      let Hs := fresh "Hset" in apply deploymentSettings_acts in H as [H Hs]
  | H : runs (expectedFlavorForNode _) _ _ |- _ => apply expectedFlavorForNode_acts in H
  | H : runs (setLeaseCondition _ _ _ _ _) _ _ |- _ =>
      let n := fresh "n" in apply setLeaseCondition_acts in H as (H & n & ->)
  | H : runs (transitionToFailed _ _ _ _) _ _ |- _ => apply transitionToFailed_acts in H; [|sub_trace]
  end.

Lemma createWorkload_acts l t res :
  runs (createWorkload l (buildWorkload l)) t res → PendingActs l (acts t) res.
Proof.
  unfold createWorkload. intros H. runs_step; [|runs_all; constructor]. runs_step.
  destruct r as [w'|e]; [|destruct (IsAlreadyExists e) eqn:Ee; [|runs_all; acts_norm; by econstructor]].
  - destruct (bool_decide _).
    + runs_all; acts_norm; (eapply pending_recorded; [done|reflexivity|]); [done|simpl; eauto].
    + runs_all. acts_norm. by econstructor.
  - destruct (bool_decide _).
    + runs_all; acts_norm; (eapply pending_recorded; [done|split; [done|reflexivity]|]); [done|simpl; eauto].
    + runs_all. acts_norm. by econstructor.
Qed.

Lemma admitLease_acts r l wl t res :
  read_workload l wl → isWorkloadAdmitted wl = true →
  workloadMatchesSpec wl (buildWorkload l) = true →
  runs (admitLease r l wl) t res → PendingActs l (acts t) res.
Proof.
  unfold admitLease. intros Hw Ha Hm H. runs_step. known_acts. runs_step.
  match type of Hr0 with runs _ ?t _ =>
    assert (acts t = []) as Hn by (clear H; runs_all; known_acts; acts_norm; done) end.
  clear Hr0. unfold now in H. do 3 runs_step. known_acts.
  match goal with H : runs (match ?a with _ => _ end) _ _ |- _ => destruct a as [l'|e] end;
    runs_all; known_acts; acts_norm; (eapply pending_admitted; [done|done|done|]); [done|simpl; eauto].
Qed.

Lemma evaluateAdmission_acts r l wl t res :
  read_workload l wl → workloadMatchesSpec wl (buildWorkload l) = true →
  runs (evaluateAdmission r l wl) t res → t ⊆ T → PendingActs l (acts t) res.
Proof.
  unfold evaluateAdmission. intros Hw Hm H HT.
  destruct (isWorkloadAdmitted wl) eqn:Ha; [by eapply admitLease_acts|].
  destruct (workloadInadmissible wl) as [bad msg] eqn:Eb. destruct bad.
  { known_acts. eapply pending_failed; [done|done| |done]. left. by rewrite Eb. }
  unfold now in H. do 2 runs_step. known_acts.
  destruct (_ <=? _) eqn:Et; reflect_bools.
  - known_acts. acts_norm. eapply pending_failed; [done|done| |done]. right. by rewrite Eb.
  - runs_all. acts_norm. destruct Hset as (_ & _ & _ & _ & Hset & _).
    apply (pending_wait l wl r0 (AdmissionTimeout a)); [done|unfold read_clock; sub_trace|done].
Qed.

Lemma reconcilePending_acts r l t res :
  runs (reconcilePending r l) t res → t ⊆ T → PendingActs l (acts t) res.
Proof.
  unfold reconcilePending. intros H HT. runs_step. destruct r0 as [wl|e].
  - assert (read_workload l wl) as Hw by (unfold read_workload; sub_trace).
    destruct (workloadMatchesSpec wl (buildWorkload l)) eqn:Em; cbn [negb] in H.
    + acts_norm. eapply evaluateAdmission_acts; [done|done|done|sub_trace].
    + runs_all; acts_norm; (eapply pending_stale; [done|done|]); unfold gone; repeat case_match; simplify_eq; eauto.
  - destruct (IsNotFound e).
    + acts_norm. by eapply createWorkload_acts.
    + runs_all. acts_norm. constructor.
Qed.

(** A claim pod for which there is no orphan reason is a valid claim. *)
Lemma no_orphan_valid l p :
  read_claim l (Some p) → leaseOrphanReason (Some p) l None = "" → valid_claim l p.
Proof.
  intros Hread H. destruct (leaseOrphanReason_cases (Some p) l None) as [[Hr Hp]|[[Hr Hp]|[Hr Hp]]];
    rewrite H in Hr; [|done|done].
  destruct Hp as (q & [= <-] & ?). done.
Qed.

Lemma reconcileAdmitted_acts r l t res :
  runs (reconcileAdmitted r l) t res → t ⊆ T → AdmittedActs l (acts t) res.
Proof.
  unfold reconcileAdmitted. intros H HT. runs_step. known_acts.
  destruct a as [[p|]|e].
  - destruct (bool_decide _) eqn:Eo; reflect_bools.
    { known_acts. acts_norm. eapply admitted_failed; [done|left|]; done. }
    apply dec_stable in Eo. apply no_orphan_valid in Eo; [|done].
    destruct (bool_decide (pod_IP p = "")) eqn:Ei; reflect_bools.
    { known_acts. acts_norm. eapply admitted_failed; [done|right|done]. split; [done|]. by exists p. }
    runs_step. destruct r0 as [[]|e].
    + runs_step. known_acts. runs_step.
      match goal with H : runs (match ?a with _ => _ end) _ _ |- _ => destruct a as [l'|e] end;
        runs_all; known_acts; acts_norm; (eapply admitted_activated; [done|done|]); [done|simpl; eauto].
    + acts_norm. destruct (errors_Is e ErrNodeMismatchName) eqn:Ee; known_acts;
        (eapply admitted_refused; [done|done|by rewrite Ee|done]).
  - known_acts. acts_norm. by eapply (admitted_failed l None); [|left|].
  - runs_all. acts_norm. constructor.
Qed.

Lemma awaitHot_acts r l p s t res :
  valid_claim l p →
  match s with Ok st => sr_State st ≠ StateHot | Err _ => True end →
  runs (awaitHot r l p) t res → t ⊆ T → ActivatingActs l (ActPodState (pod_IP p) s :: acts t) res.
Proof.
  unfold awaitHot, now. intros Hv Hs H HT. do 2 runs_step. known_acts.
  destruct (_ <=? _) eqn:Et; reflect_bools.
  - known_acts. acts_norm. by constructor.
  - runs_all. acts_norm. destruct Hset as (_ & _ & _ & Hset & _).
    apply (activating_wait l p s r0 (ActivationTimeout a)); [done|unfold read_clock; sub_trace|done|done].
Qed.

Lemma bindLease_acts r l p st t res :
  valid_claim l p → sr_State st = StateHot →
  runs (bindLease r l p) t res → ActivatingActs l (ActPodState (pod_IP p) (Ok st) :: acts t) res.
Proof.
  unfold bindLease, now. intros Hv Hs H. runs_step. unfold markPodHot in Hr.
  destruct a as [p'|e]; [|runs_all; acts_norm; by constructor].
  match type of Hr with runs _ ?t _ =>
    assert (acts t = [ActPatchPod p (hotPod p l) (Ok p')]) as Hp
      by (clear H; runs_all; by acts_norm) end.
  clear Hr. do 4 runs_step. known_acts.
  match goal with H : runs (match ?a with _ => _ end) _ _ |- _ => destruct a as [l'|e] end;
    runs_all; known_acts; acts_norm; (eapply activating_bound; [done|done|]); [done|simpl; eauto].
Qed.

Lemma reconcileActivating_acts r l t res :
  runs (reconcileActivating r l) t res → t ⊆ T → ActivatingActs l (acts t) res.
Proof.
  unfold reconcileActivating. intros H HT. runs_step. known_acts. destruct a as [[p|]|e].
  - destruct (bool_decide _) eqn:Eo; reflect_bools.
    { known_acts. acts_norm. by eapply activating_orphan. }
    apply dec_stable in Eo. apply no_orphan_valid in Eo; [|done]. runs_step.
    destruct r0 as [st|e]; [destruct (bool_decide _) eqn:Eh; reflect_bools|]; acts_norm.
    + by eapply bindLease_acts.
    + eapply awaitHot_acts; [done|done|done|sub_trace].
    + eapply awaitHot_acts; [done|done|done|sub_trace].
  - known_acts. acts_norm. by eapply (activating_orphan l None).
  - runs_all. acts_norm. constructor.
Qed.

Lemma reconcileBound_acts r l t res : runs (reconcileBound r l) t res → t ⊆ T → BoundActs l (acts t) res.
Proof.
  unfold reconcileBound. intros H HT. runs_step. known_acts. destruct a as [pod|e].
  - destruct (bool_decide _) eqn:Eo; reflect_bools.
    { known_acts. acts_norm. by eapply bound_orphan. }
    apply dec_stable in Eo. destruct pod as [p|]; [|done].
    runs_all. acts_norm. eapply bound_kept. by apply no_orphan_valid.
  - runs_all. acts_norm. constructor.
Qed.

Lemma finishDeletion_acts r l t res : runs (finishDeletion r l) t res → t ⊆ T → DeletionActs l (acts t) res.
Proof.
  unfold finishDeletion. intros H HT. apply runs_bind in H as (t1 & t2 & a & -> & Hd & H).
  apply deleteWorkload_acts in Hd as (d & Hd & Hg).
  destruct a as [u|e]; [|runs_all; acts_norm; by constructor].
  apply runs_bind in H as (t3 & t4 & u' & -> & Hr & H). apply releaseClaimPod_acts in Hr; [|sub_trace]. runs_step.
  match goal with H : runs (match ?a with _ => _ end) _ _ |- _ => destruct a as [l'|e] end.
  - runs_all. known_acts. acts_norm. by eapply deletion_done with (a := Ok l').
  - runs_all. acts_norm. eapply deletion_done with (a := Err e); eauto. simpl. eauto.
Qed.

Lemma reconcileDeletion_acts r l t res :
  is_Some (lease_DeletionTimestamp l) →
  runs (reconcileDeletion r l) t res → t ⊆ T → LeaseActs l (acts t) res.
Proof.
  unfold reconcileDeletion. intros Hd H HT.
  destruct (ContainsFinalizer (lease_Finalizers l) Finalizer) eqn:Ef; cbn [negb] in H;
    [|runs_all; by constructor].
  destruct (bool_decide _) eqn:Ep; reflect_bools.
  - runs_step. destruct r0 as [l'|e].
    + apply finishDeletion_acts in H; [|sub_trace]. acts_norm. by eapply lease_releasing.
    + runs_all. acts_norm. by eapply lease_releasing_error.
  - apply finishDeletion_acts in H; [|sub_trace]. apply dec_stable in Ep. by eapply lease_deletion.
Qed.

Lemma reconcilePhase_acts r l t res :
  lease_DeletionTimestamp l = None → ContainsFinalizer (lease_Finalizers l) Finalizer = true →
  runs (reconcilePhase r l) t res → t ⊆ T → LeaseActs l (acts t) res.
Proof.
  unfold reconcilePhase. intros Hd Hf H HT. apply lease_phase; [done|done|].
  destruct (st_Phase (lease_Status l)); eauto using reconcilePending_acts, reconcileAdmitted_acts,
    reconcileActivating_acts, reconcileBound_acts; runs_all; done.
Qed.

(** The reconciler's inventory, when it has one, keeps the promises of the interface. *)
Class LawfulReconciler (r : GPULeaseReconciler) : Prop :=
  lawful_inventory : ∀ inv, glr_Inventory r = Some inv → InventoryLaws inv.

Context (r : GPULeaseReconciler) `{HR : !LawfulReconciler r}.

Lemma refreshMetrics_acts t u : runs (refreshMetrics r) t u → acts t = [].
Proof.
  unfold refreshMetrics. intros H. runs_step. destruct r0 as [ls|e]; [|runs_all; done].
  runs_step. apply setGauges_acts in Hr. destruct (glr_Inventory r) as [inv|] eqn:Ei.
  - pose proof (lawful_inventory inv Ei). runs_step. apply inv_NodeFreeCounts_reads in Hr0.
    destruct a0 as [free|e]; [runs_step; apply setGauges_acts in Hr1|]; runs_all; by acts_norm.
  - runs_all. by acts_norm.
Qed.

(** A run of [Reconcile] reads the lease and then does what [LeaseActs] says. *)
Lemma Reconcile_acts name t res :
  runs (Reconcile r name) t res → t ⊆ T →
  ∃ got t', t = MkObs (GetLease name) got :: t' ∧
    match got with
    | Ok l => LeaseActs l (acts t') res
    | Err e => t' = [] ∧ res = (if IsNotFound e then Ok NoRequeue else Err (wrap "get GPULease" e))
    end.
Proof.
  unfold Reconcile. intros H HT. runs_step. exists r0, t0. split; [done|].
  destruct r0 as [l|e]; [|runs_all; done].
  destruct (bool_decide (is_Some (lease_DeletionTimestamp l))) eqn:Ed; reflect_bools.
  { do 2 runs_step. apply refreshMetrics_acts in Hr0. runs_all. acts_norm.
    eapply reconcileDeletion_acts; [done|done|sub_trace]. }
  apply eq_None_not_Some in Ed.
  destruct (ContainsFinalizer (lease_Finalizers l) Finalizer) eqn:Ef; cbn [negb] in H.
  - do 2 runs_step. apply refreshMetrics_acts in Hr0. runs_all. acts_norm.
    eapply reconcilePhase_acts; [done|done|done|sub_trace].
  - runs_all; acts_norm; (eapply lease_add_finalizer; [done|done|]); [done|simpl; eauto].
Qed.

End LeaseActs.

Lemma Reconcile_read `{KL : KubeLib} (r : GPULeaseReconciler) `{HR : !LawfulReconciler r} name l t res :
  runs (Reconcile r name) (MkObs (GetLease name) (Ok l) :: t) res →
  LeaseActs (MkObs (GetLease name) (Ok l) :: t) l (acts t) res.
Proof.
  intros H. apply (Reconcile_acts (MkObs (GetLease name) (Ok l) :: t)) in H; [|done|done].
  destruct H as (got & t' & Ht & H).
  pose proof (f_equal (λ t, head t ≫= got_lease) Ht) as Hg. simpl in Hg.
  pose proof (f_equal tail Ht) as Ht'. simpl in Ht'. by simplify_eq.
Qed.
