(* ===== verification/LeaseLifecycle.v ===== *)
(** * The life cycle of a lease

    The properties of one reconcile of a GPULease, for every cluster that may answer its
    calls: which phase may follow which, what must have happened before a phase is
    written, and that a reconcile is never the last one while there is something left to
    do. *)

From S2P Require Import Prelude GoLib Names Kube Effects MemServer Scenario Inventory PodClient.
From S2P Require Import Pods Kueue GPULeaseController GPULeaseFacts.

(** ** The phases *)

(** A lease that is not being deleted goes from Pending over Admitted and Activating to
    Bound, or fails. *)
Inductive phase_step : GPULeasePhase → GPULeasePhase → Prop :=
  | step_recorded p : p = PhaseEmpty ∨ p = GPULeasePhasePending → phase_step p p
  | step_admitted p : p = PhaseEmpty ∨ p = GPULeasePhasePending → phase_step p GPULeasePhaseAdmitted
  | step_activating : phase_step GPULeasePhaseAdmitted GPULeasePhaseActivating
  | step_bound : phase_step GPULeasePhaseActivating GPULeasePhaseBound
  | step_failed p :
      p ∈ [PhaseEmpty; GPULeasePhasePending; GPULeasePhaseAdmitted; GPULeasePhaseActivating;
           GPULeasePhaseBound] → phase_step p GPULeasePhaseFailed.

(** The phases in which there is something left to do. *)
Definition live_phase (p : GPULeasePhase) : bool :=
  match p with
  | PhaseEmpty | GPULeasePhasePending | GPULeasePhaseAdmitted | GPULeasePhaseActivating
  | GPULeasePhaseBound => true
  | GPULeasePhaseFailed | GPULeasePhaseReleasing | PhaseOther _ => false
  end.

Section Lifecycle.
Context `{KL : KubeLib}.

(** Two leases that differ at most in their status. *)
Definition same_but_status (l l' : GPULease) : Prop := l' = with_status l (lease_Status l').

(** A call to the Kubernetes API that failed (a deletion that finds nothing has not). *)
Definition api_failure (a : Act) : Prop :=
  match a with
  | ActUpdateStatus _ (Err _) | ActUpdateLease _ (Err _) => True
  | ActDeleteWorkload _ _ d => gone d = false
  | _ => False
  end.

(** ** Reading the action sequences *)

Ltac in_acts :=
  repeat match goal with
  | H : _ ∈ [] |- _ => by apply not_elem_of_nil in H
  | H : _ ∈ _ :: _ |- _ => apply elem_of_cons in H as [H|H]; simplify_eq
  | H : _ ∈ _ ++ _ |- _ => apply elem_of_app in H as [H|H]
  end.

Lemma release_acts_pod {T} l rel a :
  ReleaseActs T l rel → a ∈ rel → (∃ ip r, a = ActRelease ip r) ∨ (∃ p q r, a = ActPatchPod p q r).
Proof. intros Hr Ha. destruct Hr; in_acts; eauto 10. Qed.

Ltac not_in_release :=
  match goal with
  | HR : ReleaseActs _ _ ?rel, H : _ ∈ ?rel |- _ =>
      destruct (release_acts_pod _ _ _ HR H) as [(? & ? & ?)|(? & ? & ? & ?)]; discriminate
  end.

Lemma fail_status_write {T} l reason out res l' a :
  FailActs T l reason out res → ActUpdateStatus l' a ∈ out →
  ∃ t message, l' = failed_lease t l reason message.
Proof.
  intros Hf Hin. destruct Hf; unfold delete_workload in *; in_acts; [not_in_release|eauto].
Qed.

(** The six ways in which the status of a lease is written. *)
Inductive StatusWrite (l : GPULease) : GPULease → Prop :=
  | write_releasing : is_Some (lease_DeletionTimestamp l) → StatusWrite l (with_phase l GPULeasePhaseReleasing)
  | write_recorded name :
      st_Phase (lease_Status l) = PhaseEmpty ∨ st_Phase (lease_Status l) = GPULeasePhasePending →
      lease_DeletionTimestamp l = None → StatusWrite l (with_workloadName l name)
  | write_admitted t t' message :
      st_Phase (lease_Status l) = PhaseEmpty ∨ st_Phase (lease_Status l) = GPULeasePhasePending →
      lease_DeletionTimestamp l = None → StatusWrite l (admitted_lease t t' l message)
  | write_activating t message :
      st_Phase (lease_Status l) = GPULeasePhaseAdmitted →
      lease_DeletionTimestamp l = None → StatusWrite l (activating_lease t l message)
  | write_bound t t' t'' message :
      st_Phase (lease_Status l) = GPULeasePhaseActivating →
      lease_DeletionTimestamp l = None → StatusWrite l (bound_lease t t' t'' l message)
  | write_failed t reason message :
      live_phase (st_Phase (lease_Status l)) = true →
      lease_DeletionTimestamp l = None → StatusWrite l (failed_lease t l reason message).

Lemma lease_status_write {T} l out res l' a :
  LeaseActs T l out res → ActUpdateStatus l' a ∈ out → StatusWrite l l'.
Proof.
  intros Hl Hin.
  destruct Hl as [| |l'' out res ?? _ HD|out res ?? _ HD| |out res Hd _ Hp]; in_acts; try by constructor.
  - destruct HD; unfold delete_workload in *; in_acts. not_in_release.
  - destruct HD; unfold delete_workload in *; in_acts. not_in_release.
  - destruct (st_Phase (lease_Status l)) eqn:Ep; try (destruct Hp as [-> ->]; by in_acts);
      destruct Hp; in_acts; try (by constructor; auto);
      match goal with HF : FailActs _ _ _ _ _, H : _ ∈ _ |- _ =>
        destruct (fail_status_write _ _ _ _ _ _ HF H) as (t & m & ->); constructor; by rewrite ?Ep end.
Qed.

(** A write with which the reconciler lets go of the lease: the terminal phase Failed,
    or the lease without the finalizer. *)
Definition exit_write (l' : GPULease) (a : Act) : Prop :=
  (∃ w, a = ActUpdateStatus l' w ∧ st_Phase (lease_Status l') = GPULeasePhaseFailed) ∨
  (∃ w, a = ActUpdateLease l' w ∧ ContainsFinalizer (lease_Finalizers l') Finalizer = false).

(** The Workload backing [l] was deleted, or found to be gone. *)
Definition workload_deleted (l : GPULease) (pre : list Act) : Prop :=
  ∃ d, gone d = true ∧ delete_workload l d ∈ pre.

Lemma workload_deleted_cons l a pre : workload_deleted l pre → workload_deleted l (a :: pre).
Proof. intros (d & ? & ?). exists d. split; [done|]. by right. Qed.

Lemma exit_not_other l' a :
  exit_write l' a → (∃ ip r, a = ActRelease ip r) ∨ (∃ p q r, a = ActPatchPod p q r) → False.
Proof. intros [(w & -> & _)|(w & -> & _)] [(? & ? & ?)|(? & ? & ? & ?)]; discriminate. Qed.

(** In a sequence that starts with the deletion of the Workload and ends with a write of
    the same lease, the write comes after the deletion. *)
Lemma exit_after_delete {T} l l1 d rel last pre a post l' :
  gone d = true → ReleaseActs T l rel → workloadName l1 = workloadName l → lease_Spec l1 = lease_Spec l →
  (∀ w, last = ActUpdateStatus l' w → l' = l1) → (∀ w, last = ActUpdateLease l' w → l' = l1) →
  delete_workload l d :: rel ++ [last] = pre ++ a :: post → exit_write l' a → workload_deleted l' pre.
Proof.
  intros Hd HR Hn Hs Hu1 Hu2 Heq Hex. destruct pre as [|x pre]; simplify_eq/=.
  { by destruct Hex as [(w & ? & _)|(w & ? & _)]. }
  assert (a ∈ rel ++ [last]) as Hin by (rewrite H0; set_solver).
  assert (l' = l1) as ->.
  { apply elem_of_app in Hin as [Hin| ->%list_elem_of_singleton].
    - destruct (exit_not_other _ _ Hex). by eapply release_acts_pod.
    - destruct Hex as [(w & -> & _)|(w & -> & _)]; eauto. }
  exists d. split; [done|]. unfold delete_workload. rewrite Hn, Hs. left.
Qed.

Lemma fail_exit {T} l reason pre a post res l' :
  FailActs T l reason (pre ++ a :: post) res → exit_write l' a → workload_deleted l' pre.
Proof.
  intros HF Hex. remember (pre ++ a :: post) as out eqn:E. destruct HF as [d e Hd|t m d rel w res Hd HR _].
  - destruct pre; simplify_eq/=; [by destruct Hex as [(w & ? & _)|(w & ? & _)]|].
    by destruct pre.
  - eapply (exit_after_delete l (failed_lease t l reason m)); [done|done|done|done| | |done|done];
      intros; by simplify_eq.
Qed.

Lemma deletion_exit {T} l pre a post res l' :
  DeletionActs T l (pre ++ a :: post) res → exit_write l' a → workload_deleted l' pre.
Proof.
  intros HF Hex. remember (pre ++ a :: post) as out eqn:E. destruct HF as [d e Hd|d rel w res Hd HR _].
  - destruct pre; simplify_eq/=; [by destruct Hex as [(w & ? & _)|(w & ? & _)]|].
    by destruct pre.
  - eapply (exit_after_delete l (with_finalizers l _)); [done|done|done|done| | |done|done];
      intros; by simplify_eq.
Qed.

(** Where an exit write can be in a sequence that is given by its first elements. *)
Ltac find_exit :=
  repeat match goal with
  | H : [] = ?pre ++ _ :: _ |- _ => by destruct pre
  | H : _ :: _ = ?pre ++ _ :: _ |- _ => destruct pre; simplify_eq/=
  | H : exit_write _ ?a |- _ =>
      first [is_var a; fail 1 | destruct H as [(? & ? & ?)|(? & ? & ?)]; simplify_eq/=; congruence]
  end.

Lemma fail_no_activate {T} l reason out res ip req a : FailActs T l reason out res → ActActivate ip req a ∉ out.
Proof. intros HF Hin. destruct HF; unfold delete_workload in *; in_acts. not_in_release. Qed.

Lemma deletion_no_activate {T} l out res ip req a : DeletionActs T l out res → ActActivate ip req a ∉ out.
Proof. intros HD Hin. destruct HD; unfold delete_workload in *; in_acts. not_in_release. Qed.

(** ** The properties *)

Context `{HL : !KubeLibLaws} (r : GPULeaseReconciler) `{HR : !LawfulReconciler r}.

(** C9. The phases of a lease.  Whatever the cluster answers, every status a reconcile
    writes differs from the lease it read only in the status, and its phase follows the
    life cycle Pending, Admitted, Activating, Bound or Failed; a lease that is being
    deleted is only ever written as Releasing.  In particular Failed is final and no
    phase is skipped. *)
Theorem Reconcile_phase_step name l t res l' a :
  runs (Reconcile r name) (MkObs (GetLease name) (Ok l) :: t) res →
  ActUpdateStatus l' a ∈ acts t →
  same_but_status l l' ∧
  match lease_DeletionTimestamp l with
  | Some _ => st_Phase (lease_Status l') = GPULeasePhaseReleasing
  | None => phase_step (st_Phase (lease_Status l)) (st_Phase (lease_Status l'))
  end.
Proof.
  intros H Hin. apply Reconcile_read in H; [|done].
  destruct (lease_status_write _ _ _ _ _ H Hin) as [Hd|n Hp Hd|? ? ? Hp Hd|? ? Hp Hd|? ? ? ? Hp Hd|? ? ? Hp Hd];
    (split; [done|]); [by destruct Hd as [? ->]|..]; rewrite Hd; cbn.
  - by constructor.
  - by constructor.
  - rewrite Hp. constructor.
  - rewrite Hp. constructor.
  - constructor. destruct (st_Phase (lease_Status l)); try done; set_solver.
Qed.

(** C8. Quota is given back before the lease is let go.  In every run, a write of the
    phase Failed and a write of a lease without the finalizer come after the deletion of
    the lease's own Workload has succeeded, or has found the Workload gone. *)
Theorem Reconcile_quota_before_exit name l t res pre a post l' :
  runs (Reconcile r name) (MkObs (GetLease name) (Ok l) :: t) res →
  acts t = pre ++ a :: post → exit_write l' a → workload_deleted l' pre.
Proof.
  intros H Heq Hex. apply Reconcile_read in H; [|done]. rewrite Heq in H.
  remember (pre ++ a :: post) as out eqn:E.
  assert (∀ x, [x] = pre ++ a :: post → exit_write l' x) as Hone.
  { intros x. destruct pre as [|y [|]]; intros; simplify_eq/=; done. }
  destruct H as [| |l'' out res ?? _ HD|out res ?? _ HD|w res|out res Hd _ Hp].
  - by destruct pre.
  - destruct (Hone _ E) as [(w & ? & ?)|(w & ? & ?)]; simplify_eq.
  - destruct pre as [|x pre]; simplify_eq/=.
    + destruct Hex as [(w & ? & ?)|(w & ? & ?)]; simplify_eq.
    + by eapply workload_deleted_cons, deletion_exit.
  - subst out. by eapply deletion_exit.
  - destruct (Hone _ E) as [(w' & ? & ?)|(w' & ? & Hc)]; simplify_eq/=.
    by rewrite contains_add in Hc.
  - destruct (st_Phase (lease_Status l)) eqn:Ep; try (destruct Hp as [-> ->]; by destruct pre);
      destruct Hp; try (subst; by eapply fail_exit); clear Hone Heq; find_exit;
      try (by eapply workload_deleted_cons, fail_exit).
Qed.

Lemma deletion_outcome {T} l out res :
  DeletionActs T l out res →
  (res = Ok NoRequeue ∧ ∃ pre l' l'', out = pre ++ [ActUpdateLease l' (Ok l'')] ∧
     ContainsFinalizer (lease_Finalizers l') Finalizer = false ∧ workload_deleted l' pre) ∨
  ((∃ e, res = Err e) ∧ ∃ a, a ∈ out ∧ api_failure a).
Proof.
  intros [d e Hd|d rel [l''|e] res' Hd HR' Ha].
  - right. split; [eauto|]. exists (delete_workload l d). split; [left|done].
  - left. split; [done|].
    exists (delete_workload l d :: rel), (with_finalizers l (RemoveFinalizer (lease_Finalizers l) Finalizer)), l''.
    split; [done|]. split; [apply contains_remove|]. exists d. split; [done|left].
  - right. split; [destruct Ha as [? ->]; eauto|].
    eexists. split; [right; apply elem_of_app; right; left|done].
Qed.

(** C12. Deletion is never blocked by the claim pod.  A reconcile of a lease that is
    being deleted and still has the finalizer either succeeds, and then the last thing it
    did is to write the lease without the finalizer, after its Workload was deleted; or
    it fails, and then a call to the Kubernetes API about the lease or its Workload
    failed.  What the pod answered, or whether it exists, makes no difference. *)
Theorem Reconcile_deletion_progress name l t res :
  is_Some (lease_DeletionTimestamp l) → ContainsFinalizer (lease_Finalizers l) Finalizer = true →
  runs (Reconcile r name) (MkObs (GetLease name) (Ok l) :: t) res →
  (res = Ok NoRequeue ∧ ∃ pre l' l'', acts t = pre ++ [ActUpdateLease l' (Ok l'')] ∧
     ContainsFinalizer (lease_Finalizers l') Finalizer = false ∧ workload_deleted l' pre) ∨
  ((∃ e, res = Err e) ∧ ∃ a, a ∈ acts t ∧ api_failure a).
Proof.
  intros Hdel Hfin H. apply Reconcile_read in H; [|done].
  destruct H as [? Hf|a e ctx _ _ _ ->|l' out res _ _ _ H|out res _ _ _ H|w res Hn|out res Hn].
  - congruence.
  - right. split; [eauto|]. eexists. split; [left|done].
  - destruct (deletion_outcome _ _ _ H) as [(-> & pre & l1 & l2 & -> & Hc & Hw)|[He (a & Ha & Hf)]].
    + left. split; [done|]. eexists (_ :: pre), l1, l2. split; [done|]. split; [done|].
      by apply workload_deleted_cons.
    + right. split; [done|]. exists a. split; [by right|done].
  - by apply deletion_outcome in H.
  - destruct Hdel as [? Hx]. congruence.
  - destruct Hdel as [? Hx]. congruence.
Qed.

(** C10. A lease is Bound only while its pod is hot.  A reconcile that writes the phase
    Bound was started in Activating and did exactly this: it asked the claim pod,
    which it had read and found to be the claimed one, ready and on the lease's node, for
    its state and was told "hot"; it
    patched that pod with the hot label, the lease's identity and the deletion cost, with
    success; and then it wrote the lease. *)
Theorem Reconcile_bound_is_hot name l t res l' a :
  runs (Reconcile r name) (MkObs (GetLease name) (Ok l) :: t) res →
  ActUpdateStatus l' a ∈ acts t → st_Phase (lease_Status l') = GPULeasePhaseBound →
  st_Phase (lease_Status l) = GPULeasePhaseActivating ∧
  ∃ p p' st, valid_claim (MkObs (GetLease name) (Ok l) :: t) l p ∧ sr_State st = StateHot ∧
    acts t = [ActPodState (pod_IP p) (Ok st); ActPatchPod p (hotPod p l) (Ok p'); ActUpdateStatus l' a].
Proof.
  intros H Hin Hb. apply Reconcile_read in H; [|done].
  assert (st_Phase (lease_Status l) = GPULeasePhaseActivating ∧ lease_DeletionTimestamp l = None) as [Hp Hd].
  { destruct (lease_status_write _ _ _ _ _ H Hin) as [?|? [Hp|Hp] ?|?????|????|??????|?????];
      simplify_eq/=; try congruence; done. }
  split; [done|]. destruct H as [? ?|a' e ctx ? ? ? ->|l1 out res ? ? ? H|out res ? ? ? H|w res Hn|out res Hn ? H];
    try (match goal with Hs : is_Some _ |- _ => destruct Hs as [? Hs]; congruence end).
  - in_acts.
  - rewrite Hp in H. destruct H; in_acts; eauto 10;
      match goal with HF : FailActs _ _ _ _ _, H : _ ∈ _ |- _ =>
        destruct (fail_status_write _ _ _ _ _ _ HF H) as (? & ? & ->); discriminate end.
Qed.

(** The run that sends a POST /lease. *)
Lemma activation_run name l t res ip req a :
  runs (Reconcile r name) (MkObs (GetLease name) (Ok l) :: t) res →
  ActActivate ip req a ∈ acts t →
  st_Phase (lease_Status l) = GPULeasePhaseAdmitted ∧ lease_DeletionTimestamp l = None ∧
  req = activate_request l ∧ ip ≠ "" ∧
  (∃ p, valid_claim (MkObs (GetLease name) (Ok l) :: t) l p ∧ pod_IP p = ip) ∧
  ∃ rest, acts t = ActActivate ip req a :: rest ∧ ∀ ip' req' a', ActActivate ip' req' a' ∉ rest.
Proof.
  intros H Hin. apply Reconcile_read in H; [|done].
  destruct H as [? ?|a' e ctx ? ? ? ->|l1 out res ? ? ? H|out res ? ? ? H|w res Hn|out res Hn ? H]; in_acts;
    try (by destruct (deletion_no_activate _ _ _ _ _ _ H Hin)).
  destruct (st_Phase (lease_Status l)) eqn:Ep; try (destruct H as [-> ->]; by in_acts);
    destruct H; in_acts;
    try match goal with HF : FailActs _ _ _ _ _, H : _ ∈ _ |- _ =>
      by destruct (fail_no_activate _ _ _ _ _ _ _ HF H) end.
  - split_and!; eauto. eexists. split; [done|]. intros. by eapply fail_no_activate.
  - split_and!; eauto. eexists. split; [done|]. intros ? ? ? ?. in_acts.
Qed.

(** C11. A pod is activated only for an admitted lease, on the right node.  In every
    run, a POST /lease is sent at most once, as the first action, only in phase Admitted,
    to the address of the claimed pod, which this run read and found to be the claimed one,
    ready and on the node of the lease, and
    it carries the lease's own name, node, GPU id and model. *)
Theorem Reconcile_activates_admitted name l t res ip req a :
  runs (Reconcile r name) (MkObs (GetLease name) (Ok l) :: t) res →
  ActActivate ip req a ∈ acts t →
  st_Phase (lease_Status l) = GPULeasePhaseAdmitted ∧ lease_DeletionTimestamp l = None ∧
  req = activate_request l ∧ ip ≠ "" ∧
  (∃ p, valid_claim (MkObs (GetLease name) (Ok l) :: t) l p ∧ pod_IP p = ip) ∧
  ∃ rest, acts t = ActActivate ip req a :: rest ∧ ∀ ip' req' a', ActActivate ip' req' a' ∉ rest.
Proof. apply activation_run. Qed.

Lemma poll_delay_bounds timeout elapsed d :
  poll_delay timeout elapsed d → 0 <= elapsed → 0 < d <= pollInterval ∧ d <= timeout - elapsed.
Proof.
  intros (Ht & He & ->) H0. unfold nextPoll. rewrite wrap64_id by (unfold int64_range; lia).
  unfold pollInterval, Second, Millisecond, Microsecond, Nanosecond. destruct (Z.ltb_spec (timeout - elapsed) (2 * (1000 * (1000 * (1000 * 1))))); lia.
Qed.

(** The time from which the timeout of the lease's phase is measured: that of its Workload
    while it is pending, and that of its activation while it is activating. *)
Definition timed_from (T : list Obs) (l : GPULease) (anchor : Z) : Prop :=
  match st_Phase (lease_Status l) with
  | PhaseEmpty | GPULeasePhasePending => ∃ wl, read_workload T l wl ∧ anchor = admissionAnchor wl
  | GPULeasePhaseActivating => anchor = podActivatedAnchor l
  | _ => False
  end.

(** The clock, as this run read it, is not behind that time. *)
Definition clock_ahead (T : list Obs) (l : GPULease) : Prop :=
  ∀ now anchor, read_clock T now → timed_from T l anchor → anchor <= now.

(** The reconcile will run again, or the lease has failed. *)
Definition rescheduled (out : list Act) (c : CtrlResult) : Prop :=
  Requeue c = true ∨ 0 < RequeueAfter c <= boundPollInterval ∨
  (∃ l' l'', ActUpdateStatus l' (Ok l'') ∈ out ∧ st_Phase (lease_Status l') = GPULeasePhaseFailed).

Lemma rescheduled_cons a out c : rescheduled out c → rescheduled (a :: out) c.
Proof.
  intros [?|[?|(l' & l'' & ? & ?)]]; unfold rescheduled; auto.
  right. right. exists l', l''. split; [by right|done].
Qed.

Lemma rescheduled_write out a ok c :
  after_write a ok (Ok c) → rescheduled out ok → rescheduled out c.
Proof. destruct a as [?|?]; simpl; [congruence|]. intros [? ?]. done. Qed.

Lemma rescheduled_poll out : rescheduled out (RequeueIn pollInterval).
Proof. right. by left. Qed.

Lemma rescheduled_bound_poll out : rescheduled out (RequeueIn boundPollInterval).
Proof. right. by left. Qed.

Lemma rescheduled_now out : rescheduled out RequeueNow.
Proof. by left. Qed.

Lemma rescheduled_wait out timeout now anchor d :
  anchor <= now → poll_delay timeout (Time_Sub now anchor) d → rescheduled out (RequeueIn d).
Proof.
  intros Ha Hp. right. left. pose proof (poll_delay_bounds _ _ _ Hp) as Hd. simpl.
  unfold Time_Sub, minDuration, maxDuration, boundPollInterval, pollInterval, Second in *. lia.
Qed.

Lemma rescheduled_fail {T} l reason out c : FailActs T l reason out (Ok c) → rescheduled out c.
Proof.
  intros HF. remember (Ok c) as res eqn:E. destruct HF as [|t m d rel [l''|e] res Hd HR' Ha]; [done| |].
  - right. right. eexists _, l''. split; [right; apply elem_of_app; right; left|done].
  - destruct Ha as [? Ha]. congruence.
Qed.

Hint Resolve rescheduled_cons rescheduled_poll rescheduled_bound_poll rescheduled_now
  rescheduled_fail : gpulease.
Hint Extern 3 (rescheduled _ _) => eapply rescheduled_write; [eassumption|] : gpulease.

Lemma rescheduled_pending T l out c :
  (∀ now wl, read_clock T now → read_workload T l wl → admissionAnchor wl <= now) →
  PendingActs T l out (Ok c) → rescheduled out c.
Proof.
  intros Hc H. remember (Ok c) as res eqn:E. destruct H; simplify_eq; eauto with gpulease.
  - destruct (gone d); [|by destruct H1]. simplify_eq. auto with gpulease.
  - eapply rescheduled_wait; [|done]. auto.
Qed.

Lemma rescheduled_activating T l out c :
  (∀ now, read_clock T now → podActivatedAnchor l <= now) →
  ActivatingActs T l out (Ok c) → rescheduled out c.
Proof.
  intros Hc H. remember (Ok c) as res eqn:E. destruct H; simplify_eq; eauto with gpulease.
  apply rescheduled_cons. eapply rescheduled_wait; [|done]. auto.
Qed.

Lemma rescheduled_others T l out c :
  AdmittedActs T l out (Ok c) ∨ BoundActs T l out (Ok c) → rescheduled out c.
Proof.
  intros H. remember (Ok c) as res eqn:E. destruct H as [H|H]; destruct H; simplify_eq; eauto with gpulease.
Qed.

(** C20. A live lease is always reconciled again.  Take a reconcile of a lease that is not
    being deleted, in a phase from Pending to Bound, in which the clock as read is not behind
    the time the timeout of the phase is measured from.  When it returns without error, it
    asks to be called again, at once or after a positive delay of at most the Bound poll
    interval, or it has failed the lease, with the status written. *)
Theorem Reconcile_reschedules name l t c :
  lease_DeletionTimestamp l = None → live_phase (st_Phase (lease_Status l)) = true →
  clock_ahead (MkObs (GetLease name) (Ok l) :: t) l →
  runs (Reconcile r name) (MkObs (GetLease name) (Ok l) :: t) (Ok c) →
  Requeue c = true ∨ 0 < RequeueAfter c <= boundPollInterval ∨
  (∃ l' l'', ActUpdateStatus l' (Ok l'') ∈ acts t ∧ st_Phase (lease_Status l') = GPULeasePhaseFailed).
Proof.
  intros Hd Hlive Hclock H. apply Reconcile_read in H; [|done]. fold (rescheduled (acts t) c).
  remember (Ok c) as res eqn:Er.
  destruct H as [? ?|a' e ctx ? ? ? ->|l1 out res ? ? ? H|out res ? ? ? H|w res Hn ? Ha|out res Hn ? H];
    try (match goal with Hs : is_Some _ |- _ => destruct Hs as [? Hs]; congruence end); subst res.
  - eauto with gpulease.
  - unfold clock_ahead, timed_from in Hclock. destruct (st_Phase (lease_Status l)); try done;
      [eapply rescheduled_pending; [|done]; eauto|eapply rescheduled_pending; [|done]; eauto
      |eapply rescheduled_others; eauto|eapply rescheduled_activating; [|done]; eauto
      |eapply rescheduled_others; eauto].
Qed.

End Lifecycle.

(** ** Witnesses *)

Definition example_reconciler : GPULeaseReconciler :=
  {| glr_Recorder := true; glr_Inventory := Some clientInventory |}.

#[export] Instance example_reconciler_lawful : LawfulReconciler example_reconciler.
Proof. intros inv [= <-]. apply clientInventory_laws. Qed.

Definition example_name : string := LeaseName "n1" 0.

(** The run of [Reconcile] in a state of the cluster, without the read of the lease. *)
Definition example_run (m : Mem) : result CtrlResult * list Obs :=
  let out := run mem_server (Reconcile example_reconciler example_name) m in
  (out.1.1, tail out.1.2).

Lemma example_runs m l :
  m_leases m !! example_name = Some l → m_faults m = [] →
  runs (Reconcile example_reconciler example_name)
    (MkObs (GetLease example_name) (Ok l) :: (example_run m).2) (example_run m).1.
Proof.
  intros Hl Hf. pose proof (run_runs mem_server (Reconcile example_reconciler example_name) m) as H.
  unfold example_run. unfold Reconcile in *. cbn [bind call fst snd] in *.
  rewrite run_head in H. replace (mem_server _ (GetLease example_name) m).1 with (Ok l) in H; [done|].
  unfold mem_server. rewrite Hf. simpl. by rewrite Hl.
Qed.

(** An admitted Workload, as the reconciler builds it. *)
Definition example_workload (conds : list Condition) : Workload :=
  let w := buildWorkload (lease_in GPULeasePhasePending) in
  {| wl_Namespace := wl_Namespace w; wl_Name := wl_Name w; wl_CreationTimestamp := 990 * Second;
     wl_OwnerReferences := []; wl_Spec := wl_Spec w;
     wl_Status := {| wlst_Conditions := conds; wlst_Admission := None |} |}.
Definition workloads_with (conds : list Condition) : gmap (string * string) Workload :=
  {[ ("ns", example_name) := example_workload conds ]}.

(** A pending lease whose Workload is admitted, and one whose pod has become hot. *)
Definition state_admitted : Mem :=
  cluster (lease_in GPULeasePhasePending)
    (workloads_with [example_condition ConditionAdmitted ConditionTrue "Admitted" (995 * Second)])
    StateActivating StateWarm.
Definition state_hot : Mem :=
  cluster (lease_in GPULeasePhaseActivating) (workloads_with []) StateActivating StateHot.
(** A pending lease whose Workload is inadmissible. *)
Definition state_inadmissible : Mem :=
  cluster (lease_in GPULeasePhasePending)
    (workloads_with [example_condition KueueConditionQuotaReserved ConditionFalse kueueReasonInadmissible (995 * Second)])
    StateActivating StateWarm.
(** An admitted lease. *)
Definition state_to_activate : Mem :=
  cluster (lease_in GPULeasePhaseAdmitted) (workloads_with []) StateActivating StateWarm.
(** A bound lease that is being deleted while its pod does not answer. *)
Definition deleting_lease : GPULease :=
  stored_lease 1 1 1 (Some (999 * Second)) [Finalizer] (lease_in GPULeasePhaseBound)
    (lease_Status (lease_in GPULeasePhaseBound)).
Definition state_deleting : Mem :=
  let m := cluster deleting_lease (workloads_with []) StateHot StateHot in
  set_fake m {| fc_pods := fc_pods (m_fake m); fc_ActivateErr := ∅;
                fc_ReleaseErr := {[ "10.0.0.1" := PlainError "connection refused" ]};
                fc_StateErr := ∅; fc_ActivateCalls := []; fc_ReleaseCalls := [] |}.

Definition nth_act (i : nat) (m : Mem) : option Act := acts (example_run m).2 !! i.

Lemma nth_act_in i m a : nth_act i m = Some a → a ∈ acts (example_run m).2.
Proof. apply list_elem_of_lookup_2. Qed.

Lemma nth_act_split i m a :
  nth_act i m = Some a →
  acts (example_run m).2 = take i (acts (example_run m).2) ++ a :: drop (S i) (acts (example_run m).2).
Proof. intros H. symmetry. by apply take_drop_middle. Qed.

Definition is_status (a : option Act) : bool :=
  match a with Some (ActUpdateStatus _ _) => true | _ => false end.

Lemma is_status_inv a : is_status a = true → ∃ l r, a = Some (ActUpdateStatus l r).
Proof. destruct a as [[]|]; try done. eauto. Qed.

Lemma Reconcile_phase_step_witness :
  ∃ l' a, nth_act 0 state_admitted = Some (ActUpdateStatus l' a) ∧
    phase_step GPULeasePhasePending (st_Phase (lease_Status l')).
Proof.
  destruct (is_status_inv (nth_act 0 state_admitted)) as (l' & a & E); [vm_compute; reflexivity|].
  exists l', a. split; [done|].
  apply (Reconcile_phase_step example_reconciler example_name (lease_in GPULeasePhasePending)
           (example_run state_admitted).2 (example_run state_admitted).1 l' a).
  - apply example_runs; reflexivity.
  - by apply nth_act_in in E.
Defined.

(** The failure of an inadmissible lease: delete the Workload, release and revert the
    pod, write the status. *)
Lemma Reconcile_quota_before_exit_witness :
  ∃ l' a, nth_act 3 state_inadmissible = Some (ActUpdateStatus l' a) ∧
    st_Phase (lease_Status l') = GPULeasePhaseFailed ∧
    workload_deleted l' (take 3 (acts (example_run state_inadmissible).2)).
Proof.
  destruct (is_status_inv (nth_act 3 state_inadmissible)) as (l' & a & E); [vm_compute; reflexivity|].
  assert (st_Phase (lease_Status l') = GPULeasePhaseFailed) as Hp.
  { apply (f_equal (λ o, match o with Some (ActUpdateStatus l _) => st_Phase (lease_Status l) | _ => PhaseEmpty end)) in E.
    vm_compute in E. symmetry. exact E. }
  exists l', a. split; [done|]. split; [done|].
  eapply (Reconcile_quota_before_exit example_reconciler example_name (lease_in GPULeasePhasePending)
           (example_run state_inadmissible).2 (example_run state_inadmissible).1).
  - apply example_runs; reflexivity.
  - by apply nth_act_split.
  - left. eauto.
Defined.

Lemma Reconcile_deletion_progress_witness :
  (example_run state_deleting).1 = Ok NoRequeue ∧
  ∃ pre l' l'', acts (example_run state_deleting).2 = pre ++ [ActUpdateLease l' (Ok l'')] ∧
    workload_deleted l' pre.
Proof.
  destruct (Reconcile_deletion_progress example_reconciler example_name deleting_lease
              (example_run state_deleting).2 (example_run state_deleting).1)
    as [(Hr & pre & l' & l'' & Ha & _ & Hw)|[(e & He) _]].
  - eexists. reflexivity.
  - reflexivity.
  - apply example_runs; reflexivity.
  - split; [done|]. exists pre, l', l''. split; [exact Ha|exact Hw].
  - exfalso. vm_compute in He. discriminate.
Defined.

Lemma Reconcile_bound_is_hot_witness :
  ∃ p p' st l' a, acts (example_run state_hot).2 =
      [ActPodState (pod_IP p) (Ok st); ActPatchPod p (hotPod p (lease_in GPULeasePhaseActivating)) (Ok p');
       ActUpdateStatus l' a] ∧ sr_State st = StateHot.
Proof.
  destruct (is_status_inv (nth_act 2 state_hot)) as (l' & a & E); [vm_compute; reflexivity|].
  destruct (Reconcile_bound_is_hot example_reconciler example_name (lease_in GPULeasePhaseActivating)
              (example_run state_hot).2 (example_run state_hot).1 l' a) as (_ & p & p' & st & _ & Hs & Ha).
  - apply example_runs; reflexivity.
  - by apply nth_act_in in E.
  - apply (f_equal (λ o, match o with Some (ActUpdateStatus l _) => st_Phase (lease_Status l) | _ => PhaseEmpty end)) in E.
    vm_compute in E. symmetry. exact E.
  - exists p, p', st, l', a. split; [exact Ha|exact Hs].
Defined.

Lemma Reconcile_activates_admitted_witness :
  ∃ T p, valid_claim T (lease_in GPULeasePhaseAdmitted) p ∧ pod_IP p = "10.0.0.1".
Proof.
  assert (nth_act 0 state_to_activate =
    Some (ActActivate "10.0.0.1" (activate_request (lease_in GPULeasePhaseAdmitted)) (Ok tt))) as E
    by (vm_compute; reflexivity).
  apply nth_act_in in E. eexists.
  apply (Reconcile_activates_admitted example_reconciler example_name (lease_in GPULeasePhaseAdmitted)
           (example_run state_to_activate).2 (example_run state_to_activate).1 _ _ _
           (example_runs state_to_activate (lease_in GPULeasePhaseAdmitted) eq_refl eq_refl) E).
Defined.

(** A lease whose Workload waits for quota: the reconcile reads the clock. *)
Definition state_queued : Mem :=
  cluster (lease_in GPULeasePhasePending) (workloads_with []) StateActivating StateWarm.

Lemma clock_ahead_readings T l :
  match st_Phase (lease_Status l) with PhaseEmpty | GPULeasePhasePending => true | _ => false end = true →
  forallb (λ now, forallb (λ wl, admissionAnchor wl <=? now) (omap got_workload T)) (omap got_clock T) = true →
  clock_ahead T l.
Proof.
  intros Hp Hall now anchor Hn Ha. unfold timed_from in Ha.
  assert (∃ wl, read_workload T l wl ∧ anchor = admissionAnchor wl) as (wl & Hw & ->)
    by (destruct (st_Phase (lease_Status l)); done).
  rewrite forallb_forall in Hall. specialize (Hall now). rewrite forallb_forall in Hall.
  apply Z.leb_le, Hall; apply list_elem_of_In, list_elem_of_omap; [by exists (MkObs ClockNow now)|].
  eexists. split; [exact Hw|reflexivity].
Qed.

Lemma Reconcile_reschedules_witness :
  rescheduled (acts (example_run state_queued).2) (RequeueIn pollInterval).
Proof.
  apply (Reconcile_reschedules example_reconciler example_name (lease_in GPULeasePhasePending)).
  - reflexivity.
  - reflexivity.
  - apply clock_ahead_readings; vm_compute; reflexivity.
  - assert ((example_run state_queued).1 = Ok (RequeueIn pollInterval)) as <- by (vm_compute; reflexivity).
    apply example_runs; reflexivity.
Defined.
