(* ===== verification/LeaseDeadlines.v ===== *)
(** * The timeouts of a lease

    What the reconciler does with a lease that is not admitted, or whose pod does not
    become hot, as a function of the clock. *)

From S2P Require Import Prelude GoLib Names Kube Effects MemServer Scenario Inventory PodClient.
From S2P Require Import Pods Kueue GPULeaseController GPULeaseFacts LeaseLifecycle.

Section Deadlines.
Context `{KL : KubeLib} (r : GPULeaseReconciler).

(** The settings that apply to a lease, given the answer to the read of its Deployment:
    the Deployment's own, or the defaults when it cannot be read. *)
Definition settings_of (l : GPULease) (dep : result Deployment) : DeploymentSettings :=
  match dep with
  | Ok d => ParseDeploymentSettings (dep_Annotations d) (dep_Name d)
  | Err _ => ParseDeploymentSettings ∅ (ref_Name (spec_DeploymentRef (lease_Spec l)))
  end.

Definition read_deployment (l : GPULease) : Eff (result Deployment) :=
  GetDeployment (ref_Namespace (spec_DeploymentRef (lease_Spec l)))
    (ref_Name (spec_DeploymentRef (lease_Spec l))).

(** Saturation does not change which side of a timeout the elapsed time is on. *)
Lemma Time_Sub_timeout t anchor timeout :
  0 < timeout < 2 ^ 63 → 0 <= t - anchor →
  (timeout <=? Time_Sub t anchor) = (timeout <=? t - anchor) ∧
  (t - anchor < timeout → Time_Sub t anchor = t - anchor).
Proof.
  unfold Time_Sub, minDuration, maxDuration. intros Ht H0. split; [|lia].
  destruct (Z.leb_spec timeout (t - anchor)); [apply Z.leb_le|apply Z.leb_gt]; lia.
Qed.

Lemma nextPoll_min timeout elapsed :
  0 < timeout < 2 ^ 63 → 0 <= elapsed < timeout →
  nextPoll (wrap64 (timeout - elapsed)) = Z.min pollInterval (timeout - elapsed).
Proof.
  intros Ht He. unfold nextPoll. rewrite wrap64_id by (unfold int64_range; lia).
  destruct (Z.ltb_spec (timeout - elapsed) pollInterval); lia.
Qed.

Context {S : Type} (srv : Server S) (s : S).

Lemma run_vis {R A} (e : Eff R) (k : R → Prog A) x :
  srv R e s = (x, s) →
  run srv (Vis e k) s =
  ((run srv (k x) s).1.1, MkObs e x :: (run srv (k x) s).1.2, (run srv (k x) s).2).
Proof. intros H. cbn [run]. rewrite H. by destruct (run srv (k x) s) as [[? ?] ?]. Qed.

Lemma run_deploymentSettings {A} l dep (k : DeploymentSettings → Prog A) :
  srv _ (read_deployment l) s = (dep, s) →
  run srv (bind (deploymentSettings l) k) s =
  let out := run srv (k (settings_of l dep)) s in
  (out.1.1, MkObs (read_deployment l) dep :: out.1.2, out.2).
Proof.
  intros H. unfold deploymentSettings. cbn [bind call]. rewrite (run_vis _ _ dep H). by destruct dep.
Qed.

(** C21. The admission timeout.  A Pending lease whose Workload is there, as built and
    not admitted, is failed at once with QueueMisconfigured if Kueue calls the Workload
    inadmissible, whatever the clock says.  Otherwise it is failed with
    QuotaExhaustedOnNode if the admission timeout of its Deployment has passed since the
    anchor; and before that nothing is changed, and the next poll comes after the poll
    interval or exactly at the deadline, whichever is earlier. *)
Theorem reconcilePending_deadline l wl dep t :
  srv _ (GetWorkload (ref_Namespace (spec_ClaimRef (lease_Spec l))) (lease_Name l)) s = (Ok wl, s) →
  srv _ (read_deployment l) s = (dep, s) → srv _ ClockNow s = (t, s) →
  workloadMatchesSpec wl (buildWorkload l) = true → isWorkloadAdmitted wl = false →
  let out := run srv (reconcilePending r l) s in
  let timeout := AdmissionTimeout (settings_of l dep) in
  let elapsed := t - admissionAnchor wl in
  if (workloadInadmissible wl).1
  then FailActs out.1.2 l ReasonQueueMisconfigured (acts out.1.2) out.1.1
  else 0 <= elapsed →
    if timeout <=? elapsed
    then FailActs out.1.2 l ReasonQuotaExhaustedOnNode (acts out.1.2) out.1.1
    else acts out.1.2 = [] ∧ out.2 = s ∧
         out.1.1 = Ok (RequeueIn (Z.min pollInterval (timeout - elapsed))).
Proof.
  intros Hw Hdep Ht Hm Ha. cbv zeta. unfold reconcilePending. cbn [bind call].
  rewrite (run_vis _ _ _ Hw). rewrite Hm. cbn [negb fst snd]. unfold evaluateAdmission. rewrite Ha.
  destruct (workloadInadmissible wl) as [[] msg]; cbn [fst].
  { acts_norm. eapply transitionToFailed_acts; [apply run_runs|clear; set_solver]. }
  intros H0.
  assert (0 < AdmissionTimeout (settings_of l dep) < 2 ^ 63) as Hset.
  { destruct dep; apply ParseDeploymentSettings_ok. }
  rewrite (run_deploymentSettings _ _ _ Hdep). unfold now. cbn [bind call fst snd].
  rewrite (run_vis _ _ _ Ht). cbn [fst snd].
  destruct (Time_Sub_timeout t (admissionAnchor wl) _ Hset H0) as [-> Hs].
  destruct (Z.leb_spec (AdmissionTimeout (settings_of l dep)) (t - admissionAnchor wl)) as [Hle|Hlt].
  - acts_norm. eapply transitionToFailed_acts; [apply run_runs|clear; set_solver].
  - rewrite Hs, nextPoll_min by done. done.
Qed.

(** C22. The activation timeout.  An Activating lease with a valid claim pod that does not
    report the state hot is failed with ActivationTimeout if the activation timeout of
    its Deployment has passed since its activation; before that nothing is changed, even
    if the pod does not answer, and the next poll comes after the poll interval or
    exactly at the deadline, whichever is earlier. *)
Theorem reconcileActivating_deadline l pod st dep t :
  srv _ (GetPod (ref_Namespace (spec_ClaimRef (lease_Spec l)))
                (ref_Name (spec_ClaimRef (lease_Spec l)))) s = (Ok pod, s) →
  srv _ (PodState (pod_IP pod)) s = (st, s) →
  srv _ (read_deployment l) s = (dep, s) → srv _ ClockNow s = (t, s) →
  leaseOrphanReason (Some pod) l None = "" →
  match st with Ok st => sr_State st ≠ StateHot | Err _ => True end →
  let out := run srv (reconcileActivating r l) s in
  let timeout := ActivationTimeout (settings_of l dep) in
  let elapsed := t - podActivatedAnchor l in
  0 <= elapsed →
  if timeout <=? elapsed
  then ∃ fail, acts out.1.2 = ActPodState (pod_IP pod) st :: fail ∧
         FailActs out.1.2 l ReasonActivationTimeout fail out.1.1
  else acts out.1.2 = [ActPodState (pod_IP pod) st] ∧ out.2 = s ∧
       out.1.1 = Ok (RequeueIn (Z.min pollInterval (timeout - elapsed))).
Proof.
  intros Hp Hst Hdep Ht Ho Hnot. cbv zeta. intros H0. unfold reconcileActivating, getClaimPod.
  cbn [bind call]. rewrite (run_vis _ _ _ Hp). cbn [bind fst snd]. rewrite Ho.
  rewrite bool_decide_eq_false_2 by auto. rewrite (run_vis _ _ _ Hst). cbn [fst snd].
  assert (∀ X, match st with
      | Ok state => if bool_decide (sr_State state = StateHot) then X else awaitHot r l pod
      | Err _ => awaitHot r l pod end = awaitHot r l pod) as ->.
  { intros X. destruct st; [|done]. by rewrite bool_decide_eq_false_2. }
  assert (0 < ActivationTimeout (settings_of l dep) < 2 ^ 63) as Hset.
  { destruct dep; apply ParseDeploymentSettings_ok. }
  unfold awaitHot, now. rewrite (run_deploymentSettings _ _ _ Hdep). cbn [bind call fst snd].
  rewrite (run_vis _ _ _ Ht). cbn [fst snd].
  destruct (Time_Sub_timeout t (podActivatedAnchor l) _ Hset H0) as [-> Hs].
  destruct (Z.leb_spec (ActivationTimeout (settings_of l dep)) (t - podActivatedAnchor l)) as [Hle|Hlt].
  - eexists. acts_norm. split; [done|]. eapply transitionToFailed_acts; [apply run_runs|clear; set_solver].
  - rewrite Hs, nextPoll_min by done. done.
Qed.

End Deadlines.

(** ** Witnesses *)

(** The Workload of the pending lease of [state_queued] has waited for 10 of the 30 seconds its
    Deployment allows; this activating one has waited for 999 of 120. *)
Definition state_late : Mem :=
  cluster (lease_in GPULeasePhaseActivating) (workloads_with []) StateActivating StateActivating.

Lemma reconcilePending_deadline_witness :
  (run mem_server (reconcilePending example_reconciler (lease_in GPULeasePhasePending)) state_queued).1.1 =
    Ok (RequeueIn pollInterval).
Proof.
  pose proof (reconcilePending_deadline example_reconciler mem_server state_queued
    (lease_in GPULeasePhasePending) (example_workload []) (Ok example_deployment) (1000 * Second)) as H.
  cbv zeta in H.
  replace (workloadInadmissible (example_workload [])).1 with false in H by reflexivity.
  replace (AdmissionTimeout _ <=? _) with false in H by (vm_compute; reflexivity).
  destruct H as (_ & _ & H); [vm_compute; reflexivity..|vm_compute; discriminate|].
  rewrite H. vm_compute. reflexivity.
Defined.

Lemma reconcileActivating_deadline_witness :
  ∃ fail st, acts (run mem_server (reconcileActivating example_reconciler (lease_in GPULeasePhaseActivating))
                     state_late).1.2 = ActPodState "10.0.0.1" st :: fail ∧
    ∃ T res, FailActs T (lease_in GPULeasePhaseActivating) ReasonActivationTimeout fail res.
Proof.
  pose proof (reconcileActivating_deadline example_reconciler mem_server state_late
    (lease_in GPULeasePhaseActivating) (example_pod "p0" "n1" "10.0.0.1" StateActivating (900 * Second))
    (FakeClient_State (m_fake state_late) "10.0.0.1") (Ok example_deployment) (1000 * Second)) as H.
  cbv zeta in H.
  replace (ActivationTimeout _ <=? _) with true in H by (vm_compute; reflexivity).
  destruct H as (fail & Ha & Hf); [vm_compute; first [reflexivity|discriminate]..|].
  exists fail, (FakeClient_State (m_fake state_late) "10.0.0.1"). split; [exact Ha|]. eexists _, _. exact Hf.
Defined.
