(* ===== verification/WarmPoolController.v ===== *)
(** * The WarmPool reconciler: [src/internal/controller/warmpool_controller.go]

    One run of [Reconcile] reclaims the leases of a managed Deployment that are no longer
    justified, and then promotes warm pods, or demotes hot ones, towards the target. *)

From S2P Require Import Prelude GoLib Names Kube Effects MemServer Scenario Inventory PodClient.
From S2P Require Import Pods Kueue GPULeaseController.

Module WarmPool.

Definition DefaultWarmPoolResyncPeriod : Z := 15 * Second.
Definition blockedPromotionRequeueAfter : Z := 30 * Second.

Definition EventReasonPromoted : string := "PromotedToHot".
Definition EventReasonDemoted : string := "DemotedToWarm".
Definition EventReasonNoFreeGPUOnAnyNode : string := ReasonNoFreeGPUOnAnyPodNode.
Definition EventReasonWarmDeficit : string := "WarmDeficit".
Definition EventReasonOrphanLeaseReclaimed : string := "OrphanLeaseReclaimed".
Definition EventReasonFailedLeaseReclaimed : string := "FailedLeaseReclaimed".

(** Metric names ([metrics.go]). *)
Definition PoolHotPods : string := "gpulease_pool_hot_pods".
Definition PoolWarmPods : string := "gpulease_pool_warm_pods".
Definition PoolWarmDesired : string := "gpulease_pool_warm_desired".
Definition PromotionsTotal : string := "gpulease_promotions_total".
Definition DemotionsTotal : string := "gpulease_demotions_total".

Definition minPositiveDuration (a b : Z) : Z :=
  if a <=? 0 then b
  else if b <=? 0 then a
  else if a <? b then a
  else b.

Section WarmPool.
Context `{KL : KubeLib}.

(** The fields of the reconciler: whether there is a Recorder, the Inventory, and the two
    durations. *)
Record WarmPoolReconciler := {
  wpr_Recorder : bool;
  wpr_Inventory : InventoryOps;
  wpr_ResyncPeriod : Z;
  wpr_FailedLeaseRetention : Z;
}.

Definition effectiveFailedLeaseRetention (r : WarmPoolReconciler) : Z :=
  if 0 <? wpr_FailedLeaseRetention r then wpr_FailedLeaseRetention r
  else DefaultFailedLeaseRetention.

Definition effectiveResyncPeriod (r : WarmPoolReconciler) : Z :=
  if 0 <? wpr_ResyncPeriod r then wpr_ResyncPeriod r else DefaultWarmPoolResyncPeriod.

Definition event (r : WarmPoolReconciler) (dep : Deployment) (ty : EventType)
    (reason message : string) : Prog unit :=
  if wpr_Recorder r
  then call (RecordEvent (OnDeployment (dep_Namespace dep) (dep_Name dep)) ty reason message)
  else Ret tt.

(** ** Promotion *)

(** The lease that claims [pod] for GPU [id] of [node]. *)
Definition newLease (dep : Deployment) (settings : DeploymentSettings) (pod : Pod)
    (node : string) (id : Z) (model : string) : GPULease :=
  {| lease_Name := LeaseName node id;
     lease_ResourceVersion := 0;
     lease_Generation := 0;
     lease_CreationTimestamp := 0;
     lease_DeletionTimestamp := None;
     lease_Finalizers := [Finalizer];
     lease_Spec :=
       {| spec_NodeName := node;
          spec_GPUID := id;
          spec_GPUModel := model;
          spec_ClaimRef :=
            {| ref_Namespace := pod_Namespace pod; ref_Name := pod_Name pod; ref_UID := pod_UID pod |};
          spec_DeploymentRef :=
            {| ref_Namespace := dep_Namespace dep; ref_Name := dep_Name dep; ref_UID := dep_UID dep |};
          spec_LocalQueueName := LocalQueueName settings |};
     lease_Status := empty_status |}.

(** [for _, id := range free]. *)
Fixpoint createFirst (dep : Deployment) (settings : DeploymentSettings) (pod : Pod)
    (node model : string) (free : list Z) : Prog (result GPULease) :=
  match free with
  | [] => Ret (Err ErrExhausted)
  | id :: free =>
      let lease := newLease dep settings pod node id model in
      created <- call (CreateLease lease) ;;
      match created with
      | Ok lease => Ret (Ok lease)
      | Err err =>
          if negb (IsAlreadyExists err)
          then Ret (Err (wrap ("create GPULease " +:+ lease_Name lease) err))
          else createFirst dep settings pod node model free
      end
  end.

Definition acquireLeaseOnNode (r : WarmPoolReconciler) (dep : Deployment)
    (settings : DeploymentSettings) (pod : Pod) (node : string) : Prog (result GPULease) :=
  free <-? inv_FreeGPUIDs (wpr_Inventory r) node else wrap ("free GPU ids on node " +:+ node) ;;
  match free with
  | [] => Ret (Err ErrExhausted)
  | _ =>
      cap <-? inv_NodeCapacity (wpr_Inventory r) node else wrap ("node capacity for " +:+ node) ;;
      createFirst dep settings pod node cap.2 free
  end.

(** [for i := range candidates]. *)
Fixpoint promoteLoop (r : WarmPoolReconciler) (dep : Deployment) (settings : DeploymentSettings)
    (need promoted : Z) (candidates : list Pod) : Prog (result Z) :=
  match candidates with
  | [] => Ret (Ok promoted)
  | pod :: candidates =>
      if need <=? promoted then Ret (Ok promoted)
      else
        let node := pod_NodeName pod in
        acquired <- acquireLeaseOnNode r dep settings pod node ;;
        match acquired with
        | Err err =>
            if errors_Is err "inventory.ErrExhausted"
            then promoteLoop r dep settings need promoted candidates
            else Ret (Err err)
        | Ok lease =>
            pod <-? patchPodStateLabel pod StateActivating else id ;;
            call (MetricInc PromotionsTotal []) ;;;
            event r dep EventTypeNormal EventReasonPromoted
              ("promoting pod " +:+ pod_Name pod +:+ " to hot: acquired GPULease " +:+
               lease_Name lease +:+ " (node " +:+ node +:+ ", gpu " +:+
               FormatInt10 (spec_GPUID (lease_Spec lease)) +:+ ", model " +:+
               spec_GPUModel (lease_Spec lease) +:+ ")") ;;;
            promoteLoop r dep settings need (wrap64 (promoted + 1)) candidates
        end
  end.

Definition promote (r : WarmPoolReconciler) (dep : Deployment) (settings : DeploymentSettings)
    (warmPods : list Pod) (need : Z) (freeByNode : gmap string Z) : Prog (result Z) :=
  let candidates := sortPromotionCandidates warmPods freeByNode in
  promoted <-? promoteLoop r dep settings need 0 candidates else id ;;
  if promoted <? need then
    call (MetricInc LeaseAcquireFailuresTotal [dep_Name dep; ReasonNoFreeGPUOnAnyPodNode]) ;;;
    event r dep EventTypeWarning EventReasonNoFreeGPUOnAnyNode
      ("need to promote " +:+ FormatInt10 (wrap64 (need - promoted)) +:+
       " more warm pod(s) to hot (target " +:+ FormatInt10 need +:+
       ") but no warm pod sits on a node with a free GPU (" +:+
       FormatInt10 (Z.of_nat (length candidates)) +:+
       " candidate warm pod(s) had a free-GPU node, " +:+ FormatInt10 promoted +:+ " promoted)") ;;;
    Ret (Ok promoted)
  else Ret (Ok promoted).

(** ** Leases of a Deployment *)

Definition ownedBy (dep : Deployment) (l : GPULease) : bool :=
  bool_decide (ref_Namespace (spec_DeploymentRef (lease_Spec l)) = dep_Namespace dep) &&
  bool_decide (ref_Name (spec_DeploymentRef (lease_Spec l)) = dep_Name dep).

Definition leasesForDeployment (dep : Deployment) : Prog (result (list GPULease)) :=
  all <-? call ListLeases else wrap "list GPULeases" ;;
  Ret (Ok (List.filter (ownedBy dep) all)).

Fixpoint findLeaseForPod (leases : list GPULease) (pod : Pod) : option GPULease :=
  match leases with
  | [] => None
  | l :: leases =>
      let claim := spec_ClaimRef (lease_Spec l) in
      if bool_decide (ref_Namespace claim = pod_Namespace pod) && bool_decide (ref_Name claim = pod_Name pod)
      then if bool_decide (ref_UID claim = "") || bool_decide (ref_UID claim = pod_UID pod)
           then Some l else findLeaseForPod leases pod
      else findLeaseForPod leases pod
  end.

(** ** Demotion *)

Fixpoint demoteLoop (r : WarmPoolReconciler) (dep : Deployment) (leases : list GPULease)
    (need demoted : Z) (candidates : list Pod) : Prog (result unit) :=
  match candidates with
  | [] => Ret (Ok tt)
  | pod :: candidates =>
      if need <=? demoted then Ret (Ok tt)
      else
        let lease := findLeaseForPod leases pod in
        pod <-? patchPodStateLabel pod StateReleasing else id ;;
        let '(node, gpuID, leaseName) :=
          match lease with
          | Some lease => (spec_NodeName (lease_Spec lease), spec_GPUID (lease_Spec lease), lease_Name lease)
          | None => ("", 0, "<none>")
          end in
        let rest : Prog (result unit) :=
          call (MetricInc DemotionsTotal []) ;;;
          event r dep EventTypeNormal EventReasonDemoted
            ("demoting pod " +:+ pod_Name pod +:+ " from hot to warm: deleting GPULease " +:+
             leaseName +:+ " (node " +:+ node +:+ ", gpu " +:+ FormatInt10 gpuID +:+
             ") to release the GPU") ;;;
          demoteLoop r dep leases need (wrap64 (demoted + 1)) candidates in
        match lease with
        | None => rest
        | Some lease =>
            d <- call (DeleteLease lease) ;;
            match d with
            | Ok _ => rest
            | Err err =>
                if IsNotFound err then rest
                else Ret (Err (wrap ("delete GPULease " +:+ lease_Name lease) err))
            end
        end
  end.

Definition demote (r : WarmPoolReconciler) (dep : Deployment) (hotPods : list Pod) (need : Z)
    : Prog (result unit) :=
  let candidates := sortDemotionCandidates hotPods in
  leases <-? leasesForDeployment dep else id ;;
  demoteLoop r dep leases need 0 candidates.

(** ** Garbage collection *)

Definition failedLeaseFailureReason (lease : GPULease) : string :=
  match FindStatusCondition (st_Conditions (lease_Status lease)) ConditionReady with
  | Some c => cond_Reason c
  | None => ""
  end.

Definition failedSince (lease : GPULease) : Z :=
  match FindStatusCondition (st_Conditions (lease_Status lease)) ConditionReady with
  | Some c => if negb (Time_IsZero (cond_LastTransitionTime c)) then cond_LastTransitionTime c
              else lease_CreationTimestamp lease
  | None => lease_CreationTimestamp lease
  end.

(** The deletion of a lease past its retention, given the lease as the handler last knew
    it and what it knew of the failed one at the start. *)
Definition deleteFailed (r : WarmPoolReconciler) (dep : Deployment) (failed lease : GPULease)
    : Prog (result (bool * Z)) :=
  let name := lease_Name failed in
  d <- call (DeleteLease lease) ;;
  match d with
  | Err err =>
      if IsNotFound err then Ret (Ok (true, 0))
      else Ret (Err (wrap ("delete failed GPULease " +:+ name) err))
  | Ok _ =>
      event r dep EventTypeNormal EventReasonFailedLeaseReclaimed
        ("reclaiming Failed GPULease " +:+ name +:+ " (node " +:+ spec_NodeName (lease_Spec failed) +:+
         ", gpu " +:+ FormatInt10 (spec_GPUID (lease_Spec failed)) +:+ ") after " +:+
         Duration_String (effectiveFailedLeaseRetention r) +:+ ": original failure reason " +:+
         failedLeaseFailureReason failed +:+ ": " +:+ st_Message (lease_Status failed)) ;;;
      Ret (Ok (true, 0))
  end.

(** Whether the lease is deleted, and if not after how long it can be. *)
Definition reclaimFailedLease (r : WarmPoolReconciler) (dep : Deployment) (lease : GPULease)
    : Prog (result (bool * Z)) :=
  let retention := effectiveFailedLeaseRetention r in
  t <- call TimeNow ;;
  let age := Time_Sub t (failedSince lease) in
  if age <? retention then Ret (Ok (false, wrap64 (retention - age)))
  else if ContainsFinalizer (lease_Finalizers lease) Finalizer then
    let lease' := with_finalizers lease (RemoveFinalizer (lease_Finalizers lease) Finalizer) in
    u <- call (UpdateLease lease') ;;
    match u with
    | Ok lease' => deleteFailed r dep lease lease'
    | Err err =>
        if IsNotFound err then Ret (Ok (true, 0))
        else Ret (Err (wrap ("remove finalizer from failed GPULease " +:+ lease_Name lease) err))
    end
  else deleteFailed r dep lease lease.

(** Delete the lease unless its claim on [pod] is valid. *)
Definition checkClaim (r : WarmPoolReconciler) (dep : Deployment) (sel : Selector)
    (lease : GPULease) (pod : option Pod) : Prog (result unit) :=
  let claim := spec_ClaimRef (lease_Spec lease) in
  let reason := leaseOrphanReason pod lease (Some sel) in
  if bool_decide (reason = "") then Ret (Ok tt)
  else
    let reclaimed : Prog (result unit) :=
      event r dep EventTypeWarning EventReasonOrphanLeaseReclaimed
        ("reclaiming GPULease " +:+ lease_Name lease +:+ " (node " +:+
         spec_NodeName (lease_Spec lease) +:+ ", gpu " +:+ FormatInt10 (spec_GPUID (lease_Spec lease)) +:+
         ") claimed by pod " +:+ ref_Namespace claim +:+ "/" +:+ ref_Name claim +:+ ": " +:+ reason) ;;;
      Ret (Ok tt) in
    d <- call (DeleteLease lease) ;;
    match d with
    | Ok _ => reclaimed
    | Err err =>
        if IsNotFound err then reclaimed
        else Ret (Err (wrap ("delete orphaned GPULease " +:+ lease_Name lease) err))
    end.

(** The check of the claim of one lease. *)
Definition reclaimOrphan (r : WarmPoolReconciler) (dep : Deployment) (sel : Selector)
    (lease : GPULease) : Prog (result unit) :=
  let claim := spec_ClaimRef (lease_Spec lease) in
  got <- call (GetPod (ref_Namespace claim) (ref_Name claim)) ;;
  match got with
  | Ok pod => checkClaim r dep sel lease (Some pod)
  | Err err =>
      if IsNotFound err then checkClaim r dep sel lease None
      else Ret (Err (wrap ("get claim pod for lease " +:+ lease_Name lease) err))
  end.

(** [for i := range leases]. *)
Fixpoint orphanLoop (r : WarmPoolReconciler) (dep : Deployment) (sel : Selector)
    (requeueAfter : Z) (leases : list GPULease) : Prog (result Z) :=
  match leases with
  | [] => Ret (Ok requeueAfter)
  | lease :: leases =>
      if bool_decide (is_Some (lease_DeletionTimestamp lease))
      then orphanLoop r dep sel requeueAfter leases
      else if bool_decide (st_Phase (lease_Status lease) = GPULeasePhaseFailed) then
        reclaimed <-? reclaimFailedLease r dep lease else id ;;
        let '(deleted, retryAfter) := reclaimed in
        if (deleted : bool) then orphanLoop r dep sel requeueAfter leases
        else
          let requeueAfter :=
            if 0 <? retryAfter then minPositiveDuration requeueAfter retryAfter else requeueAfter in
          _ <-? reclaimOrphan r dep sel lease else id ;;
          orphanLoop r dep sel requeueAfter leases
      else
        _ <-? reclaimOrphan r dep sel lease else id ;;
        orphanLoop r dep sel requeueAfter leases
  end.

Definition reconcileOrphans (r : WarmPoolReconciler) (dep : Deployment) (sel : Selector)
    : Prog (result Z) :=
  leases <-? leasesForDeployment dep else id ;;
  orphanLoop r dep sel 0 leases.

(** ** Reconcile *)

(** [for i := range pods]: label the new pods, and keep the ones that count. *)
Fixpoint considerPods (pods : list Pod) : Prog (result (list Pod)) :=
  match pods with
  | [] => Ret (Ok [])
  | p :: pods =>
      p <-? (if bool_decide (default "" (pod_Labels p !! StateLabelKey) = "")
             then initializePodWarmState p else Ret (Ok p)) else id ;;
      rest <-? considerPods pods else id ;;
      Ret (Ok (if isPodConsidered p then p :: rest else rest))
  end.

(** The counters and lists of the second loop. *)
Record PoolCount := { pc_held : Z; pc_hotCount : Z; pc_hotPods : list Pod; pc_warmPods : list Pod }.

Definition countPod (c : PoolCount) (p : Pod) : PoolCount :=
  let state := podState p in
  {| pc_held := if isHeld state then wrap64 (pc_held c + 1) else pc_held c;
     pc_hotCount := if bool_decide (state = StateHot) then wrap64 (pc_hotCount c + 1) else pc_hotCount c;
     pc_hotPods := if bool_decide (state = StateHot) then pc_hotPods c ++ [p] else pc_hotPods c;
     pc_warmPods := if bool_decide (state = StateWarm) then pc_warmPods c ++ [p] else pc_warmPods c |}.

Definition countPods (considered : list Pod) : PoolCount :=
  foldl countPod {| pc_held := 0; pc_hotCount := 0; pc_hotPods := []; pc_warmPods := [] |} considered.

Definition warnDeficit (r : WarmPoolReconciler) (dep : Deployment) (settings : DeploymentSettings)
    (readyCount : Z) : Prog unit :=
  let floors := wrap32 (MinHotReplicas settings + WarmReplicas settings) in
  if wrap32 readyCount <? floors then
    event r dep EventTypeWarning EventReasonWarmDeficit
      ("only " +:+ FormatInt10 readyCount +:+ " ready pod(s); min-hot-replicas(" +:+
       FormatInt10 (MinHotReplicas settings) +:+ ")+warm-replicas(" +:+
       FormatInt10 (WarmReplicas settings) +:+ ")=" +:+ FormatInt10 floors +:+
       " exceeds that, so hot capacity wins and the warm pool runs below its target of " +:+
       FormatInt10 (WarmReplicas settings))
  else Ret tt.

(** The decision: whether promotion was blocked. *)
Definition balance (r : WarmPoolReconciler) (dep : Deployment) (settings : DeploymentSettings)
    (c : PoolCount) (target : Z) : Prog (result bool) :=
  if pc_held c <? target then
    let need := wrap64 (target - pc_held c) in
    freeByNode <-? inv_NodeFreeCounts (wpr_Inventory r) else wrap "node free GPU counts" ;;
    promoted <-? promote r dep settings (pc_warmPods c) need freeByNode else id ;;
    Ret (Ok (promoted <? need))
  else if target <? pc_held c then
    let need := wrap64 (pc_held c - target) in
    _ <-? demote r dep (pc_hotPods c) need else id ;;
    Ret (Ok false)
  else Ret (Ok false).

Definition poolGauges (dep : Deployment) (settings : DeploymentSettings) (readyCount hotCount : Z)
    : Prog unit :=
  let labels := [dep_Namespace dep; dep_Name dep] in
  call (MetricSet PoolHotPods labels hotCount) ;;;
  call (MetricSet PoolWarmPods labels (wrap64 (readyCount - hotCount))) ;;;
  call (MetricSet PoolWarmDesired labels (WarmReplicas settings)).

Definition Reconcile (r : WarmPoolReconciler) (ns name : string) : Prog (result CtrlResult) :=
  got <- call (GetDeployment ns name) ;;
  match got with
  | Err err =>
      if IsNotFound err then Ret (Ok NoRequeue) else Ret (Err (wrap "get deployment" err))
  | Ok dep =>
      if negb (IsManaged (dep_Annotations dep)) then Ret (Ok NoRequeue)
      else
        let settings := ParseDeploymentSettings (dep_Annotations dep) (dep_Name dep) in
        match deploymentSelector dep with
        | Err _ => Ret (Ok NoRequeue)
        | Ok sel =>
            failedRequeueAfter <-? reconcileOrphans r dep sel
              else wrap "reconcile orphaned/failed leases" ;;
            pods <-? listDeploymentPods dep else id ;;
            considered <-? considerPods pods else id ;;
            let readyCount := Z.of_nat (length considered) in
            let c := countPods considered in
            let target := targetHot readyCount (WarmReplicas settings) (MinHotReplicas settings) in
            poolGauges dep settings readyCount (pc_hotCount c) ;;;
            warnDeficit r dep settings readyCount ;;;
            blocked <-? balance r dep settings c target else id ;;
            let requeueAfter := effectiveResyncPeriod r in
            let requeueAfter := if (blocked : bool) then blockedPromotionRequeueAfter else requeueAfter in
            Ret (Ok (RequeueIn (minPositiveDuration requeueAfter failedRequeueAfter)))
        end
  end.

(** ** Watches *)

Definition mapPodToDeployment (pod : Pod) : Prog (list (string * string)) :=
  deps <- call (ListDeployments (pod_Namespace pod)) ;;
  match deps with
  | Err _ => Ret []
  | Ok deps =>
      Ret (omap (λ dep,
        match IsManaged (dep_Annotations dep), dep_Selector dep with
        | true, Some s =>
            match LabelSelectorAsSelector s with
            | Ok sel =>
                if sel_Empty sel then None
                else if sel_Matches sel (pod_Labels pod)
                then Some (dep_Namespace dep, dep_Name dep) else None
            | Err _ => None
            end
        | _, _ => None
        end) deps)
  end.

Definition mapLeaseToDeployment (lease : GPULease) : list (string * string) :=
  let ref := spec_DeploymentRef (lease_Spec lease) in
  if bool_decide (ref_Name ref = "") then [] else [(ref_Namespace ref, ref_Name ref)].

End WarmPool.
End WarmPool.
