(* ===== verification/WarmPoolFacts.v ===== *)
(** * What the WarmPool reconciler does

    The action sequences of promotion, demotion and garbage collection as inductive
    relations, the proof that every run is one of them, and what follows: which leases are
    created and deleted, for which pods, and how many. *)

From S2P Require Import Prelude GoLib Names Kube Effects MemServer Scenario Inventory PodClient.
From S2P Require Import Pods Kueue GPULeaseController GPULeaseFacts WarmPoolController.
Import WarmPool.

Section WarmPoolActs.
Context `{KL : KubeLib}.

(** ** The action sequences *)

Definition labelled (p : Pod) (state : string) : Pod :=
  with_labels p (<[ StateLabelKey := state ]> (pod_Labels p)).

(** The attempts to create a lease for [pod], until one succeeds. *)
Inductive AcquireActs (dep : Deployment) (settings : DeploymentSettings) (pod : Pod)
    : list Act → result GPULease → Prop :=
  | acquire_none e : AcquireActs dep settings pod [] (Err e)
  | acquire_taken id model e out res :
      0 <= id → int32_range id → IsAlreadyExists e = true →
      AcquireActs dep settings pod out res →
      AcquireActs dep settings pod
        (ActCreateLease (newLease dep settings pod (pod_NodeName pod) id model) (Err e) :: out) res
  | acquire_error id model e e' :
      0 <= id → int32_range id → IsAlreadyExists e = false →
      AcquireActs dep settings pod
        [ActCreateLease (newLease dep settings pod (pod_NodeName pod) id model) (Err e)] (Err e')
  | acquire_done id model l :
      0 <= id → int32_range id →
      AcquireActs dep settings pod
        [ActCreateLease (newLease dep settings pod (pod_NodeName pod) id model) (Ok l)] (Ok l).

Inductive PromoteActs (dep : Deployment) (settings : DeploymentSettings) (need : Z)
    : Z → list Pod → list Act → result Z → Prop :=
  | promote_end n : PromoteActs dep settings need n [] [] (Ok n)
  | promote_enough n p ps : need <= n → PromoteActs dep settings need n (p :: ps) [] (Ok n)
  | promote_skip n p ps out e out' res :
      n < need → AcquireActs dep settings p out (Err e) →
      PromoteActs dep settings need n ps out' res →
      PromoteActs dep settings need n (p :: ps) (out ++ out') res
  | promote_error n p ps out e :
      n < need → AcquireActs dep settings p out (Err e) →
      PromoteActs dep settings need n (p :: ps) out (Err e)
  | promote_unlabelled n p ps out l e e' :
      n < need → AcquireActs dep settings p out (Ok l) →
      PromoteActs dep settings need n (p :: ps)
        (out ++ [ActPatchPod p (labelled p StateActivating) (Err e)]) (Err e')
  | promote_one n p ps out l p' out' res :
      n < need → AcquireActs dep settings p out (Ok l) →
      PromoteActs dep settings need (wrap64 (n + 1)) ps out' res →
      PromoteActs dep settings need n (p :: ps)
        (out ++ ActPatchPod p (labelled p StateActivating) (Ok p') :: out') res.

(** The deletion of a lease went through, or it was gone. *)
Definition lease_gone (d : result unit) : bool :=
  match d with Ok _ => true | Err e => IsNotFound e end.

Inductive DemoteActs (leases : list GPULease) (need : Z)
    : Z → list Pod → list Act → result unit → Prop :=
  | demote_end n : DemoteActs leases need n [] [] (Ok tt)
  | demote_enough n p ps : need <= n → DemoteActs leases need n (p :: ps) [] (Ok tt)
  | demote_unlabelled n p ps e e' :
      n < need →
      DemoteActs leases need n (p :: ps) [ActPatchPod p (labelled p StateReleasing) (Err e)] (Err e')
  | demote_no_lease n p ps p' out res :
      n < need → findLeaseForPod leases p = None →
      DemoteActs leases need (wrap64 (n + 1)) ps out res →
      DemoteActs leases need n (p :: ps) (ActPatchPod p (labelled p StateReleasing) (Ok p') :: out) res
  | demote_blocked n p ps p' l d e :
      n < need → findLeaseForPod leases p = Some l → lease_gone d = false →
      DemoteActs leases need n (p :: ps)
        [ActPatchPod p (labelled p StateReleasing) (Ok p'); ActDeleteLease l d] (Err e)
  | demote_one n p ps p' l d out res :
      n < need → findLeaseForPod leases p = Some l → lease_gone d = true →
      DemoteActs leases need (wrap64 (n + 1)) ps out res →
      DemoteActs leases need n (p :: ps)
        (ActPatchPod p (labelled p StateReleasing) (Ok p') :: ActDeleteLease l d :: out) res.

(** ** Every run is one of them *)

Lemma wp_event_acts r dep ty reason msg t u : runs (event r dep ty reason msg) t u → acts t = [].
Proof. unfold event. destruct (wpr_Recorder r); intros H; runs_all; done. Qed.

Lemma patchPodStateLabel_acts p state t res :
  runs (patchPodStateLabel p state) t res →
  ∃ a, acts t = [ActPatchPod p (labelled p state) a] ∧
    match a, res with Ok p', Ok p'' => p' = p'' | Err _, Err _ => True | _, _ => False end.
Proof. unfold patchPodStateLabel. intros H. runs_all; acts_norm; eexists; (split; [done|]); done. Qed.

Lemma createFirst_acts dep settings pod model ids t res :
  Forall (λ id, 0 <= id ∧ int32_range id) ids →
  runs (createFirst dep settings pod (pod_NodeName pod) model ids) t res →
  AcquireActs dep settings pod (acts t) res.
Proof.
  intros Hids. revert t. induction Hids as [|id ids [Hid Hr] _ IH]; intros t H; cbn [createFirst] in H.
  - runs_all. constructor.
  - runs_step. destruct r as [l|e]; [runs_all; acts_norm; by constructor|].
    destruct (IsAlreadyExists e) eqn:E; cbn [negb] in H; [|runs_all; acts_norm; by constructor].
    acts_norm. constructor; auto.
Qed.

Context (r : WarmPoolReconciler) `{HI : !InventoryLaws (wpr_Inventory r)}.

Lemma acquireLeaseOnNode_acts dep settings pod t res :
  runs (acquireLeaseOnNode r dep settings pod (pod_NodeName pod)) t res →
  AcquireActs dep settings pod (acts t) res.
Proof.
  unfold acquireLeaseOnNode. intros H. runs_step.
  destruct a as [ids|e]; [|apply inv_FreeGPUIDs_reads in Hr; runs_all; acts_norm; constructor].
  pose proof (inv_FreeGPUIDs_ids _ _ _ Hr) as [_ Hids]. apply inv_FreeGPUIDs_reads in Hr.
  destruct ids as [|id ids]; [runs_all; acts_norm; constructor|].
  runs_step. apply inv_NodeCapacity_reads in Hr0.
  destruct a as [cap|e]; [|runs_all; acts_norm; constructor].
  acts_norm. by eapply createFirst_acts.
Qed.

Lemma promoteLoop_acts dep settings need ps n t res :
  runs (promoteLoop r dep settings need n ps) t res → PromoteActs dep settings need n ps (acts t) res.
Proof.
  revert n t. induction ps as [|p ps IH]; intros n t H; cbn [promoteLoop] in H.
  { runs_all. constructor. }
  destruct (need <=? n) eqn:En; reflect_bools; [runs_all; by constructor|].
  runs_step. apply acquireLeaseOnNode_acts in Hr. destruct a as [l|e].
  - runs_step. apply patchPodStateLabel_acts in Hr0 as (a' & Ha & Hm).
    destruct a as [p'|e], a' as [p''|e'']; try done.
    + subst p''. runs_step. runs_step. apply wp_event_acts in Hr0. apply IH in H.
      acts_norm. by econstructor.
    + runs_all. acts_norm. by econstructor.
  - destruct (errors_Is e _).
    + apply IH in H. acts_norm. by eapply promote_skip.
    + runs_all. acts_norm. by eapply promote_error.
Qed.

Lemma demoteLoop_acts dep leases need ps n t res :
  runs (demoteLoop r dep leases need n ps) t res → DemoteActs leases need n ps (acts t) res.
Proof.
  revert n t. induction ps as [|p ps IH]; intros n t H; cbn [demoteLoop] in H.
  { runs_all. constructor. }
  destruct (need <=? n) eqn:En; reflect_bools; [runs_all; by constructor|].
  runs_step. apply patchPodStateLabel_acts in Hr as (a' & Ha & Hm).
  destruct a as [p'|e], a' as [p''|e'']; try done; [subst p''|runs_all; acts_norm; by constructor].
  assert (∀ node gpu name t,
    runs (call (MetricInc DemotionsTotal []) ;;;
          event r dep EventTypeNormal EventReasonDemoted
            ("demoting pod " +:+ pod_Name p' +:+ " from hot to warm: deleting GPULease " +:+ name +:+
             " (node " +:+ node +:+ ", gpu " +:+ FormatInt10 gpu +:+ ") to release the GPU") ;;;
          demoteLoop r dep leases need (wrap64 (n + 1)) ps) t res →
    DemoteActs leases need (wrap64 (n + 1)) ps (acts t) res) as Hrest.
  { clear -IH. intros node gpu name t H. runs_step. runs_step. apply wp_event_acts in Hr.
    apply IH in H. by acts_norm. }
  destruct (findLeaseForPod leases p) as [l|] eqn:El.
  - runs_step. destruct r0 as [u|e]; [|destruct (IsNotFound e) eqn:Ee].
    + apply Hrest in H. acts_norm. by eapply demote_one.
    + apply Hrest in H. acts_norm. by eapply demote_one.
    + runs_all. acts_norm. by eapply demote_blocked.
  - apply Hrest in H. acts_norm. by eapply demote_no_lease.
Qed.

End WarmPoolActs.

Section WarmPoolCounts.
Context `{KL : KubeLib}.

(** ** Promotion *)

(** The leases a sequence of actions created. *)
Definition created_leases (out : list Act) : list GPULease :=
  omap (λ a, match a with ActCreateLease l (Ok _) => Some l | _ => None end) out.

(** The pods that were labelled with [state]. *)
Definition labelled_pods (state : string) (out : list Act) : list Pod :=
  omap (λ a, match a with
             | ActPatchPod p q (Ok _) => if bool_decide (q = labelled p state) then Some p else None
             | _ => None
             end) out.

Definition claim_of (p : Pod) : ObjectRef :=
  {| ref_Namespace := pod_Namespace p; ref_Name := pod_Name p; ref_UID := pod_UID p |}.

(** What promotion may do: create a lease for a pod of [ps] on that pod's own node, and
    label such a pod activating. *)
Definition promote_action (dep : Deployment) (settings : DeploymentSettings) (ps : list Pod) (a : Act) : Prop :=
  match a with
  | ActCreateLease l _ =>
      ∃ p id model, p ∈ ps ∧ 0 <= id ∧ int32_range id ∧
        l = newLease dep settings p (pod_NodeName p) id model
  | ActPatchPod p q _ => p ∈ ps ∧ q = labelled p StateActivating
  | _ => False
  end.

Lemma acquire_created dep settings p out res :
  AcquireActs dep settings p out res →
  match res with
  | Ok _ => ∃ l, created_leases out = [l] ∧ spec_ClaimRef (lease_Spec l) = claim_of p
  | Err _ => created_leases out = []
  end ∧
  labelled_pods StateActivating out = [] ∧ Forall (promote_action dep settings [p]) out.
Proof.
  assert (∀ id model r, 0 <= id → int32_range id → promote_action dep settings [p]
    (ActCreateLease (newLease dep settings p (pod_NodeName p) id model) r)) as Hact.
  { intros id model r' Hid Hr. exists p, id, model. split; [left|done]. }
  induction 1 as [e|id model e out res Hid Hr He _ (IH1 & IH2 & IH3)|id model e e' Hid Hr He|id model l Hid Hr];
    simpl; split_and!; eauto.
Qed.

Lemma promote_action_mono dep settings ps ps' a :
  ps ⊆ ps' → promote_action dep settings ps a → promote_action dep settings ps' a.
Proof.
  intros Hs. destruct a; simpl; try done; [intros (p & id & model & Hp & ?)|intros [Hp ?]].
  - exists p, id, model. split; [by apply Hs|done].
  - split; [by apply Hs|done].
Qed.

Lemma created_app out out' : created_leases (out ++ out') = created_leases out ++ created_leases out'.
Proof. apply omap_app. Qed.

Lemma labelled_app state out out' :
  labelled_pods state (out ++ out') = labelled_pods state out ++ labelled_pods state out'.
Proof. apply omap_app. Qed.

(** The leases created are at most as many as needed, one for each of some of the
    candidates, in their order; as many pods are labelled, up to a last one whose patch
    failed, and the count returned is theirs. *)
Lemma promote_created dep settings need n ps out res :
  0 <= n → need < 2 ^ 63 →
  PromoteActs dep settings need n ps out res →
  let created := created_leases out in
  Z.of_nat (length created) <= Z.max 0 (need - n) ∧
  ((λ l, spec_ClaimRef (lease_Spec l)) <$> created) `sublist_of` (claim_of <$> ps) ∧
  match res with
  | Ok k => k = n + Z.of_nat (length created) ∧
            (claim_of <$> labelled_pods StateActivating out) = ((λ l, spec_ClaimRef (lease_Spec l)) <$> created)
  | Err _ => True
  end ∧
  Forall (promote_action dep settings ps) out.
Proof.
  intros Hn Hneed H. cbv zeta. revert Hn.
  induction H as [n|n p ps Hle|n p ps out e out' res Hlt HA _ IH|n p ps out e Hlt HA
    |n p ps out l e e' Hlt HA|n p ps out l p' out' res Hlt HA _ IH]; intros Hn;
    try apply acquire_created in HA as (Hc & Hl & Hf);
    try (eapply Forall_impl in Hf; [|intros a; by apply (promote_action_mono _ _ _ (p :: ps)); set_solver]).
  - simpl. split_and!; [lia|done|lia|done|constructor].
  - simpl. split_and!; [lia|apply sublist_nil_l|lia|done|constructor].
  - destruct (IH Hn) as (IH1 & IH2 & IH3 & IH4). rewrite created_app, labelled_app, Hc, Hl. simpl.
    split_and!; [done|by apply sublist_cons|done|]. apply Forall_app. split; [done|].
    eapply Forall_impl; [exact IH4|]. intros a. apply promote_action_mono. set_solver.
  - rewrite Hc. simpl. split_and!; [lia|apply sublist_nil_l|done|done].
  - destruct Hc as (l' & Hc & Hcl). rewrite created_app, Hc. simpl.
    split_and!; [lia| |done|].
    + rewrite Hcl. apply sublist_skip, sublist_nil_l.
    + apply Forall_app. split; [done|]. repeat constructor.
  - destruct Hc as (l' & Hc & Hcl). rewrite wrap64_id in IH by (unfold int64_range; lia).
    destruct (IH ltac:(lia)) as (IH1 & IH2 & IH3 & IH4).
    rewrite created_app, labelled_app, Hc, Hl. simpl. rewrite bool_decide_eq_true_2 by done. simpl.
    split_and!; [lia| | |].
    + rewrite Hcl. by apply sublist_skip.
    + destruct res as [k|e]; [|done]. destruct IH3 as [-> IH3]. split; [lia|]. rewrite Hcl. f_equal. exact IH3.
    + apply Forall_app. split; [done|]. constructor; [split; [left|done]|].
      eapply Forall_impl; [exact IH4|]. intros a. apply promote_action_mono. set_solver.
Qed.

(** ** Demotion *)

(** The claim of the lease is on this pod. *)
Definition claims (l : GPULease) (p : Pod) : Prop :=
  let c := spec_ClaimRef (lease_Spec l) in
  ref_Namespace c = pod_Namespace p ∧ ref_Name c = pod_Name p ∧ (ref_UID c = "" ∨ ref_UID c = pod_UID p).

Lemma findLeaseForPod_Some leases p l :
  findLeaseForPod leases p = Some l → l ∈ leases ∧ claims l p.
Proof.
  induction leases as [|l' leases IH]; simpl; [done|]. intros H.
  destruct (bool_decide _ && bool_decide _) eqn:E1; [|destruct (IH H); split; [by right|done]].
  destruct (bool_decide _ || bool_decide _) eqn:E2; [|destruct (IH H); split; [by right|done]].
  simplify_eq. reflect_bools. split; [left|]. split; [done|]. split; [done|].
  by apply orb_true_iff in E2 as [E2|E2]; reflect_bools; [left|right].
Qed.

Lemma findLeaseForPod_None leases p :
  findLeaseForPod leases p = None ↔ ∀ l, l ∈ leases → ¬ claims l p.
Proof.
  induction leases as [|l' leases IH]; simpl; [split; [by intros _ l ?%not_elem_of_nil|done]|].
  destruct (bool_decide _ && bool_decide _) eqn:E1; [destruct (bool_decide _ || bool_decide _) eqn:E2|].
  - split; [done|]. intros H. destruct (H l'); [left|]. reflect_bools.
    split; [done|]. split; [done|]. by apply orb_true_iff in E2 as [E2|E2]; reflect_bools; [left|right].
  - rewrite IH. split; intros H l; [intros [->|Hl]%elem_of_cons; [|by apply H]|intros; apply H; by right].
    intros (_ & _ & [?|?]); reflect_bools; congruence.
  - rewrite IH. split; intros H l; [intros [->|Hl]%elem_of_cons; [|by apply H]|intros; apply H; by right].
    intros (? & ? & _). apply andb_false_iff in E1 as [E1|E1]; reflect_bools; congruence.
Qed.

(** What demotion may do: label a pod of [ps] releasing, and delete the lease found for
    such a pod. *)
Definition demote_action (leases : list GPULease) (ps : list Pod) (a : Act) : Prop :=
  match a with
  | ActPatchPod p q _ => p ∈ ps ∧ q = labelled p StateReleasing
  | ActDeleteLease l _ => ∃ p, p ∈ ps ∧ findLeaseForPod leases p = Some l
  | _ => False
  end.

Lemma demote_action_mono leases ps ps' a :
  ps ⊆ ps' → demote_action leases ps a → demote_action leases ps' a.
Proof. intros Hs. destruct a; simpl; try done; naive_solver. Qed.

Lemma demote_released leases need n ps out res :
  0 <= n → need < 2 ^ 63 →
  DemoteActs leases need n ps out res →
  let released := labelled_pods StateReleasing out in
  released `prefix_of` ps ∧ Z.of_nat (length released) <= Z.max 0 (need - n) ∧
  Forall (demote_action leases ps) out ∧
  match res with
  | Ok _ =>
      Z.of_nat (length released) = Z.min (Z.max 0 (need - n)) (Z.of_nat (length ps)) ∧
      ∀ p l, p ∈ released → findLeaseForPod leases p = Some l →
        ∃ d, ActDeleteLease l d ∈ out ∧ lease_gone d = true
  | Err _ => True
  end.
Proof.
  intros Hn Hneed H. cbv zeta. revert Hn.
  induction H as [n|n p ps Hle|n p ps e e' Hlt|n p ps p' out res Hlt Hf _ IH
    |n p ps p' l d e Hlt Hf Hd|n p ps p' l d out res Hlt Hf Hd _ IH]; intros Hn;
    cbn [labelled_pods omap list_omap]; rewrite ?(bool_decide_eq_true_2 (labelled _ _ = labelled _ _)) by done.
  - simpl. split_and!; [done|lia|constructor|lia|]. intros p l []%not_elem_of_nil.
  - simpl. split_and!; [apply prefix_nil|lia|constructor|lia|]. intros p' l []%not_elem_of_nil.
  - split_and!; [apply prefix_nil|simpl; lia| |done]. repeat constructor.
  - rewrite wrap64_id in IH by (unfold int64_range; lia).
    destruct (IH ltac:(lia)) as (IH1 & IH2 & IH3 & IH4). fold (labelled_pods StateReleasing out) in *.
    split_and!; [by apply prefix_cons|simpl; lia| |].
    + constructor; [split; [left|done]|]. eapply Forall_impl; [exact IH3|].
      intros a. apply demote_action_mono. set_solver.
    + destruct res as [u|e]; [|done]. destruct IH4 as [IH4 IH5]. split; [simpl; lia|].
      intros q l [->|Hq]%elem_of_cons Hl; [congruence|]. destruct (IH5 q l Hq Hl) as (d & ? & ?).
      exists d. split; [by right|done].
  - split_and!; [apply prefix_cons, prefix_nil|simpl; lia| |done].
    constructor; [split; [left|done]|]. constructor; [|constructor]. exists p. split; [left|done].
  - rewrite wrap64_id in IH by (unfold int64_range; lia).
    destruct (IH ltac:(lia)) as (IH1 & IH2 & IH3 & IH4). fold (labelled_pods StateReleasing out) in *.
    split_and!; [by apply prefix_cons|simpl; lia| |].
    + constructor; [split; [left|done]|]. constructor; [exists p; split; [left|done]|].
      eapply Forall_impl; [exact IH3|]. intros a. apply demote_action_mono. set_solver.
    + destruct res as [u|e]; [|done]. destruct IH4 as [IH4 IH5]. split; [simpl; lia|].
      intros q l' [->|Hq]%elem_of_cons Hl.
      * assert (l' = l) as -> by congruence. exists d. split; [right; left|done].
      * destruct (IH5 q l' Hq Hl) as (d' & ? & ?). exists d'. split; [right; by right|done].
Qed.

End WarmPoolCounts.
