(* ===== verification/WarmPoolSafety.v ===== *)
(** * Properties of the WarmPool reconciler

    Promotion and demotion stay within the target and touch only the pods and leases they
    may; garbage collection deletes exactly the leases that are not justified; and a
    managed Deployment is always reconciled again. *)

From S2P Require Import Prelude GoLib Names Kube Effects MemServer Scenario Inventory PodClient.
From S2P Require Import Pods Kueue GPULeaseController GPULeaseFacts WarmPoolController.
From S2P Require Import WarmPoolFacts.
Import WarmPool.

Section Safety.
Context `{KL : KubeLib} (r : WarmPoolReconciler) `{HI : !InventoryLaws (wpr_Inventory r)}.

(** ** Promotion and demotion *)

Lemma promote_acts dep settings warm need free t res :
  runs (promote r dep settings warm need free) t res →
  PromoteActs dep settings need 0 (sortPromotionCandidates warm free) (acts t) res.
Proof.
  unfold promote. intros H. apply runs_bind in H as (t1 & t2 & a & -> & Hl & H).
  apply promoteLoop_acts in Hl; [|done]. destruct a as [k|e]; [|runs_all; by acts_norm].
  destruct (k <? need); [|runs_all; by acts_norm].
  runs_step. runs_step. apply wp_event_acts in Hr. runs_all. by acts_norm.
Qed.

(** C14. What promotion does.  Whatever the cluster answers, a promotion that needs [need]
    pods only creates leases and labels pods activating; every lease it tries to create
    is for one of the warm pods whose node had a free GPU, on that pod's own node, named
    after the node and a non-negative int32 GPU id, with the finalizer set and claiming
    that pod for the Deployment; it creates at most [need] leases, at most one for each
    candidate and in the order of the candidates; and the number it returns is the number
    of leases it created, whose pods are exactly the ones it labelled. *)
Theorem promote_safe dep settings warm need free t res :
  0 <= need < 2 ^ 63 →
  runs (promote r dep settings warm need free) t res →
  let created := created_leases (acts t) in
  let candidates := sortPromotionCandidates warm free in
  (∀ a, a ∈ acts t →
     match a with
     | ActCreateLease l _ => ∃ p id model, p ∈ warm ∧ 0 < freeOn free p ∧ 0 <= id ∧ int32_range id ∧
         l = newLease dep settings p (pod_NodeName p) id model
     | ActPatchPod p q _ => p ∈ warm ∧ q = labelled p StateActivating
     | _ => False
     end) ∧
  Z.of_nat (length created) <= need ∧
  ((λ l, spec_ClaimRef (lease_Spec l)) <$> created) `sublist_of` (claim_of <$> candidates) ∧
  match res with
  | Ok k => k = Z.of_nat (length created) ∧
      (claim_of <$> labelled_pods StateActivating (acts t)) = ((λ l, spec_ClaimRef (lease_Spec l)) <$> created)
  | Err _ => True
  end.
Proof.
  intros Hneed H%promote_acts. cbv zeta.
  apply promote_created in H as (Hlen & Hsub & Hres & Hall); [|lia|lia].
  split_and!; [|lia|done|destruct res; [|done]; split; [lia|apply Hres]].
  intros a Ha. rewrite Forall_forall in Hall. specialize (Hall a Ha).
  destruct a; try done; simpl in Hall.
  - destruct Hall as (p & id & model & [Hp Hf]%elem_of_sortPromotionCandidates & ? & ? & ->). eauto 10.
  - destruct Hall as [[Hp _]%elem_of_sortPromotionCandidates ?]. done.
Qed.



(** ** Counting the pods *)








(** ** Garbage collection *)

















(** ** One reconcile *)
















(** ** Requeueing *)

Lemma minPositiveDuration_spec a b :
  0 < a → 0 < minPositiveDuration a b <= a ∧ (0 < b → minPositiveDuration a b <= b).
Proof.
  intros Ha. unfold minPositiveDuration.
  destruct (Z.leb_spec a 0), (Z.leb_spec b 0), (Z.ltb_spec a b); lia.
Qed.

Lemma effectiveResyncPeriod_pos : 0 < effectiveResyncPeriod r.
Proof. unfold effectiveResyncPeriod. by destruct (Z.ltb_spec 0 (wpr_ResyncPeriod r)). Qed.

(** A managed Deployment is always reconciled again.  A reconcile that returns
    without error either did nothing, because the Deployment is gone, not managed or has
    no usable selector; or it asks to be called again after a positive delay, which is at
    most the resync period, or the delay for a blocked promotion if that is longer. *)
Lemma Reconcile_requeues ns name t c :
  runs (Reconcile r ns name) t (Ok c) →
  (acts t = [] ∧ c = NoRequeue ∧
   ((∃ e, MkObs (GetDeployment ns name) (Err e) ∈ t ∧ IsNotFound e = true) ∨
    ∃ dep, MkObs (GetDeployment ns name) (Ok dep) ∈ t ∧
      (IsManaged (dep_Annotations dep) = false ∨ ∃ e, deploymentSelector dep = Err e))) ∨
  (∃ d, c = RequeueIn d ∧ 0 < d <= Z.max (effectiveResyncPeriod r) blockedPromotionRequeueAfter).
Proof.
  unfold Reconcile. intros H. runs_step. destruct r0 as [dep|e].
  - destruct (IsManaged (dep_Annotations dep)) eqn:Em; cbn [negb] in H.
    + destruct (deploymentSelector dep) as [sel|e] eqn:Es.
      * right. runs_step. destruct a as [z|?]; [|runs_all; done].
        runs_step. destruct a as [pods|?]; [|runs_all; done].
        runs_step. destruct a as [considered|?]; [|runs_all; done].
        do 3 runs_step. destruct a1 as [blocked|e]; [|runs_all; done]. runs_step.
        eexists. split; [done|]. pose proof effectiveResyncPeriod_pos.
        match goal with |- context [minPositiveDuration ?a ?b] => pose proof (minPositiveDuration_spec a b) as Hm end.
        destruct blocked; (destruct Hm as [Hm _]; [try done|]); unfold blockedPromotionRequeueAfter in *; lia.
      * left. runs_step. split; [done|]. split; [done|]. right. exists dep. split; [left|]. eauto.
    + left. runs_step. split; [done|]. split; [done|]. right. exists dep. split; [left|]. by left.
  - destruct (IsNotFound e) eqn:E; [|runs_all; done]. left. runs_step. split; [done|]. split; [done|].
    left. exists e. split; [left|done].
Qed.

(** A blocked promotion is reported.  A promotion that returns fewer pods than were
    needed has counted a failure with the reason NoFreeGPUOnAnyPodNode for the Deployment
    and, if there is a recorder, has recorded a warning event with that reason on it. *)
Lemma promote_blocked_reported dep settings warm need free t k :
  runs (promote r dep settings warm need free) t (Ok k) → k < need →
  MkObs (MetricInc LeaseAcquireFailuresTotal [dep_Name dep; ReasonNoFreeGPUOnAnyPodNode]) tt ∈ t ∧
  (wpr_Recorder r = true → ∃ msg,
     MkObs (RecordEvent (OnDeployment (dep_Namespace dep) (dep_Name dep)) EventTypeWarning
              ReasonNoFreeGPUOnAnyPodNode msg) tt ∈ t).
Proof.
  unfold promote. intros H Hk. apply runs_bind in H as (t1 & t2 & a & -> & Hl & H). clear Hl.
  destruct a as [k'|e]; [|runs_all; done]. destruct (k' <? need) eqn:E; reflect_bools; [|runs_all; lia].
  runs_step. destruct r0. split; [set_solver|]. intros Hrec. unfold event in H. rewrite Hrec in H.
  runs_step. destruct r0. runs_all. eexists. apply elem_of_app. right. right. left.
Qed.

End Safety.

(** ** Witnesses *)

Definition example_pool_reconciler : WarmPoolReconciler :=
  {| wpr_Recorder := true; wpr_Inventory := clientInventory; wpr_ResyncPeriod := 0;
     wpr_FailedLeaseRetention := 0 |}.

(** Three warm pods and a hot one on a node with four GPUs; the lease of the hot pod is
    bound, another one is claimed by a pod that does not exist. *)
Definition hot_pod : Pod := example_pod "p0" "n1" "10.0.0.1" StateHot (900 * Second).
Definition warm_pods : list Pod :=
  [example_pod "p1" "n1" "10.0.0.2" StateWarm (910 * Second);
   example_pod "p2" "n1" "10.0.0.3" StateWarm (905 * Second);
   example_pod "p3" "n1" "10.0.0.4" StateWarm (920 * Second)].
Definition example_pool : Mem :=
  {| m_leases := {[ LeaseName "n1" 0 := lease_in GPULeasePhaseBound;
                    LeaseName "n1" 1 := example_lease "n1" 1 "gone" "app" ]};
     m_pods := list_to_map ((λ p, ((pod_Namespace p, pod_Name p), p)) <$> (hot_pod :: warm_pods));
     m_deployments := {[ ("ns", "app") := example_deployment ]};
     m_nodes := {[ "n1" := example_node "n1" "4" ]};
     m_workloads := ∅; m_flavors := []; m_fake := m_fake mem_empty;
     m_now := 1000 * Second; m_rv := 10; m_faults := [] |}.
Definition example_settings : DeploymentSettings :=
  ParseDeploymentSettings (dep_Annotations example_deployment) "app".

Definition promote_run (warm : list Pod) :=
  run mem_server (promote example_pool_reconciler example_deployment example_settings warm 2
                    {[ "n1" := 2 ]}) example_pool.

Lemma promote_safe_witness :
  (promote_run warm_pods).1.1 = Ok 2 ∧
  Z.of_nat (length (created_leases (acts (promote_run warm_pods).1.2))) = 2.
Proof.
  assert ((promote_run warm_pods).1.1 = Ok 2) as E by (vm_compute; reflexivity).
  split; [exact E|].
  pose proof (promote_safe example_pool_reconciler example_deployment example_settings warm_pods 2
    {[ "n1" := 2 ]} (promote_run warm_pods).1.2 (promote_run warm_pods).1.1
    ltac:(lia) (run_runs _ _ _)) as (_ & _ & _ & H).
  rewrite E in H. destruct H as [H _]. symmetry. exact H.
Defined.






Definition pool_run :=
  run mem_server (Reconcile example_pool_reconciler "ns" "app") example_pool.


Lemma Reconcile_requeues_witness :
  pool_run.1.1 = Ok (RequeueIn (15 * Second)) ∧
  ∃ d, RequeueIn (15 * Second) = RequeueIn d ∧ 0 < d.
Proof.
  assert (pool_run.1.1 = Ok (RequeueIn (15 * Second))) as E by (vm_compute; reflexivity).
  split; [exact E|].
  pose proof (run_runs mem_server (Reconcile example_pool_reconciler "ns" "app") example_pool) as H.
  change (runs (Reconcile example_pool_reconciler "ns" "app") pool_run.1.2 pool_run.1.1) in H.
  rewrite E in H.
  destruct (Reconcile_requeues example_pool_reconciler "ns" "app" pool_run.1.2 _ H)
    as [(_ & Hc & _)|(d & Hd & Hp & _)]; [discriminate|].
  exists d. split; [exact Hd|exact Hp].
Defined.

Definition blocked_run :=
  run mem_server (promote example_pool_reconciler example_deployment example_settings warm_pods 2 ∅) example_pool.

Lemma promote_blocked_reported_witness :
  MkObs (MetricInc LeaseAcquireFailuresTotal ["app"; ReasonNoFreeGPUOnAnyPodNode]) tt ∈ blocked_run.1.2.
Proof.
  assert (blocked_run.1.1 = Ok 0) as E by (vm_compute; reflexivity).
  pose proof (run_runs mem_server (promote example_pool_reconciler example_deployment example_settings
    warm_pods 2 ∅) example_pool) as H.
  change (runs (promote example_pool_reconciler example_deployment example_settings warm_pods 2 ∅)
    blocked_run.1.2 blocked_run.1.1) in H. rewrite E in H.
  apply (promote_blocked_reported _ _ _ _ _ _ _ _ H). lia.
Defined.
