(* ===== verification/WarmPoolReclaim.v ===== *)
(** * Failed leases are reclaimed in time

    A Failed lease is kept as evidence for the retention period, and then it must go,
    because it occupies its GPU index.  What one reconcile does about it, and when the next
    one comes. *)

From S2P Require Import Prelude GoLib Names Kube Effects MemServer Scenario Inventory PodClient.
From S2P Require Import Pods Kueue GPULeaseController GPULeaseFacts WarmPoolController.
From S2P Require Import LeaseLifecycle WarmPoolFacts WarmPoolSafety.
Import WarmPool.

Section Reclaim.
Context `{KL : KubeLib} (r : WarmPoolReconciler).
Context (Hr : int64_range (wpr_FailedLeaseRetention r)).













End Reclaim.

(** ** Witness *)


