(* ===== verification/Machine.v ===== *)
(** * The pod's state machine: [src/internal/workload/state.go]

    [Machine] with its critical sections as functions, and the interleavings of the
    goroutines that run them as a step relation: a call takes the lock once, and then,
    with the lock released, delivers its event to the hook and arms its timer; a timer
    that fires takes the lock again.  The hook is the one of the server, which feeds the
    gauges of [src/internal/workload/metrics.go]. *)

From S2P Require Import Prelude GoLib Names Kube Effects.

Module Workload.

(** ** Data *)

(** The values of the field [state]. *)
Inductive MState := Warm | Activating | Hot | Releasing.
#[export] Instance MState_eq_dec : EqDecision MState.
Proof. solve_decision. Defined.

(** The strings they stand for. *)
Definition state_string (s : MState) : string :=
  match s with
  | Warm => StateWarm
  | Activating => StateActivating
  | Hot => StateHot
  | Releasing => StateReleasing
  end.

Record Snapshot := {
  sn_State : MState;
  sn_LeaseName : string;
  sn_Node : string;
  sn_GPUID : Z;
  sn_GPUModel : string;
}.

Record Event := {
  ev_Old : MState;
  ev_New : MState;
  ev_Snapshot : Snapshot;
  ev_ActivationDuration : Z;
}.

Record MachineConfig := { WarmupDuration : Z; TeardownDuration : Z }.
Definition DefaultWarmupDuration : Z := 10 * Second.
Definition DefaultTeardownDuration : Z := 2 * Second.

Record Machine := {
  mc_state : MState;
  mc_leaseName : string;
  mc_node : string;
  mc_gpuID : Z;
  mc_gpuModel : string;
  mc_activationStart : Z;
  mc_gen : Z;
  mc_warmup : Z;
  mc_teardown : Z;
}.

Definition ErrNodeMismatch : goerror :=
  Sentinel "workload.ErrNodeMismatch" "workload: lease request node does not match this pod's NODE_NAME".
Definition ErrLeaseConflict : goerror :=
  Sentinel "workload.ErrLeaseConflict" "workload: pod is already committed to a different lease".

(** ** Operations *)

Definition NewMachine (cfg : MachineConfig) : Machine :=
  {| mc_state := Warm; mc_leaseName := ""; mc_node := ""; mc_gpuID := -1; mc_gpuModel := "";
     mc_activationStart := 0; mc_gen := 0;
     mc_warmup := if WarmupDuration cfg <=? 0 then DefaultWarmupDuration else WarmupDuration cfg;
     mc_teardown := if TeardownDuration cfg <=? 0 then DefaultTeardownDuration else TeardownDuration cfg |}.

Definition snapshotLocked (m : Machine) : Snapshot :=
  {| sn_State := mc_state m; sn_LeaseName := mc_leaseName m; sn_Node := mc_node m;
     sn_GPUID := mc_gpuID m; sn_GPUModel := mc_gpuModel m |}.

Definition IsHot (m : Machine) : bool := bool_decide (mc_state m = Hot).

Definition clearLeaseLocked (m : Machine) : Machine :=
  {| mc_state := mc_state m; mc_leaseName := ""; mc_node := ""; mc_gpuID := -1; mc_gpuModel := "";
     mc_activationStart := mc_activationStart m; mc_gen := mc_gen m;
     mc_warmup := mc_warmup m; mc_teardown := mc_teardown m |}.

Definition set_state (m : Machine) (s : MState) : Machine :=
  {| mc_state := s; mc_leaseName := mc_leaseName m; mc_node := mc_node m; mc_gpuID := mc_gpuID m;
     mc_gpuModel := mc_gpuModel m; mc_activationStart := mc_activationStart m; mc_gen := mc_gen m;
     mc_warmup := mc_warmup m; mc_teardown := mc_teardown m |}.

(** [m.gen++] on a uint64. *)
Definition next_gen (m : Machine) : Machine :=
  {| mc_state := mc_state m; mc_leaseName := mc_leaseName m; mc_node := mc_node m;
     mc_gpuID := mc_gpuID m; mc_gpuModel := mc_gpuModel m;
     mc_activationStart := mc_activationStart m; mc_gen := wrapu64 (mc_gen m + 1);
     mc_warmup := mc_warmup m; mc_teardown := mc_teardown m |}.

(** The two timer callbacks. *)
Inductive TimerKind := CompleteWarmup | CompleteTeardown.
#[export] Instance TimerKind_eq_dec : EqDecision TimerKind.
Proof. solve_decision. Defined.

(** What a call does after it has released the lock: deliver an event to the hook, then
    maybe arm a timer. *)
Record After := { af_event : Event; af_timer : option (TimerKind * Z * Z) }.

Definition transition (old : MState) (m : Machine) (duration : Z) : Event :=
  {| ev_Old := old; ev_New := mc_state m; ev_Snapshot := snapshotLocked m;
     ev_ActivationDuration := duration |}.

(** [Activate]: the error, the machine when the lock is released, and what is left to do.
    [now] is the clock. *)
Definition Activate (now : Z) (req : ActivateRequest) (ownNode : string) (m : Machine)
    : result unit * Machine * option After :=
  if bool_decide (ar_Node req ≠ ownNode) then (Err ErrNodeMismatch, m, None)
  else
    match mc_state m with
    | Activating | Hot =>
        if bool_decide (ar_LeaseName req = mc_leaseName m) then (Ok tt, m, None)
        else (Err ErrLeaseConflict, m, None)
    | Releasing => (Err ErrLeaseConflict, m, None)
    | Warm =>
        let m := next_gen m in
        let old := mc_state m in
        let m :=
          {| mc_state := Activating; mc_leaseName := ar_LeaseName req; mc_node := ar_Node req;
             mc_gpuID := ar_GPUID req; mc_gpuModel := ar_GPUModel req; mc_activationStart := now;
             mc_gen := mc_gen m; mc_warmup := mc_warmup m; mc_teardown := mc_teardown m |} in
        (Ok tt, m, Some {| af_event := transition old m 0;
                           af_timer := Some (CompleteWarmup, mc_gen m, mc_warmup m) |})
    end.

Definition completeWarmup (now gen : Z) (m : Machine) : Machine * option After :=
  if bool_decide (mc_gen m ≠ gen) || bool_decide (mc_state m ≠ Activating) then (m, None)
  else
    let old := mc_state m in
    let m := set_state m Hot in
    (m, Some {| af_event := transition old m (Time_Sub now (mc_activationStart m)); af_timer := None |}).

Definition Release (m : Machine) : Machine * option After :=
  match mc_state m with
  | Warm | Releasing => (m, None)
  | Activating =>
      let m := next_gen m in
      let old := mc_state m in
      let m := set_state (clearLeaseLocked m) Warm in
      (m, Some {| af_event := transition old m 0; af_timer := None |})
  | Hot =>
      let m := next_gen m in
      let old := mc_state m in
      let m := set_state m Releasing in
      (m, Some {| af_event := transition old m 0;
                  af_timer := Some (CompleteTeardown, mc_gen m, mc_teardown m) |})
  end.

Definition completeTeardown (gen : Z) (m : Machine) : Machine * option After :=
  if bool_decide (mc_gen m ≠ gen) || bool_decide (mc_state m ≠ Releasing) then (m, None)
  else
    let old := mc_state m in
    let m := set_state (clearLeaseLocked m) Warm in
    (m, Some {| af_event := transition old m 0; af_timer := None |}).

(** ** Gauges *)

(** The gauges of [Metrics], with the observations of the activation histogram. *)
Record Metrics := {
  podHot : Z;
  podCapacityRPS : Z;
  podGPUID : Z;
  activations : list Z;
}.

Definition NewMetrics : Metrics :=
  {| podHot := 0; podCapacityRPS := 0; podGPUID := -1; activations := [] |}.

Definition ApplyEvent (g : Metrics) (ev : Event) (capacityRPS : Z) : Metrics :=
  let hot := bool_decide (ev_New ev = Hot) in
  {| podHot := if hot then 1 else 0;
     podCapacityRPS := if hot then capacityRPS else 0;
     podGPUID :=
       if hot then sn_GPUID (ev_Snapshot ev)
       else if bool_decide (ev_New ev = Warm) then -1 else podGPUID g;
     activations :=
       if 0 <? ev_ActivationDuration ev then activations g ++ [ev_ActivationDuration ev]
       else activations g |}.

(** ** Interleavings *)

(** A goroutine after its critical section: about to call the hook, or about to arm its
    timer. *)
Inductive Task :=
  | THook (a : After)
  | TArm (kind : TimerKind) (gen duration : Z).

Record Timer := { tm_kind : TimerKind; tm_gen : Z; tm_due : Z }.

(** The process: machine, gauges, goroutines past their critical section, armed timers,
    the clock and, for the proofs, the transitions in the order in which they happened. *)
Record Process := {
  p_machine : Machine;
  p_metrics : Metrics;
  p_tasks : list Task;
  p_timers : list Timer;
  p_now : Z;
  p_log : list Event;
}.

Definition start (cfg : MachineConfig) (now : Z) : Process :=
  {| p_machine := NewMachine cfg; p_metrics := NewMetrics; p_tasks := []; p_timers := [];
     p_now := now; p_log := [] |}.

(** The process after a critical section that left the machine [m] and [o] to do. *)
Definition unlocked (p : Process) (m : Machine) (o : option After) (timers : list Timer) : Process :=
  {| p_machine := m; p_metrics := p_metrics p;
     p_tasks := match o with Some a => p_tasks p ++ [THook a] | None => p_tasks p end;
     p_timers := timers; p_now := p_now p;
     p_log := match o with Some a => p_log p ++ [af_event a] | None => p_log p end |}.

Definition run_hook (p : Process) (capacityRPS : Z) (a : After) (tasks : list Task) : Process :=
  {| p_machine := p_machine p; p_metrics := ApplyEvent (p_metrics p) (af_event a) capacityRPS;
     p_tasks := match af_timer a with
                | Some (k, g, d) => tasks ++ [TArm k g d]
                | None => tasks
                end;
     p_timers := p_timers p; p_now := p_now p; p_log := p_log p |}.

Definition arm (p : Process) (k : TimerKind) (g d : Z) (tasks : list Task) : Process :=
  {| p_machine := p_machine p; p_metrics := p_metrics p; p_tasks := tasks;
     p_timers := p_timers p ++ [ {| tm_kind := k; tm_gen := g; tm_due := p_now p + d |} ];
     p_now := p_now p; p_log := p_log p |}.

Definition fire (p : Process) (t : Timer) : Machine * option After :=
  match tm_kind t with
  | CompleteWarmup => completeWarmup (p_now p) (tm_gen t) (p_machine p)
  | CompleteTeardown => completeTeardown (tm_gen t) (p_machine p)
  end.

Section Steps.
Context (ownNode : string) (capacityRPS : Z).

(** What happens by itself: a goroutine goes on, a timer that is due fires, or time
    passes. *)
Inductive internal (p : Process) : Process → Prop :=
  | step_hook pre a post :
      p_tasks p = pre ++ THook a :: post →
      internal p (run_hook p capacityRPS a (pre ++ post))
  | step_arm pre k g d post :
      p_tasks p = pre ++ TArm k g d :: post →
      internal p (arm p k g d (pre ++ post))
  | step_fire pre t post :
      p_timers p = pre ++ t :: post → tm_due t <= p_now p →
      internal p (unlocked p (fire p t).1 (fire p t).2 (pre ++ post))
  | step_tick d :
      0 <= d →
      internal p {| p_machine := p_machine p; p_metrics := p_metrics p; p_tasks := p_tasks p;
                    p_timers := p_timers p; p_now := p_now p + d; p_log := p_log p |}.

(** What can happen: one of these, or a POST or DELETE of /lease. *)
Inductive step (p : Process) : Process → Prop :=
  | step_internal p' : internal p p' → step p p'
  | step_activate req :
      let out := Activate (p_now p) req ownNode (p_machine p) in
      step p (unlocked p out.1.2 out.2 (p_timers p))
  | step_release :
      let out := Release (p_machine p) in
      step p (unlocked p out.1 out.2 (p_timers p)).

(** Reachable in [n] steps. *)
Inductive reachable (p0 : Process) : nat → Process → Prop :=
  | reach_start : reachable p0 0 p0
  | reach_step n p p' : reachable p0 n p → step p p' → reachable p0 (S n) p'.

End Steps.
End Workload.
