(* ===== verification/MachineFacts.v ===== *)
(** * Properties of the pod's state machine

    The process with its goroutines and timers refines a five-edge automaton; stale
    timers do nothing; and an activation or a teardown that is not interfered with
    completes. *)

From S2P Require Import Prelude GoLib Names Kube Effects Machine.
Import Workload.

(** ** The automaton *)

(** No lease is held. *)
Definition idle : Snapshot :=
  {| sn_State := Warm; sn_LeaseName := ""; sn_Node := ""; sn_GPUID := -1; sn_GPUModel := "" |}.

Definition in_state (s : Snapshot) (st : MState) : Snapshot :=
  {| sn_State := st; sn_LeaseName := sn_LeaseName s; sn_Node := sn_Node s; sn_GPUID := sn_GPUID s;
     sn_GPUModel := sn_GPUModel s |}.

Section Automaton.
Context (ownNode : string) (warmup : Z).

(** The transitions of a pod: take a lease, become hot, give it up again before that,
    start to release it, be done with that.  The event records the states, the snapshot
    after the transition and, for becoming hot, how long it took. *)
Inductive edge : Snapshot → Event → Snapshot → Prop :=
  | edge_activate req :
      ar_Node req = ownNode →
      let s' := {| sn_State := Activating; sn_LeaseName := ar_LeaseName req; sn_Node := ar_Node req;
                   sn_GPUID := ar_GPUID req; sn_GPUModel := ar_GPUModel req |} in
      edge idle {| ev_Old := Warm; ev_New := Activating; ev_Snapshot := s'; ev_ActivationDuration := 0 |} s'
  | edge_hot s duration :
      sn_State s = Activating → warmup <= duration →
      edge s {| ev_Old := Activating; ev_New := Hot; ev_Snapshot := in_state s Hot;
                ev_ActivationDuration := duration |} (in_state s Hot)
  | edge_cancel s :
      sn_State s = Activating →
      edge s {| ev_Old := Activating; ev_New := Warm; ev_Snapshot := idle; ev_ActivationDuration := 0 |} idle
  | edge_release s :
      sn_State s = Hot →
      edge s {| ev_Old := Hot; ev_New := Releasing; ev_Snapshot := in_state s Releasing;
                ev_ActivationDuration := 0 |} (in_state s Releasing)
  | edge_done s :
      sn_State s = Releasing →
      edge s {| ev_Old := Releasing; ev_New := Warm; ev_Snapshot := idle; ev_ActivationDuration := 0 |} idle.

(** A sequence of transitions from [idle]. *)
Inductive path : list Event → Snapshot → Prop :=
  | path_start : path [] idle
  | path_snoc log s ev s' : path log s → edge s ev s' → path (log ++ [ev]) s'.

(** A warm pod holds no lease. *)
Lemma path_warm log s : path log s → sn_State s = Warm → s = idle.
Proof. intros [|log' s1 ev s2 _ He] Hw; [done|]. by destruct He. Qed.

End Automaton.

(** ** The invariant *)

(** The completions that are on their way: by a goroutine that has yet to arm the timer,
    or by an armed timer. *)
Definition task_timer (t : Task) : option (TimerKind * Z) :=
  match t with
  | THook a => match af_timer a with Some (k, g, _) => Some (k, g) | None => None end
  | TArm k g _ => Some (k, g)
  end.
Definition timer_id (t : Timer) : TimerKind * Z := (tm_kind t, tm_gen t).
Definition pending (p : Process) : list (TimerKind * Z) :=
  omap task_timer (p_tasks p) ++ (timer_id <$> p_timers p).

(** The completion that the state of the machine waits for. *)
Definition awaited (m : Machine) : list (TimerKind * Z) :=
  match mc_state m with
  | Activating => [(CompleteWarmup, mc_gen m)]
  | Releasing => [(CompleteTeardown, mc_gen m)]
  | Warm | Hot => []
  end.

Definition current (m : Machine) (x : TimerKind * Z) : bool := bool_decide (x.2 = mc_gen m).

(** A warmup timer of the current activation is armed for the warmup duration, counted
    from the activation or later. *)
Definition task_timing (m : Machine) (t : Task) : Prop :=
  match t with
  | THook a => ∀ d, af_timer a = Some (CompleteWarmup, mc_gen m, d) → d = mc_warmup m
  | TArm k g d => k = CompleteWarmup → g = mc_gen m → d = mc_warmup m
  end.
Definition timer_timing (m : Machine) (t : Timer) : Prop :=
  mc_state m = Activating → tm_kind t = CompleteWarmup → tm_gen t = mc_gen m →
  mc_activationStart m + mc_warmup m <= tm_due t.

Record Inv (ownNode : string) (warmup : Z) (n : nat) (p : Process) : Prop := {
  inv_gen : 0 <= mc_gen (p_machine p) <= Z.of_nat n;
  inv_old : Forall (λ x, 0 <= x.2 <= mc_gen (p_machine p)) (pending p);
  inv_awaited : List.filter (current (p_machine p)) (pending p) ≡ₚ awaited (p_machine p);
  inv_tasks : Forall (task_timing (p_machine p)) (p_tasks p);
  inv_timers : Forall (timer_timing (p_machine p)) (p_timers p);
  inv_started : mc_state (p_machine p) = Activating → mc_activationStart (p_machine p) <= p_now p;
  inv_warmup : mc_warmup (p_machine p) = warmup ∧ 0 < warmup <= maxDuration;
  inv_path : path ownNode warmup (p_log p) (snapshotLocked (p_machine p));
}.

(** ** The invariant holds *)

(** With every completion older than [g], none is current for [g]. *)
Lemma none_current (m : Machine) (l : list (TimerKind * Z)) g :
  Forall (λ x, 0 <= x.2 <= g) l → g < mc_gen m → List.filter (current m) l = [].
Proof.
  induction 1 as [|x l Hx _ IH]; intros Hg; simpl; [done|].
  unfold current at 1. rewrite bool_decide_eq_false_2 by lia. auto.
Qed.

Lemma filter_perm {A} (f : A → bool) l l' : l ≡ₚ l' → List.filter f l ≡ₚ List.filter f l'.
Proof.
  induction 1 as [|x l l' _ IH|x y l|l l' l'' _ IH1 _ IH2]; simpl; [done| | |by rewrite IH1].
  - destruct (f x); by rewrite ?IH.
  - destruct (f x), (f y); try done. constructor.
Qed.

Section Invariant.
Context (ownNode : string) (capacityRPS warmup : Z).

Lemma inv_start cfg t0 :
  warmup = mc_warmup (NewMachine cfg) → WarmupDuration cfg < 2 ^ 63 → Inv ownNode warmup 0 (start cfg t0).
Proof.
  intros Hw Hc. split; simpl; try done; try constructor; simpl in Hw; try done.
  revert Hw. case_match; reflect_bools; intros ->; unfold maxDuration; [done|lia].
Qed.

Lemma inv_mono n n' p : (n <= n')%nat → Inv ownNode warmup n p → Inv ownNode warmup n' p.
Proof. intros Hn []. split; try done. lia. Qed.

(** A step that leaves the machine alone and moves completions about keeps the
    invariant. *)
Lemma inv_same_machine n p p' :
  Inv ownNode warmup n p → p_machine p' = p_machine p → pending p' ≡ₚ pending p →
  Forall (task_timing (p_machine p)) (p_tasks p') → Forall (timer_timing (p_machine p)) (p_timers p') →
  p_now p <= p_now p' → p_log p' = p_log p → Inv ownNode warmup n p'.
Proof.
  intros [] Hm Hp Ht Ht' Hn Hl. split; rewrite ?Hm, ?Hl; try done.
  - by rewrite Hp.
  - by rewrite (filter_perm _ _ _ Hp).
  - intros Hs. specialize (inv_started0 Hs). lia.
Qed.

Lemma pending_hook p pre a post :
  p_tasks p = pre ++ THook a :: post →
  pending (run_hook p capacityRPS a (pre ++ post)) ≡ₚ pending p.
Proof.
  intros Ht. unfold pending, run_hook. simpl. rewrite Ht.
  destruct (af_timer a) as [[[k g] d]|] eqn:Ea; rewrite !omap_app; simpl; rewrite ?Ea; [|done].
  rewrite <-!app_assoc. apply Permutation_app_head. simpl. by rewrite Permutation_middle.
Qed.

Lemma pending_arm p pre k g d post :
  p_tasks p = pre ++ TArm k g d :: post → pending (arm p k g d (pre ++ post)) ≡ₚ pending p.
Proof.
  intros Ht. unfold pending, arm. simpl. rewrite Ht, !omap_app, fmap_app. simpl. unfold timer_id at 2. simpl.
  rewrite <-!app_assoc. apply Permutation_app_head. simpl.
  rewrite (app_assoc _ _ [_]). symmetry. apply Permutation_cons_append.
Qed.

Lemma inv_hook n p pre a post :
  Inv ownNode warmup n p → p_tasks p = pre ++ THook a :: post →
  Inv ownNode warmup n (run_hook p capacityRPS a (pre ++ post)).
Proof.
  intros HI Ht. eapply inv_same_machine; [exact HI|done|by apply pending_hook| |by apply HI|simpl; lia|done].
  pose proof (inv_tasks _ _ _ _ HI) as Hk. rewrite Ht in Hk.
  apply Forall_app in Hk as [Hk1 [Hk2 Hk3]%Forall_cons]. unfold run_hook. simpl.
  destruct (af_timer a) as [[[k g] d]|] eqn:Ea; rewrite ?Forall_app; [|done].
  split; [done|]. constructor; [|constructor]. simpl in *. intros -> ->. by apply Hk2.
Qed.

Lemma inv_arm n p pre k g d post :
  Inv ownNode warmup n p → p_tasks p = pre ++ TArm k g d :: post →
  Inv ownNode warmup n (arm p k g d (pre ++ post)).
Proof.
  intros HI Ht. pose proof (inv_tasks _ _ _ _ HI) as Hk. rewrite Ht in Hk.
  apply Forall_app in Hk as [Hk1 [Hk2 Hk3]%Forall_cons].
  eapply inv_same_machine; [exact HI|done|by apply pending_arm|by apply Forall_app| |simpl; lia|done].
  apply Forall_app. split; [by apply HI|]. constructor; [|constructor]. intros Hs Hkind Hgen.
  simpl in *. rewrite (Hk2 Hkind Hgen). pose proof (inv_started _ _ _ _ HI Hs). lia.
Qed.

Lemma inv_tick n p d :
  Inv ownNode warmup n p → 0 <= d →
  Inv ownNode warmup n {| p_machine := p_machine p; p_metrics := p_metrics p; p_tasks := p_tasks p;
                          p_timers := p_timers p; p_now := p_now p + d; p_log := p_log p |}.
Proof.
  intros HI Hd. eapply inv_same_machine; [exact HI|done|done|by apply HI|by apply HI|simpl; lia|done].
Qed.

(** The completions after a timer is taken out, and after a task is added. *)
Definition pending_with (tasks : list Task) (timers : list Timer) : list (TimerKind * Z) :=
  omap task_timer tasks ++ (timer_id <$> timers).

Lemma pending_take p pre t post :
  p_timers p = pre ++ t :: post →
  pending p ≡ₚ timer_id t :: pending_with (p_tasks p) (pre ++ post).
Proof.
  intros Ht. unfold pending, pending_with. rewrite Ht, !fmap_app. simpl.
  rewrite <-Permutation_middle. by rewrite <-Permutation_middle.
Qed.

(** A fired timer that is not the awaited one is stale. *)
Lemma fire_stale n p pre t post :
  Inv ownNode warmup n p → p_timers p = pre ++ t :: post →
  timer_id t ∉ awaited (p_machine p) → fire p t = (p_machine p, None) ∧ tm_gen t ≠ mc_gen (p_machine p).
Proof.
  intros HI Ht Hn. assert (tm_gen t ≠ mc_gen (p_machine p)) as Hg.
  { intros Hg. apply Hn. rewrite <-(inv_awaited _ _ _ _ HI).
    apply list_elem_of_In, filter_In. split; [|by apply bool_decide_eq_true_2].
    apply list_elem_of_In. rewrite (pending_take _ _ _ _ Ht). left. }
  split; [|done]. unfold fire, completeWarmup, completeTeardown.
  destruct (tm_kind t); by rewrite bool_decide_eq_true_2.
Qed.

(** The fired timer was the awaited one, and no other is left. *)
Lemma awaited_taken n p pre t post :
  Inv ownNode warmup n p → p_timers p = pre ++ t :: post → awaited (p_machine p) = [timer_id t] →
  List.filter (current (p_machine p)) (pending_with (p_tasks p) (pre ++ post)) = [].
Proof.
  intros HI Ht Ha. pose proof (inv_awaited _ _ _ _ HI) as Hp.
  rewrite (filter_perm _ _ _ (pending_take _ _ _ _ Ht)), Ha in Hp. simpl in Hp.
  assert (current (p_machine p) (timer_id t) = true) as Hc.
  { unfold awaited, timer_id in *. apply bool_decide_eq_true_2. simpl.
    destruct (mc_state (p_machine p)); congruence. }
  rewrite Hc in Hp. by apply Permutation_cons_inv, Permutation_nil_r in Hp.
Qed.

Lemma Forall_remove {A} (P : A → Prop) pre x post : Forall P (pre ++ x :: post) → P x ∧ Forall P (pre ++ post).
Proof. rewrite !Forall_app, Forall_cons. tauto. Qed.

Lemma inv_fire n p pre t post :
  Inv ownNode warmup n p → p_timers p = pre ++ t :: post → tm_due t <= p_now p →
  Inv ownNode warmup n (unlocked p (fire p t).1 (fire p t).2 (pre ++ post)).
Proof.
  intros HI Ht Hdue. pose proof (pending_take _ _ _ _ Ht) as Hp.
  pose proof (inv_old _ _ _ _ HI) as Hold. rewrite Hp in Hold. apply Forall_cons in Hold as [_ Hold].
  pose proof (inv_timers _ _ _ _ HI) as Htm. rewrite Ht in Htm. apply Forall_remove in Htm as [Htt Htm].
  destruct (decide (timer_id t ∈ awaited (p_machine p))) as [Hin|Hn].
  2:{ destruct (fire_stale _ _ _ _ _ HI Ht Hn) as [-> Hg]. split; simpl; try by apply HI; try done.
      - done.
      - pose proof (inv_awaited _ _ _ _ HI) as Ha. rewrite (filter_perm _ _ _ Hp) in Ha. simpl in Ha.
        unfold current at 1 in Ha. simpl in Ha. by rewrite bool_decide_eq_false_2 in Ha.
      - done. }
  assert (awaited (p_machine p) = [timer_id t]) as Haw.
  { unfold awaited in *. destruct (mc_state (p_machine p)); try by apply not_elem_of_nil in Hin.
    all: by apply list_elem_of_singleton in Hin as ->. }
  pose proof (awaited_taken _ _ _ _ _ HI Ht Haw) as Hnone.
  pose proof (inv_gen _ _ _ _ HI) as Hgen. pose proof (inv_warmup _ _ _ _ HI) as Hwarm.
  pose proof (inv_tasks _ _ _ _ HI) as Htk. pose proof (inv_path _ _ _ _ HI) as Hpath.
  pose proof (inv_started _ _ _ _ HI) as Hst. unfold awaited in Haw. unfold timer_timing, timer_id in *.
  unfold fire. destruct (mc_state (p_machine p)) eqn:Es; try done; simplify_eq/=.
  - assert (tm_kind t = CompleteWarmup ∧ tm_gen t = mc_gen (p_machine p)) as [Hk Hg] by (split; congruence).
    rewrite Hk, Hg. unfold completeWarmup. rewrite Es, bool_decide_eq_false_2 by auto. simpl.
    split; simpl; try done.
    + unfold pending. simpl. rewrite omap_app. simpl. by rewrite app_nil_r.
    + unfold pending. simpl. rewrite omap_app. simpl. rewrite app_nil_r.
      match goal with |- ?l ≡ₚ _ => replace l with (@nil (TimerKind * Z)) by (symmetry; exact Hnone) end. done.
    + apply Forall_app. split; [done|]. by repeat constructor.
    + eapply Forall_impl; [exact Htm|]. intros t' _. by intros ?.
    + eapply path_snoc; [exact Hpath|]. unfold transition. cbn.
      specialize (Htt eq_refl Hk Hg). specialize (Hst eq_refl). destruct Hwarm as [Hw Hwr].
      apply (edge_hot _ _ (snapshotLocked (p_machine p))); [done|].
      unfold Time_Sub, minDuration, maxDuration in *. lia.
  - assert (tm_kind t = CompleteTeardown ∧ tm_gen t = mc_gen (p_machine p)) as [Hk Hg] by (split; congruence).
    rewrite Hk, Hg. unfold completeTeardown. rewrite Es, bool_decide_eq_false_2 by auto. simpl.
    split; simpl; try done.
    + unfold pending. simpl. rewrite omap_app. simpl. by rewrite app_nil_r.
    + unfold pending. simpl. rewrite omap_app. simpl. rewrite app_nil_r.
      match goal with |- ?l ≡ₚ _ => replace l with (@nil (TimerKind * Z)) by (symmetry; exact Hnone) end. done.
    + apply Forall_app. split; [done|]. by repeat constructor.
    + eapply Forall_impl; [exact Htm|]. intros t' _. by intros ?.
    + eapply path_snoc; [exact Hpath|]. by apply (edge_done _ _ (snapshotLocked (p_machine p))).
Qed.

(** A new generation makes every completion on its way stale. *)
Lemma new_generation n p g :
  Inv ownNode warmup n p → Z.of_nat (S n) < 2 ^ 64 → g = wrapu64 (mc_gen (p_machine p) + 1) →
  g = mc_gen (p_machine p) + 1 ∧
  (∀ m, mc_gen m = g → List.filter (current m) (pending p) = []) ∧
  Forall (λ x, 0 <= x.2 <= g) (pending p) ∧
  (∀ m, mc_gen m = g → Forall (task_timing m) (p_tasks p)) ∧
  (∀ m, mc_gen m = g → Forall (timer_timing m) (p_timers p)).
Proof.
  intros HI Hn ->. pose proof (inv_gen _ _ _ _ HI) as Hg. pose proof (inv_old _ _ _ _ HI) as Hold.
  assert (wrapu64 (mc_gen (p_machine p) + 1) = mc_gen (p_machine p) + 1) as ->
    by (unfold wrapu64; apply Z.mod_small; lia).
  split; [done|]. split; [|split; [|split]].
  - intros m Hm. apply (none_current m _ (mc_gen (p_machine p))); [done|lia].
  - eapply Forall_impl; [exact Hold|]. simpl. lia.
  - intros m Hm. apply Forall_forall. intros t Ht.
    assert (∀ k g, task_timer t = Some (k, g) → g <= mc_gen (p_machine p)) as Hle.
    { intros k g E. rewrite Forall_forall in Hold. apply (Hold (k, g)).
      apply elem_of_app. left. apply list_elem_of_omap. eauto. }
    destruct t as [a|k g d]; simpl in *.
    + intros d E. rewrite E in Hle. specialize (Hle _ _ eq_refl). lia.
    + intros -> ->. specialize (Hle _ _ eq_refl). lia.
  - intros m Hm. apply Forall_forall. intros t Ht _ _ E. rewrite Forall_forall in Hold.
    assert (tm_gen t <= mc_gen (p_machine p)); [|lia].
    apply (Hold (timer_id t)). apply elem_of_app. right. by apply list_elem_of_fmap_2.
Qed.

Lemma inv_activate n p req :
  Inv ownNode warmup n p → Z.of_nat (S n) < 2 ^ 64 →
  let out := Activate (p_now p) req ownNode (p_machine p) in
  Inv ownNode warmup (S n) (unlocked p out.1.2 out.2 (p_timers p)).
Proof.
  intros HI Hn. assert (Inv ownNode warmup (S n) (unlocked p (p_machine p) None (p_timers p))) as Hsame.
  { eapply (inv_mono n); [lia|]. eapply inv_same_machine; [exact HI|done|done|by apply HI|by apply HI|simpl; lia|done]. }
  unfold Activate. destruct (bool_decide (ar_Node req ≠ ownNode)) eqn:En; [exact Hsame|]. reflect_bools.
  apply dec_stable in En. destruct (mc_state (p_machine p)) eqn:Es;
    [|destruct (bool_decide _); exact Hsame|destruct (bool_decide _); exact Hsame|exact Hsame].
  destruct (new_generation _ _ _ HI Hn eq_refl) as (Hg & Hnone & Hold & Htk & Htm). simpl. rewrite Hg in *.
  pose proof (inv_gen _ _ _ _ HI). pose proof (inv_path _ _ _ _ HI) as Hpath.
  pose proof (inv_warmup _ _ _ _ HI) as Hwarm.
  split; simpl; try done.
  - lia.
  - unfold pending. simpl. rewrite omap_app, <-app_assoc. simpl. rewrite <-Permutation_middle.
    constructor; [simpl; lia|done].
  - unfold pending. simpl. rewrite omap_app, <-app_assoc. simpl.
    rewrite (filter_perm _ _ _ (symmetry (Permutation_middle _ _ _))). simpl.
    unfold current at 1. rewrite bool_decide_eq_true_2 by done. simpl. unfold awaited. simpl.
    constructor. rewrite Hnone by done. done.
  - apply Forall_app. split; [by apply Htk|]. constructor; [|constructor]. simpl. intros d [= ->]. done.
  - by apply Htm.
  - eapply path_snoc; [exact Hpath|].
    rewrite (path_warm _ _ _ _ Hpath Es). unfold transition. rewrite Es. by apply (edge_activate _ _ req).
Qed.

Lemma inv_release n p :
  Inv ownNode warmup n p → Z.of_nat (S n) < 2 ^ 64 →
  let out := Release (p_machine p) in
  Inv ownNode warmup (S n) (unlocked p out.1 out.2 (p_timers p)).
Proof.
  intros HI Hn. assert (Inv ownNode warmup (S n) (unlocked p (p_machine p) None (p_timers p))) as Hsame.
  { eapply (inv_mono n); [lia|]. eapply inv_same_machine; [exact HI|done|done|by apply HI|by apply HI|simpl; lia|done]. }
  destruct (new_generation _ _ _ HI Hn eq_refl) as (Hg & Hnone & Hold & Htk & Htm).
  pose proof (inv_gen _ _ _ _ HI). pose proof (inv_path _ _ _ _ HI) as Hpath.
  pose proof (inv_warmup _ _ _ _ HI) as Hwarm.
  unfold Release. destruct (mc_state (p_machine p)) eqn:Es; [exact Hsame| | |exact Hsame];
    simpl; unfold next_gen; rewrite Hg in *.
  - split; simpl; try done.
    + lia.
    + unfold pending. simpl. rewrite omap_app. simpl. by rewrite app_nil_r.
    + unfold pending. simpl. rewrite omap_app. simpl. rewrite app_nil_r. by rewrite Hnone.
    + apply Forall_app. split; [by apply Htk|]. by repeat constructor.
    + by apply Htm.
    + eapply path_snoc; [exact Hpath|]. unfold transition. simpl. rewrite Es.
      by apply (edge_cancel _ _ (snapshotLocked (p_machine p))).
  - split; simpl; try done.
    + lia.
    + unfold pending. simpl. rewrite omap_app, <-app_assoc. simpl. rewrite <-Permutation_middle.
      constructor; [simpl; lia|done].
    + unfold pending. simpl. rewrite omap_app, <-app_assoc. simpl.
      rewrite (filter_perm _ _ _ (symmetry (Permutation_middle _ _ _))). simpl.
      unfold current at 1. rewrite bool_decide_eq_true_2 by done. simpl. unfold awaited. simpl.
      constructor. by rewrite Hnone.
    + apply Forall_app. split; [by apply Htk|]. by repeat constructor.
    + by apply Htm.
    + eapply path_snoc; [exact Hpath|]. unfold transition. simpl. rewrite Es.
      by apply (edge_release _ _ (snapshotLocked (p_machine p))).
Qed.

Lemma inv_internal n p p' :
  Inv ownNode warmup n p → internal capacityRPS p p' → Inv ownNode warmup n p'.
Proof.
  intros HI [pre a post Ht|pre k g d post Ht|pre t post Ht Hdue|d Hd];
    eauto using inv_hook, inv_arm, inv_fire, inv_tick.
Qed.

Lemma inv_reachable p0 n p :
  Inv ownNode warmup 0 p0 → Z.of_nat n < 2 ^ 64 → reachable ownNode capacityRPS p0 n p →
  Inv ownNode warmup n p.
Proof.
  intros H0 Hn H. induction H as [|n p p' _ IH Hs]; [done|].
  destruct Hs as [p' Hi|req|]; [|apply inv_activate|apply inv_release]; try (apply IH; lia); try done.
  eapply (inv_mono n); [lia|]. eapply inv_internal; [apply IH; lia|done].
Qed.

End Invariant.

(** ** The properties *)

Section Properties.
Context (ownNode : string) (capacityRPS : Z) (cfg : MachineConfig) (t0 : Z).

Lemma reachable_inv n p :
  WarmupDuration cfg < 2 ^ 63 → Z.of_nat n < 2 ^ 64 →
  reachable ownNode capacityRPS (start cfg t0) n p →
  Inv ownNode (mc_warmup (NewMachine cfg)) n p.
Proof. intros Hc Hn. apply inv_reachable; [|done]. by apply inv_start. Qed.

(** C18. The pod's process refines the lease automaton.  However requests, goroutines,
    timers and time interleave (for fewer than 2^64 steps, so that the generation counter
    does not wrap), the transitions that happened form a path of the automaton from the
    idle pod to the machine's present state: a pod takes a lease only when it is idle and
    only for its own node, it becomes hot only from the activation of that very lease and
    no sooner than the warmup duration after it, it keeps the lease's identity until it
    is released, and it holds none when it is warm. *)
Theorem machine_refines_automaton n p :
  WarmupDuration cfg < 2 ^ 63 → Z.of_nat n < 2 ^ 64 →
  reachable ownNode capacityRPS (start cfg t0) n p →
  path ownNode (mc_warmup (NewMachine cfg)) (p_log p) (snapshotLocked (p_machine p)).
Proof. intros Hc Hn H. by apply (reachable_inv n p). Qed.

(** A step of the process by itself leaves a settled machine alone. *)
Lemma settled_internal warmup n p p' :
  Inv ownNode warmup n p → mc_state (p_machine p) = Warm ∨ mc_state (p_machine p) = Hot →
  internal capacityRPS p p' → p_machine p' = p_machine p.
Proof.
  intros HI Hs [pre a post Ht|pre k g d post Ht|pre t post Ht Hdue|d Hd]; try done. simpl.
  assert (timer_id t ∉ awaited (p_machine p)) as Hn.
  { unfold awaited. destruct Hs as [-> | ->]; apply not_elem_of_nil. }
  by destruct (fire_stale _ _ _ _ _ _ _ HI Ht Hn) as [-> _].
Qed.

(** Nothing but a request moves a warm or a hot pod.  From any reachable state in
    which the machine is warm or hot, whatever timers are still armed (those of cancelled
    activations included), no sequence of goroutine steps, timer firings and passing time
    changes the machine. *)
Lemma machine_settled_stable n p p' :
  WarmupDuration cfg < 2 ^ 63 → Z.of_nat n < 2 ^ 64 →
  reachable ownNode capacityRPS (start cfg t0) n p →
  mc_state (p_machine p) = Warm ∨ mc_state (p_machine p) = Hot →
  rtc (internal capacityRPS) p p' → p_machine p' = p_machine p.
Proof.
  intros Hc Hn Hr%reachable_inv Hs H; [|done|done].
  induction H as [p|p p1 p2 Hi _ IH]; [done|].
  pose proof (settled_internal _ _ _ _ Hr Hs Hi) as Heq. rewrite <-Heq.
  apply IH; [by eapply inv_internal|by rewrite Heq].
Qed.

(** ** Progress *)

(** The completion the machine waits for can be brought about. *)
Lemma timer_completes p pre t post :
  p_timers p = pre ++ t :: post →
  ∃ p' q, rtc (internal capacityRPS) p p' ∧ p_machine q = p_machine p ∧ p_machine p' = (fire q t).1.
Proof.
  intros Ht. set (d := Z.max 0 (tm_due t - p_now p)).
  set (q := {| p_machine := p_machine p; p_metrics := p_metrics p; p_tasks := p_tasks p;
               p_timers := p_timers p; p_now := p_now p + d; p_log := p_log p |}).
  exists (unlocked q (fire q t).1 (fire q t).2 (pre ++ post)), q. split; [|done].
  eapply rtc_l; [apply (step_tick _ p d); lia|]. apply rtc_once. apply step_fire; [done|]. simpl. lia.
Qed.

Lemma awaited_completes n warmup p x :
  Inv ownNode warmup n p → awaited (p_machine p) = [x] →
  ∃ p' q t, rtc (internal capacityRPS) p p' ∧ p_machine q = p_machine p ∧ timer_id t = x ∧
    p_machine p' = (fire q t).1.
Proof.
  intros HI Ha.
  assert (x ∈ pending p) as Hx.
  { assert (x ∈ List.filter (current (p_machine p)) (pending p)) as H
      by (rewrite (inv_awaited _ _ _ _ HI), Ha; left).
    apply list_elem_of_In, filter_In in H as [H _]. by apply list_elem_of_In. }
  assert (∀ p1, p_machine p1 = p_machine p → x ∈ timer_id <$> p_timers p1 → rtc (internal capacityRPS) p p1 →
    ∃ p' q t, rtc (internal capacityRPS) p p' ∧ p_machine q = p_machine p ∧ timer_id t = x ∧
      p_machine p' = (fire q t).1) as Htimer.
  { intros p1 Hm (t & -> & (pre & post & Ht)%list_elem_of_split)%list_elem_of_fmap Hrtc.
    destruct (timer_completes _ _ _ _ Ht) as (p' & q & H1 & H2 & H3).
    exists p', q, t. split; [by etrans|]. split; [congruence|]. done. }
  assert (∀ p1 d, p_machine p1 = p_machine p → TArm x.1 x.2 d ∈ p_tasks p1 → rtc (internal capacityRPS) p p1 →
    ∃ p' q t, rtc (internal capacityRPS) p p' ∧ p_machine q = p_machine p ∧ timer_id t = x ∧
      p_machine p' = (fire q t).1) as Harm.
  { intros p1 d Hm (pre & post & Ht)%list_elem_of_split Hrtc.
    apply (Htimer (arm p1 x.1 x.2 d (pre ++ post))); [done| |].
    - simpl. rewrite fmap_app. apply elem_of_app. right. simpl. destruct x. left.
    - eapply rtc_r; [exact Hrtc|]. by apply step_arm. }
  apply elem_of_app in Hx as [Hx|Hx]; [|by apply (Htimer p)].
  apply list_elem_of_omap in Hx as (task & Hin & Et). destruct task as [a|k g d]; simpl in Et.
  - destruct (af_timer a) as [[[k g] d]|] eqn:Ea; simplify_eq.
    apply list_elem_of_split in Hin as (pre & post & Ht).
    apply (Harm (run_hook p capacityRPS a (pre ++ post)) d); [done| |].
    + simpl. rewrite Ea. apply elem_of_app. right. left.
    + apply rtc_once. by apply step_hook.
  - simplify_eq. by apply (Harm p d).
Qed.

(** C19. Activation and teardown complete.  From any reachable state in which the machine
    is activating, letting goroutines, time and timers proceed leads to the same lease
    being hot; and from any in which it is releasing, to an idle pod.  The completion is
    never lost. *)
Theorem machine_completes n p :
  WarmupDuration cfg < 2 ^ 63 → Z.of_nat n < 2 ^ 64 →
  reachable ownNode capacityRPS (start cfg t0) n p →
  (mc_state (p_machine p) = Activating → ∃ p', rtc (internal capacityRPS) p p' ∧
     snapshotLocked (p_machine p') = in_state (snapshotLocked (p_machine p)) Hot) ∧
  (mc_state (p_machine p) = Releasing → ∃ p', rtc (internal capacityRPS) p p' ∧
     snapshotLocked (p_machine p') = idle).
Proof.
  intros Hc Hn Hr%reachable_inv; [|done|done].
  split; intros Hs.
  - destruct (awaited_completes _ _ _ (CompleteWarmup, mc_gen (p_machine p)) Hr) as (p' & q & t & H1 & H2 & H3 & H4);
      [unfold awaited; by rewrite Hs|].
    exists p'. split; [done|]. rewrite H4. injection H3 as Hk Hg. unfold fire. rewrite Hk, Hg, H2.
    unfold completeWarmup. by rewrite Hs, bool_decide_eq_false_2 by auto.
  - destruct (awaited_completes _ _ _ (CompleteTeardown, mc_gen (p_machine p)) Hr) as (p' & q & t & H1 & H2 & H3 & H4);
      [unfold awaited; by rewrite Hs|].
    exists p'. split; [done|]. rewrite H4. injection H3 as Hk Hg. unfold fire. rewrite Hk, Hg, H2.
    unfold completeTeardown. by rewrite Hs, bool_decide_eq_false_2 by auto.
Qed.

End Properties.

(** ** Requests *)

(** What a request is answered.  [Activate] accepts exactly the requests for the
    pod's own node that find it warm, or that repeat the lease it is activating or hot
    with; after an accepted request the machine holds the requested lease and is
    activating or hot, and the same request again is accepted and changes nothing; a
    refused request changes nothing and says nothing to the hook.  [Release] leaves a
    machine that is warm or releasing, and releasing again changes nothing. *)
Lemma machine_requests now now' req ownNode m :
  let '(res, m', after) := Activate now req ownNode m in
  (is_ok res = true ↔ ar_Node req = ownNode ∧
     (mc_state m = Warm ∨
      (mc_state m = Activating ∨ mc_state m = Hot) ∧ mc_leaseName m = ar_LeaseName req)) ∧
  match res with
  | Ok _ => mc_leaseName m' = ar_LeaseName req ∧ (mc_state m' = Activating ∨ mc_state m' = Hot) ∧
            Activate now' req ownNode m' = (Ok tt, m', None)
  | Err e => m' = m ∧ after = None ∧ (e = ErrNodeMismatch ↔ ar_Node req ≠ ownNode)
  end ∧
  (mc_state (Release m).1 = Warm ∨ mc_state (Release m).1 = Releasing) ∧
  Release (Release m).1 = ((Release m).1, None).
Proof.
  assert ((mc_state (Release m).1 = Warm ∨ mc_state (Release m).1 = Releasing) ∧
    Release (Release m).1 = ((Release m).1, None)) as Hrel.
  { unfold Release at 1 2 3 4. destruct (mc_state m) eqn:E; simpl; auto; unfold Release; rewrite ?E; auto. }
  unfold Activate. destruct (bool_decide (ar_Node req ≠ ownNode)) eqn:En; reflect_bools.
  { split_and!; try done; naive_solver. }
  apply dec_stable in En.
  assert (bool_decide (ar_Node req ≠ ownNode) = false) as Hb by (by apply bool_decide_eq_false_2; auto).
  destruct (mc_state m) eqn:Es; [|destruct (bool_decide (ar_LeaseName req = mc_leaseName m)) eqn:El; reflect_bools..|];
    simpl; rewrite ?Hb, ?Es; split_and!; try done; try naive_solver;
    rewrite ?(bool_decide_eq_true_2 (ar_LeaseName req = _)) by done; naive_solver.
Qed.

(** ** Gauges *)

(** The gauges after the events of a log, delivered in the order in which the
    transitions happened. *)
Definition gauges (capacityRPS : Z) (log : list Event) : Metrics :=
  foldl (λ g ev, ApplyEvent g ev capacityRPS) NewMetrics log.

(** The gauges follow the machine when the hooks run in order.  After the events of
    any path of the automaton, delivered in order, the pod is reported hot with its
    capacity exactly when it is hot; the GPU gauge shows the lease's GPU when the pod is
    hot or releasing, and -1 when it is warm and also while it is activating. *)
Lemma gauges_in_order ownNode warmup capacityRPS log s :
  path ownNode warmup log s →
  let g := gauges capacityRPS log in
  podHot g = (if bool_decide (sn_State s = Hot) then 1 else 0) ∧
  podCapacityRPS g = (if bool_decide (sn_State s = Hot) then capacityRPS else 0) ∧
  podGPUID g = match sn_State s with Hot | Releasing => sn_GPUID s | Warm | Activating => -1 end.
Proof.
  intros H. cbv zeta. unfold gauges. induction H as [|log s ev s' _ IH He]; [done|].
  rewrite foldl_app. simpl. destruct IH as (_ & _ & IH).
  destruct He as [req Hr| | | |]; cbn; rewrite ?IH; try done.
  - by rewrite H.
Qed.

(** ** The hooks can run out of order *)

Definition example_config : MachineConfig := {| WarmupDuration := 0; TeardownDuration := 0 |}.
Definition example_request : ActivateRequest :=
  {| ar_LeaseName := LeaseName "n1" 0; ar_Node := "n1"; ar_GPUID := 0; ar_GPUModel := "H100" |}.

(** C38. Hooks out of order.  The events are delivered after the lock is released, so the
    event of an earlier transition can arrive last: there is an execution at the end of
    which the pod is idle and nothing is left to do, but the gauges report it hot with
    full capacity. *)
Theorem gauges_can_be_stale :
  ∃ n p, reachable "n1" 10 (start example_config 0) n p ∧ p_tasks p = [] ∧ p_timers p = [] ∧
    snapshotLocked (p_machine p) = idle ∧ podHot (p_metrics p) = 1 ∧ podCapacityRPS (p_metrics p) = 10.
Proof.
  eexists 12%nat, _. split.
  - eapply reach_step; [eapply reach_step; [eapply reach_step; [eapply reach_step; [eapply
      reach_step; [eapply reach_step; [eapply reach_step; [eapply reach_step; [eapply
      reach_step; [eapply reach_step; [eapply reach_step; [eapply reach_step; [apply
      reach_start|]|]|]|]|]|]|]|]|]|]|]|].
    + apply (step_activate _ _ _ example_request).
    + apply step_internal. eapply (step_hook _ _ [] _ []). reflexivity.
    + apply step_internal. eapply (step_arm _ _ [] _ _ _ []). reflexivity.
    + apply step_internal. apply (step_tick _ _ (10 * Second)). done.
    + apply step_internal. eapply (step_fire _ _ [] _ []); [reflexivity|]. vm_compute. discriminate.
    + apply step_release.
    + apply step_internal. eapply (step_hook _ _ [_] _ []). reflexivity.
    + apply step_internal. eapply (step_arm _ _ [_] _ _ _ []). reflexivity.
    + apply step_internal. apply (step_tick _ _ (2 * Second)). done.
    + apply step_internal. eapply (step_fire _ _ [] _ []); [reflexivity|]. vm_compute. discriminate.
    + apply step_internal. eapply (step_hook _ _ [_] _ []). reflexivity.
    + apply step_internal. eapply (step_hook _ _ [] _ []). reflexivity.
  - vm_compute. done.
Qed.

(** ** Witnesses *)

(** A process that has accepted a request, and one that has been released before the
    warmup was over. *)
Definition example_activating : Process :=
  let p := start example_config 0 in
  let out := Activate 0 example_request "n1" (p_machine p) in unlocked p out.1.2 out.2 [].
Definition example_cancelled : Process :=
  let out := Release (p_machine example_activating) in
  unlocked example_activating out.1 out.2 (p_timers example_activating).

Lemma example_activating_reachable : reachable "n1" 10 (start example_config 0) 1 example_activating.
Proof. eapply reach_step; [apply reach_start|]. exact (step_activate _ _ (start example_config 0) example_request). Qed.

Lemma example_cancelled_reachable : reachable "n1" 10 (start example_config 0) 2 example_cancelled.
Proof. eapply reach_step; [apply example_activating_reachable|]. exact (step_release _ _ example_activating). Qed.

Lemma machine_refines_automaton_witness :
  path "n1" (10 * Second) (p_log example_cancelled) (snapshotLocked (p_machine example_cancelled)) ∧
  length (p_log example_cancelled) = 2%nat.
Proof.
  split; [|reflexivity].
  apply (machine_refines_automaton "n1" 10 example_config 0 2 example_cancelled).
  - reflexivity.
  - reflexivity.
  - apply example_cancelled_reachable.
Defined.

Lemma machine_settled_stable_witness :
  ∃ p', rtc (internal 10) example_cancelled p' ∧ p_machine p' = p_machine example_cancelled.
Proof.
  eexists. split; [apply rtc_once, (step_tick _ _ (20 * Second)); done|].
  apply (machine_settled_stable "n1" 10 example_config 0 2 example_cancelled).
  - reflexivity.
  - reflexivity.
  - apply example_cancelled_reachable.
  - left. reflexivity.
  - apply rtc_once, (step_tick _ _ (20 * Second)). done.
Defined.

Lemma machine_completes_witness :
  ∃ p', rtc (internal 10) example_activating p' ∧ mc_state (p_machine p') = Hot.
Proof.
  destruct (machine_completes "n1" 10 example_config 0 1 example_activating) as [H _].
  - reflexivity.
  - reflexivity.
  - apply example_activating_reachable.
  - destruct (H eq_refl) as (p' & Hr & Hs). exists p'. split; [exact Hr|].
    exact (f_equal sn_State Hs).
Defined.

Lemma gauges_in_order_witness : podHot (gauges 10 (p_log example_activating)) = 0.
Proof.
  apply (gauges_in_order "n1" (10 * Second) 10 (p_log example_activating)
    (snapshotLocked (p_machine example_activating))).
  apply (path_snoc _ _ [] idle); [constructor|]. by apply (edge_activate _ _ example_request).
Defined.
