(* ===== verification/WorkloadServer.v ===== *)
(** * The pod's HTTP server: [src/internal/workload/server.go]

    The handlers as functions of the machine, the routes to them, and what the controller's REST client sees
    when it talks to them: the wire contract between the two halves of the system. *)

From S2P Require Import Prelude GoLib GoJSON GoJSONFacts Names Kube Effects MemServer Scenario Inventory PodClient.
From S2P Require Import Pods Kueue GPULeaseController GPULeaseFacts LeaseLifecycle Machine.
Import Workload.

Module Server.

(** [Config]: the effective configuration of one pod. *)
Record Config := {
  cf_NodeName : string;
  cf_PodName : string;
  cf_PodNamespace : string;
  cf_DeploymentName : string;
  cf_PodCapacityRPS : Z;
  cf_WarmupDuration : Z;
  cf_TeardownDuration : Z;
  cf_DemandConfigMapName : string;
}.

(** The machine of [NewServer]. *)
Definition serverMachine (cfg : Config) : Machine :=
  NewMachine {| WarmupDuration := cf_WarmupDuration cfg; TeardownDuration := cf_TeardownDuration cfg |}.

(** [handleActivate]: the status code, the machine and what is left to do. *)
Definition handleActivate (now : Z) (cfg : Config) (body : Body) (m : Machine)
    : Z * Machine * option After :=
  match Decode body with
  | Err _ => (StatusBadRequest, m, None)
  | Ok req =>
      let '(err, m', after) := Activate now req (cf_NodeName cfg) m in
      let status :=
        match err with
        | Ok _ => StatusAccepted
        | Err e =>
            if errors_Is e "workload.ErrNodeMismatch" then StatusConflict
            else if errors_Is e "workload.ErrLeaseConflict" then StatusConflict
            else StatusInternalServerError
        end in
      (status, m', after)
  end.

Definition handleRelease (m : Machine) : Z * Machine * option After :=
  let '(m', after) := Release m in (StatusNoContent, m', after).

(** The answer of [handleState], and the status and body it writes. *)
Definition stateResponse (m : Machine) : StateResponse :=
  let snap := snapshotLocked m in
  {| sr_State := state_string (sn_State snap); sr_LeaseName := sn_LeaseName snap;
     sr_Node := sn_Node snap; sr_GPUID := sn_GPUID snap |}.
Definition handleState (m : Machine) : Z * string := (StatusOK, Encode (stateResponse m)).

Definition handleHealthz : Z := StatusOK.

(** ** Routes *)

Inductive Handler := HActivate | HRelease | HState | HInfer | HHealthz | HMetrics.
#[export] Instance Handler_eq_dec : EqDecision Handler.
Proof. solve_decision. Defined.

(** The patterns of the [ServeMux]: method, path and handler. *)
Definition routes : list (string * string * Handler) :=
  [ ("POST", "/lease", HActivate); ("DELETE", "/lease", HRelease); ("GET", "/state", HState);
    ("POST", "/infer", HInfer); ("GET", "/healthz", HHealthz); ("GET", "/readyz", HHealthz);
    ("GET", "/metrics", HMetrics) ].

Definition StatusNotFound : Z := 404.
Definition StatusMethodNotAllowed : Z := 405.

(** A pattern with the method GET also matches HEAD.  When no pattern matches, the mux
    answers itself: 405 if there is one for another method, else 404.  (The path of the
    request is a clean one.) *)
Definition method_matches (pattern method : string) : bool :=
  bool_decide (pattern = method) || (bool_decide (pattern = "GET") && bool_decide (method = "HEAD")).
Definition mux (method path : string) : Handler + Z :=
  let here := List.filter (λ '(_, p, _), bool_decide (p = path)) routes in
  match List.find (λ '(m, _, _), method_matches m method) here with
  | Some (_, _, h) => inl h
  | None => inr (match here with [] => StatusNotFound | _ => StatusMethodNotAllowed end)
  end.

(** ** The client talking to the server *)

(** The exchange of one request with a pod that is reached.  Of the answers only the body of
    GET /state is read by the client, and it makes no other requests than those three. *)
Definition exchange (now : Z) (cfg : Config) (m : Machine) (rq : HTTPRequest) : Exchange :=
  match mux (hr_Method rq) (hr_Path rq) with
  | inl HActivate => Responded (handleActivate now cfg (whole (hr_Body rq)) m).1.1 (whole "")
  | inl HRelease => Responded (handleRelease m).1.1 (whole "")
  | inl HState => Responded (handleState m).1 (whole (handleState m).2)
  | inl HInfer => Responded (if IsHot m then StatusOK else StatusServiceUnavailable) (whole "")
  | inl HHealthz => Responded handleHealthz (whole "")
  | inl HMetrics => Responded StatusOK (whole "")
  | inr status => Responded status (whole "")
  end.

(** ** The wire contract *)

Lemma state_string_hot s : state_string s = StateHot ↔ s = Hot.
Proof. split; [by destruct s|by intros ->]. Qed.

(** What a POST that reaches the server is answered. *)
Lemma activate_status now cfg m req :
  int32_range (ar_GPUID req) →
  (handleActivate now cfg (whole (Marshal req)) m).1.1 =
    if is_ok (Activate now (repaired_request req) (cf_NodeName cfg) m).1.1 then StatusAccepted else StatusConflict.
Proof.
  intros Hr. unfold handleActivate. rewrite decode_request_sent, bool_decide_eq_true_2 by done.
  unfold Activate. destruct (bool_decide (ar_Node _ ≠ cf_NodeName cfg)); [done|].
  destruct (mc_state m); try done; by destruct (bool_decide (_ = mc_leaseName m)).
Qed.

Lemma activate_exchanged now cfg m c ip req :
  int32_range (ar_GPUID req) →
  HTTP_Activate (exchange now cfg m) c ip req =
    if is_ok (Activate now (repaired_request req) (cf_NodeName cfg) m).1.1
    then Ok tt else Err PodClient.ErrNodeMismatch.
Proof.
  intros Hr. unfold HTTP_Activate, exchange. cbn [hr_Method hr_Path hr_Body activate_http].
  change (mux "POST" "/lease") with (inl HActivate : Handler + Z). cbv iota.
  rewrite activate_status by done. by destruct (is_ok _).
Qed.

(** C26. The wire contract.  Over a working network, and through the JSON of both bodies,
    the client's [Activate] succeeds exactly when the pod's machine accepts the request, and
    reports [ErrNodeMismatch] exactly when the machine refuses it, be it for the node or for
    another lease; [Release] always succeeds; and [State] always succeeds and says "hot"
    exactly when the machine is hot, with the lease name, node and GPU id the machine holds.
    Strings arrive repaired ([coerceUTF8], which leaves valid UTF-8 alone), and GPU ids are
    of 32 bits. *)
Theorem wire_contract now cfg m (c : HTTPClient) ip req :
  int32_range (ar_GPUID req) → int32_range (mc_gpuID m) →
  let accepted := is_ok (Activate now (repaired_request req) (cf_NodeName cfg) m).1.1 in
  HTTP_Activate (exchange now cfg m) c ip req =
    (if accepted then Ok tt else Err PodClient.ErrNodeMismatch) ∧
  HTTP_Release (exchange now cfg m) c ip = Ok tt ∧
  ∃ st, HTTP_State (exchange now cfg m) c ip = Ok st ∧
    (sr_State st = StateHot ↔ mc_state m = Hot) ∧
    sr_LeaseName st = coerceUTF8 (mc_leaseName m) ∧ sr_Node st = coerceUTF8 (mc_node m) ∧
    sr_GPUID st = mc_gpuID m.
Proof.
  intros Hr Hm. cbv zeta. split; [|split].
  - by apply activate_exchanged.
  - unfold HTTP_Release, exchange. cbn [hr_Method hr_Path release_http].
    change (mux "DELETE" "/lease") with (inl HRelease : Handler + Z). cbv iota.
    unfold handleRelease. by destruct (Release m).
  - unfold HTTP_State, exchange. cbn [hr_Method hr_Path state_http].
    change (mux "GET" "/state") with (inl HState : Handler + Z). cbv iota. cbn [handleState fst snd]. rewrite decode_state_encoded, bool_decide_eq_true_2 by done.
    eexists. split; [done|]. split; [|done]. rewrite <-state_string_hot. cbn. by destruct (mc_state m).
Qed.

(** ** A pod that is still releasing *)

Section Retry.
Context `{KL : KubeLib} (r : GPULeaseReconciler).

(** C36. A conflict is not retried.  Take an admitted lease with a valid claim pod on the
    right node, whose POST /lease reaches the pod's server while the machine is still
    releasing its previous lease.  Whatever else the cluster does, the reconcile does not
    retry: after the refused call it takes the failure path with the reason NodeMismatch,
    which deletes the Workload and asks the pod to release. *)
Theorem conflict_fails_lease {S} (srv : Effects.Server S) (s s' : S) l pod now cfg m c :
  let req := activate_request l in
  srv _ (GetPod (ref_Namespace (spec_ClaimRef (lease_Spec l)))
                (ref_Name (spec_ClaimRef (lease_Spec l)))) s = (Ok pod, s) →
  srv _ (PodActivate (pod_IP pod) req) s = (HTTP_Activate (exchange now cfg m) c (pod_IP pod) req, s') →
  leaseOrphanReason (Some pod) l None = "" → pod_IP pod ≠ "" → mc_state m = Releasing →
  int32_range (spec_GPUID (lease_Spec l)) →
  let out := run srv (reconcileAdmitted r l) s in
  ∃ fail, acts out.1.2 = ActActivate (pod_IP pod) req (Err PodClient.ErrNodeMismatch) :: fail ∧
    FailActs out.1.2 l ReasonNodeMismatch fail out.1.1.
Proof.
  cbv zeta. intros Hp Ha Ho Hip Hm Hr.
  assert (HTTP_Activate (exchange now cfg m) c (pod_IP pod) (activate_request l) =
          Err PodClient.ErrNodeMismatch) as E.
  { rewrite activate_exchanged by done. unfold Activate. rewrite Hm.
    by destruct (bool_decide (ar_Node _ ≠ cf_NodeName cfg)). }
  rewrite E in Ha. unfold reconcileAdmitted, getClaimPod. cbn [bind call].
  cbn [run]. rewrite Hp. cbn [bind fst snd]. rewrite Ho. rewrite bool_decide_eq_false_2 by auto.
  rewrite bool_decide_eq_false_2 by done. cbn [run]. unfold activate_request in Ha. rewrite Ha.
  cbn [errors_Is PodClient.ErrNodeMismatch]. rewrite bool_decide_eq_true_2 by done.
  match goal with |- context [run srv (transitionToFailed ?r ?l ?a ?b) s'] =>
    pose proof (run_runs srv (transitionToFailed r l a b) s') as H;
    destruct (run srv (transitionToFailed r l a b) s') as [[res t] s2] end.
  cbn [fst snd] in *. eexists. acts_norm. split; [done|].
  eapply transitionToFailed_acts; [exact H|]. clear. set_solver.
Qed.

End Retry.

(** ** Witness *)

(** The server of a pod on node n1 that is tearing down another lease. *)
Definition example_config : Config :=
  {| cf_NodeName := "n1"; cf_PodName := "p0"; cf_PodNamespace := "ns"; cf_DeploymentName := "app";
     cf_PodCapacityRPS := 10; cf_WarmupDuration := 0; cf_TeardownDuration := 0;
     cf_DemandConfigMapName := "gpu-lease-demand" |}.
Definition releasing_machine : Machine :=
  {| mc_state := Releasing; mc_leaseName := LeaseName "n1" 3; mc_node := "n1"; mc_gpuID := 3;
     mc_gpuModel := "H100"; mc_activationStart := 0; mc_gen := 2;
     mc_warmup := DefaultWarmupDuration; mc_teardown := DefaultTeardownDuration |}.

(** The cluster with that pod behind the address of the claim pod. *)
Definition releasing_server : Effects.Server Mem := λ R e s,
  match e in Eff R return R * Mem with
  | PodActivate ip req =>
      (HTTP_Activate (exchange (m_now s) example_config releasing_machine) NewHTTPClient ip req, s)
  | e => mem_server _ e s
  end.

Definition example_activation : ActivateRequest :=
  {| ar_LeaseName := LeaseName "n1" 3; ar_Node := "n1"; ar_GPUID := 3; ar_GPUModel := "H100" |}.
Lemma wire_contract_witness :
  ∃ st, HTTP_State (exchange 0 example_config releasing_machine) NewHTTPClient "10.0.0.1" = Ok st ∧
    sr_LeaseName st = LeaseName "n1" 3 ∧ sr_GPUID st = 3.
Proof.
  destruct (wire_contract 0 example_config releasing_machine NewHTTPClient "10.0.0.1" example_activation)
    as (_ & _ & st & Hs & _ & Hl & _ & Hg); [vm_compute; split; discriminate || reflexivity..|].
  exists st. split; [exact Hs|]. split; [rewrite Hl; vm_compute; reflexivity|exact Hg].
Defined.

Lemma conflict_fails_lease_witness :
  ∃ fail, acts (run releasing_server (reconcileAdmitted example_reconciler (lease_in GPULeasePhaseAdmitted))
                  state_to_activate).1.2 =
      ActActivate "10.0.0.1" (activate_request (lease_in GPULeasePhaseAdmitted))
        (Err PodClient.ErrNodeMismatch) :: fail ∧
    (run releasing_server (reconcileAdmitted example_reconciler (lease_in GPULeasePhaseAdmitted))
       state_to_activate).1.1 = Ok NoRequeue.
Proof.
  destruct (conflict_fails_lease example_reconciler releasing_server state_to_activate state_to_activate
              (lease_in GPULeasePhaseAdmitted) (example_pod "p0" "n1" "10.0.0.1" StateActivating (900 * Second))
              (1000 * Second) example_config releasing_machine NewHTTPClient)
    as (fail & Ha & _); [vm_compute; reflexivity..| |reflexivity| |].
  - discriminate.
  - vm_compute. split; discriminate || reflexivity.
  - exists fail. split; [exact Ha|vm_compute; reflexivity].
Defined.

End Server.
