(* ===== verification/Demand.v ===== *)
(** * The demand watcher: [src/internal/workload/demand.go]

    A pod watches one ConfigMap and publishes the demand of its Deployment.  The methods of
    [DemandWatcher] are programs over its state that write log lines and call [onUpdate];
    the informer, which is client-go's, is a source of notifications with its documented
    behaviour as a hypothesis.  The methods refine a specification without state: the last
    good reading, and a warning wherever a problem begins. *)

From Stdlib Require Import SpecFloat.
From S2P Require Import Prelude GoLib GoFloat.

Module Demand.

(** ** Data *)

Definition DefaultDemandConfigMapName : string := "gpu-lease-demand".

Record ConfigMap := {
  cm_Namespace : string;
  cm_Name : string;
  cm_Data : gmap string string;
}.

(** The object of a notification: a ConfigMap, or anything else the informer hands out
    (the tombstone of a deletion it missed). *)
Inductive Object := OConfigMap (cm : ConfigMap) | OOther.
Inductive Notification :=
  | Added (obj : Object)
  | Updated (old new : Object)
  | Deleted (obj : Object).

(** The fields of the struct, less the client and the logger; [dw_onUpdate] says whether
    there is a callback. *)
Record DemandWatcher := {
  dw_namespace : string;
  dw_cmName : string;
  dw_deployment : string;
  dw_onUpdate : bool;
  dw_value : spec_float;
  dw_lastWarning : string;
}.

(** What the watcher does besides changing its fields. *)
Inductive Output :=
  | LogInfo (msg : string)
  | LogWarn (msg : string)
  | OnUpdate (v : spec_float).
#[export] Instance spec_float_eq_dec : EqDecision spec_float.
Proof. solve_decision. Defined.
#[export] Instance Output_eq_dec : EqDecision Output.
Proof. solve_decision. Defined.

(** ** Methods *)

(** A method: from the fields to its result, the fields and the outputs in order. *)
Definition Method (A : Type) : Type := DemandWatcher → A * DemandWatcher * list Output.
#[export] Instance Method_ret : MRet Method := λ A a w, (a, w, []).
#[export] Instance Method_bind : MBind Method := λ A B f p w,
  let '(a, w1, o1) := p w in
  let '(b, w2, o2) := f a w1 in
  (b, w2, o1 ++ o2).

Definition get {A} (field : DemandWatcher → A) : Method A := λ w, (field w, w, []).
Definition emit (o : Output) : Method unit := λ w, (tt, w, [o]).
Definition set_warning (msg : string) : Method unit := λ w,
  (tt, {| dw_namespace := dw_namespace w; dw_cmName := dw_cmName w; dw_deployment := dw_deployment w;
          dw_onUpdate := dw_onUpdate w; dw_value := dw_value w; dw_lastWarning := msg |}, []).
Definition set_value (v : spec_float) : Method unit := λ w,
  (tt, {| dw_namespace := dw_namespace w; dw_cmName := dw_cmName w; dw_deployment := dw_deployment w;
          dw_onUpdate := dw_onUpdate w; dw_value := v; dw_lastWarning := dw_lastWarning w |}, []).

Definition NewDemandWatcher (namespace cmName deployment : string) (onUpdate : bool) : DemandWatcher :=
  {| dw_namespace := namespace;
     dw_cmName := if bool_decide (cmName = "") then DefaultDemandConfigMapName else cmName;
     dw_deployment := deployment; dw_onUpdate := onUpdate;
     dw_value := S754_zero false; dw_lastWarning := "" |}.

Definition Value : Method spec_float := get dw_value.

Definition fallback : Method spec_float := get dw_value.

Definition publish (v : spec_float) : Method unit :=
  f ← get dw_onUpdate;
  if f : bool then emit (OnUpdate v) else mret tt.

Definition warnOnce (msg : string) : Method unit :=
  last ← get dw_lastWarning;
  if bool_decide (last = msg) then mret tt
  else set_warning msg;; emit (LogWarn msg).

(** The two messages. *)
Definition no_key (w : DemandWatcher) : string :=
  "configmap " +:+ dw_namespace w +:+ "/" +:+ dw_cmName w +:+ " has no key " +:+
  Quote (dw_deployment w) +:+ "; keeping last known demand".
Definition not_a_number (w : DemandWatcher) (raw : string) : string :=
  "configmap " +:+ dw_namespace w +:+ "/" +:+ dw_cmName w +:+ " key " +:+ Quote (dw_deployment w) +:+
  " value " +:+ Quote raw +:+ " is not a number; keeping last known demand".

Definition applyConfigMap (cm : ConfigMap) : Method unit :=
  deployment ← get dw_deployment;
  match cm_Data cm !! deployment with
  | None =>
      msg ← get no_key;
      warnOnce msg;;
      v ← fallback;
      publish v
  | Some raw =>
      match ParseFloat raw with
      | inr _ =>
          msg ← get (λ w, not_a_number w raw);
          warnOnce msg;;
          v ← fallback;
          publish v
      | inl v =>
          set_value v;;
          set_warning "";;
          publish v
      end
  end.

(** The closures of [Run]: [handle], and the handler it registers with the informer. *)
Definition handle (obj : Object) : Method unit :=
  match obj with
  | OConfigMap cm => applyConfigMap cm
  | OOther => mret tt
  end.
Definition on_notification (n : Notification) : Method unit :=
  match n with
  | Added obj => handle obj
  | Updated _ new => handle new
  | Deleted _ => emit (LogInfo "demand configmap deleted; keeping last known demand")
  end.

Fixpoint on_notifications (ns : list Notification) : Method unit :=
  match ns with
  | [] => mret tt
  | n :: ns => on_notification n;; on_notifications ns
  end.

(** [Run], cancelled after the notifications [ns].  The informer selects the ConfigMap
    [dw_cmName] of the namespace [dw_namespace]. *)
Definition Run (ns : list Notification) : Method unit :=
  emit (LogInfo "watching demand configmap");;
  on_notifications ns.

(** ** Specification *)

Section Spec.
Context (w : DemandWatcher).

(** The ConfigMap a notification carries to [applyConfigMap]. *)
Definition applied (n : Notification) : option ConfigMap :=
  match n with
  | Added (OConfigMap cm) | Updated _ (OConfigMap cm) => Some cm
  | _ => None
  end.

(** A ConfigMap read for this Deployment: a demand, or what is wrong with it. *)
Definition reading (cm : ConfigMap) : spec_float + string :=
  match cm_Data cm !! dw_deployment w with
  | None => inr (no_key w)
  | Some raw => match ParseFloat raw with inl v => inl v | inr _ => inr (not_a_number w raw) end
  end.
Definition good (r : spec_float + string) : option spec_float :=
  match r with inl v => Some v | inr _ => None end.
Definition problem (r : spec_float + string) : option string :=
  match r with inl _ => None | inr msg => Some msg end.

(** The last good reading of a list, or the value [v0] from before. *)
Definition last_good (v0 : spec_float) (rs : list (spec_float + string)) : spec_float :=
  default v0 (last (omap good rs)).

(** Where a problem begins: a reading that is bad, and not in the same way as the one
    before it. *)
Definition begins (before now : option string) : list string :=
  match now with
  | Some msg => if bool_decide (before = Some msg) then [] else [msg]
  | None => []
  end.
Fixpoint beginnings (before : option string) (rs : list (spec_float + string)) : list string :=
  match rs with
  | [] => []
  | r :: rs => begins before (problem r) ++ beginnings (problem r) rs
  end.

(** The values published: after each reading, the last good one. *)
Fixpoint last_goods (v0 : spec_float) (rs : list (spec_float + string)) : list spec_float :=
  match rs with
  | [] => []
  | r :: rs => let v := default v0 (good r) in v :: last_goods v rs
  end.
End Spec.

(** The warnings and the published values among the outputs. *)
Definition warnings (o : list Output) : list string :=
  omap (λ x, match x with LogWarn m => Some m | _ => None end) o.
Definition published (o : list Output) : list spec_float :=
  omap (λ x, match x with OnUpdate v => Some v | _ => None end) o.

(** ** The informer *)

(** [samples h o]: [o] looks at the states of the history [h] in order, at some of them
    perhaps not at all and at others several times. *)
Inductive samples {A} : list A → list A → Prop :=
  | samples_nil h : samples h []
  | samples_skip x h o : samples h o → samples (x :: h) o
  | samples_see x h o : samples (x :: h) o → samples (x :: h) (x :: o).

(** The notifications for a sequence of states of the object, [None] when it does not
    exist. *)
Fixpoint notifications (old : option ConfigMap) (seen : list (option ConfigMap)) : list Notification :=
  match seen with
  | [] => []
  | new :: seen =>
      match old, new with
      | None, Some cm => [Added (OConfigMap cm)]
      | Some cm0, Some cm => [Updated (OConfigMap cm0) (OConfigMap cm)]
      | Some cm0, None => [Deleted (OConfigMap cm0)]
      | None, None => []
      end ++ notifications new seen
  end.

(** What client-go documents of an informer that has caught up with the history [h] of the
    one object it selects: it has handed out, in order, what it has seen of it, and it has
    seen the last state. *)
Definition caught_up (h : list (option ConfigMap)) (ns : list Notification) : Prop :=
  ∃ seen, samples h seen ∧ last seen = last h ∧ ns = notifications None seen.

(** ** The methods refine the specification *)

(** The fields a method does not change. *)
Definition same_config (w w' : DemandWatcher) : Prop :=
  dw_namespace w' = dw_namespace w ∧ dw_cmName w' = dw_cmName w ∧
  dw_deployment w' = dw_deployment w ∧ dw_onUpdate w' = dw_onUpdate w.

Lemma same_config_trans w1 w2 w3 : same_config w1 w2 → same_config w2 w3 → same_config w1 w3.
Proof. unfold same_config. intuition congruence. Qed.

Lemma reading_same_config w w' cm : same_config w w' → reading w' cm = reading w cm.
Proof. unfold reading, no_key, not_a_number. by intros (-> & -> & -> & _). Qed.

Lemma problem_nonempty w cm msg : problem (reading w cm) = Some msg → msg ≠ "".
Proof. unfold reading. repeat case_match; naive_solver. Qed.

(** [lastWarning] is the problem of the last reading, if it had one. *)
Definition remembers (w : DemandWatcher) (before : option string) : Prop :=
  dw_lastWarning w = default "" before ∧ before ≠ Some "".

(** One ConfigMap: the value, the published value and the warning. *)
Lemma applyConfigMap_spec w cm before :
  remembers w before →
  ∃ w' o, applyConfigMap cm w = (tt, w', o) ∧ same_config w w' ∧
    dw_value w' = default (dw_value w) (good (reading w cm)) ∧
    remembers w' (problem (reading w cm)) ∧
    warnings o = begins before (problem (reading w cm)) ∧
    published o = if dw_onUpdate w then [dw_value w'] else [].
Proof.
  intros [Hl Hb].
  pose proof (problem_nonempty w cm) as Hne.
  assert (∀ msg, dw_lastWarning w = msg ∧ msg ≠ "" ↔ before = Some msg) as Heq.
  { intros msg. rewrite Hl. destruct before as [b|]; simpl; split; intros H; [|simplify_eq; split|..];
      try congruence; destruct H; congruence. }
  unfold applyConfigMap, reading, begins, warnOnce, publish, fallback, get, emit, set_value, set_warning in *.
  unfold mbind, Method_bind, mret, Method_ret.
  destruct (cm_Data cm !! dw_deployment w) as [raw|]; [destruct (ParseFloat raw) as [v|e]|];
    cbn -[bool_decide no_key not_a_number] in *.
  all: [> |case_bool_decide as Hw..]; destruct w as [? ? ? [] ? lw]; cbn -[bool_decide no_key not_a_number] in *;
    eexists _, _; (split; [reflexivity|]); repeat split; cbn -[bool_decide no_key not_a_number]; try done;
    try (by intros [= E]; apply (Hne "")); try (by rewrite Hw);
    case_bool_decide; try done; exfalso; naive_solver.
Qed.

(** The outputs split at a sequence. *)
Lemma bind_run {A B} (p : Method A) (f : A → Method B) w a w1 o1 b w2 o2 :
  p w = (a, w1, o1) → f a w1 = (b, w2, o2) → (p ≫= f) w = (b, w2, o1 ++ o2).
Proof. intros E1 E2. unfold mbind, Method_bind. by rewrite E1, E2. Qed.

Lemma warnings_app o1 o2 : warnings (o1 ++ o2) = warnings o1 ++ warnings o2.
Proof. apply omap_app. Qed.
Lemma published_app o1 o2 : published (o1 ++ o2) = published o1 ++ published o2.
Proof. apply omap_app. Qed.

(** A notification applies its ConfigMap, or only logs. *)
Lemma on_notification_cases n w :
  match applied n with
  | Some cm => on_notification n w = applyConfigMap cm w
  | None => ∃ o, on_notification n w = (tt, w, o) ∧ warnings o = [] ∧ published o = []
  end.
Proof. destruct n as [[]|? []|[]]; simpl; try done; eexists; by split. Qed.

Definition readings (w : DemandWatcher) (ns : list Notification) : list (spec_float + string) :=
  reading w <$> omap applied ns.

Lemma readings_same_config w w' ns : same_config w w' → readings w' ns = readings w ns.
Proof. intros H. apply list_fmap_ext. intros i cm _. by apply reading_same_config. Qed.

Lemma last_good_cons v0 r rs : last_good v0 (r :: rs) = last_good (default v0 (good r)) rs.
Proof.
  unfold last_good. destruct r as [v|m]; [|done].
  change (omap good (inl v :: rs)) with (v :: omap good rs). rewrite last_cons. simpl.
  by destruct (last (omap good rs)).
Qed.

Lemma on_notifications_spec ns w before :
  remembers w before →
  ∃ w' o, on_notifications ns w = (tt, w', o) ∧ same_config w w' ∧
    dw_value w' = last_good (dw_value w) (readings w ns) ∧
    warnings o = beginnings before (readings w ns) ∧
    published o = if dw_onUpdate w then last_goods (dw_value w) (readings w ns) else [].
Proof.
  revert w before. induction ns as [|n ns IH]; intros w before Hb.
  { exists w, []. repeat split. by destruct (dw_onUpdate w). }
  pose proof (on_notification_cases n w) as Hn. cbn [on_notifications].
  destruct (applied n) as [cm|] eqn:En.
  - destruct (applyConfigMap_spec w cm before Hb) as (w1 & o1 & E1 & Hc & Hv & Hr & Hw & Hp).
    rewrite <-Hn in E1. destruct (IH w1 _ Hr) as (w2 & o2 & E2 & Hc2 & Hv2 & Hw2 & Hp2).
    rewrite (readings_same_config w w1) in * by done.
    exists w2, (o1 ++ o2). split; [by eapply bind_run|]. split; [by eapply same_config_trans|].
    unfold readings in *. simpl. rewrite En. simpl.
    rewrite warnings_app, published_app, Hw, Hw2, Hp, Hp2, Hv2, last_good_cons, Hv.
    destruct Hc as (_ & _ & _ & ->). split; [done|]. split; [done|]. by destruct (dw_onUpdate w).
  - destruct Hn as (o1 & E1 & Hw & Hp). destruct (IH w before Hb) as (w2 & o2 & E2 & Hc2 & Hv2 & Hw2 & Hp2).
    exists w2, (o1 ++ o2). split; [by eapply bind_run|]. split; [done|].
    unfold readings in *. simpl. rewrite En. by rewrite warnings_app, published_app, Hw, Hp.
Qed.

Lemma remembers_new namespace cmName deployment cb :
  remembers (NewDemandWatcher namespace cmName deployment cb) None.
Proof. by split. Qed.

(** The last of the published values is the last good reading. *)
Lemma last_goods_last v0 rs : default v0 (last (last_goods v0 rs)) = last_good v0 rs.
Proof.
  revert v0. induction rs as [|r rs IH]; intros v0; [done|].
  rewrite last_good_cons, <-IH. cbn [last_goods]. rewrite last_cons. simpl.
  by destruct (last (last_goods _ _)).
Qed.

Lemma last_good_nochange v0 rs : last_good v0 rs = v0 ∨ inl (last_good v0 rs) ∈ rs.
Proof.
  revert v0. induction rs as [|r rs IH]; intros v0; [by left|]. rewrite last_good_cons.
  destruct (IH (default v0 (good r))) as [->|H]; [|by right; right].
  destruct r as [v|m]; simpl; [right; left|by left].
Qed.

(** ** Properties *)

(** C24. The watcher refines its specification.  Whatever the informer hands out, the value
    is the last good reading (0 before there was one), a warning is logged exactly where
    a problem begins, that is at a bad reading that does not follow one that is bad in the
    same way, and the callback is called once per reading with the last good one. *)
Theorem demand_refines namespace cmName deployment cb ns :
  let w := NewDemandWatcher namespace cmName deployment cb in
  let rs := readings w ns in
  let zero := S754_zero false in
  let '(_, w', o) := Run ns w in
  Value w' = (last_good zero rs, w', []) ∧
  warnings o = beginnings None rs ∧
  published o = (if cb then last_goods zero rs else []).
Proof.
  cbv zeta. set (w := NewDemandWatcher _ _ _ _).
  destruct (on_notifications_spec ns w None) as (w' & o & E & _ & Hv & Hw & Hp); [by split|].
  unfold Run. unfold mbind, Method_bind at 1. simpl. rewrite E. split_and!; [|done..].
  unfold Value, get. by rewrite Hv.
Qed.

Lemma samples_elem {A} (h o : list A) x : samples h o → x ∈ o → x ∈ h.
Proof.
  induction 1 as [h|y h o _ IH|y h o _ IH]; intros Hx; [by apply elem_of_nil in Hx|right; auto|].
  apply elem_of_cons in Hx as [->|Hx]; [left|auto].
Qed.

Lemma notifications_applied old seen : omap applied (notifications old seen) = omap id seen.
Proof.
  revert old. induction seen as [|new seen IH]; intros old; [done|]. cbn [notifications].
  rewrite omap_app, IH. by destruct old, new.
Qed.

Lemma last_good_last v0 rs v : last rs = Some (inl v) → last_good v0 rs = v.
Proof.
  intros (rs' & ->)%last_Some. unfold last_good. rewrite omap_app. simpl. by rewrite last_snoc.
Qed.

(** The demand arrives.  Once the informer has caught up with the history of the
    ConfigMap, whatever it missed on the way: if the ConfigMap now has a number for the
    Deployment, the value is that number; and in any case it is 0 or a number the ConfigMap
    had for the Deployment at some time. *)
Lemma demand_converges namespace cmName deployment cb h ns :
  caught_up h ns →
  let w := NewDemandWatcher namespace cmName deployment cb in
  let v := (Value (Run ns w).1.2).1.1 in
  (∀ cm x, last h = Some (Some cm) → reading w cm = inl x → v = x) ∧
  (v = S754_zero false ∨ ∃ cm, Some cm ∈ h ∧ reading w cm = inl v).
Proof.
  intros (seen & Hs & Hl & ->). cbv zeta. set (w := NewDemandWatcher _ _ _ _).
  destruct (on_notifications_spec (notifications None seen) w None)
    as (w' & o & E & _ & Hv & _); [by split|].
  unfold Run, mbind, Method_bind. simpl. rewrite E. simpl. rewrite Hv. clear E.
  unfold readings. rewrite notifications_applied. split.
  - intros cm x Hc Hx. rewrite Hc in Hl. apply last_Some in Hl as (seen' & ->).
    apply last_good_last. rewrite omap_app, fmap_app. simpl. by rewrite last_snoc, Hx.
  - destruct (last_good_nochange (dw_value w) (reading w <$> omap id seen)) as [->|H]; [by left|right].
    apply list_elem_of_fmap in H as (cm & Hr & Hc). apply list_elem_of_omap in Hc as (o' & Ho & Heq).
    simpl in Heq. subst o'. exists cm. split; [by eapply samples_elem|done].
Qed.

(** ** Examples and witnesses *)

Definition demand_is (value : string) : ConfigMap :=
  {| cm_Namespace := "ns"; cm_Name := "gpu-lease-demand"; cm_Data := {[ "app" := value ]} |}.
Definition example_history : list (option ConfigMap) :=
  [None; Some (demand_is "20"); Some (demand_is "ten"); None; Some (demand_is "2.5e1")].
(** The informer missed the deletion. *)
Definition example_notifications : list Notification :=
  [Added (OConfigMap (demand_is "20")); Updated (OConfigMap (demand_is "20")) (OConfigMap (demand_is "ten"));
   Updated (OConfigMap (demand_is "ten")) (OConfigMap (demand_is "2.5e1"))].

Lemma demand_converges_witness :
  caught_up example_history example_notifications ∧
  (Value (Run example_notifications (NewDemandWatcher "ns" "" "app" true)).1.2).1.1 =
    float64_of_decimal false 25 0.
Proof.
  assert (caught_up example_history example_notifications) as H.
  { exists [None; Some (demand_is "20"); Some (demand_is "ten"); Some (demand_is "2.5e1")].
    split; [|done]. do 2 (apply samples_see, samples_skip). apply samples_see, samples_skip, samples_skip.
    apply samples_see, samples_nil. }
  split; [exact H|].
  apply (demand_converges "ns" "" "app" true example_history example_notifications H)
    with (cm := demand_is "2.5e1"); vm_compute; reflexivity.
Defined.

(** Two problems in alternation are logged every time. *)
Example alternating_problems :
  let bad x := Updated OOther (OConfigMap (demand_is x)) in
  length (warnings (Run [bad "x"; bad "y"; bad "x"; bad "y"] (NewDemandWatcher "ns" "" "app" true)).2) = 4%nat.
Proof. vm_compute. reflexivity. Qed.

(** A demand may be negative, infinite or not a number. *)
Example strange_demands :
  published (Run ((λ x, Updated OOther (OConfigMap (demand_is x))) <$> ["-3"; "+Inf"; "nan"])
               (NewDemandWatcher "ns" "" "app" true)).2 =
    [float64_of_decimal true 3 0; S754_infinity false; S754_nan].
Proof. vm_compute. reflexivity. Qed.

End Demand.
