(* ===== verification/PodServer.v ===== *)
(** * The pod's server as a whole: [src/internal/workload/server.go]

    [NewServer], the metrics the state machine does not feed (the demand
    gauge and the request counter), the requests to /infer that are being served and the
    demand watcher.  A step of the server is a request, the end of an /infer request, a
    notification of the informer or a step of the state machine's goroutines and timers. *)

From Stdlib Require Import SpecFloat.
From S2P Require Import Prelude GoLib GoFloat GoJSON GoJSONFacts Names Kube Effects PodClient Machine.
From S2P Require Import MachineFacts.
From S2P Require Import WorkloadServer Demand.
Import Workload Server Demand.

Module PodServer.

(** ** The server *)

(** The fields of [Server], with what runs in it: the state machine's process (whose gauges
    are four of the six metrics), the demand gauge, the request counter by status code, the
    /infer requests that sleep, with the time they wake up, and the demand watcher. *)
Record ServerState := {
  sv_cfg : Config;
  sv_process : Process;
  sv_demandRPS : spec_float;
  sv_requestsTotal : gmap string Z;
  sv_inflight : list Z;
  sv_demand : option DemandWatcher;
}.

(** [NewServer] at the time [now]; [k8sClient] says whether there is a client. *)
Definition NewServer (cfg : Config) (k8sClient : bool) (now : Z) : ServerState :=
  {| sv_cfg := cfg;
     sv_process :=
       start {| WarmupDuration := cf_WarmupDuration cfg; TeardownDuration := cf_TeardownDuration cfg |} now;
     sv_demandRPS := S754_zero false;
     sv_requestsTotal := ∅;
     sv_inflight := [];
     sv_demand :=
       if k8sClient
       then Some (NewDemandWatcher (cf_PodNamespace cfg) (cf_DemandConfigMapName cfg) (cf_DeploymentName cfg) true)
       else None |}.

(** The metrics [NewMetrics] registers: their names and constant labels. *)
Definition pod_labels (cfg : Config) : list (string * string) :=
  [("deployment", cf_DeploymentName cfg); ("pod", cf_PodName cfg); ("node", cf_NodeName cfg)].
Definition collectors (cfg : Config) : list (string * list (string * string)) :=
  [ ("gpulease_pod_hot", pod_labels cfg); ("gpulease_pod_capacity_rps", pod_labels cfg);
    ("gpulease_pod_gpu_id", pod_labels cfg);
    ("gpulease_demand_rps", [("deployment", cf_DeploymentName cfg)]);
    ("gpulease_requests_total", pod_labels cfg); ("gpulease_activation_seconds", pod_labels cfg) ].

(** [Addr]. *)
Definition Addr (s : ServerState) : string := ":" +:+ FormatInt10 DefaultPort.

Definition with_process (s : ServerState) (p : Process) : ServerState :=
  {| sv_cfg := sv_cfg s; sv_process := p; sv_demandRPS := sv_demandRPS s;
     sv_requestsTotal := sv_requestsTotal s; sv_inflight := sv_inflight s; sv_demand := sv_demand s |}.
Definition with_inflight (s : ServerState) (l : list Z) : ServerState :=
  {| sv_cfg := sv_cfg s; sv_process := sv_process s; sv_demandRPS := sv_demandRPS s;
     sv_requestsTotal := sv_requestsTotal s; sv_inflight := l; sv_demand := sv_demand s |}.

(** The count of one status code, zero if the counter has no such series. *)
Definition requests (s : ServerState) (code : Z) : Z :=
  default 0 (sv_requestsTotal s !! FormatInt10 code).

Definition ObserveRequest (s : ServerState) (code : Z) : ServerState :=
  {| sv_cfg := sv_cfg s; sv_process := sv_process s; sv_demandRPS := sv_demandRPS s;
     sv_requestsTotal := <[FormatInt10 code := requests s code + 1]> (sv_requestsTotal s);
     sv_inflight := sv_inflight s; sv_demand := sv_demand s |}.

Definition SetDemandRPS (s : ServerState) (v : spec_float) : ServerState :=
  {| sv_cfg := sv_cfg s; sv_process := sv_process s; sv_demandRPS := v;
     sv_requestsTotal := sv_requestsTotal s; sv_inflight := sv_inflight s; sv_demand := sv_demand s |}.

(** ** Requests *)

(** A request; [rq_jitter] is what [rand.IntN(20)] returns while it is served. *)
Record Request := {
  rq_method : string;
  rq_path : string;
  rq_body : Body;
  rq_jitter : Z;
}.

Definition simulatedInferLatencyBase : Z := 20 * Millisecond.

(** What the client gets at once: a status, and the body if it is that of GET /state (the
    texts of errors and the metrics page are left out); nothing yet for an /infer request
    that sleeps. *)
Inductive Response := Pending | Answer (status : Z) (body : option string).

(** [handleInfer] up to its [select]. *)
Definition inferStart (jitter : Z) (s : ServerState) : Response * ServerState :=
  if negb (IsHot (p_machine (sv_process s)))
  then (Answer StatusServiceUnavailable None, ObserveRequest s StatusServiceUnavailable)
  else
    (Pending,
     with_inflight s (sv_inflight s ++
       [p_now (sv_process s) + (simulatedInferLatencyBase + wrap64 (jitter * Millisecond))])).

(** The rest of it for a request that slept ([rest] are the others): the response is
    counted. *)
Definition inferDone (rest : list Z) (s : ServerState) : ServerState :=
  ObserveRequest (with_inflight s rest) StatusOK.

Definition serve (rq : Request) (s : ServerState) : Response * ServerState :=
  let p := sv_process s in
  match mux (rq_method rq) (rq_path rq) with
  | inr status => (Answer status None, s)
  | inl HActivate =>
      let '(status, m, after) := handleActivate (p_now p) (sv_cfg s) (rq_body rq) (p_machine p) in
      (Answer status None, with_process s (unlocked p m after (p_timers p)))
  | inl HRelease =>
      let '(status, m, after) := handleRelease (p_machine p) in
      (Answer status None, with_process s (unlocked p m after (p_timers p)))
  | inl HState =>
      let '(status, body) := handleState (p_machine p) in (Answer status (Some body), s)
  | inl HInfer => inferStart (rq_jitter rq) s
  | inl HHealthz => (Answer handleHealthz None, s)
  | inl HMetrics => (Answer StatusOK None, s)
  end.

(** ** Demand *)

(** The watcher's callback is [SetDemandRPS]. *)
Definition deliver (s : ServerState) (o : list Output) : ServerState :=
  foldl (λ s x, match x with OnUpdate v => SetDemandRPS s v | _ => s end) s o.

Definition set_demand (s : ServerState) (w : DemandWatcher) : ServerState :=
  {| sv_cfg := sv_cfg s; sv_process := sv_process s; sv_demandRPS := sv_demandRPS s;
     sv_requestsTotal := sv_requestsTotal s; sv_inflight := sv_inflight s; sv_demand := Some w |}.

Definition notified (n : Notification) (w : DemandWatcher) (s : ServerState) : ServerState :=
  let '(_, w', o) := on_notification n w in deliver (set_demand s w') o.

(** ** Steps *)

(** What happened in a step. *)
Inductive Label :=
  | LServe (rq : Request) (resp : Response)
  | LInferDone
  | LInferCancelled
  | LNotify (n : Notification)
  | LInternal.

Inductive sstep (s : ServerState) : Label → ServerState → Prop :=
  | ss_serve rq :
      sstep s (LServe rq (serve rq s).1) (serve rq s).2
  | ss_infer_done pre t post :
      sv_inflight s = pre ++ t :: post → t <= p_now (sv_process s) →
      sstep s LInferDone (inferDone (pre ++ post) s)
  | ss_infer_cancelled pre t post :
      sv_inflight s = pre ++ t :: post →
      sstep s LInferCancelled (with_inflight s (pre ++ post))
  | ss_notify n w :
      sv_demand s = Some w →
      sstep s (LNotify n) (notified n w s)
  | ss_internal p' :
      internal (cf_PodCapacityRPS (sv_cfg s)) (sv_process s) p' →
      sstep s LInternal (with_process s p').

(** The executions from a server, with what happened, the latest first. *)
Inductive execution (s0 : ServerState) : list Label → ServerState → Prop :=
  | exec_start : execution s0 [] s0
  | exec_step ls s l s' : execution s0 ls s → sstep s l s' → execution s0 (l :: ls) s'.

(** ** The state machine inside *)

Lemma unlocked_id p : unlocked p (p_machine p) None (p_timers p) = p.
Proof. by destruct p. Qed.

(** What a request does to the process: nothing, or one of the two steps of the machine. *)
Lemma serve_process rq s :
  sv_cfg (serve rq s).2 = sv_cfg s ∧
  (sv_process (serve rq s).2 = sv_process s ∨
   step (cf_NodeName (sv_cfg s)) (cf_PodCapacityRPS (sv_cfg s)) (sv_process s) (sv_process (serve rq s).2)).
Proof.
  unfold serve. destruct (mux _ _) as [[]|status]; simpl; auto.
  - unfold handleActivate. destruct (Decode (rq_body rq)) as [req|e]; simpl.
    + destruct (Activate _ _ _ _) as [[err m'] after] eqn:E. simpl. split; [done|right].
      pose proof (step_activate (cf_NodeName (sv_cfg s)) (cf_PodCapacityRPS (sv_cfg s)) (sv_process s) req) as H.
      by rewrite E in H.
    + rewrite unlocked_id. auto.
  - unfold handleRelease. destruct (Release _) as [m' after] eqn:E. simpl. split; [done|right].
    pose proof (step_release (cf_NodeName (sv_cfg s)) (cf_PodCapacityRPS (sv_cfg s)) (sv_process s)) as H.
    by rewrite E in H.
  - unfold inferStart. destruct (negb _); auto.
Qed.

Lemma deliver_fields s o :
  sv_cfg (deliver s o) = sv_cfg s ∧ sv_process (deliver s o) = sv_process s ∧
  sv_requestsTotal (deliver s o) = sv_requestsTotal s ∧ sv_inflight (deliver s o) = sv_inflight s ∧
  sv_demand (deliver s o) = sv_demand s ∧
  sv_demandRPS (deliver s o) = default (sv_demandRPS s) (last (published o)).
Proof.
  revert s. induction o as [|x o IH]; intros s; [done|]. cbn [deliver foldl].
  destruct (IH (match x with OnUpdate v => SetDemandRPS s v | _ => s end)) as (H1 & H2 & H3 & H4 & H5 & H6).
  unfold deliver in *. rewrite H1, H2, H3, H4, H5, H6. destruct x as [| |v]; simpl; try done.
  split_and!; try done. change (published (OnUpdate v :: o)) with (v :: published o). rewrite last_cons.
  by destruct (last (published o)).
Qed.

Lemma notified_fields n w s :
  sv_cfg (notified n w s) = sv_cfg s ∧ sv_process (notified n w s) = sv_process s ∧
  sv_requestsTotal (notified n w s) = sv_requestsTotal s ∧ sv_inflight (notified n w s) = sv_inflight s.
Proof.
  unfold notified. destruct (on_notification n w) as [[? w'] o].
  by destruct (deliver_fields (set_demand s w') o) as (-> & -> & -> & -> & _).
Qed.

Section Executions.
Context (cfg : Config) (k8sClient : bool) (now : Z).

Definition machine_config : MachineConfig :=
  {| WarmupDuration := cf_WarmupDuration cfg; TeardownDuration := cf_TeardownDuration cfg |}.

(** The server simulates its state machine: its executions are executions of the machine's
    process, with other steps in between. *)
Lemma execution_process ls s :
  execution (NewServer cfg k8sClient now) ls s →
  sv_cfg s = cfg ∧
  ∃ n, (n <= length ls)%nat ∧
    reachable (cf_NodeName cfg) (cf_PodCapacityRPS cfg) (start machine_config now) n (sv_process s).
Proof.
  induction 1 as [|ls s l s' _ [Hc (n & Hn & Hr)] Hs].
  { split; [done|]. exists 0%nat. split; [done|constructor]. }
  assert (sv_cfg s' = sv_cfg s ∧ (sv_process s' = sv_process s ∨
    step (cf_NodeName (sv_cfg s)) (cf_PodCapacityRPS (sv_cfg s)) (sv_process s) (sv_process s')))
    as [Hc' Hp].
  { destruct Hs as [rq|pre t post _ _|pre t post _|n0 w _|p' Hi]; try by auto using serve_process.
    - destruct (notified_fields n0 w s) as (-> & -> & _). auto.
    - split; [done|right]. by apply step_internal. }
  split; [congruence|]. rewrite Hc in Hp. destruct Hp as [->|Hp].
  - exists n. split; [simpl; lia|done].
  - exists (S n). split; [simpl; lia|by eapply reach_step].
Qed.

End Executions.

(** ** Which lease a pod holds *)

(** The step accepted the POST of the lease [req]. *)
Definition accepted (req : ActivateRequest) (l : Label) : Prop :=
  ∃ rq, l = LServe rq (Answer StatusAccepted None) ∧
    mux (rq_method rq) (rq_path rq) = inl HActivate ∧ Decode (rq_body rq) = Ok req.

(** The lease the machine is committed to, as the request for it. *)
Definition committed (m : Machine) : ActivateRequest :=
  {| ar_LeaseName := mc_leaseName m; ar_Node := mc_node m; ar_GPUID := mc_gpuID m;
     ar_GPUModel := mc_gpuModel m |}.

(** A machine that is not warm afterwards was not warm before and holds the same lease. *)
Definition keeps (m m' : Machine) : Prop :=
  mc_state m' ≠ Warm → mc_state m ≠ Warm ∧ committed m' = committed m.

Lemma keeps_fire p t : keeps (p_machine p) (fire p t).1.
Proof.
  unfold keeps, fire, completeWarmup, completeTeardown.
  destruct (tm_kind t); destruct (_ || _) eqn:E; simpl; try done.
  reflect_bools. apply dec_stable in H0. by rewrite H0.
Qed.

Lemma keeps_release m : keeps m (Release m).1.
Proof. unfold keeps, Release. destruct (mc_state m) eqn:E; simpl; rewrite ?E; done. Qed.

Lemma keeps_internal cap p p' : internal cap p p' → keeps (p_machine p) (p_machine p').
Proof.
  intros Hi. destruct Hi as [pre a post _|pre k g d post _|pre t post _ _|d _]; simpl; try done.
  apply keeps_fire.
Qed.

(** A POST of a lease is accepted by a warm pod of the right node, which takes it, or by a
    pod that holds it already; otherwise nothing changes. *)
Lemma activate_cases now req node m :
  match Activate now req node m with
  | (Ok _, m', _) => (mc_state m = Warm ∧ ar_Node req = node ∧ committed m' = req) ∨
                     (m' = m ∧ ar_LeaseName req = mc_leaseName m ∧ mc_state m ≠ Warm)
  | (Err _, m', _) => m' = m
  end.
Proof.
  unfold Activate. case_bool_decide as Hn; [done|].
  destruct (mc_state m) eqn:E; [left; by destruct req|case_bool_decide; [by right|done]..|done].
Qed.

Lemma handleActivate_accepts now cfg body m st m' o :
  handleActivate now cfg body m = (st, m', o) →
  match Decode body with
  | Err _ => st ≠ StatusAccepted ∧ m' = m
  | Ok req =>
      let '(err, m1, _) := Activate now req (cf_NodeName cfg) m in
      m' = m1 ∧ (st = StatusAccepted ↔ is_ok err = true)
  end.
Proof.
  unfold handleActivate. destruct (Decode body) as [req|e]; [|by intros [= <- <- <-]].
  destruct (Activate _ _ _ _) as [[err m1] after]. intros [= <- <- <-]. split; [done|].
  destruct err as [u|e]; simpl; [done|]. by repeat case_match.
Qed.

(** [Holds node ls m]: if the machine is not warm, the history [ls] has an accepted POST of
    just its lease, for this node, and every POST accepted after it named the same lease. *)
Definition Holds (node : string) (ls : list Label) (m : Machine) : Prop :=
  mc_state m ≠ Warm →
  ∃ newer l older, ls = newer ++ l :: older ∧ accepted (committed m) l ∧ mc_node m = node ∧
    ∀ l' req', l' ∈ newer → accepted req' l' → ar_LeaseName req' = mc_leaseName m.

(** The history grows by a step that keeps the lease. *)
Lemma Holds_cons node ls l m m' :
  keeps m m' → Holds node ls m →
  (∀ req, accepted req l → mc_state m ≠ Warm → ar_LeaseName req = mc_leaseName m) →
  Holds node (l :: ls) m'.
Proof.
  intros Hk Hh Hl Hw. destruct (Hk Hw) as [Hw0 Hc].
  destruct (Hh Hw0) as (newer & l0 & older & -> & Ha & Hn & Hall).
  exists (l :: newer), l0, older. rewrite Hc. injection Hc as E1 E2 E3 E4. rewrite E1, E2.
  split; [done|]. split; [done|]. split; [done|]. intros l' req' [->|Hl']%elem_of_cons Hacc; [by apply Hl|].
  by eapply Hall.
Qed.

(** One request. *)
Lemma Holds_serve rq s ls :
  Holds (cf_NodeName (sv_cfg s)) ls (p_machine (sv_process s)) →
  Holds (cf_NodeName (sv_cfg s)) (LServe rq (serve rq s).1 :: ls) (p_machine (sv_process (serve rq s).2)).
Proof.
  intros Hh. destruct (mux (rq_method rq) (rq_path rq)) as [h|st] eqn:Em; [destruct h|].
  { unfold serve. rewrite Em. destruct (handleActivate _ _ _ _) as [[st m'] after] eqn:E. simpl.
    apply handleActivate_accepts in E. destruct (Decode (rq_body rq)) as [req|e] eqn:Eb.
    - pose proof (activate_cases (p_now (sv_process s)) req (cf_NodeName (sv_cfg s)) (p_machine (sv_process s))) as Ha.
      destruct (Activate _ _ _ _) as [[err m1] o1]. destruct E as [-> Hst]. destruct err as [u|e].
      + destruct Ha as [(Hw & Hn & Hc)|(-> & Hl & Hw)].
        * intros _. exists [], (LServe rq (Answer st None)), ls. split; [done|].
          rewrite (proj2 Hst) by done. split; [rewrite Hc; by exists rq|]. split; [|set_solver].
          by rewrite <-Hn, <-Hc.
        * eapply Holds_cons; [|exact Hh|]; [done|]. intros req' (rq' & [= <- _] & _ & Hb) _. congruence.
      + subst m1. eapply Holds_cons; [|exact Hh|]; [done|]. intros req' (rq' & [= <- Hs] & _) _. naive_solver.
    - destruct E as [Hs ->]. eapply Holds_cons; [|exact Hh|]; [done|]. intros req' (rq' & [= <- ?] & _) _. done. }
  all: eapply Holds_cons; [|exact Hh|]; [|intros req (rq' & [= <- _] & Hm & _); congruence];
    unfold serve; rewrite Em; simpl; try done.
  - unfold handleRelease. pose proof (keeps_release (p_machine (sv_process s))) as Hk.
    by destruct (Release _) as [m' after].
  - unfold inferStart. by destruct (negb _).
Qed.

(** A pod holds only what it was given.  At any time, if the answer to GET /state shows a pod
    that is not warm, then a POST /lease for exactly the lease, node and GPU shown has been
    accepted, the node is the pod's own, and every POST accepted since then was for the same
    lease. *)
Lemma shown_lease_accepted cfg k8sClient now ls s rq status body st :
  execution (NewServer cfg k8sClient now) ls s →
  mux (rq_method rq) (rq_path rq) = inl HState →
  (serve rq s).1 = Answer status (Some body) → Decode (whole body) = Ok st → sr_State st ≠ StateWarm →
  ∃ req newer l older, ls = newer ++ l :: older ∧ accepted req l ∧
    sr_LeaseName st = coerceUTF8 (ar_LeaseName req) ∧ sr_Node st = coerceUTF8 (ar_Node req) ∧
    sr_GPUID st = ar_GPUID req ∧ ar_Node req = cf_NodeName cfg ∧
    ∀ l' req', l' ∈ newer → accepted req' l' → ar_LeaseName req' = ar_LeaseName req.
Proof.
  intros Hex Hm Hst Hdec Hw.
  assert (Holds (cf_NodeName cfg) ls (p_machine (sv_process s))) as Hh.
  { clear Hm Hst Hdec Hw. induction Hex as [|ls s l s' Hex IH Hs]; [by intros []|].
    apply execution_process in Hex as [Hc _].
    destruct Hs as [rq0|pre t post _ _|pre t post _|n w _|p' Hi].
    - rewrite <-Hc in *. by apply Holds_serve.
    - eapply Holds_cons; [|exact IH|]; [done|]. intros req Ha. by destruct Ha as (? & ? & _).
    - eapply Holds_cons; [|exact IH|]; [done|]. intros req Ha. by destruct Ha as (? & ? & _).
    - destruct (notified_fields n w s) as (_ & -> & _).
      eapply Holds_cons; [|exact IH|]; [done|]. intros req Ha. by destruct Ha as (? & ? & _).
    - eapply Holds_cons; [by eapply keeps_internal|exact IH|]. intros req Ha. by destruct Ha as (? & ? & _). }
  unfold serve in Hst. rewrite Hm in Hst. injection Hst as _ <-. rewrite decode_state_encoded in Hdec.
  case_bool_decide; [|done]. injection Hdec as <-. cbn in *.
  destruct Hh as (newer & l & older & -> & Ha & Hn & Hall); [by intros E; rewrite E in Hw|].
  exists (committed (p_machine (sv_process s))), newer, l, older. by split_and!.
Qed.

(** ** Accounting of requests *)

Definition is_infer (l : Label) : bool :=
  match l with
  | LServe rq _ => bool_decide (mux (rq_method rq) (rq_path rq) = inl HInfer)
  | _ => false
  end.
Definition is_refused (l : Label) : bool :=
  match l with
  | LServe rq (Answer _ _) => bool_decide (mux (rq_method rq) (rq_path rq) = inl HInfer)
  | _ => false
  end.
Definition is_done (l : Label) : bool := match l with LInferDone => true | _ => false end.
Definition is_cancelled (l : Label) : bool := match l with LInferCancelled => true | _ => false end.
Definition count (f : Label → bool) (ls : list Label) : Z := Z.of_nat (length (List.filter f ls)).

Lemma count_cons f l ls : count f (l :: ls) = (if f l then 1 else 0) + count f ls.
Proof. unfold count. simpl. destruct (f l); simpl; lia. Qed.

Lemma requests_ObserveRequest s code code' :
  requests (ObserveRequest s code) code' =
  requests s code' + (if bool_decide (FormatInt10 code = FormatInt10 code') then 1 else 0).
Proof.
  unfold requests, ObserveRequest. simpl. case_bool_decide as E.
  - rewrite E, lookup_insert_eq. simpl. unfold requests. by rewrite E.
  - rewrite lookup_insert_ne by done. lia.
Qed.

(** Between 200 and 503 the counter tells apart. *)
Lemma codes_differ : FormatInt10 StatusOK ≠ FormatInt10 StatusServiceUnavailable.
Proof. vm_compute. discriminate. Qed.

(** C25. Every /infer request is accounted for.  In every execution, the counter of 503 is
    the number of requests that were refused, that of 200 the number of requests that were
    answered after their sleep; and these, the requests that still sleep and those whose
    client went away, of which nothing is counted, are all the /infer requests that came. *)
Theorem infer_accounting cfg k8sClient now ls s :
  execution (NewServer cfg k8sClient now) ls s →
  requests s StatusServiceUnavailable = count is_refused ls ∧
  requests s StatusOK = count is_done ls ∧
  count is_infer ls =
    requests s StatusOK + requests s StatusServiceUnavailable + Z.of_nat (length (sv_inflight s)) +
    count is_cancelled ls.
Proof.
  induction 1 as [|ls s l s' _ (H1 & H2 & H3) Hs]; [done|].
  rewrite !count_cons. pose proof codes_differ as Hne.
  destruct Hs as [rq|pre t post Hi _|pre t post Hi|n w _|p' _]; simpl.
  - assert (∀ s1, requests (with_process s s1) = requests s) as Hp by done.
    unfold serve. destruct (mux (rq_method rq) (rq_path rq)) as [h|st] eqn:Em; [|simpl; lia].
    destruct h; try (simpl; lia).
    + destruct (handleActivate _ _ _ _) as [[st m'] o]. simpl. rewrite !Hp. lia.
    + destruct (handleRelease _) as [[st m'] o]. simpl. rewrite !Hp. lia.
    + unfold inferStart. destruct (negb _); simpl.
      * rewrite !requests_ObserveRequest. repeat case_bool_decide; try congruence; lia.
      * change (requests (with_inflight s ?l)) with (requests s). rewrite length_app. simpl. lia.
  - unfold inferDone. rewrite !requests_ObserveRequest.
    change (requests (with_inflight s ?l)) with (requests s). simpl.
    rewrite Hi, length_app in H3. rewrite length_app. simpl in *.
    repeat case_bool_decide; try congruence; lia.
  - change (requests (with_inflight s ?l)) with (requests s).
    rewrite Hi, length_app in H3. rewrite length_app. simpl in *. lia.
  - unfold requests. destruct (notified_fields n w s) as (_ & _ & -> & ->). fold (requests s StatusOK).
    unfold requests in *. lia.
  - change (requests (with_process s p')) with (requests s). lia.
Qed.

(** ** The demand gauge *)

Definition notification_of (l : Label) : option Notification :=
  match l with LNotify n => Some n | _ => None end.
(** The notifications of a history, in the order in which they came. *)
Definition notified_by (ls : list Label) : list Notification := omap notification_of (reverse ls).

Lemma notified_by_cons l ls : notified_by (l :: ls) = notified_by ls ++ option_list (notification_of l).
Proof. unfold notified_by. rewrite reverse_cons, omap_app. by destruct l. Qed.

Lemma last_good_snoc v0 rs r : last_good v0 (rs ++ [r]) = default (last_good v0 rs) (good r).
Proof.
  unfold last_good. rewrite omap_app. destruct r as [v|m]; simpl; [by rewrite last_snoc|].
  by rewrite app_nil_r.
Qed.

(** One notification: the gauge and the watcher's value stay the same and follow the
    specification. *)
Lemma notified_spec n w s before :
  remembers w before → dw_onUpdate w = true → sv_demandRPS s = dw_value w →
  ∃ w' before', sv_demand (notified n w s) = Some w' ∧ remembers w' before' ∧ same_config w w' ∧
    sv_demandRPS (notified n w s) = dw_value w' ∧
    dw_value w' = last_good (dw_value w) (readings w [n]).
Proof.
  intros Hr Hu Hg. unfold notified, readings. cbn [omap list_omap].
  pose proof (on_notification_cases n w) as Hn. destruct (applied n) as [cm|].
  - destruct (applyConfigMap_spec w cm before Hr) as (w' & o & E & Hc & Hv & Hr' & _ & Hp).
    rewrite Hn, E. destruct (deliver_fields (set_demand s w') o) as (_ & _ & _ & _ & -> & ->).
    rewrite Hp, Hu. exists w', (problem (reading w cm)). split_and!; try done.
    cbn [fmap list_fmap]. by rewrite last_good_cons, Hv.
  - destruct Hn as (o & -> & _ & Hp). destruct (deliver_fields (set_demand s w) o) as (_ & _ & _ & _ & -> & ->).
    rewrite Hp. exists w, before. by split_and!.
Qed.

(** The demand gauge.  At any time, gpulease_demand_rps is the last good reading for the
    pod's Deployment among the notifications so far, and so is the watcher's value; it is 0
    as long as there was none, and for ever without a Kubernetes client. *)
Lemma demand_gauge cfg k8sClient now ls s :
  execution (NewServer cfg k8sClient now) ls s →
  let w0 := NewDemandWatcher (cf_PodNamespace cfg) (cf_DemandConfigMapName cfg) (cf_DeploymentName cfg) true in
  sv_demandRPS s = last_good (S754_zero false) (readings w0 (notified_by ls)) ∧
  match sv_demand s with
  | Some w => k8sClient = true ∧ dw_value w = sv_demandRPS s
  | None => k8sClient = false ∧ notified_by ls = []
  end.
Proof.
  intros H. cbv zeta. set (w0 := NewDemandWatcher _ _ _ _).
  assert (sv_demandRPS s = last_good (S754_zero false) (readings w0 (notified_by ls)) ∧
    match sv_demand s with
    | Some w => k8sClient = true ∧ dw_value w = sv_demandRPS s ∧ same_config w0 w ∧ ∃ before, remembers w before
    | None => k8sClient = false ∧ notified_by ls = []
    end) as [Hg Hd].
  { induction H as [|ls s l s' _ [Hg Hd] Hs].
    { split; [done|]. unfold NewServer. simpl. destruct k8sClient; [|done].
      split_and!; try done. exists None. apply remembers_new. }
    rewrite notified_by_cons. destruct Hs as [rq|pre t post Hi _|pre t post Hi|n w Hw|p' _];
      simpl; rewrite ?app_nil_r; try done.
    - unfold serve. destruct (mux _ _) as [[]|]; simpl; try done.
      + by destruct (handleActivate _ _ _ _) as [[? ?] ?].
      + by destruct (handleRelease _) as [[? ?] ?].
      + unfold inferStart. by destruct (negb _).
    - rewrite Hw in Hd. destruct Hd as (Hk & Hv & Hc & before & Hb).
      destruct (notified_spec n w s before) as (w' & b' & E1 & E2 & E3 & E4 & E5); try done.
      { by destruct Hc as (_ & _ & _ & ->). }
      rewrite E1, E4, E5, (readings_same_config w0 w), Hv, Hg by done. split.
      + unfold readings. rewrite omap_app, fmap_app. unfold last_good at 2.
        destruct (omap applied [n]) as [|cm [|]] eqn:En; simpl; rewrite ?app_nil_r; [done| |].
        * by rewrite last_good_snoc, last_good_cons.
        * simpl in En. destruct (applied n); simplify_eq.
      + split_and!; [done|done|by eapply same_config_trans|by exists b']. }
  split; [done|]. destruct (sv_demand s); [|done]. by destruct Hd as (? & ? & _).
Qed.

(** ** Registration *)

(** No two collectors have the same name, so [MustRegister] does not panic; and the demand is
    the one series that all pods of a Deployment share. *)
Lemma collectors_distinct cfg : NoDup (collectors cfg).*1.
Proof. cbn. repeat (constructor; [set_solver|]). constructor. Qed.

Lemma demand_series_shared cfg cfg' series :
  cf_DeploymentName cfg = cf_DeploymentName cfg' → cf_PodName cfg ≠ cf_PodName cfg' →
  series ∈ collectors cfg ∧ series ∈ collectors cfg' ↔
    series = ("gpulease_demand_rps", [("deployment", cf_DeploymentName cfg)]).
Proof.
  intros Hd Hp. assert (pod_labels cfg ≠ pod_labels cfg') as Hl by (unfold pod_labels; congruence).
  unfold collectors. rewrite <-Hd, !elem_of_cons, !elem_of_nil. split; [|intros ->; tauto].
  intros [H1 H2]. destruct_or?; congruence.
Qed.

(** ** What requests can change *)

(** A handler is reached by its pattern only. *)
Lemma mux_inl method path h :
  mux method path = inl h → ∃ m, (m, path, h) ∈ routes ∧ method_matches m method = true.
Proof.
  unfold mux. destruct (List.find _ _) as [[[m p] h']|] eqn:E; [|done]. intros [= <-].
  apply List.find_some in E as [Hin Hm]. apply List.filter_In in Hin as [Hin Hp]. reflect_bools. subst p.
  exists m. split; [by apply list_elem_of_In|done].
Qed.

Lemma mux_unmatched method path :
  (∀ m h, (m, path, h) ∈ routes → method_matches m method = false) →
  mux method path =
    inr (if bool_decide (path ∈ (λ r, r.1.2) <$> routes) then StatusMethodNotAllowed else StatusNotFound).
Proof.
  intros Hno. unfold mux. set (here := List.filter _ routes).
  assert (∀ m p h, (m, p, h) ∈ here ↔ (m, p, h) ∈ routes ∧ p = path) as Hhere.
  { intros m p h. unfold here. rewrite !list_elem_of_In, List.filter_In. by rewrite bool_decide_eq_true. }
  destruct (List.find _ here) as [[[m p] h]|] eqn:E.
  { apply List.find_some in E as [Hin Hm]. apply list_elem_of_In, Hhere in Hin as [Hin ->].
    by rewrite (Hno m h Hin) in Hm. }
  f_equal. case_bool_decide as Hp.
  - apply list_elem_of_fmap in Hp as ([[m p] h] & -> & Hin). simpl in *.
    assert ((m, p, h) ∈ here) as Hh by (by apply Hhere). by destruct here; [apply elem_of_nil in Hh|].
  - destruct here as [|[[m p] h] here'] eqn:Eh; [done|]. destruct Hp.
    assert ((m, p, h) ∈ routes ∧ p = path) as [Hin <-] by (apply Hhere; left).
    apply list_elem_of_fmap. by exists (m, p, h).
Qed.

(** Routing.  The three requests of the controller's client reach their handlers;
    /healthz and /readyz answer 200 whatever the state of the pod; a request no pattern
    matches is answered with 405 if its path has a pattern for another method and with 404
    otherwise; and only POST and DELETE of /lease can touch the state machine. *)
Lemma routing rq s :
  mux "POST" "/lease" = inl HActivate ∧ mux "DELETE" "/lease" = inl HRelease ∧ mux "GET" "/state" = inl HState ∧
  (rq_method rq = "GET" → rq_path rq = "/healthz" ∨ rq_path rq = "/readyz" →
   serve rq s = (Answer StatusOK None, s)) ∧
  ((∀ m h, (m, rq_path rq, h) ∈ routes → method_matches m (rq_method rq) = false) →
   serve rq s =
     (Answer (if bool_decide (rq_path rq ∈ (λ r, r.1.2) <$> routes) then StatusMethodNotAllowed
              else StatusNotFound) None, s)) ∧
  (sv_process (serve rq s).2 ≠ sv_process s →
   rq_path rq = "/lease" ∧ (rq_method rq = "POST" ∨ rq_method rq = "DELETE")).
Proof.
  split_and!; try done.
  - unfold serve. intros -> [-> | ->]; done.
  - intros H. unfold serve. by rewrite mux_unmatched.
  - unfold serve. destruct (mux _ _) as [h|] eqn:E; [|done]. apply mux_inl in E as (m & Hin & Hm).
    intros Hp. assert (h = HActivate ∨ h = HRelease) as Hh.
    { destruct h; simpl in Hp; auto; [done|unfold inferStart in Hp; by destruct (negb _)|done..]. }
    unfold routes in Hin. set_unfold in Hin. unfold method_matches in Hm.
    destruct Hh as [-> | ->]; repeat destruct Hin as [Hin|Hin]; simplify_eq; try done;
      split; try done; apply orb_true_iff in Hm as [Hm|Hm]; reflect_bools; auto; done.
Qed.

(** ** Witnesses *)

Definition fresh : ServerState := NewServer example_config true 0.
Definition request (method path body : string) : Request :=
  {| rq_method := method; rq_path := path; rq_body := whole body; rq_jitter := 7 |}.
Definition post_infer : Request := request "POST" "/infer" "".
Definition demand_20 : Notification := Added (OConfigMap (demand_is "20")).

Lemma one_request rq : execution fresh [LServe rq (serve rq fresh).1] (serve rq fresh).2.
Proof. exact (exec_step _ _ _ _ _ (exec_start _) (ss_serve _ rq)). Qed.

Lemma infer_accounting_witness :
  requests (serve post_infer fresh).2 StatusServiceUnavailable = 1.
Proof.
  destruct (infer_accounting example_config true 0 _ _ (one_request post_infer)) as [H _].
  rewrite H. vm_compute. reflexivity.
Defined.

Lemma demand_gauge_witness :
  ∃ w, sv_demand fresh = Some w ∧ sv_demandRPS (notified demand_20 w fresh) = float64_of_decimal false 20 0.
Proof.
  eexists. split; [reflexivity|].
  destruct (demand_gauge example_config true 0 [LNotify demand_20] (notified demand_20
    (NewDemandWatcher "ns" "gpu-lease-demand" "app" true) fresh)) as [H _].
  - eapply exec_step; [apply exec_start|]. by apply ss_notify.
  - etransitivity; [exact H|]. vm_compute. reflexivity.
Defined.

End PodServer.
