(* ===== verification/WorkloadMain.v ===== *)
(** * The pod's process: [src/cmd/workload/main.go] and [ListenAndServe]

    The configuration from the environment, and the run of the process: the goroutine of
    the HTTP server, that of the demand watcher and the main goroutine, which waits for
    either the first to end or the process to be told to stop. *)

From Stdlib Require Import SpecFloat.
From S2P Require Import Prelude GoLib GoFloat FloatFacts Names Kube Effects PodClient.
From S2P Require Import Machine WorkloadServer Demand PodServer.
Import Workload Server.

Module WorkloadMain.

(** ** The environment *)

(** The variables that are set. *)
Definition Env : Type := gmap string string.
Definition Getenv (env : Env) (key : string) : string := default "" (env !! key).

(** The warnings of the loader: a value that is ignored, and a missing Deployment name. *)
Inductive Warning := IgnoredValue (key value : string) | NoDeploymentName.

Definition envString (env : Env) (key def : string) : string :=
  let v := Getenv env key in
  if bool_decide (v ≠ "") then v else def.

Definition envInt32 (env : Env) (key : string) (def : Z) : Z * list Warning :=
  let raw := Getenv env key in
  if bool_decide (raw = "") then (def, [])
  else
    match ParseInt10 32 raw with
    | inr _ => (def, [IgnoredValue key raw])
    | inl v => (wrap32 v, [])
    end.

Section LoadConfig.
Context `{FloatConversion}.

(** [time.Duration(v * float64(time.Second))]. *)
Definition seconds (v : spec_float) : Z := int64_of_float64 (SFmul 53 1024 v (float64_of_int Second)).

(** The comparison [v <= 0] is false for NaN. *)
Definition envSeconds (env : Env) (key : string) (def : Z) : Z * list Warning :=
  let raw := Getenv env key in
  if bool_decide (raw = "") then (def, [])
  else
    match ParseFloat raw with
    | inr _ => (def, [IgnoredValue key raw])
    | inl v =>
        if SFleb v (S754_zero false) then (def, [IgnoredValue key raw])
        else (seconds v, [])
    end.

Definition loadConfig (env : Env) : result Config * list Warning :=
  let nodeName := Getenv env "NODE_NAME" in
  let podNamespace := Getenv env "POD_NAMESPACE" in
  if bool_decide (nodeName = "") then
    (Err (PlainError "NODE_NAME is required (expected via the downward API, spec.nodeName)"), [])
  else if bool_decide (podNamespace = "") then
    (Err (PlainError "POD_NAMESPACE is required (expected via the downward API, metadata.namespace)"), [])
  else
    let '(capacity, w1) := envInt32 env "POD_CAPACITY_RPS" DefaultPodCapacityRPS in
    let '(warmup, w2) := envSeconds env "WARMUP_SECONDS" DefaultWarmupDuration in
    let '(teardown, w3) := envSeconds env "TEARDOWN_SECONDS" DefaultTeardownDuration in
    let cfg :=
      {| cf_NodeName := nodeName;
         cf_PodName := Getenv env "POD_NAME";
         cf_PodNamespace := podNamespace;
         cf_DeploymentName := Getenv env "DEPLOYMENT_NAME";
         cf_PodCapacityRPS := capacity;
         cf_WarmupDuration := warmup;
         cf_TeardownDuration := teardown;
         cf_DemandConfigMapName := envString env "DEMAND_CONFIGMAP" Demand.DefaultDemandConfigMapName |} in
    (Ok cfg, w1 ++ w2 ++ w3 ++ (if bool_decide (cf_DeploymentName cfg = "") then [NoDeploymentName] else [])).

End LoadConfig.

(** [buildK8sClient], given what [rest.InClusterConfig] and [kubernetes.NewForConfig] return:
    whether there is a client. *)
Definition buildK8sClient {RestConfig Client} (inCluster : result RestConfig)
    (newForConfig : RestConfig → result Client) : option Client :=
  match inCluster with
  | Err _ => None
  | Ok restCfg => match newForConfig restCfg with Err _ => None | Ok client => Some client end
  end.

(** ** The run *)

(** [http.ErrServerClosed]. *)
Definition ErrServerClosed : goerror := Sentinel "http.ErrServerClosed" "http: Server closed".

(** Where the main goroutine is in [ListenAndServe], and where the goroutine is that it
    starts for the HTTP server: what [Sending] holds goes to [errCh]. *)
Inductive MainPC := AtStart | AtSelect | InShutdown | Returned (r : option goerror).
Inductive ListenPC := NotStarted | Serving | Sending (v : option goerror) | Finished.
Inductive WatchPC := WNotStarted | Watching | WFinished.

(** The process: whether the context of the signal is cancelled, whether [cancelDemand] was
    called, the three goroutines, the channel, and whether [Shutdown] was called. *)
Record Run := {
  rn_ctx : bool;
  rn_cancelDemand : bool;
  rn_main : MainPC;
  rn_listen : ListenPC;
  rn_watch : WatchPC;
  rn_errCh : list (option goerror);
  rn_shutdown : bool;
}.

Definition begin : Run :=
  {| rn_ctx := false; rn_cancelDemand := false; rn_main := AtStart; rn_listen := NotStarted;
     rn_watch := WNotStarted; rn_errCh := []; rn_shutdown := false |}.

(** [make(chan error, 1)]. *)
Definition errCh_capacity : nat := 1.

(** What the goroutine sends for the error that the HTTP server returned. *)
Definition listen_result (err : goerror) : option goerror :=
  if negb (errors_Is err "http.ErrServerClosed") then Some err else None.

(** The deferred calls run when the function returns. *)
Definition return_ (r : option goerror) (s : Run) : Run :=
  {| rn_ctx := rn_ctx s; rn_cancelDemand := true; rn_main := Returned r; rn_listen := rn_listen s;
     rn_watch := rn_watch s; rn_errCh := rn_errCh s; rn_shutdown := rn_shutdown s |}.

Section ListenAndServe.
Context (demand : bool). (** is there a demand watcher? *)

(** The steps of the process.  [http.Server.ListenAndServe] always returns an error, which
    is [ErrServerClosed] after a [Shutdown] and only then; [Shutdown] returns, as its context has a timeout,
    an error or nil; [DemandWatcher.Run] returns when its context is cancelled. *)
Inductive rstep (s : Run) : Run → Prop :=
  | r_start :
      rn_main s = AtStart →
      rstep s {| rn_ctx := rn_ctx s; rn_cancelDemand := rn_cancelDemand s; rn_main := AtSelect;
                 rn_listen := Serving; rn_watch := if demand then Watching else WNotStarted;
                 rn_errCh := rn_errCh s; rn_shutdown := rn_shutdown s |}
  | r_listen err :
      rn_listen s = Serving →
      (if rn_shutdown s then err = ErrServerClosed else errors_Is err "http.ErrServerClosed" = false) →
      rstep s {| rn_ctx := rn_ctx s; rn_cancelDemand := rn_cancelDemand s; rn_main := rn_main s;
                 rn_listen := Sending (listen_result err); rn_watch := rn_watch s;
                 rn_errCh := rn_errCh s; rn_shutdown := rn_shutdown s |}
  | r_send v :
      rn_listen s = Sending v → (length (rn_errCh s) < errCh_capacity)%nat →
      rstep s {| rn_ctx := rn_ctx s; rn_cancelDemand := rn_cancelDemand s; rn_main := rn_main s;
                 rn_listen := Finished; rn_watch := rn_watch s; rn_errCh := rn_errCh s ++ [v];
                 rn_shutdown := rn_shutdown s |}
  | r_select_ctx :
      rn_main s = AtSelect → rn_ctx s = true →
      rstep s {| rn_ctx := rn_ctx s; rn_cancelDemand := rn_cancelDemand s; rn_main := InShutdown;
                 rn_listen := rn_listen s; rn_watch := rn_watch s; rn_errCh := rn_errCh s;
                 rn_shutdown := true |}
  | r_select_err v rest :
      rn_main s = AtSelect → rn_errCh s = v :: rest →
      rstep s (return_ v {| rn_ctx := rn_ctx s; rn_cancelDemand := rn_cancelDemand s;
                            rn_main := rn_main s; rn_listen := rn_listen s; rn_watch := rn_watch s;
                            rn_errCh := rest; rn_shutdown := rn_shutdown s |})
  | r_shutdown r :
      rn_main s = InShutdown → rstep s (return_ r s)
  | r_watch :
      rn_watch s = Watching → rn_ctx s || rn_cancelDemand s = true →
      rstep s {| rn_ctx := rn_ctx s; rn_cancelDemand := rn_cancelDemand s; rn_main := rn_main s;
                 rn_listen := rn_listen s; rn_watch := WFinished; rn_errCh := rn_errCh s;
                 rn_shutdown := rn_shutdown s |}.

(** A signal may arrive at any time. *)
Inductive estep (s : Run) : Run → Prop :=
  | e_step s' : rstep s s' → estep s s'
  | e_signal :
      rn_ctx s = false →
      estep s {| rn_ctx := true; rn_cancelDemand := rn_cancelDemand s; rn_main := rn_main s;
                 rn_listen := rn_listen s; rn_watch := rn_watch s; rn_errCh := rn_errCh s;
                 rn_shutdown := rn_shutdown s |}.

End ListenAndServe.

(** The exit status of [main]: that of a bad configuration, or of the error the server
    returned. *)
Definition main_status (cfg : result Config) (served : option goerror) : Z :=
  match cfg with
  | Err _ => 1
  | Ok _ => match served with Some _ => 1 | None => 0 end
  end.

(** ** Configuration *)

Section Config.
Context `{FloatConversion}.

Lemma envInt32_range env key def : int32_range def → int32_range (envInt32 env key def).1.
Proof.
  intros Hd. unfold envInt32. case_bool_decide; [done|].
  destruct (ParseInt10 32 _); simpl; auto using wrap32_range.
Qed.

Lemma envSeconds_range env key def : int64_range def → int64_range (envSeconds env key def).1.
Proof.
  intros Hd. unfold envSeconds. case_bool_decide; [done|].
  destruct (ParseFloat _) as [v|]; [|done]. destruct (SFleb _ _); [done|]. apply int64_of_float64_range.
Qed.

Lemma Second_val : Second = 1000000000.
Proof. done. Qed.

(** What a whole number of seconds, if one is written, stands for: only a positive one
    counts, and one that is written and does not count is reported. *)
Definition whole_seconds (def : Z) (o : option Z) : Z :=
  match o with Some n => if 0 <? n then n * Second else def | None => def end.
Definition whole_warning (key : string) (o : option Z) : list Warning :=
  match o with Some n => if 0 <? n then [] else [IgnoredValue key (FormatInt10 n)] | None => [] end.

(** The numbers of seconds that are considered: more than [- 2 ^ 53], and less than
    [2 ^ 62] nanoseconds, which is 146 years. *)
Definition seconds_range (o : option Z) : Prop :=
  match o with Some n => - 2 ^ 53 < n ∧ n * Second < 2 ^ 62 | None => True end.

Lemma FormatInt10_nonempty n : FormatInt10 n ≠ "".
Proof.
  unfold FormatInt10. destruct (pretty_Z_cases n) as [[_ ->]|[_ ->]]; [|done].
  destruct (pretty_N_nonempty (Z.to_N n)) as (c & s & -> & _). done.
Qed.

(** [10 ^ 9 = 5 ^ 9 * 2 ^ 9]: the product in nanoseconds has 53 significant bits. *)
Lemma seconds_exact n : 0 < n → n * Second < 2 ^ 62 → seconds (float64_of_int n) = n * Second.
Proof.
  intros Hn Hs. rewrite Second_val in Hs. unfold seconds. apply int64_of_float64_exact.
  - apply (mul_trunc n Second (n * 1953125) 9); rewrite ?Second_val; lia.
  - unfold int64_range. rewrite Second_val. lia.
Qed.

Lemma envSeconds_whole env key def o :
  env !! key = FormatInt10 <$> o → seconds_range o →
  envSeconds env key def = (whole_seconds def o, whole_warning key o).
Proof.
  intros Hk Ho. unfold envSeconds, Getenv. rewrite Hk. destruct o as [n|]; [|done]. cbn [fmap option_fmap option_map default].
  unfold id. rewrite bool_decide_eq_false_2 by apply FormatInt10_nonempty. cbn in Ho. rewrite Second_val in Ho.
  unfold whole_seconds, whole_warning. destruct (Z.ltb_spec 0 n).
  - rewrite ParseFloat_FormatInt by lia. unfold float64_of_int at 1. cbn [SFleb SFcompare].
    by rewrite seconds_exact by (rewrite ?Second_val; lia).
  - destruct (ParseFloat_nonpositive n) as (v & -> & Hv); [lia|]. by rewrite Hv.
Qed.

Lemma envInt32_exact env key def o :
  env !! key = FormatInt10 <$> o → int32_range (default def o) → envInt32 env key def = (default def o, []).
Proof.
  intros Hk Hn. unfold envInt32, Getenv. rewrite Hk. destruct o as [n|]; [|done].
  cbn [fmap option_fmap option_map default] in *. unfold id in *.
  rewrite bool_decide_eq_false_2 by apply FormatInt10_nonempty.
  rewrite (ParseInt_FormatInt 32 n ltac:(lia) Hn). by rewrite wrap32_id.
Qed.

(** C28. The configuration.  Loading it fails exactly when NODE_NAME or POD_NAMESPACE is
    empty.  Otherwise, whatever the other variables are and however the platform converts
    numbers that are out of range, the capacity is an int32, the demand ConfigMap has a
    name, and the machine of the server that is made from it warms up and tears down in a
    positive time. *)
Theorem loadConfig_sound env :
  match (loadConfig env).1 with
  | Err _ => Getenv env "NODE_NAME" = "" ∨ Getenv env "POD_NAMESPACE" = ""
  | Ok cfg =>
      cf_NodeName cfg = Getenv env "NODE_NAME" ∧ cf_NodeName cfg ≠ "" ∧
      cf_PodNamespace cfg = Getenv env "POD_NAMESPACE" ∧ cf_PodNamespace cfg ≠ "" ∧
      int32_range (cf_PodCapacityRPS cfg) ∧ cf_DemandConfigMapName cfg ≠ "" ∧
      let m := p_machine (PodServer.sv_process (PodServer.NewServer cfg true 0)) in
      0 < mc_warmup m < 2 ^ 63 ∧ 0 < mc_teardown m < 2 ^ 63
  end.
Proof.
  unfold loadConfig. case_bool_decide as Hn; [by left|]. case_bool_decide as Hp; [by right|].
  pose proof (envInt32_range env "POD_CAPACITY_RPS" DefaultPodCapacityRPS ltac:(done)) as Hc.
  pose proof (envSeconds_range env "WARMUP_SECONDS" DefaultWarmupDuration ltac:(done)) as Hw.
  pose proof (envSeconds_range env "TEARDOWN_SECONDS" DefaultTeardownDuration ltac:(done)) as Ht.
  destruct (envInt32 _ _ _) as [c w1], (envSeconds _ "WARMUP_SECONDS" _) as [w w2],
    (envSeconds _ "TEARDOWN_SECONDS" _) as [t w3]. simpl in *. split_and!; try done.
  - unfold envString. case_bool_decide; done.
  - unfold int64_range in *. destruct (Z.leb_spec w 0); [done|lia].
  - unfold int64_range in *. destruct (Z.leb_spec w 0); [done|lia].
  - unfold int64_range in *. destruct (Z.leb_spec t 0); [done|lia].
  - unfold int64_range in *. destruct (Z.leb_spec t 0); [done|lia].
Qed.

(** C29. Whole numbers in the environment.  Let both required variables be set, and let
    POD_CAPACITY_RPS, WARMUP_SECONDS and TEARDOWN_SECONDS each be unset or a decimal integer:
    the capacity an int32, the seconds between [- 2 ^ 53] and 146 years.  Then the configuration
    loads.  Its capacity is the number written, even if it is zero or negative.  The durations
    of the machine made from it are the positive numbers written, to the nanosecond; a number
    that is not positive is reported and replaced by the default, as one that is unset is
    without a report.  Nothing else is reported, but a missing Deployment name. *)
Theorem loadConfig_roundtrip env capacity warmup teardown :
  Getenv env "NODE_NAME" ≠ "" → Getenv env "POD_NAMESPACE" ≠ "" →
  env !! "POD_CAPACITY_RPS" = FormatInt10 <$> capacity → int32_range (default DefaultPodCapacityRPS capacity) →
  env !! "WARMUP_SECONDS" = FormatInt10 <$> warmup → seconds_range warmup →
  env !! "TEARDOWN_SECONDS" = FormatInt10 <$> teardown → seconds_range teardown →
  ∃ cfg, loadConfig env =
      (Ok cfg, whole_warning "WARMUP_SECONDS" warmup ++ whole_warning "TEARDOWN_SECONDS" teardown ++
               (if bool_decide (Getenv env "DEPLOYMENT_NAME" = "") then [NoDeploymentName] else [])) ∧
    cf_PodCapacityRPS cfg = default DefaultPodCapacityRPS capacity ∧
    let m := p_machine (PodServer.sv_process (PodServer.NewServer cfg true 0)) in
    mc_warmup m = whole_seconds DefaultWarmupDuration warmup ∧
    mc_teardown m = whole_seconds DefaultTeardownDuration teardown.
Proof.
  intros Hn Hp Hc Hcr Hw Hwr Ht Htr. unfold loadConfig.
  rewrite (bool_decide_eq_false_2 (Getenv env "NODE_NAME" = "")) by done.
  rewrite (bool_decide_eq_false_2 (Getenv env "POD_NAMESPACE" = "")) by done.
  rewrite (envInt32_exact _ _ _ capacity), (envSeconds_whole _ "WARMUP_SECONDS" _ warmup),
    (envSeconds_whole _ "TEARDOWN_SECONDS" _ teardown) by done.
  eexists. split; [reflexivity|]. split; [done|]. simpl.
  assert (∀ def o, 0 < def → 0 < whole_seconds def o) as Hpos.
  { intros def [k|] Hd; simpl; [|done]. destruct (Z.ltb_spec 0 k); [rewrite Second_val; lia|done]. }
  pose proof (Hpos DefaultWarmupDuration warmup ltac:(done)). pose proof (Hpos DefaultTeardownDuration teardown ltac:(done)).
  by split; rewrite (proj2 (Z.leb_gt _ _)) by done.
Qed.

End Config.

(** ** Termination *)

Section Termination.
Context (demand : bool).

(** The steps that are left to a process. *)
Definition steps_left (s : Run) : nat :=
  (if rn_ctx s then 0 else 1) +
  match rn_main s with AtStart => 6 | AtSelect => 2 | InShutdown => 1 | Returned _ => 0 end +
  match rn_listen s with Serving => 2 | Sending _ => 1 | NotStarted | Finished => 0 end +
  match rn_watch s with Watching => 1 | WNotStarted | WFinished => 0 end.

Lemma step_measure s s' :
  estep demand s s' → (rn_main s = AtStart → rn_listen s = NotStarted ∧ rn_watch s = WNotStarted ∧ rn_shutdown s = false) →
  (steps_left s' < steps_left s)%nat.
Proof.
  intros [s1 Hs|Hc] Hm; unfold steps_left; simpl; [|rewrite Hc; lia].
  destruct Hs as [Hs|err Hs _|v Hs _|Hs _|v rest Hs _|r Hs|Hs _]; simpl; rewrite ?Hs; try lia.
  destruct (Hm Hs) as (-> & -> & _). destruct demand; lia.
Qed.

(** The invariant of the process. *)
Record RInv (s : Run) : Prop := {
  ri_start : rn_main s = AtStart → rn_listen s = NotStarted ∧ rn_watch s = WNotStarted ∧ rn_shutdown s = false;
  ri_started : rn_main s ≠ AtStart → rn_listen s ≠ NotStarted;
  ri_empty : rn_listen s ≠ Finished → rn_errCh s = [];
  ri_select : rn_main s = AtSelect → rn_shutdown s = false ∧ (rn_listen s = Finished → rn_errCh s ≠ []);
  ri_shutdown : rn_shutdown s = true → rn_ctx s = true;
  ri_returning : rn_main s = InShutdown → rn_shutdown s = true;
  ri_returned r : rn_main s = Returned r →
    rn_cancelDemand s = true ∧ (rn_shutdown s = true ∨ rn_listen s = Finished);
  ri_status : rn_ctx s = false →
    rn_main s ≠ Returned None ∧ rn_listen s ≠ Sending None ∧ None ∉ rn_errCh s;
}.

Lemma RInv_begin : RInv begin.
Proof. constructor; simpl; try done. intros _. set_solver. Qed.

Lemma listen_result_error err :
  errors_Is err "http.ErrServerClosed" = false → listen_result err ≠ None.
Proof. unfold listen_result. by intros ->. Qed.

Lemma RInv_step s s' : RInv s → estep demand s s' → RInv s'.
Proof.
  intros [I1 I2 I3 I4 I5 I6 I7 I8] [s1 Hs|Hc]; [|by constructor].
  destruct s as [ctx cd pc lc wc ch sd]. simpl in *.
  destruct Hs as [Hs|err Hs He|v Hs Hc|Hs Hc|v rest Hs Hc|r Hs|Hs Hc]; simpl in *; subst.
  all: constructor; simpl; intros; try done; try (intuition congruence).
  all: try match goal with H : _ = Returned _ |- _ => destruct (I7 _ H); intuition congruence end.
  - destruct I8 as (H1 & H2 & H3); [done|]. split_and!; try done. intros [= E].
    destruct sd; [by specialize (I5 eq_refl); congruence|]. by apply listen_result_error in He.
  - split; [by apply I4|]. by destruct ch.
  - destruct I8 as (H1 & H2 & H3); [done|]. split_and!; try done. set_solver.
  - split; [done|right]. destruct lc; try done; by specialize (I3 ltac:(discriminate)).
  - destruct I8 as (H1 & H2 & H3); [done|]. apply not_elem_of_cons in H3 as [H3 H4].
    split_and!; [congruence|done|done].
Qed.

Lemma RInv_reachable s : rtc (estep demand) begin s → RInv s.
Proof.
  intros Hr. eapply (rtc_ind_r RInv); [apply RInv_begin| |exact Hr].
  intros x y _ Hs Hx. by eapply RInv_step.
Qed.

Lemma steps_bound n s : nsteps (estep demand) n begin s → (n + steps_left s <= 7)%nat.
Proof.
  intros Hn. assert (∀ k x y, nsteps (estep demand) k x y → RInv x → (k + steps_left y <= steps_left x)%nat) as H.
  { induction 1 as [x|k x y z Hs _ IH]; intros Hx; [done|].
    pose proof (step_measure x y Hs (ri_start _ Hx)). specialize (IH (RInv_step _ _ Hx Hs)). lia. }
  apply (H _ _ _ Hn RInv_begin).
Qed.

(** Something made the process stop: a signal, or the HTTP server returned. *)
Definition stopping (s : Run) : bool :=
  rn_ctx s || match rn_listen s with Sending _ | Finished => true | NotStarted | Serving => false end.

(** Nothing runs any more. *)
Definition all_done (s : Run) : Prop :=
  (∃ r, rn_main s = Returned r) ∧ rn_listen s = Finished ∧ rn_watch s ≠ Watching.

Lemma returned_done s r :
  RInv s → rn_main s = Returned r → (∀ s', ¬ rstep demand s s') → all_done s.
Proof.
  intros I Hm Hno. destruct (ri_returned _ I r Hm) as [Hc Hs]. split; [by exists r|]. split.
  - destruct (rn_listen s) as [| |v|] eqn:E; [|exfalso..|done].
    + destruct (ri_started _ I); congruence.
    + destruct Hs as [Hs|Hs]; [|congruence]. eapply Hno, (r_listen _ _ ErrServerClosed); [done|]. by rewrite Hs.
    + eapply Hno, (r_send _ _ v); [done|]. rewrite (ri_empty _ I) by congruence. unfold errCh_capacity. simpl. lia.
  - intros Hw. eapply Hno, r_watch; [done|]. by rewrite Hc, orb_true_r.
Qed.

(** C23. The process ends.  [ListenAndServe] takes at most seven steps, whatever happens in
    which order; as soon as a signal has come or the HTTP server has returned, it can only
    stop with the function returned, the HTTP goroutine finished (its send on the channel
    never blocks it) and no demand watcher running; and it does not return success, for
    which the process would exit with status 0, unless a signal came. *)
Theorem ListenAndServe_ends n s :
  nsteps (estep demand) n begin s →
  (n <= 7)%nat ∧
  (stopping s = true → (∀ s', ¬ rstep demand s s') → all_done s) ∧
  (∀ r cfg, rn_main s = Returned r → main_status (Ok cfg) r = 0 → rn_ctx s = true).
Proof.
  intros Hn. pose proof (steps_bound n s Hn) as Hb. apply rtc_nsteps_2 in Hn as Hr.
  pose proof (RInv_reachable s Hr) as I. split; [lia|]. split.
  - intros Hs Hno. destruct (rn_main s) as [| | |r] eqn:Em.
    + exfalso. by eapply Hno, r_start.
    + exfalso. destruct (ri_select _ I Em) as [Hsd Hf]. unfold stopping in Hs.
      destruct (rn_ctx s) eqn:Ec; [by eapply Hno, r_select_ctx|]. simpl in Hs.
      destruct (rn_listen s) as [| |v|] eqn:El; try done.
      * eapply Hno, (r_send _ _ v); [done|]. rewrite (ri_empty _ I) by congruence. unfold errCh_capacity. simpl. lia.
      * destruct (rn_errCh s) as [|v rest] eqn:Ech; [by destruct Hf|]. by eapply Hno, (r_select_err _ _ v rest).
    + exfalso. by eapply Hno, (r_shutdown _ _ None).
    + by eapply returned_done.
  - intros r cfg Hm Hst. destruct (rn_ctx s) eqn:Ec; [done|].
    destruct (ri_status _ I Ec) as (Hne & _). destruct r; [done|congruence].
Qed.

End Termination.

(** ** Witnesses *)

Definition example_env : Env :=
  {[ "NODE_NAME" := "n1"; "POD_NAMESPACE" := "ns"; "DEPLOYMENT_NAME" := "app"; "POD_CAPACITY_RPS" := "-4";
     "WARMUP_SECONDS" := "4000000000"; "TEARDOWN_SECONDS" := "-1" ]}.

Lemma loadConfig_roundtrip_witness :
  ∃ cfg, @loadConfig amd64 example_env = (Ok cfg, [IgnoredValue "TEARDOWN_SECONDS" "-1"]) ∧
    cf_PodCapacityRPS cfg = -4 ∧
    let m := p_machine (PodServer.sv_process (PodServer.NewServer cfg true 0)) in
    mc_warmup m = 4000000000 * Second ∧ mc_teardown m = DefaultTeardownDuration.
Proof.
  apply (@loadConfig_roundtrip amd64 example_env (Some (-4)) (Some 4000000000) (Some (-1)));
    solve [discriminate | reflexivity | vm_compute; reflexivity | vm_compute; split; congruence].
Defined.

(** A run that is told to stop: the HTTP server and the watcher are shut down. *)
Definition stopped : Run :=
  {| rn_ctx := true; rn_cancelDemand := true; rn_main := Returned None; rn_listen := Finished;
     rn_watch := WFinished; rn_errCh := [None]; rn_shutdown := true |}.

Lemma stopped_run : nsteps (estep true) 7 begin stopped.
Proof.
  eapply nsteps_l; [apply e_step, r_start; reflexivity|].
  eapply nsteps_l; [apply e_signal; reflexivity|].
  eapply nsteps_l; [apply e_step, r_select_ctx; reflexivity|].
  eapply nsteps_l; [apply e_step, (r_listen _ _ ErrServerClosed); reflexivity|].
  eapply nsteps_l; [apply e_step, r_send; [reflexivity|simpl; unfold errCh_capacity; lia]|].
  eapply nsteps_l; [apply e_step, (r_shutdown _ _ None); reflexivity|].
  eapply nsteps_l; [apply e_step, r_watch; reflexivity|]. apply nsteps_O.
Qed.

Lemma ListenAndServe_ends_witness : all_done stopped.
Proof.
  apply (ListenAndServe_ends true 7 stopped stopped_run); [reflexivity|].
  intros s' Hs. destruct Hs as [Hs|? Hs|? Hs|Hs|? ? Hs|? Hs|Hs]; discriminate Hs.
Defined.

(** Durations that are not numbers or do not fit: the platform decides, and what is not
    positive is replaced by the default. *)
Example odd_seconds :
  let env v : Env := {[ "NODE_NAME" := "n1"; "POD_NAMESPACE" := "ns"; "WARMUP_SECONDS" := v ]} in
  let warmup fc v := cf_WarmupDuration <$> match (@loadConfig fc (env v)).1 with Ok c => Some c | Err _ => None end in
  warmup amd64 "NaN" = Some (- 2 ^ 63) ∧ warmup arm64 "NaN" = Some 0 ∧
  warmup amd64 "1e10" = Some (- 2 ^ 63) ∧ warmup arm64 "1e10" = Some (2 ^ 63 - 1) ∧
  warmup amd64 "0.5" = Some (Second / 2).
Proof. vm_compute. repeat split. Qed.

End WorkloadMain.
