(* ===== verification/Protocol.v ===== *)
(** * The protocol the reconcilers keep with the API server

    A weakest-precondition calculus for programs that call the cluster, in which every
    call has to meet an obligation and every answer is known to be truthful; and the
    proof that both reconcilers, as a whole, meet their obligations about leases. *)

From S2P Require Import Prelude GoLib Names Kube Effects MemServer Scenario Inventory PodClient.
From S2P Require Import Pods Kueue GPULeaseController GPULeaseFacts LeaseLifecycle.
From S2P Require Import WarmPoolController WarmPoolFacts.

Section Protocol.
Context `{KL : KubeLib}.

(** ** Obligations and assumptions *)

(** The name of the lease is the one that stands for its node and GPU. *)
Definition well_named (l : GPULease) : Prop :=
  lease_Name l = LeaseName (spec_NodeName (lease_Spec l)) (spec_GPUID (lease_Spec l)).

(** How the status of a lease may be rewritten: only under our finalizer, to Releasing
    once the lease is being deleted, and along the life cycle otherwise. *)
Definition status_step (l l' : GPULease) : Prop :=
  same_but_status l l' ∧ ContainsFinalizer (lease_Finalizers l) Finalizer = true ∧
  match lease_DeletionTimestamp l with
  | Some _ => st_Phase (lease_Status l') = GPULeasePhaseReleasing
  | None => phase_step (st_Phase (lease_Status l)) (st_Phase (lease_Status l'))
  end.

(** How its finalizers may be rewritten: ours is added to a lease that is not being
    deleted, and removed from one that is and has been released, or that has failed. *)
Inductive finalizer_step (l : GPULease) : GPULease → Prop :=
  | finalizer_added :
      lease_DeletionTimestamp l = None →
      finalizer_step l (with_finalizers l (AddFinalizer (lease_Finalizers l) Finalizer))
  | finalizer_removed_deleted :
      is_Some (lease_DeletionTimestamp l) → st_Phase (lease_Status l) = GPULeasePhaseReleasing →
      finalizer_step l (with_finalizers l (RemoveFinalizer (lease_Finalizers l) Finalizer))
  | finalizer_removed_failed :
      lease_DeletionTimestamp l = None → st_Phase (lease_Status l) = GPULeasePhaseFailed →
      finalizer_step l (with_finalizers l (RemoveFinalizer (lease_Finalizers l) Finalizer)).

(** A lease under another resource version. *)
Definition with_version (l : GPULease) (rv : Z) : GPULease :=
  stored_lease rv (lease_Generation l) (lease_CreationTimestamp l) (lease_DeletionTimestamp l)
    (lease_Finalizers l) l (lease_Status l).

(** What is known of the leases: [K l] if [l] was stored at some time. *)
Definition Known := GPULease → Prop.

(** What a reconciler has to see to before it makes a call: a new lease has the right
    name, and a write is a change of the finalizers, or of the status, that is allowed for
    a lease that was stored at some time. *)
Definition call_ok (K : Known) {R} (e : Eff R) : Prop :=
  match e with
  | CreateLease l => well_named l
  | UpdateLease l' => ∃ l, K l ∧ finalizer_step l l'
  | UpdateLeaseStatus l' => ∃ l, K l ∧ status_step l l'
  | _ => True
  end.

(** What it may assume of the answer: the leases in it were stored at some time (they may
    be out of date, as a cache is), and what a write returns is what was written. *)
Definition answer_ok (K : Known) {R} (e : Eff R) : R → Prop :=
  match e in Eff R return R → Prop with
  | GetLease _ | CreateLease _ => λ r, match r with Ok l => K l | Err _ => True end
  | UpdateLease l | UpdateLeaseStatus l =>
      λ r, match r with Ok l' => K l' ∧ ∃ rv, l' = with_version l rv | Err _ => True end
  | ListLeases => λ r, match r with Ok ls => Forall K ls | Err _ => True end
  | _ => λ _, True
  end.

Definition grows (K K' : Known) : Prop := ∀ l, K l → K' l.

(** ** The calculus *)

(** [wp p K Q]: started when [K] is known, [p] meets every obligation, and its result
    satisfies [Q], as long as the answers are truthful.  What is known can only grow. *)
Fixpoint wp {A} (p : Prog A) (K : Known) (Q : Known → A → Prop) : Prop :=
  match p with
  | Ret a => Q K a
  | Vis e k => call_ok K e ∧ ∀ K' r, grows K K' → answer_ok K' e r → wp (k r) K' Q
  end.

Lemma grows_refl K : grows K K.
Proof. by intros l. Qed.

Lemma grows_trans K K' K'' : grows K K' → grows K' K'' → grows K K''.
Proof. intros H1 H2 l Hl. auto. Qed.

Lemma call_ok_mono K K' {R} (e : Eff R) : grows K K' → call_ok K e → call_ok K' e.
Proof.
  intros HK. destruct e; simpl; try done.
  - intros (l0 & ? & ?). exists l0. auto.
  - intros (l0 & ? & ?). exists l0. auto.
Qed.

Lemma wp_mono {A} (p : Prog A) K K' Q Q' :
  grows K K' → (∀ K1 a, grows K' K1 → Q K1 a → Q' K1 a) →
  (∀ K1 K2 a, grows K1 K2 → Q K1 a → Q K2 a) → wp p K Q → wp p K' Q'.
Proof.
  revert K K'. induction p as [a|R e k IH]; intros K K' HK HQ Hup; cbn [wp].
  - intros H. apply HQ; [apply grows_refl|]. by eapply Hup.
  - intros [Hc H]. split; [by eapply call_ok_mono|]. intros K1 r0 H1 Ha.
    eapply (IH r0 K1); [apply grows_refl| |done|].
    + intros K2 a H2. apply HQ. by eapply grows_trans.
    + apply H; [by eapply grows_trans|done].
Qed.

Lemma wp_bind {A B} (p : Prog A) (f : A → Prog B) K Q :
  wp p K (λ K' a, wp (f a) K' Q) → wp (bind p f) K Q.
Proof.
  revert K. induction p as [a|R e k IH]; intros K; cbn [bind wp]; [done|].
  intros [Hc H]. split; [done|]. intros K' r0 HK Ha. apply IH. auto.
Qed.

(** A program without obligations, whose result does not matter. *)
Fixpoint harmless {A} (p : Prog A) : Prop :=
  match p with
  | Ret _ => True
  | Vis e k => (∀ K, call_ok K e) ∧ ∀ r, harmless (k r)
  end.

Lemma harmless_bind {A B} (p : Prog A) (f : A → Prog B) :
  harmless p → (∀ a, harmless (f a)) → harmless (bind p f).
Proof.
  induction p as [a|R e k IH]; cbn [harmless bind]; [auto|].
  intros [Hc H] Hf. split; [done|]. intros r0. by apply IH.
Qed.

Lemma wp_harmless {A} (p : Prog A) K Q :
  harmless p → (∀ K' a, grows K K' → Q K' a) → wp p K Q.
Proof.
  revert K. induction p as [a|R e k IH]; intros K; cbn [harmless wp].
  - intros _ HQ. apply HQ, grows_refl.
  - intros [Hc H] HQ. split; [done|]. intros K' r0 HK _. apply IH; [done|].
    intros K'' a HK'. apply HQ. by eapply grows_trans.
Qed.

(** A program that only reads is harmless. *)
Definition some_answer {R} (e : Eff R) : R :=
  let err {A} : result A := Err (PlainError "") in
  match e in Eff R return R with
  | ClockNow | TimeNow => 0
  | RecordEvent _ _ _ _ | MetricSet _ _ _ | MetricInc _ _ => tt
  | DeleteLease _ | DeleteWorkload _ _ | PodActivate _ _ | PodRelease _ => err
  | GetLease _ | CreateLease _ | UpdateLease _ | UpdateLeaseStatus _ => err
  | ListLeases => err
  | GetPod _ _ | PatchPod _ _ => err
  | ListPods _ _ => err
  | GetDeployment _ _ => err
  | ListDeployments _ => err
  | GetNode _ => err
  | ListNodes => err
  | GetWorkload _ _ | CreateWorkload _ => err
  | ListResourceFlavors => err
  | PodState _ => err
  end.

Lemma no_act_ok {R} (e : Eff R) r K : act_of (MkObs e r) = None → call_ok K e.
Proof. by destruct e. Qed.

Lemma reads_harmless {A} (p : Prog A) : (∀ t a, runs p t a → acts t = []) → harmless p.
Proof.
  induction p as [a|R e k IH]; cbn [harmless]; [done|]. intros H.
  assert (∀ r0 t a, runs (k r0) t a → act_of (MkObs e r0) = None ∧ acts t = []) as Hk.
  { intros r0 t a Hr. specialize (H (MkObs e r0 :: t) a ltac:(cbn; eauto)).
    rewrite acts_cons in H. by destruct (act_of (MkObs e r0)). }
  split; [|intros r0; apply IH; intros; by eapply Hk].
  destruct (runs_total (k (some_answer e)) (@some_answer)) as (t & a & Hr).
  intros K. eapply no_act_ok. by apply Hk in Hr as [? _].
Qed.

(** ** Automation *)

(** [safe p K]: started when [K] is known, [p] meets every obligation. *)
Definition safe {A} (p : Prog A) (K : Known) : Prop := wp p K (λ _ _, True).

Lemma safe_bind_harmless {A B} (p : Prog A) (f : A → Prog B) K :
  harmless p → (∀ K' a, grows K K' → safe (f a) K') → safe (bind p f) K.
Proof. intros Hp Hf. apply wp_bind, wp_harmless; [done|]. intros K' a HK. by apply Hf. Qed.

Lemma safe_bind {A B} (p : Prog A) (f : A → Prog B) K :
  safe p K → (∀ K' a, grows K K' → safe (f a) K') → safe (bind p f) K.
Proof.
  intros Hp Hf. apply wp_bind. eapply wp_mono; [apply grows_refl| | |exact Hp]; [|done].
  intros K' a HK _. by apply Hf.
Qed.

Lemma safe_harmless {A} (p : Prog A) K : harmless p → safe p K.
Proof. intros Hp. by apply wp_harmless. Qed.

End Protocol.

Create HintDb harmless.

(** Show that a program is harmless, by following its calls and branches. *)
Ltac harmless_step :=
  match goal with
  | |- True => exact I
  | |- harmless (Ret _) => exact I
  | |- harmless (Vis ?e ?k) =>
      change ((∀ K, call_ok K e) ∧ ∀ r0, harmless (k r0)); split; [intros ?K; first [exact I|reflexivity]|intros ?r0]
  | |- harmless (call _) => unfold call
  | |- harmless (bind (call _) _) => cbn [bind call]
  | |- harmless (bind (Ret _) _) => cbn [bind]
  | |- harmless (bind _ _) => apply harmless_bind; [|intros ?a]
  | |- harmless (match ?x with _ => _ end) => destruct x eqn:?
  | |- harmless _ => solve [eauto with harmless]
  end.
Ltac harmless_walk := repeat harmless_step.

(** What was known stays known. *)
Ltac keep_known HK :=
  repeat match goal with
  | H : ?K ?l |- _ =>
      match type of HK with grows K _ => apply HK in H end
  end.

(** The same for [safe], with the obligations left to prove. *)
Ltac safe_step :=
  match goal with
  | |- safe (Ret _) _ => exact I
  | |- safe (Vis _ _) _ =>
      cbn [bind call]; split; [try exact I|intros ?K' ?r0 ?HK ?Ha; cbn [answer_ok] in *;
        match goal with HK : grows _ _ |- _ => keep_known HK; clear HK end;
        match goal with |- wp ?p ?K _ => change (safe p K) end]
  | |- safe (call _) _ => unfold call
  | |- safe (bind (call _) _) _ => cbn [bind call]
  | |- safe (bind (bind (call _) _) _) _ => cbn [bind call]
  | |- safe (bind (Ret _) _) _ => cbn [bind]
  | |- safe (bind (match ?x with _ => _ end) _) _ => destruct x eqn:?
  | |- safe (bind _ _) _ =>
      apply safe_bind_harmless; [solve [harmless_walk]|
        intros ?K' ?a ?HK; match goal with HK : grows _ _ |- _ => keep_known HK; clear HK end]
  | |- safe (match ?x with _ => _ end) _ => destruct x eqn:?
  end.
Ltac safe_walk := repeat safe_step.

(** ** The lease reconciler *)

Section Lease.
Context `{KL : KubeLib} (r : GPULeaseReconciler) `{HR : !LawfulReconciler r}.

Lemma event_harmless l ty reason msg : harmless (event r l ty reason msg).
Proof. unfold event. harmless_walk. Qed.
Hint Resolve event_harmless : harmless.

Lemma setLeaseCondition_harmless l ty st reason msg : harmless (setLeaseCondition l ty st reason msg).
Proof. unfold setLeaseCondition. harmless_walk. Qed.

Lemma getClaimPod_harmless l : harmless (getClaimPod l).
Proof. unfold getClaimPod. harmless_walk. Qed.
Hint Resolve getClaimPod_harmless : harmless.

Lemma releaseClaimPod_harmless l : harmless (releaseClaimPod l).
Proof. unfold releaseClaimPod, revertPodToWarm. harmless_walk. Qed.

Lemma deleteWorkload_harmless l : harmless (deleteWorkload l).
Proof. unfold deleteWorkload. harmless_walk. Qed.

Lemma deploymentSettings_harmless l : harmless (deploymentSettings l).
Proof. unfold deploymentSettings. harmless_walk. Qed.

Lemma setGauges_harmless g l : harmless (setGauges g l).
Proof. induction l as [|[node n] l IH]; cbn [setGauges]; harmless_walk. Qed.
Hint Resolve setGauges_harmless : harmless.

Lemma refreshMetrics_harmless : harmless (refreshMetrics r).
Proof.
  unfold refreshMetrics. harmless_walk. apply reads_harmless.
  match goal with E : glr_Inventory r = Some _ |- _ => pose proof (lawful_inventory _ E) end.
  apply inv_NodeFreeCounts_reads.
Qed.

Lemma expectedFlavorForNode_harmless node : harmless (expectedFlavorForNode node).
Proof. unfold expectedFlavorForNode. harmless_walk. Qed.

Hint Resolve setLeaseCondition_harmless releaseClaimPod_harmless deleteWorkload_harmless
  deploymentSettings_harmless refreshMetrics_harmless expectedFlavorForNode_harmless : harmless.

(** A write of the status of a lease under our finalizer that is not being deleted. *)
Lemma status_write_ok (K : Known) l l' :
  K l → ContainsFinalizer (lease_Finalizers l) Finalizer = true → lease_DeletionTimestamp l = None →
  same_but_status l l' → phase_step (st_Phase (lease_Status l)) (st_Phase (lease_Status l')) →
  ∃ l0, K l0 ∧ status_step l0 l'.
Proof. intros HK Hf Hd Hs Hp. exists l. split; [done|]. split; [done|]. by rewrite Hd. Qed.

Lemma transitionToFailed_safe K l reason msg :
  K l → ContainsFinalizer (lease_Finalizers l) Finalizer = true → lease_DeletionTimestamp l = None →
  live_phase (st_Phase (lease_Status l)) = true → safe (transitionToFailed r l reason msg) K.
Proof.
  intros HK Hf Hd Hl. unfold transitionToFailed, setLeaseCondition. safe_walk.
  eapply status_write_ok; [done|done|done|done|]. apply step_failed.
  clear -Hl. destruct (st_Phase (lease_Status l)); try done; set_solver.
Qed.

Section Phases.
Context (l : GPULease).
Context (Hf : ContainsFinalizer (lease_Finalizers l) Finalizer = true).
Context (Hd : lease_DeletionTimestamp l = None).

Ltac finish :=
  first
    [ eapply transitionToFailed_safe; [done|done|done|];
      match goal with E : st_Phase _ = _ |- _ => by rewrite E end
    | by apply safe_harmless; harmless_walk
    | eapply status_write_ok; [done|done|done|done|];
      match goal with E : st_Phase _ = _ |- _ => rewrite E end; simpl; eauto using phase_step ].

Lemma reconcilePending_safe (K : Known) :
  K l → st_Phase (lease_Status l) = PhaseEmpty ∨ st_Phase (lease_Status l) = GPULeasePhasePending →
  safe (reconcilePending r l) K.
Proof.
  intros HK Hp. unfold reconcilePending, createWorkload, evaluateAdmission, admitLease, setLeaseCondition, now.
  safe_walk; try finish.
  all: destruct Hp as [Hp|Hp]; try finish; rewrite Hp; eauto using phase_step.
Qed.

Lemma reconcileAdmitted_safe (K : Known) :
  K l → st_Phase (lease_Status l) = GPULeasePhaseAdmitted → safe (reconcileAdmitted r l) K.
Proof.
  intros HK Hp. unfold reconcileAdmitted, setLeaseCondition. safe_walk; finish.
Qed.

Lemma reconcileActivating_safe (K : Known) :
  K l → st_Phase (lease_Status l) = GPULeasePhaseActivating → safe (reconcileActivating r l) K.
Proof.
  intros HK Hp. unfold reconcileActivating, awaitHot, bindLease, markPodHot, now, setLeaseCondition.
  safe_walk; finish.
Qed.

Lemma reconcileBound_safe (K : Known) :
  K l → st_Phase (lease_Status l) = GPULeasePhaseBound → safe (reconcileBound r l) K.
Proof. intros HK Hp. unfold reconcileBound. safe_walk; finish. Qed.

End Phases.

Lemma finishDeletion_safe (K : Known) l :
  K l → is_Some (lease_DeletionTimestamp l) → st_Phase (lease_Status l) = GPULeasePhaseReleasing →
  safe (finishDeletion r l) K.
Proof.
  intros HK Hd Hp. unfold finishDeletion. safe_walk.
  exists l. split; [done|]. by apply finalizer_removed_deleted.
Qed.

Lemma reconcileDeletion_safe (K : Known) l :
  K l → is_Some (lease_DeletionTimestamp l) → safe (reconcileDeletion r l) K.
Proof.
  intros HK [t Hd]. unfold reconcileDeletion. safe_walk; reflect_bools.
  - exists l. split; [done|]. split; [done|]. split; [done|]. by rewrite Hd.
  - destruct Ha as [HK' [rv ->]]. apply finishDeletion_safe; [done| |done]. simpl. by rewrite Hd.
  - apply finishDeletion_safe; [done|by rewrite Hd|by apply dec_stable].
Qed.

Lemma Reconcile_safe K name : safe (Reconcile r name) K.
Proof.
  unfold Reconcile. safe_walk; reflect_bools.
  - apply safe_bind; [by apply reconcileDeletion_safe|]. intros. by apply safe_harmless; harmless_walk.
  - eexists. split; [done|]. apply finalizer_added. by apply eq_None_not_Some.
  - apply safe_bind; [|intros; by apply safe_harmless; harmless_walk].
    apply eq_None_not_Some in Heqb.
    unfold reconcilePhase. safe_walk; eauto using reconcilePending_safe, reconcileAdmitted_safe,
      reconcileActivating_safe, reconcileBound_safe.
Qed.

End Lease.

(** ** The WarmPool reconciler *)

Section Pool.
Context `{KL : KubeLib} (r : WarmPool.WarmPoolReconciler).
Context `{HI : !InventoryLaws (WarmPool.wpr_Inventory r)}.

Lemma pool_event_harmless dep ty reason msg : harmless (WarmPool.event r dep ty reason msg).
Proof. unfold WarmPool.event. harmless_walk. Qed.

Lemma patchPodStateLabel_harmless pod st : harmless (patchPodStateLabel pod st).
Proof. unfold patchPodStateLabel. harmless_walk. Qed.
Hint Resolve pool_event_harmless patchPodStateLabel_harmless : harmless.

(** Every lease it creates is named after its node and GPU. *)
Lemma createFirst_harmless dep s pod node model free :
  harmless (WarmPool.createFirst dep s pod node model free).
Proof. induction free as [|id free IH]; cbn [WarmPool.createFirst]; harmless_walk. Qed.
Hint Resolve createFirst_harmless : harmless.

Lemma inventory_harmless node :
  harmless (inv_FreeGPUIDs (WarmPool.wpr_Inventory r) node) ∧
  harmless (inv_NodeCapacity (WarmPool.wpr_Inventory r) node) ∧
  harmless (inv_NodeFreeCounts (WarmPool.wpr_Inventory r)).
Proof.
  split_and!; apply reads_harmless;
    [apply inv_FreeGPUIDs_reads|apply inv_NodeCapacity_reads|apply inv_NodeFreeCounts_reads].
Qed.

Lemma acquireLeaseOnNode_harmless dep s pod node : harmless (WarmPool.acquireLeaseOnNode r dep s pod node).
Proof. unfold WarmPool.acquireLeaseOnNode. harmless_walk; apply inventory_harmless. Qed.
Hint Resolve acquireLeaseOnNode_harmless : harmless.

Lemma promote_harmless dep s warm need free : harmless (WarmPool.promote r dep s warm need free).
Proof.
  unfold WarmPool.promote. apply harmless_bind; [|intros; harmless_walk].
  generalize (sortPromotionCandidates warm free) as pods, 0. intros pods. induction pods as [|pod pods IH];
    intros promoted; cbn [WarmPool.promoteLoop]; harmless_walk.
Qed.

Lemma demote_harmless dep hot need : harmless (WarmPool.demote r dep hot need).
Proof.
  unfold WarmPool.demote. apply harmless_bind; [unfold WarmPool.leasesForDeployment; harmless_walk|].
  intros [ls|]; [|harmless_walk]. generalize (sortDemotionCandidates hot) as pods, 0.
  intros pods. induction pods as [|pod pods IH]; intros demoted; cbn [WarmPool.demoteLoop]; harmless_walk.
Qed.
Hint Resolve promote_harmless demote_harmless : harmless.

Lemma balance_harmless dep s c target : harmless (WarmPool.balance r dep s c target).
Proof. unfold WarmPool.balance. harmless_walk. apply (inventory_harmless ""). Qed.

Lemma considerPods_harmless pods : harmless (WarmPool.considerPods pods).
Proof.
  induction pods as [|p pods IH]; cbn [WarmPool.considerPods]; [harmless_walk|].
  unfold initializePodWarmState. harmless_walk.
Qed.
Hint Resolve balance_harmless considerPods_harmless : harmless.

Lemma leasesForDeployment_known dep K :
  wp (WarmPool.leasesForDeployment dep) K
    (λ K' r, match r with Ok ls => Forall K' ls | Err _ => True end).
Proof.
  unfold WarmPool.leasesForDeployment. cbn [bind call]. split; [done|].
  intros K' [ls|e] HK Ha; [|done]. cbn [answer_ok wp] in *.
  rewrite Forall_forall in *. intros l Hl. apply Ha.
  rewrite list_elem_of_In in *. by apply filter_In in Hl as [? _].
Qed.

Lemma reclaimFailedLease_safe dep (K : Known) l :
  K l → lease_DeletionTimestamp l = None → st_Phase (lease_Status l) = GPULeasePhaseFailed →
  safe (WarmPool.reclaimFailedLease r dep l) K.
Proof.
  intros HK Hd Hp. unfold WarmPool.reclaimFailedLease, WarmPool.deleteFailed. safe_walk.
  exists l. split; [done|]. by apply finalizer_removed_failed.
Qed.

Lemma reclaimOrphan_harmless dep sel l : harmless (WarmPool.reclaimOrphan r dep sel l).
Proof. unfold WarmPool.reclaimOrphan, WarmPool.checkClaim. harmless_walk. Qed.

Lemma known_grow (K K' : Known) ls : grows K K' → Forall K ls → Forall K' ls.
Proof. intros HK H. eapply Forall_impl; [exact H|exact HK]. Qed.

Lemma orphanLoop_safe dep sel ls requeue (K : Known) :
  Forall K ls → safe (WarmPool.orphanLoop r dep sel requeue ls) K.
Proof.
  revert requeue K. induction ls as [|l ls IH]; intros requeue K Hls; cbn [WarmPool.orphanLoop]; [done|].
  apply Forall_cons in Hls as [Hl Hls].
  assert (∀ K' requeue', grows K K' →
    safe (_ <-? WarmPool.reclaimOrphan r dep sel l else id ;; WarmPool.orphanLoop r dep sel requeue' ls) K') as Hrest.
  { intros K' requeue' HK. apply safe_bind_harmless; [apply reclaimOrphan_harmless|].
    intros K'' [?|?] HK'; [|done]. eauto using known_grow, grows_trans. }
  repeat case_bool_decide; [by apply IH| |by apply Hrest, grows_refl].
  apply safe_bind; [apply reclaimFailedLease_safe; [done|by apply eq_None_not_Some|done]|].
  intros K' [[[|] ?]|?] HK; [|by apply Hrest|done]. eauto using known_grow.
Qed.

Lemma reconcileOrphans_safe dep sel K : safe (WarmPool.reconcileOrphans r dep sel) K.
Proof.
  unfold WarmPool.reconcileOrphans. apply wp_bind.
  eapply wp_mono; [apply grows_refl| | |apply leasesForDeployment_known].
  - intros K' [ls|e] _ Hls; [by apply orphanLoop_safe|done].
  - intros K1 K2 [ls|e] HK; [by apply known_grow|done].
Qed.

Lemma pool_Reconcile_safe K ns name : safe (WarmPool.Reconcile r ns name) K.
Proof.
  unfold WarmPool.Reconcile. safe_walk. apply safe_bind; [apply reconcileOrphans_safe|].
  intros K0 [requeue|e] _; [|done]. apply safe_harmless.
  unfold WarmPool.poolGauges, WarmPool.warnDeficit, listDeploymentPods. harmless_walk.
Qed.

End Pool.
