(* ===== verification/System.v ===== *)
(** * The system: any number of reconciles over one API server

    The two controllers run several reconciles at a time, each with its own calls to the
    API server, reading from caches that lag behind, and other actors delete leases when
    they like.  Here the store of leases is shared: a state holds the store, every version
    of a lease that ever was in it, and the reconciles that are under way; a step is one
    call of one of them, answered by the server as its documentation says, or a reconcile
    that starts or is lost, or a deletion by someone else.  The invariants of the reachable
    states are proved by induction on the steps. *)

From S2P Require Import Prelude GoLib Names Kube Effects MemServer Scenario Inventory PodClient.
From S2P Require Import Pods Kueue GPULeaseController GPULeaseFacts LeaseLifecycle.
From S2P Require Import WarmPoolController WarmPoolFacts Protocol.

(** ** The API server *)

(** The stored leases by name, every version that was ever stored, and the next resource
    version. *)
Record Api := {
  api_store : gmap string GPULease;
  api_past : list GPULease;
  api_next : Z;
}.

Definition api_init : Api := {| api_store := ∅; api_past := []; api_next := 1 |}.

(** Store a new version.  A lease that is being deleted and has no finalizer left is
    removed. *)
Definition commit (a : Api) (l : GPULease) : Api :=
  {| api_store :=
       if bool_decide (is_Some (lease_DeletionTimestamp l) ∧ lease_Finalizers l = [])
       then delete (lease_Name l) (api_store a) else <[ lease_Name l := l ]> (api_store a);
     api_past := l :: api_past a;
     api_next := api_next a + 1 |}.

(** A write that is carried out: the object must exist in the version that is sent. *)
Definition written (new : GPULease → GPULease) (l : GPULease) (a a' : Api) (l' : GPULease) : Prop :=
  ∃ old, api_store a !! lease_Name l = Some old ∧
    lease_ResourceVersion old = lease_ResourceVersion l ∧ l' = new old ∧ a' = commit a l'.

(** A deletion that is carried out: a lease without finalizers goes at once, another one
    gets a deletion timestamp, unless it has one. *)
Definition deleted (name : string) (a a' : Api) : Prop :=
  ∃ old, api_store a !! name = Some old ∧
    if bool_decide (lease_Finalizers old = []) then
      a' = {| api_store := delete name (api_store a); api_past := api_past a; api_next := api_next a + 1 |}
    else match lease_DeletionTimestamp old with
         | Some _ => a' = a
         | None => ∃ t, a' = commit a (marked_deleted (api_next a) old t)
         end.

(** A creation that is carried out: the name is free, and the status is not taken over. *)
Definition created (l : GPULease) (a a' : Api) (l' : GPULease) : Prop :=
  api_store a !! lease_Name l = None ∧
  ∃ t, l' = stored_lease (api_next a) 1 t None (lease_Finalizers l) l empty_status ∧ a' = commit a l'.

(** The answer to a write: the new version, or an error, either because the write was
    refused, or because the answer was lost. *)
Definition write_answer (done : Api → Api → GPULease → Prop) (a : Api) (r : result GPULease) (a' : Api) : Prop :=
  match r with
  | Ok l => done a a' l
  | Err _ => a' = a ∨ ∃ l, done a a' l
  end.

Section System.
Context `{KL : KubeLib}.

(** One call.  Reads of leases may be answered with any earlier version; calls that are
    not about leases may be answered in any way. *)
Definition api_call {R} (e : Eff R) : Api → R → Api → Prop :=
  match e in Eff R return Api → R → Api → Prop with
  | GetLease name => λ a r a',
      a' = a ∧ match r with Ok l => l ∈ api_past a ∧ lease_Name l = name | Err _ => True end
  | ListLeases => λ a r a',
      a' = a ∧ match r with Ok ls => Forall (.∈ api_past a) ls | Err _ => True end
  | CreateLease l => write_answer (created l)
  | UpdateLease l => λ a, write_answer (written (λ old, updated (api_next a) old l) l) a
  | UpdateLeaseStatus l => λ a, write_answer (written (λ old, status_updated (api_next a) old l) l) a
  | DeleteLease l => λ a r a',
      match r with
      | Ok _ => deleted (lease_Name l) a a'
      | Err _ => a' = a ∨ deleted (lease_Name l) a a'
      end
  | _ => λ a _ a', a' = a
  end.

(** ** The system *)

Record Sys := { sys_api : Api; sys_runs : list (Prog (result CtrlResult)) }.

Definition sys_init : Sys := {| sys_api := api_init; sys_runs := [] |}.

Context (rl : GPULeaseReconciler) (rw : WarmPool.WarmPoolReconciler).

Inductive sys_step (s : Sys) : Sys → Prop :=
  | step_lease name :
      sys_step s {| sys_api := sys_api s; sys_runs := sys_runs s ++ [GPULeaseController.Reconcile rl name] |}
  | step_pool ns name :
      sys_step s {| sys_api := sys_api s; sys_runs := sys_runs s ++ [WarmPool.Reconcile rw ns name] |}
  | step_call i R (e : Eff R) k r a' :
      sys_runs s !! i = Some (Vis e k) → api_call e (sys_api s) r a' →
      sys_step s {| sys_api := a'; sys_runs := <[ i := k r ]> (sys_runs s) |}
  | step_lost i :
      sys_step s {| sys_api := sys_api s; sys_runs := delete i (sys_runs s) |}
  | step_deleted name a' :
      deleted name (sys_api s) a' → sys_step s {| sys_api := a'; sys_runs := sys_runs s |}.

Definition sys_reachable : Sys → Prop := rtc sys_step sys_init.

(** ** The abstract lease store *)

(** What the system promises about one stored lease: it keeps its name and spec, and
    changes by a step of the status, of the finalizers, or by being marked as deleted. *)
Inductive lease_change (l : GPULease) : GPULease → Prop :=
  | change_status l' rv : status_step l l' → lease_change l (with_version l' rv)
  | change_finalizers l' rv : finalizer_step l l' → lease_change l (with_version l' rv)
  | change_deleted t rv :
      lease_DeletionTimestamp l = None →
      lease_change l (stored_lease rv (lease_Generation l) (lease_CreationTimestamp l) (Some t)
                        (lease_Finalizers l) l (lease_Status l)).

(** When a lease may leave the store: it has no finalizer, or it has been released. *)
Definition removable (l : GPULease) : Prop :=
  lease_Finalizers l = [] ∨
  (is_Some (lease_DeletionTimestamp l) ∧ st_Phase (lease_Status l) = GPULeasePhaseReleasing).

Inductive store_step (m : gmap string GPULease) : gmap string GPULease → Prop :=
  | store_same : store_step m m
  | store_created l :
      m !! lease_Name l = None → well_named l → lease_Status l = empty_status →
      lease_DeletionTimestamp l = None → store_step m (<[ lease_Name l := l ]> m)
  | store_changed l l' :
      m !! lease_Name l = Some l → lease_change l l' → store_step m (<[ lease_Name l := l' ]> m)
  | store_removed l :
      m !! lease_Name l = Some l → removable l → store_step m (delete (lease_Name l) m).

(** ** The invariant *)

(** The phases in which a lease holds quota and possibly a GPU. *)
Definition holding (p : GPULeasePhase) : bool :=
  match p with
  | GPULeasePhaseAdmitted | GPULeasePhaseActivating | GPULeasePhaseBound => true
  | _ => false
  end.

(** What holds of every version of a lease. *)
Record version_ok (l : GPULease) : Prop := {
  ok_named : well_named l;
  ok_guarded : holding (st_Phase (lease_Status l)) = true →
               ContainsFinalizer (lease_Finalizers l) Finalizer = true;
}.

Record api_ok (a : Api) : Prop := {
  ok_versions l : l ∈ api_past a → lease_ResourceVersion l < api_next a;
  ok_unique l l' : l ∈ api_past a → l' ∈ api_past a →
                   lease_ResourceVersion l = lease_ResourceVersion l' → l = l';
  ok_stored n l : api_store a !! n = Some l → l ∈ api_past a ∧ lease_Name l = n;
  ok_past l : l ∈ api_past a → version_ok l;
}.

Definition past (a : Api) : Known := λ l, l ∈ api_past a.

Record sys_ok (s : Sys) : Prop := {
  ok_api : api_ok (sys_api s);
  ok_runs : Forall (λ p, safe p (past (sys_api s))) (sys_runs s);
}.

Lemma commit_ok a l :
  api_ok a → lease_ResourceVersion l = api_next a → version_ok l → api_ok (commit a l).
Proof.
  intros Ha Hrv Hl. split; simpl.
  - intros l' [->|Hin]%elem_of_cons; [lia|]. apply Ha in Hin. lia.
  - intros l1 l2 [->|H1]%elem_of_cons [->|H2]%elem_of_cons E; [done| | |by apply Ha].
    + apply Ha in H2. lia.
    + apply Ha in H1. lia.
  - intros n l' Hn. case_bool_decide.
    + apply lookup_delete_Some in Hn as [_ Hn]. apply Ha in Hn as [? ?]. set_solver.
    + apply lookup_insert_Some in Hn as [[<- <-]|[_ Hn]]; [set_solver|]. apply Ha in Hn as [? ?]. set_solver.
  - intros l' [->|Hin]%elem_of_cons; [done|]. by apply Ha.
Qed.

Lemma commit_grows a l : grows (past a) (past (commit a l)) ∧ past (commit a l) l.
Proof. unfold grows, past. simpl. set_solver. Qed.

(** ** The steps of the server *)

Context `{HL : !KubeLibLaws}.

(** A move of the server that keeps the invariant and is a step of the abstract store. *)
Record good_move (a a' : Api) : Prop := {
  move_ok : api_ok a';
  move_grows : grows (past a) (past a');
  move_store : store_step (api_store a) (api_store a');
}.

Lemma stays_good a : api_ok a → good_move a a.
Proof. intros Ha. split; [done|apply grows_refl|apply store_same]. Qed.

(** A write is made to the version it was computed from. *)
Lemma written_current a l0 l new a' l' :
  api_ok a → past a l0 → lease_Name l = lease_Name l0 →
  lease_ResourceVersion l = lease_ResourceVersion l0 → written new l a a' l' →
  api_store a !! lease_Name l0 = Some l0 ∧ l' = new l0 ∧ a' = commit a l'.
Proof.
  intros Ha Hl Hn Hrv (old & Hold & Hv & -> & ->). destruct (ok_stored _ Ha _ _ Hold) as [Hp _].
  assert (old = l0) as -> by (apply (ok_unique _ Ha); [done|done|congruence]). by rewrite <-Hn.
Qed.

Lemma commit_good a l l' :
  api_ok a → api_store a !! lease_Name l = Some l → version_ok l' →
  lease_Name l' = lease_Name l → lease_ResourceVersion l' = api_next a → lease_change l l' →
  (is_Some (lease_DeletionTimestamp l') → lease_Finalizers l' = [] → removable l) →
  good_move a (commit a l').
Proof.
  intros Ha Hl Hok Hn Hrv Hc Hr. split; [by apply commit_ok|apply commit_grows|].
  simpl. rewrite Hn. case_bool_decide as Hd; [|by apply store_changed].
  apply store_removed; [done|]. by apply Hr; destruct Hd.
Qed.

Lemma status_write_good a l l' :
  api_ok a → api_store a !! lease_Name l = Some l → status_step l l' →
  status_updated (api_next a) l l' = with_version l' (api_next a) ∧
  good_move a (commit a (with_version l' (api_next a))).
Proof.
  intros Ha Hl (Hs & Hf & Hp). destruct (ok_stored _ Ha _ _ Hl) as [Hpast _].
  apply (ok_past _ Ha) in Hpast as [Hw _]. split; [by rewrite Hs|].
  apply (commit_good a l); [done|done| |by rewrite Hs|done|by apply change_status|].
  - split; [by rewrite Hs|]. intros _. by rewrite Hs.
  - rewrite Hs. simpl. intros _ E. rewrite E, contains_nil in Hf. done.
Qed.

Lemma finalizer_write_good a l l' :
  api_ok a → api_store a !! lease_Name l = Some l → finalizer_step l l' →
  updated (api_next a) l l' = with_version l' (api_next a) ∧
  good_move a (commit a (with_version l' (api_next a))).
Proof.
  intros Ha Hl Hs. destruct (ok_stored _ Ha _ _ Hl) as [Hpast _].
  apply (ok_past _ Ha) in Hpast as [Hw Hg]. pose proof (change_finalizers l l' (api_next a) Hs) as Hc.
  split; [destruct Hs; unfold updated; by rewrite bool_decide_eq_true_2 by done|].
  apply (commit_good a l); [done|done| |by destruct Hs|done|done|].
  - split; [by destruct Hs|]. destruct Hs as [Hd|Hd Hp|Hd Hp]; simpl; rewrite ?Hp; [|done..].
    intros _. apply contains_add.
  - destruct Hs as [Hd|Hd Hp|Hd Hp]; simpl; rewrite ?Hd; [by intros [? ?]| |by intros [? ?]].
    intros. by right.
Qed.

Lemma deleted_good a name a' : api_ok a → deleted name a a' → good_move a a'.
Proof.
  intros Ha (old & Hold & H). destruct (ok_stored _ Ha _ _ Hold) as [Hpast <-]. case_bool_decide as Hf.
  - subst a'. split; [|apply grows_refl|simpl; apply store_removed; [done|by left]].
    destruct Ha as [H1 H2 H3 H4]. split; simpl; [by intros l Hl%H1; lia|done| |done].
    intros n l [_ Hl]%lookup_delete_Some. by apply H3.
  - destruct (lease_DeletionTimestamp old) as [t|] eqn:Hd; [subst; by apply stays_good|].
    destruct H as [t ->]. destruct (ok_past _ Ha _ Hpast) as [Hw Hg].
    by apply (commit_good a old); try done; apply change_deleted.
Qed.

Lemma created_good a l a' l' :
  api_ok a → well_named l → created l a a' l' → good_move a a' ∧ past a' l'.
Proof.
  intros Ha Hw (Hn & t & -> & ->). split; [|apply commit_grows].
  split; [by apply commit_ok|apply commit_grows|].
  by apply (store_created _ (stored_lease _ _ _ _ _ l _)).
Qed.

(** The answer to a write computed from the known version [l0]. *)
Lemma write_good a l0 l new r a' :
  api_ok a → past a l0 → lease_Name l = lease_Name l0 →
  lease_ResourceVersion l = lease_ResourceVersion l0 →
  (api_store a !! lease_Name l0 = Some l0 →
   new l0 = with_version l (api_next a) ∧ good_move a (commit a (with_version l (api_next a)))) →
  write_answer (written new l) a r a' →
  good_move a a' ∧ match r with Ok l' => past a' l' ∧ ∃ rv, l' = with_version l rv | Err _ => True end.
Proof.
  intros Ha Hl Hn Hrv Hnew Hw.
  assert (∀ l', written new l a a' l' → good_move a a' ∧ past a' l' ∧ ∃ rv, l' = with_version l rv) as Hok.
  { intros l' (Hs & -> & ->)%(written_current _ l0); [|done..]. destruct (Hnew Hs) as [-> Hg].
    split; [done|]. split; [apply commit_grows|eauto]. }
  destruct r as [l'|]; simpl in Hw; [by apply Hok|].
  destruct Hw as [->|[l' Hl']]; [by auto using stays_good|]. split; [by eapply Hok|done].
Qed.

(** Every call a safe program makes is a good move, and is answered truthfully. *)
Lemma api_call_good {R} (e : Eff R) a r a' :
  api_ok a → call_ok (past a) e → api_call e a r a' → good_move a a' ∧ answer_ok (past a') e r.
Proof.
  intros Ha. destruct e; cbn [call_ok api_call answer_ok]; intros Hc; try (intros ->; by auto using stays_good).
  - intros [-> Hr]. split; [by apply stays_good|]. by destruct r as [?|]; [destruct Hr|].
  - intros [-> Hr]. split; [by apply stays_good|]. by destruct r.
  - destruct r as [l'|]; [by apply created_good|]. intros [->|[l' Hl']]; [by auto using stays_good|].
    split; [by eapply created_good|done].
  - destruct Hc as (l0 & Hl0 & Hs). apply (write_good a l0); [done|done|by destruct Hs|by destruct Hs|].
    intros. by apply finalizer_write_good.
  - destruct Hc as (l0 & Hl0 & Hs). apply (write_good a l0); [done|done|by destruct Hs as [-> _]|by destruct Hs as [-> _]|].
    intros. by apply status_write_good.
  - destruct r; [|intros [->|?]]; try (by auto using stays_good); split; try done; by eapply deleted_good.
Qed.

Context `{Hrl : !LawfulReconciler rl} `{Hrw : !InventoryLaws (WarmPool.wpr_Inventory rw)}.

Lemma safe_grows {A} (p : Prog A) K K' : grows K K' → safe p K → safe p K'.
Proof. intros HK. by apply wp_mono. Qed.

Lemma runs_grow K K' (ps : list (Prog (result CtrlResult))) :
  grows K K' → Forall (λ p, safe p K) ps → Forall (λ p, safe p K') ps.
Proof. intros HK H. eapply Forall_impl; [exact H|]. intros p. by apply safe_grows. Qed.

(** A step of the system keeps the invariant, and is a good move of the server. *)
Lemma sys_step_good s s' :
  sys_ok s → sys_step s s' → sys_ok s' ∧ good_move (sys_api s) (sys_api s').
Proof.
  intros [Ha Hr] Hs. destruct Hs as [name|ns name|i R e k r a' Hi Hc|i|name a' Hd]; simpl.
  - split; [|by apply stays_good]. split; [done|]. apply Forall_app. split; [done|].
    apply Forall_singleton, Reconcile_safe; done.
  - split; [|by apply stays_good]. split; [done|]. apply Forall_app. split; [done|].
    apply Forall_singleton, pool_Reconcile_safe; done.
  - pose proof (Forall_lookup_1 _ _ _ _ Hr Hi) as [He Hk].
    destruct (api_call_good e _ _ _ Ha He Hc) as [Hg Hans]. split; [|done].
    split; [apply Hg|]. apply Forall_insert; [by eapply runs_grow; [apply Hg|]|]. apply Hk; [apply Hg|done].
  - split; [|by apply stays_good]. split; [done|]. by apply Forall_delete.
  - apply deleted_good in Hd; [|done]. split; [|done]. split; [apply Hd|].
    by eapply runs_grow; [apply Hd|].
Qed.

Lemma sys_reachable_ok s : sys_reachable s → sys_ok s.
Proof.
  intros H. apply rtc_nsteps in H as [n H]. revert s H.
  assert (sys_ok sys_init) as H0.
  { split; [|apply Forall_nil; done]. split; simpl; set_solver. }
  intros s H. induction H as [|n s1 s2 s3 H1 _ IH]; [done|]. apply IH. by eapply sys_step_good.
Qed.

(** What a step does to one stored lease. *)
Lemma store_step_lookup m m' n l :
  store_step m m' → m !! n = Some l →
  (∃ l', m' !! n = Some l' ∧ (l' = l ∨ lease_change l l')) ∨ (m' !! n = None ∧ removable l).
Proof.
  intros Hs Hl. destruct Hs as [|l0 H0|l0 l' H0 Hc|l0 H0 Hr]; [by eauto|..];
    destruct (decide (lease_Name l0 = n)) as [<-|Hne]; simplify_eq;
    try (left; exists l; rewrite ?lookup_insert_ne, ?lookup_delete_ne by done; by auto).
  - left. exists l'. rewrite lookup_insert_eq. auto.
  - right. by rewrite lookup_delete_eq.
Qed.

(** The phases a lease goes through: those of a lease that is not being deleted, and
    Releasing. *)
Definition life_step (p p' : GPULeasePhase) : Prop :=
  p' = p ∨ phase_step p p' ∨ p' = GPULeasePhaseReleasing.

Lemma lease_change_life l l' :
  lease_change l l' →
  lease_Spec l' = lease_Spec l ∧ lease_Name l' = lease_Name l ∧
  life_step (st_Phase (lease_Status l)) (st_Phase (lease_Status l')) ∧
  (is_Some (lease_DeletionTimestamp l) → is_Some (lease_DeletionTimestamp l')).
Proof.
  unfold life_step. intros [l0 rv (Hs & _ & Hp)|l0 rv Hs|t rv Hd]; simpl.
  - rewrite Hs. simpl. split_and!; [done|done| |done]. destruct (lease_DeletionTimestamp l); auto.
  - by destruct Hs; auto.
  - split_and!; eauto.
Qed.

End System.
