(* ===== verification/Execution.v ===== *)
(** * Executions of the executable cluster

    The in-memory server of [MemServer] answers as the server of [System] may, so what it
    does with a sequence of reconciles is an execution of the system.  This makes concrete
    reachable states: the theorems about the system are not about nothing. *)

From S2P Require Import Prelude GoLib Names Kube Effects MemServer Scenario Inventory PodClient.
From S2P Require Import Pods Kueue GPULeaseController GPULeaseFacts LeaseLifecycle.
From S2P Require Import WarmPoolController WarmPoolFacts Protocol System.

(** The executable server's leases are the stored ones. *)
Record abstracts (m : Mem) (a : Api) : Prop := {
  abs_leases : m_leases m = api_store a;
  abs_version : m_rv m = api_next a;
  abs_past n l : api_store a !! n = Some l → l ∈ api_past a ∧ lease_Name l = n;
}.

Lemma commit_abstracts m a l :
  abstracts m a →
  abstracts (set_leases m
    (if bool_decide (is_Some (lease_DeletionTimestamp l) ∧ lease_Finalizers l = [])
     then delete (lease_Name l) (m_leases m) else <[ lease_Name l := l ]> (m_leases m))) (commit a l).
Proof.
  intros [Hl Hv Hp]. split; simpl; [by rewrite Hl|by rewrite Hv|].
  intros n l'. case_bool_decide.
  - intros [_ H']%lookup_delete_Some. apply Hp in H' as [? ?]. set_solver.
  - intros [[<- <-]|[_ H']]%lookup_insert_Some; [set_solver|]. apply Hp in H' as [? ?]. set_solver.
Qed.

Lemma create_call m a l :
  abstracts m a → ∃ a', write_answer (created l) a (mem_create_lease l m).1 a' ∧
    abstracts (mem_create_lease l m).2 a'.
Proof.
  intros Hm. unfold mem_create_lease. destruct (m_leases m !! lease_Name l) eqn:E; simpl; [by eauto|].
  rewrite (abs_version _ _ Hm). rewrite (abs_leases _ _ Hm) in E. eexists. split; [split; [done|by eauto]|].
  apply (commit_abstracts m a (stored_lease _ _ _ None _ l _) Hm).
Qed.

Lemma write_call m a l f :
  abstracts m a → (∀ old, lease_Name old = lease_Name l → lease_Name (f old) = lease_Name l) →
  ∃ a', write_answer (written f l) a (mem_write_lease l f m).1 a' ∧
    abstracts (mem_write_lease l f m).2 a'.
Proof.
  intros Hm Hf. unfold mem_write_lease.
  destruct (m_leases m !! lease_Name l) as [old|] eqn:E; simpl; [|by eauto].
  rewrite (abs_leases _ _ Hm) in E. destruct (abs_past _ _ Hm _ _ E) as [_ Hn].
  destruct (bool_decide (lease_ResourceVersion old = _)) eqn:Ev; simpl; [|by eauto]. reflect_bools.
  exists (commit a (f old)). pose proof (commit_abstracts m a (f old) Hm) as Hc. rewrite (Hf old Hn) in Hc.
  destruct (bool_decide (is_Some _ ∧ _)); (split; [by exists old|done]).
Qed.

Lemma delete_call m a l :
  abstracts m a → ∃ a',
    match (mem_delete_lease l m).1 with
    | Ok _ => deleted (lease_Name l) a a'
    | Err _ => a' = a ∨ deleted (lease_Name l) a a'
    end ∧ abstracts (mem_delete_lease l m).2 a'.
Proof.
  intros Hm. unfold mem_delete_lease.
  destruct (m_leases m !! lease_Name l) as [old|] eqn:E; simpl; [|by eauto].
  rewrite (abs_leases _ _ Hm) in E. destruct (abs_past _ _ Hm _ _ E) as [_ Hn].
  destruct (bool_decide (lease_Finalizers old = [])) eqn:Ef; simpl.
  - eexists. split; [exists old; rewrite Ef; by eauto|]. destruct Hm as [Hl Hv Hp].
    split; simpl; [by rewrite Hl|by rewrite Hv|]. intros n l' [_ H']%lookup_delete_Some. by apply Hp.
  - destruct (lease_DeletionTimestamp old) eqn:Ed; simpl.
    + exists a. split; [|done]. exists old. rewrite Ef, Ed. by eauto.
    + exists (commit a (marked_deleted (api_next a) old (m_now m))). split.
      * exists old. rewrite Ef, Ed. by eauto.
      * pose proof (commit_abstracts m a (marked_deleted (api_next a) old (m_now m)) Hm) as Hc.
        simpl in Hc. rewrite bool_decide_eq_false_2 in Hc by (reflect_bools; naive_solver).
        by rewrite (abs_version _ _ Hm), <-Hn.
Qed.

(** Only the leases matter. *)
Lemma abstracts_world m m' a :
  m_leases m' = m_leases m → m_rv m' = m_rv m → abstracts m a → abstracts m' a.
Proof. intros Hl Hv [? ? ?]. split; [congruence|congruence|done]. Qed.

Lemma map_values_elem (m : gmap string GPULease) l : l ∈ map_values m → ∃ n, m !! n = Some l.
Proof.
  unfold map_values. intros ([n l'] & -> & H)%list_elem_of_fmap. exists n. by apply elem_of_map_to_list in H.
Qed.

Lemma mem_answer_call {R} (e : Eff R) m a :
  abstracts m a → ∃ a', api_call e a (mem_answer e m).1 a' ∧ abstracts (mem_answer e m).2 a'.
Proof.
  intros Hm. destruct e; cbn [mem_answer api_call];
    try (exists a; split; [done|]; by apply (abstracts_world m)).
  - exists a. split; [|done]. split; [done|]. simpl. rewrite (abs_leases _ _ Hm).
    destruct (api_store a !! name) as [l|] eqn:E; simpl; [|done]. by apply (abs_past _ _ Hm).
  - exists a. split; [|done]. split; [done|]. simpl. rewrite (abs_leases _ _ Hm).
    apply Forall_forall. intros l [n Hl]%map_values_elem. by apply (abs_past _ _ Hm) in Hl as [? _].
  - by apply create_call.
  - rewrite (abs_version _ _ Hm). by apply write_call.
  - rewrite (abs_version _ _ Hm). by apply write_call.
  - by apply delete_call.
  - exists a. split; [by destruct (mem_patch_pod orig new m)|].
    unfold mem_patch_pod. destruct (m_pods m !! _); [|done]. by apply (abstracts_world m).
  - exists a. split; [done|]. destruct (m_workloads m !! (wl_Namespace w, wl_Name w)); [done|].
    by apply (abstracts_world m).
  - exists a. split; [done|]. destruct (m_workloads m !! (ns, name)); [|done]. by apply (abstracts_world m).
  - exists a. split; [done|]. destruct (FakeClient_Activate _ _ _). by apply (abstracts_world m).
  - exists a. split; [done|]. destruct (FakeClient_Release _ _). by apply (abstracts_world m).
Qed.

Lemma mem_server_call {R} (e : Eff R) m a :
  abstracts m a → ∃ a', api_call e a (mem_server R e m).1 a' ∧ abstracts (mem_server R e m).2 a'.
Proof.
  intros Hm. unfold mem_server. destruct (m_faults m) as [|[err|] fs]; [by apply mem_answer_call| |].
  - exists a. split; [|by apply (abstracts_world m)]. destruct e; simpl; by auto.
  - apply mem_answer_call. by apply (abstracts_world m).
Qed.

Section Execution.
Context (rl : GPULeaseReconciler) (rw : WarmPool.WarmPoolReconciler).

(** Running one of the reconciles under way to its end is an execution, on any server whose
    leases are those of an executable cluster and whose calls are those of the system. *)
Definition serves_api {S} (srv : Server S) (mem : S → Mem) : Prop :=
  ∀ R (e : Eff R) s a, abstracts (mem s) a →
    ∃ a', api_call e a (srv R e s).1 a' ∧ abstracts (mem (srv R e s).2) a'.

Lemma mem_serves_api : serves_api mem_server id.
Proof. intros R e m a. apply mem_server_call. Qed.

Lemma run_execution {S} (srv : Server S) mem (p : Prog (result CtrlResult)) i m s :
  serves_api srv mem → sys_runs s !! i = Some p → abstracts (mem m) (sys_api s) →
  ∃ s', rtc (sys_step rl rw) s s' ∧ abstracts (mem (run srv p m).2) (sys_api s').
Proof.
  intros Hsrv. revert m s. induction p as [res|R e k IH]; intros m s Hi Hm; cbn [run]; [by eauto using rtc_refl|].
  destruct (Hsrv R e m _ Hm) as (a' & Hc & Hm').
  destruct (srv R e m) as [r m'] eqn:E. cbn [fst snd] in *.
  destruct (IH r m' {| sys_api := a'; sys_runs := <[ i := k r ]> (sys_runs s) |}) as (s' & Hs & Ha).
  - simpl. apply list_lookup_insert_eq. by apply lookup_lt_Some in Hi.
  - done.
  - exists s'. split; [|by destruct (run srv (k r) m') as [[? ?] ?]].
    eapply rtc_l; [|exact Hs]. by eapply step_call.
Qed.

(** The same for a reconcile that starts now. *)
Lemma start_execution {S} (srv : Server S) mem (p : Prog (result CtrlResult)) m s :
  serves_api srv mem →
  sys_step rl rw s {| sys_api := sys_api s; sys_runs := sys_runs s ++ [p] |} →
  abstracts (mem m) (sys_api s) →
  ∃ s', rtc (sys_step rl rw) s s' ∧ abstracts (mem (run srv p m).2) (sys_api s').
Proof.
  intros Hsrv Hp Hm. destruct (run_execution srv mem p (length (sys_runs s)) m
    {| sys_api := sys_api s; sys_runs := sys_runs s ++ [p] |}) as (s1 & H1 & Hm1);
    [done|by apply list_lookup_middle|done|]. exists s1. split; [by eapply rtc_l|done].
Qed.

(** A Workload that Kueue has admitted at time [t]. *)
Definition kueue_admits (t : Z) (w : Workload) : Workload :=
  {| wl_Namespace := wl_Namespace w; wl_Name := wl_Name w; wl_CreationTimestamp := wl_CreationTimestamp w;
     wl_OwnerReferences := wl_OwnerReferences w; wl_Spec := wl_Spec w;
     wl_Status := {| wlst_Conditions := [example_condition ConditionAdmitted ConditionTrue "Admitted" t];
                     wlst_Admission := None |} |}.

(** What happens in a scenario: a reconcile runs, somebody deletes a lease, Kueue admits
    the Workloads at a given time, time passes, or the next calls are to fail as given. *)
Inductive Event :=
  | RunLease (name : string)
  | RunPool (ns name : string)
  | Delete (name : string)
  | KueueAdmits (t : Z)
  | Wait (t : Z)
  | Fail (errs : list (option goerror)).

Definition play (m : Mem) (ev : Event) : Mem :=
  match ev with
  | RunLease name => (run mem_server (GPULeaseController.Reconcile rl name) m).2
  | RunPool ns name => (run mem_server (WarmPool.Reconcile rw ns name) m).2
  | Delete name =>
      match m_leases m !! name with Some l => (mem_delete_lease l m).2 | None => m end
  | KueueAdmits t => set_now (set_workloads m (kueue_admits t <$> m_workloads m)) t
  | Wait t => set_now m t
  | Fail errs => set_faults m errs
  end.

Lemma delete_execution l m s :
  abstracts m (sys_api s) →
  ∃ s', rtc (sys_step rl rw) s s' ∧ abstracts (mem_delete_lease l m).2 (sys_api s').
Proof.
  intros Hm. destruct (delete_call m (sys_api s) l Hm) as (a' & Hd & Ha).
  assert (a' = sys_api s ∨ deleted (lease_Name l) (sys_api s) a') as [->|Hd'].
  { destruct (mem_delete_lease l m).1; [by right|done]. }
  - by eauto using rtc_refl.
  - exists {| sys_api := a'; sys_runs := sys_runs s |}. split; [|done]. by eapply rtc_once, step_deleted.
Qed.

Lemma play_execution evs m s :
  abstracts m (sys_api s) →
  ∃ s', rtc (sys_step rl rw) s s' ∧ abstracts (foldl play m evs) (sys_api s').
Proof.
  revert m s. induction evs as [|ev evs IH]; intros m s Hm; simpl; [by eauto using rtc_refl|].
  assert (∃ s1, rtc (sys_step rl rw) s s1 ∧ abstracts (play m ev) (sys_api s1)) as (s1 & H1 & Hm1).
  { destruct ev; cbn [play];
      [by apply (start_execution _ id _ _ _ mem_serves_api (step_lease _ _ _ _))
      |by apply (start_execution _ id _ _ _ mem_serves_api (step_pool _ _ _ _ _))| |..].
    - destruct (m_leases m !! name) as [l|] eqn:El; [|by eauto using rtc_refl].
      by apply (delete_execution l m s).
    - exists s. split; [done|]. by apply (abstracts_world m).
    - exists s. split; [done|]. by apply (abstracts_world m).
    - exists s. split; [done|]. by apply (abstracts_world m). }
  destruct (IH (play m ev) s1 Hm1) as (s2 & H2 & Hm2). exists s2. split; [by etrans|done].
Qed.

(** A scenario that starts without leases ends in a reachable state. *)
Lemma play_reachable evs m :
  m_leases m = ∅ → m_rv m = 1 →
  ∃ s, sys_reachable rl rw s ∧ m_leases (foldl play m evs) = api_store (sys_api s).
Proof.
  intros Hl Hv. destruct (play_execution evs m sys_init) as (s & Hs & Ha).
  - split; simpl; [done|done|]. intros n l. by rewrite lookup_empty.
  - exists s. split; [done|]. by apply abs_leases.
Qed.

End Execution.

(** ** Scenarios *)

(** A cluster with two warm pods and no lease. *)
Definition fresh_cluster : Mem :=
  {| m_leases := ∅;
     m_pods := {[ ("ns", "p0") := example_pod "p0" "n1" "10.0.0.1" StateWarm (900 * Second);
                  ("ns", "p1") := example_pod "p1" "n1" "10.0.0.2" StateWarm (901 * Second) ]};
     m_deployments := {[ ("ns", "app") := example_deployment ]};
     m_nodes := {[ "n1" := example_node "n1" "4" ]};
     m_workloads := ∅; m_flavors := []; m_fake := m_fake mem_empty;
     m_now := 1000 * Second; m_rv := 1; m_faults := [] |}.

Definition example_pool_rec : WarmPool.WarmPoolReconciler :=
  {| WarmPool.wpr_Recorder := true; WarmPool.wpr_Inventory := clientInventory;
     WarmPool.wpr_ResyncPeriod := 0; WarmPool.wpr_FailedLeaseRetention := 0 |}.

(** What the executable cluster makes of a sequence of events. *)
Definition replay (evs : list Event) : Mem := foldl (play example_reconciler example_pool_rec) fresh_cluster evs.

#[export] Instance example_pool_rec_lawful : InventoryLaws (WarmPool.wpr_Inventory example_pool_rec).
Proof. apply clientInventory_laws. Qed.

Lemma replay_reachable evs :
  ∃ s, sys_reachable example_reconciler example_pool_rec s ∧ m_leases (replay evs) = api_store (sys_api s).
Proof. by apply play_reachable. Qed.
