(* ===== verification/Cluster.v ===== *)
(** * The controllers with real pods

    The executable cluster of [MemServer], in which the pods answer themselves: a call of
    the controllers to a pod goes through the REST client ([PodClient]) to the pod's server
    ([PodServer]), with its routes, its handlers and its state machine.  A scenario played
    on it is an execution of the system of both controllers, and each pod goes through an
    execution of its server. *)

From S2P Require Import Prelude GoLib GoJSON Names Kube Effects MemServer Scenario Inventory PodClient.
From S2P Require Import Pods Kueue GPULeaseController GPULeaseFacts LeaseLifecycle.
From S2P Require Import WarmPoolController Machine WorkloadServer Demand PodServer.
From S2P Require Import Protocol System Execution.
Import Workload Server PodServer.

Module Cluster.

(** ** Pods that run *)

(** Let the goroutines of a pod finish: at most two steps for each. *)
Fixpoint settle (fuel : nat) (cap : Z) (p : Process) : Process :=
  match fuel with
  | O => p
  | S fuel =>
      match p_tasks p with
      | [] => p
      | THook a :: tasks => settle fuel cap (run_hook p cap a tasks)
      | TArm k g d :: tasks => settle fuel cap (arm p k g d tasks)
      end
  end.
Definition settled (cap : Z) (p : Process) : Process := settle (2 * length (p_tasks p)) cap p.

(** The timers that are due, in the order in which they were armed. *)
Fixpoint next_due (now : Z) (ts : list Timer) : option (list Timer * Timer * list Timer) :=
  match ts with
  | [] => None
  | t :: ts =>
      if tm_due t <=? now then Some ([], t, ts)
      else match next_due now ts with
           | Some (pre, t', post) => Some (t :: pre, t', post)
           | None => None
           end
  end.
Fixpoint fire_due (fuel : nat) (cap : Z) (p : Process) : Process :=
  match fuel with
  | O => p
  | S fuel =>
      match next_due (p_now p) (p_timers p) with
      | None => p
      | Some (pre, t, post) =>
          fire_due fuel cap (settled cap (unlocked p (fire p t).1 (fire p t).2 (pre ++ post)))
      end
  end.

(** Time passes. *)
Definition tick (p : Process) (d : Z) : Process :=
  {| p_machine := p_machine p; p_metrics := p_metrics p; p_tasks := p_tasks p; p_timers := p_timers p;
     p_now := p_now p + d; p_log := p_log p |}.
Definition elapse (d : Z) (s : ServerState) : ServerState :=
  let cap := cf_PodCapacityRPS (sv_cfg s) in
  with_process s
    (let p := settled cap (tick (sv_process s) (Z.max 0 d)) in fire_due (length (p_timers p)) cap p).

(** A request is served, and its goroutines finish. *)
Definition handle_request (rq : Request) (s : ServerState) : Response * ServerState :=
  let '(resp, s) := serve rq s in
  (resp, with_process s (settled (cf_PodCapacityRPS (sv_cfg s)) (sv_process s))).

(** ** The cluster *)

(** The API server, and the pods by address. *)
Record Cluster := { cl_mem : Mem; cl_pods : gmap string ServerState }.

(** The request of the client, as the server gets it. *)
Definition as_request (rq : HTTPRequest) : Request :=
  {| rq_method := hr_Method rq; rq_path := hr_Path rq; rq_body := whole (hr_Body rq); rq_jitter := 0 |}.

(** What the client gets from a pod, or from an address without one. *)
Definition transport (c : Cluster) (ip : string) (rq : HTTPRequest) : Response * Cluster :=
  match cl_pods c !! ip with
  | None => (Pending, c)
  | Some s =>
      let '(resp, s) := handle_request (as_request rq) s in
      (resp, {| cl_mem := cl_mem c; cl_pods := <[ip := s]> (cl_pods c) |})
  end.
Definition no_answer : goerror := PlainError "context deadline exceeded".
Definition exchanged (c : Cluster) (ip : string) (rq : HTTPRequest) : Exchange :=
  match (transport c ip rq).1 with
  | Answer status body => Responded status (whole (default "" body))
  | Pending => DoError no_answer
  end.

Definition lift (c : Cluster) {R} (out : R * Mem) : R * Cluster :=
  (out.1, {| cl_mem := out.2; cl_pods := cl_pods c |}).

(** A call: to a pod, or to the API server.  The faults of [Mem] apply to both. *)
Definition cluster_answer {R} (e : Eff R) (c : Cluster) : R * Cluster :=
  match e in Eff R return R * Cluster with
  | PodActivate ip req =>
      (HTTP_Activate (exchanged c ip) NewHTTPClient ip req, (transport c ip (activate_http NewHTTPClient ip req)).2)
  | PodRelease ip =>
      (HTTP_Release (exchanged c ip) NewHTTPClient ip, (transport c ip (release_http NewHTTPClient ip)).2)
  | PodState ip =>
      (HTTP_State (exchanged c ip) NewHTTPClient ip, (transport c ip (state_http NewHTTPClient ip)).2)
  | e => lift c (mem_answer e (cl_mem c))
  end.
Definition cluster_server : Effects.Server Cluster := λ R e c,
  match m_faults (cl_mem c) with
  | Some err :: fs =>
      (mem_fail e err (mem_answer e (cl_mem c)).1, {| cl_mem := set_faults (cl_mem c) fs; cl_pods := cl_pods c |})
  | None :: fs => cluster_answer e {| cl_mem := set_faults (cl_mem c) fs; cl_pods := cl_pods c |}
  | [] => cluster_answer e c
  end.

(** The events of [Execution], for the whole cluster. *)
Section Play.
Context (rl : GPULeaseReconciler) (rw : WarmPool.WarmPoolReconciler).

Definition at_time (c : Cluster) (m : Mem) : Cluster :=
  {| cl_mem := m; cl_pods := elapse (m_now m - m_now (cl_mem c)) <$> cl_pods c |}.
Definition cplay (c : Cluster) (ev : Execution.Event) : Cluster :=
  match ev with
  | RunLease name => (run cluster_server (GPULeaseController.Reconcile rl name) c).2
  | RunPool ns name => (run cluster_server (WarmPool.Reconcile rw ns name) c).2
  | ev => at_time c (play rl rw (cl_mem c) ev)
  end.

End Play.

(** ** The pods run *)

Lemma settle_internal fuel cap p : rtc (internal cap) p (settle fuel cap p).
Proof.
  revert p. induction fuel as [|fuel IH]; intros p; simpl; [done|].
  destruct (p_tasks p) as [|[a|k g d] tasks] eqn:E; [done| |].
  - eapply rtc_l; [|apply IH]. by apply (step_hook _ _ [] a tasks).
  - eapply rtc_l; [|apply IH]. by apply (step_arm _ _ [] k g d tasks).
Qed.

(** The fuel is enough for all goroutines to finish. *)
Fixpoint steps_of (ts : list Task) : nat :=
  match ts with
  | [] => 0
  | THook _ :: ts => 2 + steps_of ts
  | TArm _ _ _ :: ts => 1 + steps_of ts
  end.

Lemma steps_of_snoc ts k g d : steps_of (ts ++ [TArm k g d]) = S (steps_of ts).
Proof. induction ts as [|[] ts IH]; simpl; [done|rewrite IH; lia..]. Qed.

Lemma settle_done fuel cap p : (steps_of (p_tasks p) <= fuel)%nat → p_tasks (settle fuel cap p) = [].
Proof.
  revert p. induction fuel as [|fuel IH]; intros p H; simpl.
  - destruct (p_tasks p) as [|[] ?]; [done|simpl in H; lia..].
  - destruct (p_tasks p) as [|[a|k g d] tasks] eqn:E; [done| |]; apply IH; simpl in *; [|lia].
    destruct (af_timer a) as [[[k g] d]|]; [rewrite steps_of_snoc|]; lia.
Qed.

Lemma settled_done cap p : p_tasks (settled cap p) = [].
Proof. apply settle_done. induction (p_tasks p) as [|[] ts IH]; simpl; lia. Qed.

Lemma next_due_some now ts pre t post :
  next_due now ts = Some (pre, t, post) → ts = pre ++ t :: post ∧ tm_due t <= now.
Proof.
  revert pre. induction ts as [|x ts IH]; intros pre; simpl; [done|].
  destruct (Z.leb_spec (tm_due x) now); [by intros [= <- <- <-]|].
  destruct (next_due now ts) as [[[pre' t'] post']|]; [|done]. intros [= <- <- <-].
  by destruct (IH pre') as [-> ?].
Qed.

Lemma fire_due_internal fuel cap p : rtc (internal cap) p (fire_due fuel cap p).
Proof.
  revert p. induction fuel as [|fuel IH]; intros p; simpl; [done|].
  destruct (next_due _ _) as [[[pre t] post]|] eqn:E; [|done].
  apply next_due_some in E as [Ht Hd]. eapply rtc_l; [by apply (step_fire _ _ pre t post)|].
  etrans; [apply settle_internal|apply IH].
Qed.

(** The goroutines of a server, as steps of it. *)
Lemma internal_executes s0 ls s p' :
  execution s0 ls s → rtc (internal (cf_PodCapacityRPS (sv_cfg s))) (sv_process s) p' →
  ∃ ls', execution s0 (ls' ++ ls) (with_process s p').
Proof.
  intros He Hp. remember (cf_PodCapacityRPS (sv_cfg s)) as cap eqn:Ec. remember (sv_process s) as p eqn:Ep.
  revert ls s He Ec Ep. induction Hp as [p|p p1 p2 Hi Hp IH]; intros ls s He -> ->.
  - exists []. assert (with_process s (sv_process s) = s) as -> by (by destruct s). done.
  - destruct (IH (LInternal :: ls) (with_process s p1)) as (ls' & H); [|done|done|].
    + eapply exec_step; [done|]. by apply ss_internal.
    + exists (ls' ++ [LInternal]). by rewrite <-app_assoc.
Qed.

(** Every pod runs its server from the start. *)
Definition pods_run (start_of : string → ServerState) (c : Cluster) : Prop :=
  ∀ ip s, cl_pods c !! ip = Some s → ∃ ls, execution (start_of ip) ls s.

Section PodsRun.
Context (start_of : string → ServerState).

Lemma handle_request_executes ls s0 rq s :
  execution s0 ls s → ∃ ls', execution s0 ls' (handle_request rq s).2.
Proof.
  intros He. unfold handle_request.
  pose proof (exec_step _ _ _ _ _ He (ss_serve s rq)) as He'. destruct (serve rq s) as [resp s1].
  destruct (internal_executes _ _ _ (settled (cf_PodCapacityRPS (sv_cfg s1)) (sv_process s1)) He')
    as (ls' & H); [apply settle_internal|]. simpl. eauto.
Qed.

Lemma elapse_executes ls s0 d s :
  execution s0 ls s → ∃ ls', execution s0 ls' (elapse d s).
Proof.
  intros He. destruct (internal_executes _ _ _ (sv_process (elapse d s)) He) as (ls' & H).
  - unfold elapse. simpl. eapply rtc_l; [apply (step_tick _ _ (Z.max 0 d)); lia|].
    etrans; [apply settle_internal|]. apply fire_due_internal.
  - eauto.
Qed.

Lemma transport_pods c ip rq : pods_run start_of c → pods_run start_of (transport c ip rq).2.
Proof.
  intros Hc. unfold transport. destruct (cl_pods c !! ip) as [s|] eqn:E; [|done].
  destruct (Hc ip s E) as (ls & He).
  destruct (handle_request_executes ls _ (as_request rq) s He) as (ls' & He').
  destruct (handle_request (as_request rq) s) as [resp s']. simpl in *.
  intros ip' s1. simpl. intros [[<- <-]|[_ H]]%lookup_insert_Some; [by eauto|by apply Hc].
Qed.

Lemma server_pods {R} (e : Eff R) c : pods_run start_of c → pods_run start_of (cluster_server R e c).2.
Proof.
  intros Hc. unfold cluster_server. destruct (m_faults (cl_mem c)) as [|[err|] fs]; [|done|];
    destruct e; simpl; try done; by apply transport_pods.
Qed.

Lemma run_pods {A} (p : Prog A) c : pods_run start_of c → pods_run start_of (run cluster_server p c).2.
Proof.
  revert c. induction p as [x|R e k IH]; intros c Hc; cbn [run]; [done|].
  pose proof (server_pods e c Hc) as Hs. destruct (cluster_server R e c) as [r c1].
  specialize (IH r c1 Hs). by destruct (run cluster_server (k r) c1) as [[? ?] ?].
Qed.

Lemma cplay_pods rl rw c ev : pods_run start_of c → pods_run start_of (cplay rl rw c ev).
Proof.
  intros Hc. assert (∀ m, pods_run start_of (at_time c m)) as Ht.
  { intros m ip s. unfold at_time. simpl. rewrite lookup_fmap, fmap_Some. intros (s1 & H & ->).
    destruct (Hc ip s1 H) as (ls & He). by eapply elapse_executes. }
  destruct ev; cbn [cplay]; first [by apply run_pods|by apply Ht].
Qed.

End PodsRun.

(** ** The cluster is a system *)

Lemma transport_mem c ip rq : cl_mem (transport c ip rq).2 = cl_mem c.
Proof. unfold transport. destruct (cl_pods c !! ip); [|done]. by destruct (handle_request _ _). Qed.

Lemma cluster_serves_api : serves_api cluster_server cl_mem.
Proof.
  assert (∀ R (e : Eff R) c a, abstracts (cl_mem c) a →
    ∃ a', api_call e a (cluster_answer e c).1 a' ∧ abstracts (cl_mem (cluster_answer e c).2) a') as Ha.
  { intros R e c a Hm. destruct e; try exact (mem_answer_call _ (cl_mem c) a Hm);
      exists a; (split; [done|]); cbn [cluster_answer snd]; by rewrite transport_mem. }
  intros R e c a Hm. unfold cluster_server.
  destruct (m_faults (cl_mem c)) as [|[err|] fs] eqn:Ef; [by apply Ha| |].
  - exists a. split; [|by apply (abstracts_world (cl_mem c))]. destruct e; simpl; by auto.
  - apply Ha. by apply (abstracts_world (cl_mem c)).
Qed.

(** A scenario ends in a reachable state of the system, and its pods run their servers. *)
Lemma cplay_reachable rl rw start_of evs c :
  m_leases (cl_mem c) = ∅ → m_rv (cl_mem c) = 1 → pods_run start_of c →
  let c' := foldl (cplay rl rw) c evs in
  pods_run start_of c' ∧
  ∃ s, sys_reachable rl rw s ∧ m_leases (cl_mem c') = api_store (sys_api s).
Proof.
  intros Hl Hv Hp. cbv zeta.
  assert (abstracts (cl_mem c) (sys_api sys_init)) as Ha.
  { split; simpl; [done|done|]. intros n l. by rewrite lookup_empty. }
  assert (sys_reachable rl rw sys_init) as Hr by apply rtc_refl. revert Ha Hr. generalize sys_init as s. clear Hl Hv.
  revert c Hp. induction evs as [|ev evs IH]; intros c Hp s Ha Hr; simpl.
  - split; [done|]. exists s. split; [done|]. by apply abs_leases.
  - assert (∃ s1, rtc (sys_step rl rw) s s1 ∧ abstracts (cl_mem (cplay rl rw c ev)) (sys_api s1)) as (s1 & H1 & Ha1).
    { destruct ev; cbn [cplay];
        [by apply (start_execution _ _ _ cl_mem _ _ _ cluster_serves_api (step_lease _ _ _ _))
        |by apply (start_execution _ _ _ cl_mem _ _ _ cluster_serves_api (step_pool _ _ _ _ _))|..];
        by apply (play_execution rl rw [_] (cl_mem c) s). }
    apply (IH _ (cplay_pods start_of rl rw c ev Hp) s1 Ha1). unfold sys_reachable in *. by etrans.
Qed.

End Cluster.
