(* ===== verification/SystemSafety.v ===== *)
(** * Safety of the whole system

    What the two controllers guarantee together, in every interleaving that [System]
    allows: the stored leases follow an abstract store, a GPU has one lease, and a lease
    lives along its life cycle. *)

From S2P Require Import Prelude GoLib Names Kube Effects MemServer Scenario Inventory PodClient.
From S2P Require Import Pods Kueue GPULeaseController GPULeaseFacts LeaseLifecycle.
From S2P Require Import WarmPoolController WarmPoolFacts Protocol System Execution.

Section Safety.
Context `{KL : KubeLib} `{HL : !KubeLibLaws}.
Context (rl : GPULeaseReconciler) (rw : WarmPool.WarmPoolReconciler).
Context `{Hrl : !LawfulReconciler rl} `{Hrw : !InventoryLaws (WarmPool.wpr_Inventory rw)}.

(** C2. The system implements the abstract lease store.  With any number of reconciles of
    both controllers under way, stale reads, failing calls, lost answers, lost reconciles
    and deletions by other actors, every step of the system leaves the stored leases as
    they are, adds a fresh lease whose name is the one of its node and GPU, changes one
    lease as the life cycle allows (status under the finalizer and along the phases,
    finalizer added or removed, marked as deleted; never its spec), or removes one that
    has no finalizer or has been released. *)
Theorem system_refines_store s s' :
  sys_reachable rl rw s → sys_step rl rw s s' →
  store_step (api_store (sys_api s)) (api_store (sys_api s')).
Proof. intros Hs Hstep. by apply (sys_step_good rl rw s s' (sys_reachable_ok rl rw s Hs)) in Hstep as [_ []]. Qed.

(** C1. A GPU has at most one lease.  However the reconciles of the two controllers
    interleave, two stored leases for the same GPU index of the same node are the same
    lease. *)
Theorem gpu_exclusive s n1 n2 l1 l2 :
  sys_reachable rl rw s →
  api_store (sys_api s) !! n1 = Some l1 → api_store (sys_api s) !! n2 = Some l2 →
  spec_NodeName (lease_Spec l1) = spec_NodeName (lease_Spec l2) →
  spec_GPUID (lease_Spec l1) = spec_GPUID (lease_Spec l2) →
  n1 = n2 ∧ l1 = l2.
Proof.
  intros [Ha _]%(sys_reachable_ok rl rw) H1 H2 Hn Hg.
  destruct (ok_stored _ Ha _ _ H1) as [P1 <-], (ok_stored _ Ha _ _ H2) as [P2 <-].
  destruct (ok_past _ Ha _ P1) as [W1 _], (ok_past _ Ha _ P2) as [W2 _].
  assert (lease_Name l1 = lease_Name l2) as E by (rewrite W1, W2; congruence).
  split; [done|]. rewrite E in H1. congruence.
Qed.

(** C4. No lease vanishes while it holds quota.  A stored lease that is Admitted,
    Activating or Bound is still stored after any step of the system, because it carries
    the finalizer: it has to become Failed or Releasing first. *)
Theorem holding_lease_stays s s' n l :
  sys_reachable rl rw s → sys_step rl rw s s' →
  api_store (sys_api s) !! n = Some l → holding (st_Phase (lease_Status l)) = true →
  is_Some (api_store (sys_api s') !! n).
Proof.
  intros Hs Hstep Hl Hh. pose proof (sys_reachable_ok rl rw s Hs) as Hok.
  destruct (sys_step_good rl rw s s' Hok Hstep) as [_ [_ _ Hst]]. destruct Hok as [Ha _].
  destruct (store_step_lookup _ _ _ _ Hst Hl) as [(l' & -> & _)|[_ [Hf|[_ Hp]]]]; [eauto| |].
  - destruct (ok_past _ Ha l) as [_ Hg]; [by apply (ok_stored _ Ha) in Hl as [? _]|].
    specialize (Hg Hh). rewrite Hf, contains_nil in Hg. done.
  - rewrite Hp in Hh. done.
Qed.

(** Executions in which the lease [n] stays stored. *)
Definition stays_stored (n : string) : Sys → Sys → Prop :=
  rtc (λ s s', sys_step rl rw s s' ∧ is_Some (api_store (sys_api s') !! n)).

(** C3. The life of a lease.  Over any execution in which a lease stays stored, its spec
    (node, GPU, pod, Deployment, queue) never changes, its phase only moves along the life
    cycle, that is, Pending, Admitted, Activating, Bound in this order, or to Failed, or to
    Releasing, and a deletion is never taken back. *)
Theorem lease_life s s' n l l' :
  sys_reachable rl rw s → stays_stored n s s' →
  api_store (sys_api s) !! n = Some l → api_store (sys_api s') !! n = Some l' →
  lease_Spec l' = lease_Spec l ∧
  rtc life_step (st_Phase (lease_Status l)) (st_Phase (lease_Status l')) ∧
  (is_Some (lease_DeletionTimestamp l) → is_Some (lease_DeletionTimestamp l')).
Proof.
  intros Hs%(sys_reachable_ok rl rw) Hex. revert l Hs. induction Hex as [s|s s1 s' [H1 [l1 Hl1]] _ IH]; intros l Hs Hl Hl'.
  { simplify_eq. done. }
  destruct (sys_step_good rl rw s s1 Hs H1) as [Hs1 [_ _ Hst]].
  destruct (IH l1 Hs1 Hl1 Hl') as (Hspec & Hlife & Hd).
  destruct (store_step_lookup _ _ _ _ Hst Hl) as [(l2 & E & Hc)|[E _]]; simplify_eq.
  destruct Hc as [->|(Hspec2 & _ & Hlife2 & Hd2)%lease_change_life]; [done|].
  split; [congruence|]. split; [by eapply rtc_l|auto].
Qed.

End Safety.

(** ** Witnesses *)

(** The pool promotes a pod, the lease's Workload is created, Kueue admits it, and the pod
    is activated and becomes hot. *)
Definition binding : list Event :=
  [RunPool "ns" "app"; RunLease example_name; KueueAdmits (1001 * Second);
   RunLease example_name; RunLease example_name; RunLease example_name].

(** What is stored at the end of the scenario. *)
Definition lease_view (l : GPULease) :=
  (st_Phase (lease_Status l), spec_NodeName (lease_Spec l), spec_GPUID (lease_Spec l),
   lease_DeletionTimestamp l, lease_Finalizers l).

Lemma bound_view :
  lease_view <$> m_leases (replay binding) !! example_name =
    Some (GPULeasePhaseBound, "n1", 0, None, [Finalizer]).
Proof. vm_compute. reflexivity. Qed.

Lemma bound_state :
  ∃ s l, sys_reachable example_reconciler example_pool_rec s ∧
    api_store (sys_api s) !! example_name = Some l ∧
    lease_view l = (GPULeasePhaseBound, "n1", 0, None, [Finalizer]).
Proof.
  destruct (replay_reachable binding) as (s & Hs & Hm). pose proof bound_view as Hv. rewrite Hm in Hv.
  destruct (api_store (sys_api s) !! example_name) as [l|] eqn:E; [|done]. exists s, l.
  split; [done|]. split; [done|]. by apply (inj Some) in Hv.
Qed.

(** Then somebody deletes the lease. *)
Lemma bound_deleted :
  ∃ s s' l l', sys_reachable example_reconciler example_pool_rec s ∧
    sys_step example_reconciler example_pool_rec s s' ∧
    api_store (sys_api s) !! example_name = Some l ∧ st_Phase (lease_Status l) = GPULeasePhaseBound ∧
    api_store (sys_api s') !! example_name = Some l' ∧ is_Some (lease_DeletionTimestamp l').
Proof.
  destruct bound_state as (s & l & Hs & Hl & Hv). injection Hv as Hp Hn Hg Hd Hf.
  set (a' := commit (sys_api s) (marked_deleted (api_next (sys_api s)) l 5)).
  exists s, {| sys_api := a'; sys_runs := sys_runs s |}, l, (marked_deleted (api_next (sys_api s)) l 5).
  split; [done|]. split; [apply (step_deleted _ _ s example_name)|].
  - exists l. rewrite Hf, bool_decide_eq_false_2, Hd by done. eauto.
  - split; [done|]. split; [done|]. split; [|simpl; eauto]. simpl.
    rewrite bool_decide_eq_false_2 by (rewrite Hf; naive_solver).
    assert (lease_Name l = example_name) as ->; [|apply lookup_insert_eq].
    destruct (ok_stored _ (ok_api _ (sys_reachable_ok _ _ s Hs)) _ _ Hl) as [_ <-]. done.
Qed.

Lemma system_refines_store_witness :
  ∃ s s', is_Some (api_store (sys_api s) !! example_name) ∧
    store_step (api_store (sys_api s)) (api_store (sys_api s')).
Proof.
  destruct bound_deleted as (s & s' & l & l' & Hs & Hst & Hl & _). exists s, s'. split; [by eauto|].
  exact (system_refines_store example_reconciler example_pool_rec s s' Hs Hst).
Defined.

Lemma gpu_exclusive_witness :
  ∃ s l, api_store (sys_api s) !! example_name = Some l ∧
    ∀ n l', api_store (sys_api s) !! n = Some l' → spec_NodeName (lease_Spec l') = "n1" →
            spec_GPUID (lease_Spec l') = 0 → n = example_name.
Proof.
  destruct bound_state as (s & l & Hs & Hl & Hv). injection Hv as Hp Hn Hg Hd Hf.
  exists s, l. split; [done|]. intros n l' Hl' Hn' Hg'.
  eapply (gpu_exclusive example_reconciler example_pool_rec s n example_name l' l); [done|done|done| |];
    congruence.
Defined.

Lemma holding_lease_stays_witness :
  ∃ s s' l, api_store (sys_api s) !! example_name = Some l ∧
    st_Phase (lease_Status l) = GPULeasePhaseBound ∧ is_Some (api_store (sys_api s') !! example_name).
Proof.
  destruct bound_deleted as (s & s' & l & l' & Hs & Hst & Hl & Hp & _). exists s, s', l.
  split; [done|]. split; [done|].
  apply (holding_lease_stays example_reconciler example_pool_rec s s' example_name l Hs Hst Hl).
  rewrite Hp. reflexivity.
Defined.

Lemma lease_life_witness :
  ∃ s s' l l', api_store (sys_api s) !! example_name = Some l ∧
    api_store (sys_api s') !! example_name = Some l' ∧ is_Some (lease_DeletionTimestamp l') ∧
    lease_Spec l' = lease_Spec l.
Proof.
  destruct bound_deleted as (s & s' & l & l' & Hs & Hst & Hl & _ & Hl' & Hd). exists s, s', l, l'.
  split; [done|]. split; [done|]. split; [done|].
  apply (lease_life example_reconciler example_pool_rec s s' example_name l l'); [done| |done|done].
  apply rtc_once. split; [exact Hst|]. by eexists.
Defined.
