(* ===== verification/Hazards.v ===== *)
(** * An execution that goes wrong

    A behaviour of the system that its authors do not intend, as a concrete execution: a pod
    that is claimed by two leases.  It is about pods, of which the lease names promise
    nothing; the promises about leases ([SystemSafety]) hold in it as well.  What comes of it
    with the pods' own servers is in [PodLeases]. *)

From S2P Require Import Prelude GoLib Names Kube Effects MemServer Scenario Inventory PodClient.
From S2P Require Import Pods Kueue GPULeaseController GPULeaseFacts LeaseLifecycle.
From S2P Require Import WarmPoolController Protocol System Execution.

(** The first lease of the scenario is the one of GPU 0, the second the one of GPU 1. *)
Definition second_name : string := LeaseName "n1" 1.

(** ** A pod with two leases *)

(** A promotion whose call to label the pod fails, after the lease has been created; and
    the next reconcile. *)
Definition label_lost : list Event :=
  [Fail (replicate 12 None ++ [Some (PlainError "connection reset")]);
   RunPool "ns" "app"; RunPool "ns" "app"].

Definition claim_view (l : GPULease) := (ref_Name (spec_ClaimRef (lease_Spec l)), lease_DeletionTimestamp l).

(** A pod can be claimed twice.  There is an execution with a single failed call, the
    patch of the pod's label after its lease was created, at the end of which two leases
    for different GPUs are stored, neither of them being deleted, that claim the same
    pod. *)
Lemma pod_claimed_twice :
  ∃ s l1 l2, sys_reachable example_reconciler example_pool_rec s ∧
    api_store (sys_api s) !! example_name = Some l1 ∧ api_store (sys_api s) !! second_name = Some l2 ∧
    claim_view l1 = ("p0", None) ∧ claim_view l2 = ("p0", None).
Proof.
  destruct (replay_reachable label_lost) as (s & Hs & Hm).
  assert (claim_view <$> m_leases (replay label_lost) !! example_name = Some ("p0", None)) as H1
    by (vm_compute; reflexivity).
  assert (claim_view <$> m_leases (replay label_lost) !! second_name = Some ("p0", None)) as H2
    by (vm_compute; reflexivity).
  rewrite Hm in H1, H2.
  apply fmap_Some in H1 as (l1 & H1 & E1), H2 as (l2 & H2 & E2). exists s, l1, l2.
  split_and!; [exact Hs|exact H1|exact H2|by symmetry..].
Qed.
