(* ===== verification/PodLeases.v ===== *)
(** * Pods and leases together

    What a pod serves is what the controllers gave it: the POST requests a pod accepts are
    those of lease reconciles, so the lease a pod shows is one that was admitted and claimed
    that pod.  The other direction fails: the lease reconciler does not compare the lease a
    pod shows with its own, and a scenario ends with two bound leases for one pod. *)

From S2P Require Import Prelude GoLib GoJSON GoJSONFacts Names Kube Effects MemServer Scenario Inventory PodClient.
From S2P Require Import Pods Kueue GPULeaseController GPULeaseFacts LeaseLifecycle.
From S2P Require Import WarmPoolController Machine WorkloadServer Demand PodServer.
From S2P Require Import Protocol System Execution Hazards Cluster.
Import Workload Server PodServer Cluster.

(** ** What a pod holds was admitted *)

Section Holding.
Context `{KL : KubeLib} (r : GPULeaseReconciler) `{!LawfulReconciler r}.

(** [posted T l req]: in the trace [T] of a lease reconcile that read the lease [l], the
    request [req] was sent to a pod. *)
Definition posted (T : list Obs) (l : GPULease) (req : ActivateRequest) : Prop :=
  ∃ t res ip a, T = MkObs (GetLease (lease_Name l)) (Ok l) :: t ∧
    runs (Reconcile r (lease_Name l)) T res ∧ ActActivate ip req a ∈ acts t.

(** Only lease reconciles activate the pod: every POST that it accepted has the body of a
    request that one of them sent. *)
Definition only_controllers (ls : list Label) : Prop :=
  ∀ rq, LServe rq (Answer StatusAccepted None) ∈ ls → mux (rq_method rq) (rq_path rq) = inl HActivate →
    ∃ T l req, posted T l req ∧ rq_body rq = whole (Marshal req).

(** C5. A pod serves an admitted lease.  Suppose that only lease reconciles send POST
    /lease to a pod.  Whenever the answer to its GET /state shows a state other than warm, it
    shows the name, node and GPU of a lease that a reconcile found Admitted and not being
    deleted, with a claim pod that was ready and on the node of the lease; and that node is
    the pod's own.  (Names come through JSON repaired, which valid UTF-8 does not need.) *)
Theorem pod_serves_admitted_lease cfg k8sClient now ls s rq status body st :
  execution (NewServer cfg k8sClient now) ls s → only_controllers ls →
  mux (rq_method rq) (rq_path rq) = inl HState →
  (serve rq s).1 = Answer status (Some body) → Decode (whole body) = Ok st → sr_State st ≠ StateWarm →
  ∃ l T p, sr_LeaseName st = coerceUTF8 (lease_Name l) ∧
    sr_Node st = coerceUTF8 (spec_NodeName (lease_Spec l)) ∧
    sr_GPUID st = spec_GPUID (lease_Spec l) ∧ coerceUTF8 (spec_NodeName (lease_Spec l)) = cf_NodeName cfg ∧
    st_Phase (lease_Status l) = GPULeasePhaseAdmitted ∧ lease_DeletionTimestamp l = None ∧
    valid_claim T l p.
Proof.
  intros He Ho Hm Hr Hd Hs.
  destruct (shown_lease_accepted cfg k8sClient now ls s rq status body st He Hm Hr Hd Hs)
    as (req & newer & lab & older & -> & (rq' & -> & Hm' & Hb) & E1 & E2 & E3 & E4 & _).
  destruct (Ho rq') as (T & l & req' & (t & res & ip & a & -> & Hrun & Hin) & Hb'); [set_solver|done|].
  rewrite Hb', decode_request_sent in Hb. case_bool_decide; [|done]. injection Hb as <-.
  destruct (activation_run r _ _ _ _ _ _ _ Hrun Hin) as (Hp & Hdel & -> & _ & (p & Hv & _) & _).
  exists l, (MkObs (GetLease (lease_Name l)) (Ok l) :: t), p. cbn in E1, E2, E3, E4.
  rewrite coerceUTF8_idemp in E1, E2. by split_and!.
Qed.

End Holding.

(** The request that the sample reconcile of an admitted lease sends. *)
Definition sample_request : ActivateRequest := activate_request (lease_in GPULeasePhaseAdmitted).
Definition sample_post : Request := request "POST" "/lease" (Marshal sample_request).
Definition sample_state : StateResponse :=
  {| sr_State := StateActivating; sr_LeaseName := LeaseName "n1" 0; sr_Node := "n1"; sr_GPUID := 0 |}.

Lemma pod_serves_admitted_lease_witness :
  ∃ l T p, coerceUTF8 (lease_Name l) = LeaseName "n1" 0 ∧
    st_Phase (lease_Status l) = GPULeasePhaseAdmitted ∧ valid_claim T l p.
Proof.
  destruct (pod_serves_admitted_lease example_reconciler example_config true 0 _ _
    (request "GET" "/state" "") StatusOK (Encode sample_state) sample_state
    (one_request sample_post)) as (l & T & p & E & _ & _ & _ & Hp & _ & Hv).
  - intros rq Hl _. apply list_elem_of_singleton in Hl. injection Hl as ->.
    assert (nth_act 0 state_to_activate = Some (ActActivate "10.0.0.1" sample_request (Ok tt))) as En
      by (vm_compute; reflexivity).
    apply nth_act_in in En.
    exists (MkObs (GetLease example_name) (Ok (lease_in GPULeasePhaseAdmitted)) :: (example_run state_to_activate).2).
    exists (lease_in GPULeasePhaseAdmitted), sample_request. split; [|reflexivity].
    exists (example_run state_to_activate).2, (example_run state_to_activate).1, "10.0.0.1", (Ok tt).
    split; [reflexivity|]. split; [|exact En].
    exact (example_runs state_to_activate (lease_in GPULeasePhaseAdmitted) eq_refl eq_refl).
  - vm_compute. reflexivity.
  - vm_compute. reflexivity.
  - vm_compute. reflexivity.
  - discriminate.
  - exists l, T, p. split; [symmetry; exact E|]. split; [exact Hp|exact Hv].
Defined.

(** ** Scenarios with real pods *)

Definition pod_config (pod : string) : Config :=
  {| cf_NodeName := "n1"; cf_PodName := pod; cf_PodNamespace := "ns"; cf_DeploymentName := "app";
     cf_PodCapacityRPS := 10; cf_WarmupDuration := 0; cf_TeardownDuration := 0;
     cf_DemandConfigMapName := "" |}.
Definition started (ip : string) : ServerState :=
  NewServer (pod_config (if bool_decide (ip = "10.0.0.1") then "p0" else "p1")) true (1000 * Second).

(** The cluster of [Execution], whose two pods have just started. *)
Definition fresh_with_pods : Cluster :=
  {| cl_mem := fresh_cluster;
     cl_pods := {[ "10.0.0.1" := started "10.0.0.1"; "10.0.0.2" := started "10.0.0.2" ]} |}.
Definition creplay (evs : list Execution.Event) : Cluster :=
  foldl (cplay example_reconciler example_pool_rec) fresh_with_pods evs.

Lemma creplay_reachable evs :
  pods_run started (creplay evs) ∧
  ∃ s, sys_reachable example_reconciler example_pool_rec s ∧
    m_leases (cl_mem (creplay evs)) = api_store (sys_api s).
Proof.
  apply cplay_reachable; [done|done|]. intros ip s. simpl.
  intros [[<- <-]|[_ [<- <-]%lookup_singleton_Some]]%lookup_insert_Some; exists []; constructor.
Qed.

(** What a lease, a pod and a pod's process show. *)
Definition lease_view (c : Cluster) (name : string) :=
  (λ l : GPULease, (st_Phase (lease_Status l), ref_Name (spec_ClaimRef (lease_Spec l)), spec_GPUID (lease_Spec l)))
    <$> m_leases (cl_mem c) !! name.
Definition label_view (c : Cluster) (pod : string) : option string :=
  m_pods (cl_mem c) !! ("ns", pod) ≫= λ p, pod_Labels p !! StateLabelKey.
Definition shown (c : Cluster) (ip : string) : result StateResponse :=
  HTTP_State (exchanged c ip) NewHTTPClient ip.
Definition shows (state lease : string) (gpu : Z) : result StateResponse :=
  Ok {| sr_State := state; sr_LeaseName := lease; sr_Node := "n1"; sr_GPUID := gpu |}.

(** A lease from its creation to Bound. *)
Definition one_lease : list Execution.Event :=
  [RunPool "ns" "app"; RunLease example_name; KueueAdmits (1001 * Second); RunLease example_name;
   RunLease example_name; Wait (1012 * Second); RunLease example_name].

(** From a warm pod to a bound lease.  On a cluster with a managed Deployment, a free
    GPU and quota, and with the pods' own servers: after the pool reconcile, the reconciles
    of the new lease and the warm-up time, the lease is bound to the pod, the pod is
    labelled hot, and its server shows that it is hot for just this lease and GPU, while
    the other pod stays warm; and all this is an execution of the system and of the pods. *)
Lemma lease_bound_end_to_end :
  let c := creplay one_lease in
  (pods_run started c ∧ ∃ s, sys_reachable example_reconciler example_pool_rec s ∧
     m_leases (cl_mem c) = api_store (sys_api s)) ∧
  lease_view c example_name = Some (GPULeasePhaseBound, "p0", 0) ∧
  label_view c "p0" = Some StateHot ∧ label_view c "p1" = Some StateWarm ∧
  shown c "10.0.0.1" = shows StateHot example_name 0.
Proof. cbv zeta. split; [apply creplay_reachable|]. vm_compute. auto. Qed.

(** ** Two bound leases for one pod *)

Definition third_name : string := LeaseName "n1" 2.

(** A pod that is claimed twice (see [Hazards]).  The second lease activates it; the first
    one is refused, fails, and on its way out releases the pod, which is then given a third
    lease.  When the pod is hot for the third lease, the second, still waiting, takes that
    for its own success. *)
Definition three_leases : list Execution.Event :=
  label_lost ++
  [RunLease example_name; RunLease second_name; KueueAdmits (1001 * Second);
   RunLease example_name; RunLease second_name; RunLease second_name; RunLease example_name;
   RunPool "ns" "app"; RunLease third_name; KueueAdmits (1002 * Second);
   RunLease third_name; RunLease third_name; Wait (1013 * Second);
   RunLease third_name; RunLease second_name].

(** C39. A lease can be bound to a pod that serves another one.  There is an execution of the
    system and of the pods, with a single failed call, at the end of which two leases for
    different GPUs are bound to the same pod, while the pod's server is hot for one of them
    only. *)
Theorem bound_to_a_pod_of_another_lease :
  let c := creplay three_leases in
  (pods_run started c ∧ ∃ s, sys_reachable example_reconciler example_pool_rec s ∧
     m_leases (cl_mem c) = api_store (sys_api s)) ∧
  lease_view c second_name = Some (GPULeasePhaseBound, "p0", 1) ∧
  lease_view c third_name = Some (GPULeasePhaseBound, "p0", 2) ∧
  shown c "10.0.0.1" = shows StateHot third_name 2.
Proof. cbv zeta. split; [apply creplay_reachable|]. vm_compute. auto. Qed.
