(* ===== verification/Progress.v ===== *)
(** * A lease with quota gets bound

    On the executable cluster with the pods' own servers ([Cluster]), from any state in which
    a lease is pending, Kueue has admitted its Workload and its claim pod is valid, reachable
    and idle: three reconciles of the lease, with the warm-up before the last, bind it, through the REST client, the JSON bodies, the
    routes, the state machine and its timer. *)

From S2P Require Import Prelude GoLib GoJSON GoJSONFacts Names Kube Effects MemServer Scenario Inventory.
From S2P Require Import PodClient Pods Kueue GPULeaseController GPULeaseFacts LeaseLifecycle.
From S2P Require Import WarmPoolController Machine WorkloadServer Demand PodServer.
From S2P Require Import Protocol System Execution Hazards Cluster PodLeases.
Import Workload Server PodServer Cluster.

(** ** Running without faults *)

Definition no_faults (c : Cluster) : Prop := m_faults (cl_mem c) = [].

Lemma server_answers {R} (e : Eff R) c : no_faults c → cluster_server R e c = cluster_answer e c.
Proof. intros Hf. unfold cluster_server. by rewrite Hf. Qed.

(** The state after a program. *)
Definition after {A} (p : Prog A) (c : Cluster) : Cluster := (run cluster_server p c).2.

Lemma after_vis {R A} (e : Eff R) (k : R → Prog A) c :
  no_faults c → after (Vis e k) c = after (k (cluster_answer e c).1) (cluster_answer e c).2.
Proof.
  intros Hf. unfold after. cbn [run]. rewrite server_answers by done. destruct (cluster_answer e c) as [r c1].
  cbn [fst snd]. by destruct (run cluster_server (k r) c1) as [[? ?] ?].
Qed.

Lemma after_bind {A B} (p : Prog A) (f : A → Prog B) c :
  after (bind p f) c = after (f (run cluster_server p c).1.1) (after p c).
Proof.
  unfold after. revert c. induction p as [a|R e k IH]; intros c; [done|]. cbn [bind run].
  destruct (cluster_server R e c) as [r c1]. specialize (IH r c1).
  destruct (run cluster_server (k r) c1) as [[a t] c2].
  destruct (run cluster_server (bind (k r) f) c1) as [[a' t'] c2']. exact IH.
Qed.

(** A program that only reads changes nothing. *)
Lemma after_reads {A} (p : Prog A) c : (∀ t a, runs p t a → acts t = []) → no_faults c → after p c = c.
Proof.
  unfold after. revert c. induction p as [a|R e k IH]; intros c Hr Hf; [done|]. cbn [run].
  assert (∀ r, act_of (MkObs e r) = None) as He.
  { intros r. pose proof (run_runs mem_server (k r) mem_empty) as Hk.
    specialize (Hr (MkObs e r :: (run mem_server (k r) mem_empty).1.2) (run mem_server (k r) mem_empty).1.1).
    rewrite acts_cons in Hr. destruct (act_of (MkObs e r)); [|done]. discriminate Hr. cbn [runs]. eauto. }
  assert ((cluster_server R e c).2 = c) as E.
  { rewrite server_answers by done. destruct c as [m pods].
    destruct e; try reflexivity; match goal with H : ∀ r, act_of (MkObs ?e r) = None |- _ =>
      specialize (H (Err (PlainError ""))); discriminate H end. }
  destruct (cluster_server R e c) as [r c1]. cbn [snd] in E. subst c1.
  specialize (IH r c). destruct (run cluster_server (k r) c) as [[a t] c2]. apply IH; [|done].
  intros t' a' Ht. specialize (Hr (MkObs e r :: t') a'). rewrite acts_cons, He in Hr. apply Hr. cbn [runs]. eauto.
Qed.

Lemma after_bind_reads {A B} (p : Prog A) (f : A → Prog B) c :
  (∀ t a, runs p t a → acts t = []) → no_faults c → after (bind p f) c = after (f (run cluster_server p c).1.1) c.
Proof. intros Hr Hf. by rewrite after_bind, (after_reads p). Qed.

(** ** The pod *)

(** A pod that is warm, with nothing going on. *)
Definition idle (s : ServerState) : Prop :=
  mc_state (p_machine (sv_process s)) = Warm ∧ p_tasks (sv_process s) = [] ∧ p_timers (sv_process s) = [].

(** A pod that has accepted the request [req] and will be hot at the time [due]. *)
Definition warming (s : ServerState) (req : ActivateRequest) (due : Z) : Prop :=
  let p := sv_process s in
  mc_state (p_machine p) = Activating ∧ committed (p_machine p) = req ∧ p_tasks p = [] ∧
  p_timers p = [ {| tm_kind := CompleteWarmup; tm_gen := mc_gen (p_machine p); tm_due := due |} ].

Definition hot_for (s : ServerState) (req : ActivateRequest) : Prop :=
  mc_state (p_machine (sv_process s)) = Hot ∧ committed (p_machine (sv_process s)) = req.

(** A request that arrives as it was sent. *)
Definition plain_request (req : ActivateRequest) : Prop :=
  valid_request req ∧ int32_range (ar_GPUID req).

Lemma plain_decoded req : plain_request req → Decode (whole (Marshal req)) = Ok req.
Proof.
  intros [Hv Hi]. by rewrite decode_request_sent, bool_decide_eq_true_2, repaired_valid_request by done.
Qed.

Lemma post_accepted s c ip req :
  idle s → plain_request req → ar_Node req = cf_NodeName (sv_cfg s) →
  ∃ s', handle_request (as_request (activate_http c ip req)) s = (Answer StatusAccepted None, s') ∧
    warming s' req (p_now (sv_process s) + mc_warmup (p_machine (sv_process s))) ∧
    p_now (sv_process s') = p_now (sv_process s) ∧ sv_cfg s' = sv_cfg s.
Proof.
  intros (Hw & Ht & Htm) Hp Hn. unfold handle_request, serve, as_request. cbn [rq_method rq_path rq_body activate_http
    hr_Method hr_Path hr_Body]. change (mux "POST" "/lease") with (inl HActivate : Handler + Z). cbv iota.
  unfold handleActivate. rewrite plain_decoded by done. unfold Activate. rewrite Hn, bool_decide_eq_false_2 by auto.
  rewrite Hw. eexists. split; [reflexivity|]. cbn. unfold settled, unlocked, next_gen. cbn.
  rewrite Ht. cbn. rewrite Htm. cbn. unfold warming. cbn. split_and!; try done. rewrite <-Hn. by destruct req.
Qed.

Lemma settle_machine n cap p : p_machine (settle n cap p) = p_machine p.
Proof.
  revert p. induction n as [|n IH]; intros p; [done|]. cbn [settle].
  destruct (p_tasks p) as [|[]]; [done|by rewrite IH..].
Qed.
Lemma settled_idle cap p : p_tasks p = [] → settled cap p = p.
Proof. unfold settled. by intros ->. Qed.

(** The only timer of a process, when it is due. *)
Lemma one_timer_fires cap p t :
  p_timers p = [t] → tm_due t <= p_now p →
  fire_due (length (p_timers p)) cap p = settled cap (unlocked p (fire p t).1 (fire p t).2 []).
Proof. intros Htm Hd. rewrite Htm. cbn [length fire_due]. rewrite Htm. cbn [next_due]. by rewrite (proj2 (Z.leb_le _ _) Hd). Qed.

Lemma warming_elapsed s req due d :
  warming s req due → 0 <= d → due <= p_now (sv_process s) + d →
  hot_for (elapse d s) req ∧ sv_cfg (elapse d s) = sv_cfg s.
Proof.
  intros (Ha & Hc & Ht & Htm) Hd Hdue. unfold elapse, hot_for. cbn [sv_process sv_cfg with_process].
  rewrite settled_idle by done. split; [|done]. rewrite <-Hc.
  erewrite one_timer_fires by (apply Htm || (cbn [tick p_now tm_due]; lia)). unfold settled.
  rewrite settle_machine. unfold fire, completeWarmup. cbn [tm_kind tm_gen tick p_machine].
  by rewrite Ha, !bool_decide_eq_false_2 by auto.
Qed.

Lemma hot_shown s req c ip :
  hot_for s req → plain_request req →
  ∃ body s', handle_request (as_request (state_http c ip)) s = (Answer StatusOK (Some body), s') ∧
    Decode (whole body) =
      Ok {| sr_State := StateHot; sr_LeaseName := ar_LeaseName req; sr_Node := ar_Node req; sr_GPUID := ar_GPUID req |} ∧
    hot_for s' req.
Proof.
  intros [Hh Hc] [(H1 & H2 & _) H4]. unfold handle_request, serve, as_request.
  cbn [rq_method rq_path rq_body state_http hr_Method hr_Path hr_Body].
  change (mux "GET" "/state") with (inl HState : Handler + Z). cbv iota. unfold handleState.
  eexists _, _. split; [reflexivity|]. unfold committed in Hc. subst req. cbn [ar_LeaseName ar_Node ar_GPUID] in *. split.
  - rewrite decode_state_encoded. unfold stateResponse, snapshotLocked. cbn [sr_GPUID sn_GPUID].
    rewrite bool_decide_eq_true_2 by done. unfold repaired_state. cbn [sr_State sr_LeaseName sr_Node sr_GPUID
      sn_State sn_LeaseName sn_Node sn_GPUID]. rewrite Hh, !coerceUTF8_valid by (by apply Is_true_true). done.
  - unfold hot_for. cbn [with_process sv_process].
    unfold settled. by rewrite !settle_machine.
Qed.

(** ** The reconciles *)

Section Reconciles.
Context (rl : GPULeaseReconciler) (rw : WarmPool.WarmPoolReconciler) `{!LawfulReconciler rl}.

(** A stored lease that is not being deleted, in the given phase. *)
Definition stored (m : Mem) (l : GPULease) (ph : GPULeasePhase) : Prop :=
  m_leases m !! lease_Name l = Some l ∧ lease_DeletionTimestamp l = None ∧ Finalizer ∈ lease_Finalizers l ∧
  st_Phase (lease_Status l) = ph.

(** The claim pod of a lease: it is there, valid, and has an address. *)
Definition claimed_pod (m : Mem) (l : GPULease) (p : Pod) : Prop :=
  m_pods m !! (pod_Namespace p, pod_Name p) = Some p ∧
  ref_Namespace (spec_ClaimRef (lease_Spec l)) = pod_Namespace p ∧
  ref_Name (spec_ClaimRef (lease_Spec l)) = pod_Name p ∧
  leaseOrphanReason (Some p) l None = "" ∧ pod_IP p ≠ "".

(** A reconcile of such a lease is its phase's, and reports afterwards. *)
Lemma after_Reconcile c l ph :
  no_faults c → stored (cl_mem c) l ph → no_faults (after (reconcilePhase rl l) c) →
  after (Reconcile rl (lease_Name l)) c = after (reconcilePhase rl l) c.
Proof using All.
  intros Hf (Hl & Hd & Hfin & _) Hf'. unfold Reconcile. cbn [bind call]. rewrite after_vis by done.
  destruct c as [m pods]. cbn [cluster_answer lift mem_answer fst snd cl_mem cl_pods] in *. rewrite Hl.
  cbn [lookup_result]. rewrite Hd, bool_decide_eq_false_2 by (by intros [? [=]]).
  cbn [ContainsFinalizer mem_lib]. rewrite bool_decide_eq_true_2 by done. cbn [negb].
  rewrite after_bind. cbn [fst snd]. rewrite after_bind. change (after (Ret ?x) ?c) with c.
  apply after_reads; [|done]. intros t a Ht. by eapply refreshMetrics_acts.
Qed.

(** [moved c c' l ph pods]: from [c] to [c'] the lease [l] was written, to the phase [ph], and
    the pods are now [pods]. *)
Definition rewritten (c : Cluster) (l l1 : GPULease) (pods : gmap string ServerState) : Cluster :=
  {| cl_mem := set_leases (cl_mem c) (<[lease_Name l := l1]> (m_leases (cl_mem c))); cl_pods := pods |}.
Definition moved (c c' : Cluster) (l : GPULease) (ph : GPULeasePhase) pods : Prop :=
  ∃ l1, c' = rewritten c l l1 pods ∧ lease_Name l1 = lease_Name l ∧ lease_Spec l1 = lease_Spec l ∧
    lease_DeletionTimestamp l1 = None ∧ lease_Finalizers l1 = lease_Finalizers l ∧ st_Phase (lease_Status l1) = ph.

Lemma Reconcile_moved c l ph ph' pods :
  no_faults c → stored (cl_mem c) l ph → moved c (after (reconcilePhase rl l) c) l ph' pods →
  ∃ l1, after (Reconcile rl (lease_Name l)) c = rewritten c l l1 pods ∧
    lease_Name l1 = lease_Name l ∧ lease_Spec l1 = lease_Spec l ∧
    stored (cl_mem (rewritten c l l1 pods)) l1 ph'.
Proof using All.
  intros Hf Hst (l1 & E & Hn & Hsp & Hd & Hfin & Hph). exists l1.
  rewrite (after_Reconcile c l _ Hf Hst) by (by rewrite E). split_and!; try done.
  destruct Hst as (_ & _ & Hin & _). split_and!; try done; [|by rewrite Hfin].
  cbn [rewritten cl_mem set_leases m_leases]. by rewrite Hn, lookup_insert_eq.
Qed.

Lemma after_event c l ty reason message A (k : unit → Prog A) :
  no_faults c → after (bind (event rl l ty reason message) k) c = after (k tt) c.
Proof.
  intros Hf. unfold event. destruct (glr_Recorder rl); cbn [bind call]; [|done]. rewrite after_vis by done.
  by destruct c.
Qed.

(** A status update of the stored lease, from what was read. *)
Lemma status_answer (m : Mem) pods (l l' : GPULease) :
  m_leases m !! lease_Name l = Some l → (is_Some (lease_DeletionTimestamp l) → lease_Finalizers l ≠ []) →
  lease_Name l' = lease_Name l → lease_ResourceVersion l' = lease_ResourceVersion l →
  cluster_answer (UpdateLeaseStatus l') {| cl_mem := m; cl_pods := pods |} =
    (Ok (status_updated (m_rv m) l l'),
     {| cl_mem := set_leases m (<[lease_Name l := status_updated (m_rv m) l l']> (m_leases m)); cl_pods := pods |}).
Proof.
  intros Hl Hd Hn Hv. cbn [cluster_answer lift mem_answer cl_mem]. unfold mem_write_lease. rewrite Hn, Hl.
  rewrite bool_decide_eq_true_2 by done. cbn [status_updated stored_lease lease_DeletionTimestamp lease_Finalizers].
  by rewrite bool_decide_eq_false_2 by (intros [? ?]; by apply Hd).
Qed.

Lemma activate_answer m pods ip req s s' :
  pods !! ip = Some s → handle_request (as_request (activate_http NewHTTPClient ip req)) s = (Answer StatusAccepted None, s') →
  cluster_answer (PodActivate ip req) {| cl_mem := m; cl_pods := pods |} =
    (Ok tt, {| cl_mem := m; cl_pods := <[ip := s']> pods |}).
Proof.
  intros Hs Hh. cbn [cluster_answer]. unfold HTTP_Activate, exchanged, transport. cbn [cl_pods cl_mem].
  rewrite Hs, Hh. done.
Qed.

(** The first reconcile: the pod accepts the lease, and the lease is Activating. *)
Lemma after_admitted c l p s s' :
  no_faults c → stored (cl_mem c) l GPULeasePhaseAdmitted → claimed_pod (cl_mem c) l p →
  cl_pods c !! pod_IP p = Some s →
  handle_request (as_request (activate_http NewHTTPClient (pod_IP p) (activate_request l))) s =
    (Answer StatusAccepted None, s') →
  moved c (after (reconcilePhase rl l) c) l GPULeasePhaseActivating (<[pod_IP p := s']> (cl_pods c)).
Proof using All.
  intros Hf Hst Hp Hs Hh.
  destruct Hst as (Hl & Hd & Hfin & Hph), Hp as (Hpod & Hns & Hna & Ho & Hip). unfold reconcilePhase. rewrite Hph.
  unfold reconcileAdmitted, getClaimPod. rewrite Hns, Hna. cbn [bind call]. rewrite after_vis by done.
  destruct c as [m pods]. cbn [cl_mem cl_pods] in *. cbn [cluster_answer lift mem_answer fst snd cl_mem cl_pods].
  rewrite Hpod. cbn [lookup_result bind]. rewrite Ho. rewrite bool_decide_eq_false_2 by auto.
  rewrite bool_decide_eq_false_2 by done. rewrite after_vis by done.
  fold (activate_request l). rewrite (activate_answer m pods (pod_IP p) (activate_request l) s s' Hs Hh).
  cbn [fst snd bind]. unfold setLeaseCondition. cbn [bind call]. rewrite after_vis by done.
  cbn [cluster_answer lift mem_answer fst snd cl_mem cl_pods bind]. rewrite after_vis by done.
  rewrite (status_answer m _ l) by (by try (rewrite Hd; intros [? [=]])). cbn [fst snd bind]. rewrite after_event by done.
  eexists. split; [reflexivity|]. by split_and!.
Qed.

Lemma state_answer m pods ip s s' body st :
  pods !! ip = Some s → handle_request (as_request (state_http NewHTTPClient ip)) s = (Answer StatusOK (Some body), s') →
  Decode (whole body) = Ok st →
  cluster_answer (PodState ip) {| cl_mem := m; cl_pods := pods |} =
    (Ok st, {| cl_mem := m; cl_pods := <[ip := s']> pods |}).
Proof.
  intros Hs Hh Hd. cbn [cluster_answer]. unfold HTTP_State, exchanged, transport. cbn [cl_pods cl_mem].
  rewrite Hs, Hh. cbn [fst snd default]. unfold id. by rewrite Hd.
Qed.

(** Marking the pod hot sets its label. *)
Lemma merge_patch_insert (cur : gmap string string) k v : merge_patch cur (<[k := v]> cur) cur !! k = Some v.
Proof.
  unfold merge_patch. rewrite lookup_union, !map_lookup_imap, lookup_insert_eq.
  destruct (cur !! k) as [x|]; cbn [mbind option_bind].
  - repeat case_bool_decide; simplify_eq; done.
  - by rewrite bool_decide_eq_false_2.
Qed.

(** The second reconcile: the pod says that it is hot, and the lease is bound. *)
Lemma after_activating c l p s s' body st :
  no_faults c → stored (cl_mem c) l GPULeasePhaseActivating → claimed_pod (cl_mem c) l p →
  cl_pods c !! pod_IP p = Some s →
  handle_request (as_request (state_http NewHTTPClient (pod_IP p))) s = (Answer StatusOK (Some body), s') →
  Decode (whole body) = Ok st → sr_State st = StateHot →
  let c' := after (Reconcile rl (lease_Name l)) c in
  cl_pods c' = <[pod_IP p := s']> (cl_pods c) ∧
  (∃ l', m_leases (cl_mem c') !! lease_Name l = Some l' ∧ lease_Spec l' = lease_Spec l ∧
     st_Phase (lease_Status l') = GPULeasePhaseBound ∧ st_BoundAt (lease_Status l') = Some (m_now (cl_mem c))) ∧
  ∃ p', m_pods (cl_mem c') !! (pod_Namespace p, pod_Name p) = Some p' ∧ pod_Labels p' !! StateLabelKey = Some StateHot.
Proof using All.
  intros Hf Hst Hp Hs Hh Hdec Hhot. cbv zeta.
  assert (∃ l' p', after (reconcilePhase rl l) c =
      {| cl_mem := set_leases (set_pods (cl_mem c) (<[(pod_Namespace p, pod_Name p) := p']> (m_pods (cl_mem c))))
                     (<[lease_Name l := l']> (m_leases (cl_mem c)));
         cl_pods := <[pod_IP p := s']> (cl_pods c) |} ∧
    lease_Spec l' = lease_Spec l ∧ st_Phase (lease_Status l') = GPULeasePhaseBound ∧
    st_BoundAt (lease_Status l') = Some (m_now (cl_mem c)) ∧ pod_Labels p' !! StateLabelKey = Some StateHot)
    as (l' & p' & E & H1 & H2 & H3 & H4).
  { destruct Hst as (Hl & Hd & Hfin & Hph), Hp as (Hpod & Hns & Hna & Ho & Hip). unfold reconcilePhase. rewrite Hph.
    unfold reconcileActivating, getClaimPod. rewrite Hns, Hna. cbn [bind call]. rewrite after_vis by done.
    destruct c as [m pods]. cbn [cl_mem cl_pods] in *. cbn [cluster_answer lift mem_answer fst snd cl_mem cl_pods].
    rewrite Hpod. cbn [lookup_result bind]. rewrite Ho. rewrite bool_decide_eq_false_2 by auto.
    rewrite after_vis by done. rewrite (state_answer m pods (pod_IP p) s s' body st) by done.
    cbn [fst snd bind]. rewrite bool_decide_eq_true_2 by done.
    unfold bindLease, markPodHot. cbn [bind call]. rewrite after_vis by done.
    cbn [cluster_answer lift mem_answer fst snd cl_mem cl_pods]. unfold mem_patch_pod.
    change (pod_Namespace (hotPod p l)) with (pod_Namespace p). change (pod_Name (hotPod p l)) with (pod_Name p).
    rewrite Hpod. cbn [fst snd bind]. unfold now. cbn [bind call]. rewrite after_vis by done.
    cbn [cluster_answer lift mem_answer fst snd cl_mem cl_pods bind].
    unfold setLeaseCondition. cbn [bind call]. rewrite after_vis by done.
    cbn [cluster_answer lift mem_answer fst snd cl_mem cl_pods bind]. rewrite after_vis by done.
    cbn [cluster_answer lift mem_answer fst snd cl_mem cl_pods bind]. rewrite after_vis by done.
    rewrite (status_answer _ _ l) by (by try (rewrite Hd; intros [? [=]])). cbn [fst snd bind]. rewrite after_event by done.
    eexists _, _. split; [reflexivity|]. split_and!; try done. cbn [with_annotations with_labels pod_Labels].
    apply merge_patch_insert. }
  rewrite (after_Reconcile c l _ Hf Hst) by (by rewrite E). rewrite E. cbn [cl_pods cl_mem set_leases set_pods m_leases m_pods].
  split; [done|]. split; [exists l'|exists p']; rewrite lookup_insert_eq; by split_and!.
Qed.

(** The pods of a lease are those of its specification. *)
Lemma claimed_pod_spec m l l' p :
  lease_Spec l' = lease_Spec l → claimed_pod m l p → claimed_pod m l' p.
Proof using All. unfold claimed_pod, leaseOrphanReason. by intros ->. Qed.

(** The two reconciles with the warm-up in between. *)
Lemma admitted_gets_bound c l p s t :
  no_faults c → stored (cl_mem c) l GPULeasePhaseAdmitted → claimed_pod (cl_mem c) l p →
  cl_pods c !! pod_IP p = Some s → idle s → cf_NodeName (sv_cfg s) = spec_NodeName (lease_Spec l) →
  plain_request (activate_request l) →
  m_now (cl_mem c) <= t → mc_warmup (p_machine (sv_process s)) <= t - m_now (cl_mem c) →
  let c' := foldl (cplay rl rw) c [RunLease (lease_Name l); Wait t; RunLease (lease_Name l)] in
  (∃ l', m_leases (cl_mem c') !! lease_Name l = Some l' ∧ lease_Spec l' = lease_Spec l ∧
     st_Phase (lease_Status l') = GPULeasePhaseBound ∧ st_BoundAt (lease_Status l') = Some t) ∧
  (∃ p', m_pods (cl_mem c') !! (pod_Namespace p, pod_Name p) = Some p' ∧
     pod_Labels p' !! StateLabelKey = Some StateHot) ∧
  shown c' (pod_IP p) =
    Ok {| sr_State := StateHot; sr_LeaseName := lease_Name l; sr_Node := spec_NodeName (lease_Spec l);
          sr_GPUID := spec_GPUID (lease_Spec l) |}.
Proof using All.
  intros Hf Hst Hp Hs Hi Hn Hpl Ht Hw. cbv zeta. cbn [foldl cplay].
  destruct (post_accepted s NewHTTPClient (pod_IP p) (activate_request l) Hi Hpl (eq_sym Hn))
    as (s1 & H1 & Hwarm & Hnow & _).
  destruct (Reconcile_moved c l _ _ _ Hf Hst (after_admitted c l p s s1 Hf Hst Hp Hs H1))
    as (l1 & E & Hn1 & Hsp1 & Hst1).
  fold (after (Reconcile rl (lease_Name l)) c). rewrite E. cbn [play rewritten cl_mem set_leases].
  set (c1 := at_time _ _). fold (after (Reconcile rl (lease_Name l)) c1).
  destruct (warming_elapsed s1 (activate_request l) _ (t - m_now (cl_mem c)) Hwarm) as [Hhot _]; [lia|lia|].
  destruct (hot_shown _ _ NewHTTPClient (pod_IP p) Hhot Hpl) as (body & s2 & H2 & Hdec & Hhot2).
  assert (cl_pods c1 !! pod_IP p = Some (elapse (t - m_now (cl_mem c)) s1)) as Hs1.
  { unfold c1. cbn [at_time rewritten cl_pods cl_mem set_now set_leases m_now]. by rewrite lookup_fmap, lookup_insert_eq. }
  rewrite <-Hn1. pose proof (after_activating c1 l1 p _ s2 body _ Hf Hst1
    (claimed_pod_spec _ _ _ _ Hsp1 Hp) Hs1 H2 Hdec eq_refl) as (Hpods & (l' & El & Es & Eph & Eb) & Hlab).
  split; [exists l'; rewrite <-Hsp1; by split_and!|]. split; [exact Hlab|].
  destruct (hot_shown _ _ NewHTTPClient (pod_IP p) Hhot2 Hpl) as (body' & s3 & H3 & Hdec' & _).
  change (shown ?c ?ip) with (cluster_answer (PodState ip) c).1. rewrite Hn1 in *.
  destruct (after _ c1) as [m2 pods2]. cbn [cl_pods] in Hpods. subst pods2.
  by erewrite state_answer; [|apply lookup_insert_eq|exact H3|exact Hdec'].
Qed.

(** The Workload of the lease, as Kueue admitted it. *)
Definition quota (m : Mem) (l : GPULease) : Prop :=
  ∃ wl, m_workloads m !! (wl_Namespace (buildWorkload l), wl_Name (buildWorkload l)) = Some wl ∧
    workloadMatchesSpec wl (buildWorkload l) = true ∧ isWorkloadAdmitted wl = true.

(** The first reconcile: the lease is Admitted. *)
Lemma after_pending c l ph :
  no_faults c → stored (cl_mem c) l ph → ph = PhaseEmpty ∨ ph = GPULeasePhasePending → quota (cl_mem c) l →
  moved c (after (reconcilePhase rl l) c) l GPULeasePhaseAdmitted (cl_pods c).
Proof using All.
  intros Hf (Hl & Hd & Hfin & Hph) Hpe (wl & Hwl & Hm & Ha).
  replace (reconcilePhase rl l) with (reconcilePending rl l)
    by (unfold reconcilePhase; rewrite Hph; by destruct Hpe as [->| ->]).
  unfold reconcilePending. cbn [bind call]. rewrite after_vis by done. destruct c as [m pods].
  cbn [cl_mem cl_pods] in *. cbn [cluster_answer lift mem_answer fst snd cl_mem cl_pods]. rewrite Hwl.
  cbn [lookup_result]. rewrite Hm. cbn [negb]. unfold evaluateAdmission. rewrite Ha. unfold admitLease.
  rewrite after_bind_reads; [|by apply expectedFlavorForNode_acts|done].
  rewrite after_bind_reads; [| |done].
  2: { intros t a Ht. destruct (run _ _ _).1.1 as [x|e]; [case_bool_decide|]; [|runs_all; done..].
       runs_step. apply event_acts in Hr. runs_all. by acts_norm. }
  unfold now. cbn [bind call]. rewrite after_vis by done. unfold setLeaseCondition. cbn [bind call].
  cbn [cluster_answer lift mem_answer fst snd cl_mem cl_pods bind]. rewrite after_vis by done.
  cbn [cluster_answer lift mem_answer fst snd cl_mem cl_pods bind]. rewrite after_vis by done.
  rewrite (status_answer m _ l) by (by try (rewrite Hd; intros [? [=]])). cbn [fst snd bind].
  rewrite after_event by done. eexists. split; [reflexivity|]. by split_and!.
Qed.

(** C6. A lease with quota gets bound.  Take a cluster, the pods' own servers included, in
    which no call fails, a lease is pending and not being deleted, Kueue has admitted its
    Workload, and its claim pod is there, valid, and idle.  Two reconciles of the lease, the
    warm-up time of the pod, and a third reconcile lead to a bound lease with the same
    specification, bound at that time; the pod is labelled hot, and its server answers that
    it is hot for this lease, node and GPU. *)
Theorem lease_with_quota_gets_bound c l ph p s t :
  no_faults c → stored (cl_mem c) l ph → ph = PhaseEmpty ∨ ph = GPULeasePhasePending →
  quota (cl_mem c) l → claimed_pod (cl_mem c) l p →
  cl_pods c !! pod_IP p = Some s → idle s → cf_NodeName (sv_cfg s) = spec_NodeName (lease_Spec l) →
  plain_request (activate_request l) →
  m_now (cl_mem c) <= t → mc_warmup (p_machine (sv_process s)) <= t - m_now (cl_mem c) →
  let n := lease_Name l in
  let c' := foldl (cplay rl rw) c [RunLease n; RunLease n; Wait t; RunLease n] in
  (∃ l', m_leases (cl_mem c') !! n = Some l' ∧ lease_Spec l' = lease_Spec l ∧
     st_Phase (lease_Status l') = GPULeasePhaseBound ∧ st_BoundAt (lease_Status l') = Some t) ∧
  (∃ p', m_pods (cl_mem c') !! (pod_Namespace p, pod_Name p) = Some p' ∧
     pod_Labels p' !! StateLabelKey = Some StateHot) ∧
  shown c' (pod_IP p) =
    Ok {| sr_State := StateHot; sr_LeaseName := n; sr_Node := spec_NodeName (lease_Spec l);
          sr_GPUID := spec_GPUID (lease_Spec l) |}.
Proof using All.
  intros Hf Hst Hph Hq Hp Hs Hi Hn Hpl Ht Hw. cbv zeta.
  destruct (Reconcile_moved c l _ _ _ Hf Hst (after_pending c l ph Hf Hst Hph Hq)) as (l1 & E & Hn1 & Hsp & Hst1).
  cbn [foldl cplay]. fold (after (Reconcile rl (lease_Name l)) c). rewrite E, <-Hn1, <-Hsp.
  apply (admitted_gets_bound (rewritten c l l1 (cl_pods c)) l1 p s t); try done.
  - by eapply claimed_pod_spec.
  - by rewrite Hsp.
  - unfold activate_request. by rewrite Hn1, Hsp.
Qed.

End Reconciles.

(** The first events of [one_lease] lead to such a cluster. *)
Definition quota_cluster : Cluster := creplay (take 3 one_lease).
Definition pending_example : GPULease :=
  default (lease_in GPULeasePhasePending) (m_leases (cl_mem quota_cluster) !! example_name).
Definition claimed_example : Pod :=
  default (example_pod "p0" "n1" "10.0.0.1" StateWarm 0) (m_pods (cl_mem quota_cluster) !! ("ns", "p0")).
Definition workload_example : Workload :=
  default (buildWorkload pending_example) (m_workloads (cl_mem quota_cluster) !! ("ns", example_name)).
Definition idle_example : ServerState := default (started "10.0.0.1") (cl_pods quota_cluster !! "10.0.0.1").

Lemma lease_with_quota_gets_bound_witness :
  let c' := foldl (cplay example_reconciler example_pool_rec) quota_cluster
    [RunLease example_name; RunLease example_name; Wait (1012 * Second); RunLease example_name] in
  (∃ l', m_leases (cl_mem c') !! example_name = Some l' ∧ st_Phase (lease_Status l') = GPULeasePhaseBound) ∧
  shown c' "10.0.0.1" = shows StateHot example_name 0.
Proof.
  destruct (lease_with_quota_gets_bound example_reconciler example_pool_rec quota_cluster pending_example
    (st_Phase (lease_Status pending_example)) claimed_example idle_example (1012 * Second))
    as ((l' & H1 & _ & H2 & _) & _ & H3).
  - vm_compute. reflexivity.
  - assert (lease_Finalizers pending_example = [Finalizer]) as Ef by (vm_compute; reflexivity).
    split; [vm_compute; reflexivity|]. split; [vm_compute; reflexivity|]. split; [|reflexivity].
    rewrite Ef. apply list_elem_of_singleton. reflexivity.
  - vm_compute. auto.
  - exists workload_example. split; [vm_compute; reflexivity|]. split; vm_compute; reflexivity.
  - split_and!; [vm_compute; reflexivity..|]. vm_compute. discriminate.
  - vm_compute. reflexivity.
  - split_and!; vm_compute; reflexivity.
  - vm_compute. reflexivity.
  - assert (activate_request pending_example =
      {| ar_LeaseName := example_name; ar_Node := "n1"; ar_GPUID := 0; ar_GPUModel := "H100" |}) as ->
      by (vm_compute; reflexivity).
    split; [split; [|split]; vm_compute; exact I|]. split; [discriminate|reflexivity].
  - vm_compute. discriminate.
  - vm_compute. discriminate.
  - assert (lease_Name pending_example = example_name) as E by (vm_compute; reflexivity).
    assert (pod_IP claimed_example = "10.0.0.1") as Ei by (vm_compute; reflexivity).
    assert (lease_Spec pending_example = lease_Spec (lease_in GPULeasePhasePending)) as Es by (vm_compute; reflexivity).
    rewrite E in H1, H3. rewrite Ei, Es in H3. split.
    + exists l'. split; [exact H1|exact H2].
    + exact H3.
Defined.
