(* ===== verification/LeaseReturn.v ===== *)
(** * A deleted lease is given back

    The other half of a lease's life on the executable cluster of [Cluster]: a lease under
    deletion whose claim pod is there.  One reconcile removes the lease and its Workload and
    releases the pod; after the teardown time the pod is idle, as [Progress] needs it for
    the next lease.  Whether the pod serves this lease by then is not asked, which takes it away
    from another lease that is bound to it. *)

From S2P Require Import Prelude GoLib GoJSON GoJSONFacts Names Kube Effects MemServer Scenario Inventory.
From S2P Require Import PodClient Pods Kueue GPULeaseController GPULeaseFacts LeaseLifecycle.
From S2P Require Import WarmPoolController Machine WorkloadServer Demand PodServer.
From S2P Require Import Protocol System Execution Hazards Cluster PodLeases Progress.
Import Workload Server PodServer Cluster.

(** ** The pod *)

(** A pod that is warm or hot, with nothing going on. *)
Definition at_rest (s : ServerState) : Prop :=
  (mc_state (p_machine (sv_process s)) = Warm ∨ mc_state (p_machine (sv_process s)) = Hot) ∧
  p_tasks (sv_process s) = [] ∧ p_timers (sv_process s) = [].

(** A pod that will be warm at the time [due]. *)
Definition tearing (s : ServerState) (due : Z) : Prop :=
  let p := sv_process s in
  mc_state (p_machine p) = Releasing ∧ p_tasks p = [] ∧
  p_timers p = [ {| tm_kind := CompleteTeardown; tm_gen := mc_gen (p_machine p); tm_due := due |} ].

Lemma release_served s c ip :
  at_rest s →
  ∃ s', handle_request (as_request (release_http c ip)) s = (Answer StatusNoContent None, s') ∧
    (idle s' ∨ tearing s' (p_now (sv_process s) + mc_teardown (p_machine (sv_process s)))) ∧
    p_now (sv_process s') = p_now (sv_process s) ∧ sv_cfg s' = sv_cfg s.
Proof.
  intros (Hst & Ht & Htm). unfold handle_request, serve, as_request.
  cbn [rq_method rq_path rq_body release_http hr_Method hr_Path hr_Body].
  change (mux "DELETE" "/lease") with (inl HRelease : Handler + Z). cbv iota. unfold handleRelease, Release.
  destruct Hst as [Hst|Hst]; rewrite Hst; eexists; (split; [reflexivity|]); cbn; unfold settled, unlocked; cbn;
    rewrite Ht; cbn; rewrite ?Ht, ?Htm; cbn; (split; [|done]).
  - left. by split_and!.
  - right. by split_and!.
Qed.

Lemma idle_elapsed s d : idle s → idle (elapse d s).
Proof.
  intros (Hw & Ht & Htm). unfold elapse. rewrite settled_idle by done. unfold idle.
  cbn [with_process sv_process tick p_timers]. rewrite Htm. cbn [length fire_due tick p_machine p_tasks p_timers]. auto.
Qed.

Lemma tearing_elapsed s due d :
  tearing s due → 0 <= d → due <= p_now (sv_process s) + d → idle (elapse d s).
Proof.
  intros (Ha & Ht & Htm) Hd Hdue. unfold elapse, idle. cbn [sv_process with_process].
  rewrite settled_idle by done. erewrite one_timer_fires by (apply Htm || (cbn [tick p_now tm_due]; lia)).
  unfold fire, completeTeardown. cbn [tm_kind tm_gen tick p_machine].
  rewrite Ha, !bool_decide_eq_false_2 by auto. cbn [orb fst snd].
  unfold settled, unlocked. cbn [p_tasks tick]. rewrite Ht. done.
Qed.

(** ** The reconcile *)

(** The same pod with other labels and annotations. *)
Definition relabelled (p p' : Pod) : Prop := ∃ ls ans, p' = with_annotations (with_labels p ls) ans.

Section Deletes.
Context (rl : GPULeaseReconciler) (rw : WarmPool.WarmPoolReconciler) `{!LawfulReconciler rl}.

(** A stored lease under deletion that only the controllers hold. *)
Definition deleting (m : Mem) (l : GPULease) : Prop :=
  m_leases m !! lease_Name l = Some l ∧ is_Some (lease_DeletionTimestamp l) ∧ lease_Finalizers l = [Finalizer].

(** The pod that a lease claims, whatever its condition. *)
Definition holds_claim (m : Mem) (l : GPULease) (p : Pod) : Prop :=
  m_pods m !! (pod_Namespace p, pod_Name p) = Some p ∧
  ref_Namespace (spec_ClaimRef (lease_Spec l)) = pod_Namespace p ∧
  ref_Name (spec_ClaimRef (lease_Spec l)) = pod_Name p ∧
  (ref_UID (spec_ClaimRef (lease_Spec l)) = "" ∨ ref_UID (spec_ClaimRef (lease_Spec l)) = pod_UID p) ∧
  pod_IP p ≠ "".

Definition workload_key (l : GPULease) : string * string :=
  (ref_Namespace (spec_ClaimRef (lease_Spec l)), workloadName l).

Lemma after_deleteWorkload c l :
  no_faults c →
  (run cluster_server (deleteWorkload l) c).1.1 = Ok tt ∧
  after (deleteWorkload l) c =
    {| cl_mem := set_workloads (cl_mem c) (delete (workload_key l) (m_workloads (cl_mem c))); cl_pods := cl_pods c |}.
Proof.
  intros Hf. unfold after, deleteWorkload. cbn [call bind run]. rewrite server_answers by done.
  destruct c as [m pods]. cbn [cluster_answer lift mem_answer cl_mem cl_pods]. fold (workload_key l).
  destruct (m_workloads m !! workload_key l) eqn:E; cbn; [done|]. split; [done|]. f_equal.
  rewrite delete_id by done. by destruct m.
Qed.

Lemma release_answer m pods ip s s' st :
  pods !! ip = Some s → handle_request (as_request (release_http NewHTTPClient ip)) s = (Answer st None, s') →
  (cluster_answer (PodRelease ip) {| cl_mem := m; cl_pods := pods |}).2 =
    {| cl_mem := m; cl_pods := <[ip := s']> pods |}.
Proof. intros Hs Hh. cbn [cluster_answer snd]. unfold transport. cbn [cl_pods cl_mem]. by rewrite Hs, Hh. Qed.

Lemma after_releaseClaimPod c l p s s' st :
  no_faults c → holds_claim (cl_mem c) l p → cl_pods c !! pod_IP p = Some s →
  handle_request (as_request (release_http NewHTTPClient (pod_IP p))) s = (Answer st None, s') →
  ∃ p', after (releaseClaimPod l) c =
      {| cl_mem := set_pods (cl_mem c) (<[(pod_Namespace p, pod_Name p) := p']> (m_pods (cl_mem c)));
         cl_pods := <[pod_IP p := s']> (cl_pods c) |} ∧
    relabelled p p' ∧ pod_Labels p' !! StateLabelKey = Some StateWarm.
Proof.
  intros Hf (Hp & Hns & Hna & Hu & Hip) Hs Hh. unfold releaseClaimPod, getClaimPod. rewrite Hns, Hna.
  cbn [bind call]. rewrite after_vis by done. destruct c as [m pods]. cbn [cl_mem cl_pods] in *.
  cbn [cluster_answer lift mem_answer fst snd cl_mem cl_pods]. rewrite Hp. cbn [lookup_result bind].
  assert (bool_decide (ref_UID (spec_ClaimRef (lease_Spec l)) ≠ "") &&
    bool_decide (pod_UID p ≠ ref_UID (spec_ClaimRef (lease_Spec l))) = false) as ->.
  { destruct Hu as [->| ->]; repeat case_bool_decide; done. }
  rewrite bool_decide_eq_true_2 by done. cbn [bind call]. rewrite after_vis by done.
  rewrite (release_answer m pods (pod_IP p) s s' st) by done. unfold revertPodToWarm. cbn [bind call].
  rewrite after_vis by done. cbn [cluster_answer lift mem_answer fst snd cl_mem cl_pods]. unfold mem_patch_pod.
  change (pod_Namespace (warmPod p)) with (pod_Namespace p). change (pod_Name (warmPod p)) with (pod_Name p).
  rewrite Hp. cbn [fst snd bind]. eexists. split; [reflexivity|]. split; [by eexists _, _|].
  cbn [with_annotations with_labels pod_Labels]. apply merge_patch_insert.
Qed.

(** Removing the only finalizer of a lease under deletion removes the lease. *)
Lemma finalizer_answer m pods l :
  deleting m l →
  let l' := with_finalizers l (RemoveFinalizer (lease_Finalizers l) Finalizer) in
  ∃ x, cluster_answer (UpdateLease l') {| cl_mem := m; cl_pods := pods |} =
    (Ok x, {| cl_mem := set_leases m (delete (lease_Name l) (m_leases m)); cl_pods := pods |}).
Proof.
  intros (Hl & Hd & Hfin). cbv zeta. cbn [cluster_answer lift mem_answer cl_mem]. unfold mem_write_lease.
  cbn [with_finalizers lease_Name lease_ResourceVersion]. rewrite Hl, bool_decide_eq_true_2 by done.
  cbn [updated stored_lease with_finalizers lease_DeletionTimestamp lease_Finalizers]. rewrite Hfin.
  rewrite bool_decide_eq_true_2 by done. by eexists.
Qed.

Lemma after_finishDeletion c l p s s' st :
  no_faults c → deleting (cl_mem c) l → holds_claim (cl_mem c) l p → cl_pods c !! pod_IP p = Some s →
  handle_request (as_request (release_http NewHTTPClient (pod_IP p))) s = (Answer st None, s') →
  ∃ p', after (finishDeletion rl l) c =
      {| cl_mem := set_leases (set_pods
           (set_workloads (cl_mem c) (delete (workload_key l) (m_workloads (cl_mem c))))
           (<[(pod_Namespace p, pod_Name p) := p']> (m_pods (cl_mem c))))
           (delete (lease_Name l) (m_leases (cl_mem c)));
         cl_pods := <[pod_IP p := s']> (cl_pods c) |} ∧
    relabelled p p' ∧ pod_Labels p' !! StateLabelKey = Some StateWarm.
Proof using All.
  intros Hf Hd Hp Hs Hh. unfold finishDeletion. rewrite after_bind.
  destruct (after_deleteWorkload c l Hf) as [-> ->]. set (c1 := Build_Cluster _ _).
  rewrite after_bind. destruct (after_releaseClaimPod c1 l p s s' st) as (p' & -> & Hsame & Hlab); [done..|].
  exists p'. split; [|done]. cbn [bind call]. rewrite after_vis by done.
  destruct (finalizer_answer (set_pods (cl_mem c1) (<[(pod_Namespace p, pod_Name p) := p']> (m_pods (cl_mem c1))))
    (<[pod_IP p := s']> (cl_pods c1)) l) as (x & ->); [done|]. cbn [fst snd bind]. by rewrite after_event by done.
Qed.

(** What is left of a lease. *)
Definition given_back (c c' : Cluster) (l : GPULease) (p : Pod) (s' : ServerState) : Prop :=
  m_leases (cl_mem c') = delete (lease_Name l) (m_leases (cl_mem c)) ∧
  m_workloads (cl_mem c') = delete (workload_key l) (m_workloads (cl_mem c)) ∧
  (∃ p', m_pods (cl_mem c') = <[(pod_Namespace p, pod_Name p) := p']> (m_pods (cl_mem c)) ∧
     relabelled p p' ∧ pod_Labels p' !! StateLabelKey = Some StateWarm) ∧
  cl_pods c' = <[pod_IP p := s']> (cl_pods c) ∧ m_now (cl_mem c') = m_now (cl_mem c) ∧
  m_faults (cl_mem c') = m_faults (cl_mem c).

Lemma after_reconcileDeletion c l p s s' st :
  no_faults c → deleting (cl_mem c) l → holds_claim (cl_mem c) l p → cl_pods c !! pod_IP p = Some s →
  handle_request (as_request (release_http NewHTTPClient (pod_IP p))) s = (Answer st None, s') →
  given_back c (after (reconcileDeletion rl l) c) l p s'.
Proof using All.
  intros Hf Hd Hp Hs Hh. destruct (Hd) as (Hl & Hdel & Hfin). unfold reconcileDeletion.
  cbn [ContainsFinalizer mem_lib]. rewrite bool_decide_eq_true_2 by (by rewrite Hfin; apply list_elem_of_singleton).
  cbn [negb]. case_bool_decide as Hph.
  - cbn [bind call]. rewrite after_vis by done. destruct c as [m pods].
    rewrite (status_answer m pods l) by (done || by rewrite Hfin). cbn [fst snd].
    set (l1 := status_updated _ _ _). cbn [cl_mem cl_pods] in *.
    destruct (after_finishDeletion {| cl_mem := set_leases m (<[lease_Name l := l1]> (m_leases m)); cl_pods := pods |}
      l1 p s s' st) as (p' & -> & Hsame & Hlab); [done| |done|done|done|].
    { split_and!; [by apply lookup_insert_eq|done|done]. }
    unfold given_back. cbn. rewrite delete_insert_eq. split_and!; try done. by exists p'.
  - destruct (after_finishDeletion c l p s s' st) as (p' & -> & Hsame & Hlab); [done..|].
    split_and!; try done. by exists p'.
Qed.

Lemma after_deletion c l p s s' st :
  no_faults c → deleting (cl_mem c) l → holds_claim (cl_mem c) l p → cl_pods c !! pod_IP p = Some s →
  handle_request (as_request (release_http NewHTTPClient (pod_IP p))) s = (Answer st None, s') →
  given_back c (after (Reconcile rl (lease_Name l)) c) l p s'.
Proof using All.
  intros Hf Hd Hp Hs Hh. destruct (Hd) as (Hl & Hdel & _).
  pose proof (after_reconcileDeletion c l p s s' st Hf Hd Hp Hs Hh) as Hg.
  unfold Reconcile. cbn [bind call]. rewrite after_vis by done. destruct c as [m pods].
  cbn [cluster_answer lift mem_answer fst snd cl_mem cl_pods] in *. rewrite Hl. cbn [lookup_result].
  rewrite bool_decide_eq_true_2 by done. rewrite after_bind, after_bind. change (after (Ret ?x) ?c) with c.
  rewrite after_reads; [done| |]; [intros t a Ht; by eapply refreshMetrics_acts|].
  destruct Hg as (_ & _ & _ & _ & _ & Hff). unfold no_faults in *. by rewrite Hff.
Qed.

(** C7. A deleted lease is given back.  Take a cluster in which no call fails, a lease under
    deletion in any phase that only the controllers' finalizer holds, and its claim pod, hot
    or warm.  One reconcile removes this lease and its Workload and no other, and labels the
    pod warm; and once the teardown time of the pod has passed, its process is idle: warm,
    with no timer or goroutine left, ready for another lease. *)
Theorem deleted_lease_given_back c l p s t :
  no_faults c → deleting (cl_mem c) l → holds_claim (cl_mem c) l p →
  cl_pods c !! pod_IP p = Some s → at_rest s →
  m_now (cl_mem c) <= t → mc_teardown (p_machine (sv_process s)) <= t - m_now (cl_mem c) →
  let c' := foldl (cplay rl rw) c [RunLease (lease_Name l); Wait t] in
  m_leases (cl_mem c') = delete (lease_Name l) (m_leases (cl_mem c)) ∧
  m_workloads (cl_mem c') = delete (workload_key l) (m_workloads (cl_mem c)) ∧
  (∃ p', m_pods (cl_mem c') !! (pod_Namespace p, pod_Name p) = Some p' ∧
     pod_Labels p' !! StateLabelKey = Some StateWarm) ∧
  ∃ s', cl_pods c' !! pod_IP p = Some s' ∧ idle s' ∧ sv_cfg s' = sv_cfg s.
Proof using All.
  intros Hf Hd Hp Hs Hr Ht Htd. cbv zeta. cbn [foldl cplay].
  destruct (release_served s NewHTTPClient (pod_IP p) Hr) as (s1 & Hh & Hs1 & Hnow & Hcfg).
  pose proof (after_deletion c l p s s1 _ Hf Hd Hp Hs Hh) as (Hl & Hw & (p' & Hp' & _ & Hlab) & Hpods & Hn & _).
  fold (after (Reconcile rl (lease_Name l)) c). set (c1 := after _ c) in *.
  cbn [play at_time cl_mem cl_pods set_now m_leases m_workloads m_pods m_now].
  split; [done|]. split; [done|]. split; [exists p'; by rewrite Hp', lookup_insert_eq|].
  exists (elapse (t - m_now (cl_mem c)) s1). rewrite lookup_fmap, Hpods, lookup_insert_eq, Hn.
  split; [done|]. split; [|by rewrite <-Hcfg]. destruct Hs1 as [Hi|Ht1].
  - by apply idle_elapsed.
  - eapply tearing_elapsed; [exact Ht1|lia|lia].
Qed.

(** A bound lease with a valid claim stays as it is: its reconcile changes nothing. *)
Lemma after_bound c l p :
  no_faults c → stored (cl_mem c) l GPULeasePhaseBound → claimed_pod (cl_mem c) l p →
  after (Reconcile rl (lease_Name l)) c = c.
Proof using All.
  intros Hf Hst Hp. assert (after (reconcilePhase rl l) c = c) as E.
  { destruct Hst as (_ & _ & _ & Hph), Hp as (Hpod & Hns & Hna & Ho & _). unfold reconcilePhase. rewrite Hph.
    unfold reconcileBound, getClaimPod. rewrite Hns, Hna. cbn [bind call]. rewrite after_vis by done.
    destruct c as [m pods]. cbn [cl_mem cl_pods] in *. cbn [cluster_answer lift mem_answer fst snd cl_mem cl_pods].
    rewrite Hpod. cbn [lookup_result bind]. by rewrite Ho, bool_decide_eq_false_2 by auto. }
  by rewrite (after_Reconcile rl rw c l _ Hf Hst), E by (by rewrite E).
Qed.

Lemma claimed_pod_relabelled m m' l p p' :
  relabelled p p' → m_pods m' !! (pod_Namespace p, pod_Name p) = Some p' →
  claimed_pod m l p → claimed_pod m' l p'.
Proof using All. by intros (ls & ans & ->) Hp' (_ & ? & ? & ? & ?). Qed.

(** C40. Deleting a lease takes down the pod of another one.  Take a cluster in which no call
    fails, a lease under deletion, in any phase, such as one that failed before, and another
    lease that is bound to the same claim pod, whose process is at rest (hot, say).  After one
    reconcile of the first, the teardown time of the pod, and a reconcile of the second, the
    bound lease is still stored exactly as it was, while its pod is labelled warm and its
    process is warm and idle. *)
Theorem deletion_takes_pod_down c l l2 p s t :
  no_faults c → deleting (cl_mem c) l → holds_claim (cl_mem c) l p →
  lease_Name l2 ≠ lease_Name l → stored (cl_mem c) l2 GPULeasePhaseBound → claimed_pod (cl_mem c) l2 p →
  cl_pods c !! pod_IP p = Some s → at_rest s →
  m_now (cl_mem c) <= t → mc_teardown (p_machine (sv_process s)) <= t - m_now (cl_mem c) →
  let c' := foldl (cplay rl rw) c [RunLease (lease_Name l); Wait t; RunLease (lease_Name l2)] in
  m_leases (cl_mem c') !! lease_Name l2 = Some l2 ∧ st_Phase (lease_Status l2) = GPULeasePhaseBound ∧
  (∃ p', m_pods (cl_mem c') !! (pod_Namespace p, pod_Name p) = Some p' ∧
     pod_Labels p' !! StateLabelKey = Some StateWarm) ∧
  ∃ s', cl_pods c' !! pod_IP p = Some s' ∧ idle s'.
Proof using All.
  intros Hf Hd Hp Hne Hst2 Hp2 Hs Hr Ht Htd. cbv zeta. cbn [foldl cplay].
  destruct (release_served s NewHTTPClient (pod_IP p) Hr) as (s1 & Hh & Hs1 & Hnow & _).
  pose proof (after_deletion c l p s s1 _ Hf Hd Hp Hs Hh)
    as (Hl & _ & (p' & Hp' & Hsame & Hlab) & Hpods & Hn & Hff).
  fold (after (Reconcile rl (lease_Name l)) c). set (c1 := after _ c) in *.
  cbn [play]. set (c2 := at_time _ _). fold (after (Reconcile rl (lease_Name l2)) c2).
  assert (m_pods (cl_mem c2) !! (pod_Namespace p, pod_Name p) = Some p') as Hp2'.
  { unfold c2. cbn [at_time cl_mem set_now m_pods]. by rewrite Hp', lookup_insert_eq. }
  assert (m_leases (cl_mem c2) !! lease_Name l2 = Some l2) as Hl2.
  { unfold c2. cbn [at_time cl_mem set_now m_leases]. rewrite Hl, lookup_delete_ne by done. by destruct Hst2. }
  rewrite (after_bound c2 l2 p').
  - split; [done|]. split; [by destruct Hst2 as (_ & _ & _ & ?)|]. split; [by exists p'|].
    exists (elapse (t - m_now (cl_mem c)) s1). split.
    { unfold c2. cbn [at_time cl_mem cl_pods set_now m_now]. by rewrite lookup_fmap, Hpods, lookup_insert_eq, Hn. }
    destruct Hs1 as [Hi|Ht1]; [by apply idle_elapsed|]. eapply tearing_elapsed; [exact Ht1|lia|lia].
  - unfold no_faults, c2 in *. cbn [at_time cl_mem set_now m_faults]. by rewrite Hff.
  - by destruct Hst2 as (_ & ? & ? & ?).
  - by eapply claimed_pod_relabelled.
Qed.

End Deletes.

(** The lease of [one_lease], bound and then deleted. *)
Definition deleted_cluster : Cluster := creplay (one_lease ++ [Delete example_name]).
Definition deleted_example : GPULease :=
  default (lease_in GPULeasePhaseBound) (m_leases (cl_mem deleted_cluster) !! example_name).
Definition held_example : Pod :=
  default (example_pod "p0" "n1" "10.0.0.1" StateHot 0) (m_pods (cl_mem deleted_cluster) !! ("ns", "p0")).
Definition hot_example : ServerState := default (started "10.0.0.1") (cl_pods deleted_cluster !! "10.0.0.1").

Lemma deleted_lease_given_back_witness :
  let c' := foldl (cplay example_reconciler example_pool_rec) deleted_cluster
    [RunLease example_name; Wait (1030 * Second)] in
  m_leases (cl_mem c') !! example_name = None ∧
  ∃ s', cl_pods c' !! "10.0.0.1" = Some s' ∧ idle s'.
Proof.
  destruct (deleted_lease_given_back example_reconciler example_pool_rec deleted_cluster deleted_example
    held_example hot_example (1030 * Second)) as (H1 & _ & _ & s' & H2 & H3 & _).
  - vm_compute. reflexivity.
  - split; [vm_compute; reflexivity|]. split; [|vm_compute; reflexivity]. vm_compute. eexists. reflexivity.
  - split; [vm_compute; reflexivity|]. split; [vm_compute; reflexivity|]. split; [vm_compute; reflexivity|].
    split; [right; vm_compute; reflexivity|]. vm_compute. discriminate.
  - vm_compute. reflexivity.
  - split; [right; vm_compute; reflexivity|]. split; vm_compute; reflexivity.
  - vm_compute. discriminate.
  - vm_compute. discriminate.
  - assert (lease_Name deleted_example = example_name) as E by (vm_compute; reflexivity).
    assert (pod_IP held_example = "10.0.0.1") as Ei by (vm_compute; reflexivity).
    rewrite E in H1, H2. rewrite Ei in H2. split.
    + rewrite H1. apply lookup_delete_eq.
    + exists s'. split; [exact H2|exact H3].
Defined.

(** ** A bound lease without a hot pod *)

(** The first lease of a pod fails for want of quota, and the pod gets another one, which
    is bound; then the failed lease is deleted before its retention is over. *)
Definition second_bound : list Execution.Event :=
  [RunPool "ns" "app"; RunLease example_name; Wait (1040 * Second); RunLease example_name;
   RunPool "ns" "app"; RunLease second_name; KueueAdmits (1041 * Second);
   RunLease second_name; RunLease second_name; Wait (1055 * Second); RunLease second_name;
   Delete example_name].
Definition contested_cluster : Cluster := creplay second_bound.
Definition contested_lease (name : string) : GPULease :=
  default (lease_in GPULeasePhaseBound) (m_leases (cl_mem contested_cluster) !! name).
Definition contested_pod : Pod :=
  default (example_pod "p0" "n1" "10.0.0.1" StateHot 0) (m_pods (cl_mem contested_cluster) !! ("ns", "p0")).
Definition contested_server : ServerState :=
  default (started "10.0.0.1") (cl_pods contested_cluster !! "10.0.0.1").

(** Before, in a state that the system reaches, the first lease is Failed and the pod is hot
    for the second one; afterwards the second one is bound and its pod is idle. *)
Lemma deletion_takes_pod_down_witness :
  let c' := foldl (cplay example_reconciler example_pool_rec) contested_cluster
    [RunLease example_name; Wait (1070 * Second); RunLease second_name] in
  (∃ s, sys_reachable example_reconciler example_pool_rec s ∧
     m_leases (cl_mem contested_cluster) = api_store (sys_api s)) ∧
  lease_view contested_cluster example_name = Some (GPULeasePhaseFailed, "p0", 0) ∧
  shown contested_cluster "10.0.0.1" = shows StateHot second_name 1 ∧
  (∃ l2, m_leases (cl_mem c') !! second_name = Some l2 ∧ st_Phase (lease_Status l2) = GPULeasePhaseBound) ∧
  ∃ s', cl_pods c' !! "10.0.0.1" = Some s' ∧ idle s'.
Proof.
  cbv zeta. split; [apply creplay_reachable|]. split; [vm_compute; reflexivity|]. split; [vm_compute; reflexivity|].
  assert (lease_Name (contested_lease example_name) = example_name) as E1 by (vm_compute; reflexivity).
  assert (lease_Name (contested_lease second_name) = second_name) as E2 by (vm_compute; reflexivity).
  assert (pod_IP contested_pod = "10.0.0.1") as Ei by (vm_compute; reflexivity).
  assert (lease_Finalizers (contested_lease second_name) = [Finalizer]) as Ef by (vm_compute; reflexivity).
  destruct (deletion_takes_pod_down example_reconciler example_pool_rec contested_cluster
    (contested_lease example_name) (contested_lease second_name) contested_pod contested_server (1070 * Second))
    as (H1 & H2 & _ & s' & H3 & H4).
  - vm_compute. reflexivity.
  - split; [vm_compute; reflexivity|]. split; [|vm_compute; reflexivity]. vm_compute. eexists. reflexivity.
  - split; [vm_compute; reflexivity|]. split; [vm_compute; reflexivity|]. split; [vm_compute; reflexivity|].
    split; [right; vm_compute; reflexivity|]. vm_compute. discriminate.
  - rewrite E1, E2. vm_compute. discriminate.
  - split; [vm_compute; reflexivity|]. split; [vm_compute; reflexivity|]. split; [|vm_compute; reflexivity].
    rewrite Ef. apply list_elem_of_singleton. reflexivity.
  - split; [vm_compute; reflexivity|]. split; [vm_compute; reflexivity|]. split; [vm_compute; reflexivity|].
    split; [vm_compute; reflexivity|]. vm_compute. discriminate.
  - vm_compute. reflexivity.
  - split; [right; vm_compute; reflexivity|]. split; vm_compute; reflexivity.
  - vm_compute. discriminate.
  - vm_compute. discriminate.
  - rewrite E1, E2 in H1, H3. rewrite Ei in H3. split.
    + exists (contested_lease second_name). split; [exact H1|exact H2].
    + exists s'. split; [exact H3|exact H4].
Defined.
