(* ===== verification/Watches.v ===== *)
(** * Watches and set-up: the [SetupWithManager] methods

    What the two reconcilers are when [main] has started them, and which reconciles an event
    on an object asks for: the wiring of the controllers to the API server's watches. *)

From S2P Require Import Prelude GoLib Names Kube Effects MemServer Scenario Inventory PodClient.
From S2P Require Import Pods Kueue GPULeaseController GPULeaseFacts WarmPoolController.
Import WarmPool.

Module Watches.

(** ** The reconcilers *)

Section Setup.
Context `{KL : KubeLib}.

(** The fields [main] leaves empty. *)
Definition main_gpulease : GPULeaseReconciler := {| glr_Recorder := false; glr_Inventory := None |}.
Record WarmPoolFields := {
  wf_Recorder : bool;
  wf_Inventory : option InventoryOps;
  wf_ResyncPeriod : Z;
  wf_FailedLeaseRetention : Z;
}.
Definition main_warmpool : WarmPoolFields :=
  {| wf_Recorder := false; wf_Inventory := None; wf_ResyncPeriod := 0; wf_FailedLeaseRetention := 0 |}.

(** The defaults the set-up fills in. *)
Definition setupGPULease (r : GPULeaseReconciler) : GPULeaseReconciler :=
  {| glr_Recorder := true;
     glr_Inventory := Some (default clientInventory (glr_Inventory r)) |}.
Definition setupWarmPool (r : WarmPoolFields) : WarmPoolReconciler :=
  {| wpr_Recorder := true;
     wpr_Inventory := default clientInventory (wf_Inventory r);
     wpr_ResyncPeriod := wf_ResyncPeriod r;
     wpr_FailedLeaseRetention :=
       if wf_FailedLeaseRetention r <=? 0 then DefaultFailedLeaseRetention else wf_FailedLeaseRetention r |}.

(** The reconcilers of the process keep the promises that the theorems ask of them. *)
#[export] Instance main_gpulease_lawful : LawfulReconciler (setupGPULease main_gpulease).
Proof. intros inv [= <-]. apply clientInventory_laws. Qed.
#[export] Instance main_warmpool_lawful : InventoryLaws (wpr_Inventory (setupWarmPool main_warmpool)).
Proof. apply clientInventory_laws. Qed.

Lemma main_warmpool_periods :
  effectiveResyncPeriod (setupWarmPool main_warmpool) = 15 * Second ∧
  effectiveFailedLeaseRetention (setupWarmPool main_warmpool) = DefaultFailedLeaseRetention.
Proof. done. Qed.

(** ** Events *)

(** An object that was created, changed or deleted. *)
Inductive WatchEvent :=
  | OnGPULease (l : GPULease)
  | OnWorkload (w : Workload)
  | OnPod (p : Pod)
  | OnManagedDeployment (d : Deployment).

(** A reconcile that is asked for. *)
Inductive Wake := WakeLease (name : string) | WakePool (ns name : string).

(** The wiring: the lease controller is for leases and the Workloads they own; the pool
    controller is for Deployments with the annotation, and watches pods and leases. *)
Definition wakes (e : WatchEvent) : Prog (list Wake) :=
  match e with
  | OnGPULease l =>
      Ret (WakeLease (lease_Name l) :: ((λ '(ns, name), WakePool ns name) <$> mapLeaseToDeployment l))
  | OnWorkload w => Ret (WakeLease <$> wl_OwnerReferences w)
  | OnPod p => reqs <- mapPodToDeployment p ;; Ret ((λ '(ns, name), WakePool ns name) <$> reqs)
  | OnManagedDeployment d =>
      Ret (if IsManaged (dep_Annotations d) then [WakePool (dep_Namespace d) (dep_Name d)] else [])
  end.

(** The Deployment reads this pod: its reconcile lists the pod. *)
Definition reads_pod (dep : Deployment) (p : Pod) : Prop :=
  ∃ sel, deploymentSelector dep = Ok sel ∧ sel_Empty sel = false ∧ sel_Matches sel (pod_Labels p) = true.

(** The watches wake the reconciles that read the object.  An event on a lease wakes its
    own reconcile, and that of the pool it was made for; so does one on a Workload for the
    leases that own it.  An event on a pod wakes, if the Deployments can be listed, exactly
    the managed Deployments whose reconcile lists the pod. *)
Lemma watches_wake :
  (∀ l t ws, runs (wakes (OnGPULease l)) t ws →
     WakeLease (lease_Name l) ∈ ws ∧
     ∀ ns name, WakePool ns name ∈ ws ↔
       name ≠ "" ∧ spec_DeploymentRef (lease_Spec l) =
         {| ref_Namespace := ns; ref_Name := name; ref_UID := ref_UID (spec_DeploymentRef (lease_Spec l)) |}) ∧
  (∀ w l t ws, runs (wakes (OnWorkload w)) t ws → l ∈ wl_OwnerReferences w → WakeLease l ∈ ws) ∧
  (∀ p t ws, runs (wakes (OnPod p)) t ws →
     ∃ r, t = [MkObs (ListDeployments (pod_Namespace p)) r] ∧
       match r with
       | Err _ => ws = []
       | Ok deps => ∀ ns name, WakePool ns name ∈ ws ↔
           ∃ dep, dep ∈ deps ∧ dep_Namespace dep = ns ∧ dep_Name dep = name ∧
             IsManaged (dep_Annotations dep) = true ∧ reads_pod dep p
       end).
Proof.
  split_and!.
  - intros l t ws [-> ->]. split; [left|]. intros ns name. unfold mapLeaseToDeployment.
    destruct (spec_DeploymentRef (lease_Spec l)) as [rns rname uid]. simpl.
    rewrite elem_of_cons. case_bool_decide as Hn; simpl; rewrite ?elem_of_nil, ?list_elem_of_singleton;
      split; intros H; destruct_or?; naive_solver.
  - intros w l t ws [-> ->] Hl. by apply list_elem_of_fmap_2.
  - intros p t ws. cbn [wakes mapPodToDeployment bind call]. intros (r & t' & -> & H). exists r.
    destruct r as [deps|err]; destruct H as [-> ->]; (split; [done|]); [|done]. intros ns name.
    rewrite list_elem_of_fmap. setoid_rewrite list_elem_of_omap. split.
    + intros ([ns' name'] & [= -> ->] & dep & Hd & E). exists dep. unfold reads_pod, deploymentSelector.
      repeat case_match; simplify_eq. split_and!; eauto.
    + intros (dep & Hd & <- & <- & Hm & sel & Hs & He & Hx). exists (dep_Namespace dep, dep_Name dep).
      split; [done|]. exists dep. split; [done|]. unfold deploymentSelector in Hs.
      repeat case_match; simplify_eq; congruence.
Qed.

End Setup.

(** A lease that a promotion makes wakes the pool of its Deployment. *)
Example new_lease_wakes_pool `{KL : KubeLib} dep settings pod node id model :
  dep_Name dep ≠ "" →
  wakes (OnGPULease (newLease dep settings pod node id model)) =
    Ret [WakeLease (LeaseName node id); WakePool (dep_Namespace dep) (dep_Name dep)].
Proof. intros H. unfold wakes, mapLeaseToDeployment. simpl. by rewrite bool_decide_eq_false_2. Qed.

End Watches.
