(* ===== verification/ControllerMetrics.v ===== *)
(** * The controllers' metrics: [src/internal/controller/metrics.go]

    The collectors that are registered, and that every update of a metric by a reconciler is
    for a registered one of the right kind, with as many label values as it has labels; the
    Prometheus library panics otherwise. *)

From S2P Require Import Prelude GoLib Names Kube Effects MemServer Scenario Inventory PodClient.
From S2P Require Import Pods Kueue GPULeaseController GPULeaseFacts LeaseLifecycle.
From S2P Require Import WarmPoolController Watches.
Import WarmPool Watches.

Module ControllerMetrics.

(** ** The registry *)

Inductive MetricKind := Gauge | Counter.
#[export] Instance MetricKind_eq_dec : EqDecision MetricKind.
Proof. solve_decision. Defined.

Definition poolLabels : list string := ["workload_namespace"; "deployment"].

(** What [init] registers: kind, name and label names. *)
Definition registered : list (MetricKind * string * list string) :=
  [ (Gauge, PoolHotPods, poolLabels); (Gauge, PoolWarmPods, poolLabels); (Gauge, PoolWarmDesired, poolLabels);
    (Gauge, LeasesActive, ["node"]); (Gauge, NodeGPUsFree, ["node"]);
    (Counter, LeaseAcquireFailuresTotal, ["deployment"; "reason"]);
    (Counter, PromotionsTotal, []); (Counter, DemotionsTotal, []) ].

Definition find_metric (name : string) : option (MetricKind * string * list string) :=
  List.find (λ d, bool_decide (d.1.2 = name)) registered.

(** No two collectors have the same name: the registration does not panic. *)
Lemma registered_distinct : NoDup (registered.*1.*2).
Proof. vm_compute. repeat (constructor; [set_solver|]). constructor. Qed.

Section Metered.
Context `{KL : KubeLib}.

(** An update that does not panic. *)
Definition update_ok (kind : MetricKind) (name : string) (labels : list string) : bool :=
  match find_metric name with
  | Some (k, _, names) => bool_decide (k = kind) && bool_decide (length names = length labels)
  | None => false
  end.
Definition call_metered {R} (e : Eff R) : Prop :=
  match e with
  | MetricSet name labels _ => update_ok Gauge name labels = true
  | MetricInc name labels => update_ok Counter name labels = true
  | _ => True
  end.

(** All updates of a program, whatever is answered. *)
Fixpoint metered {A} (p : Prog A) : Prop :=
  match p with
  | Ret _ => True
  | Vis e k => call_metered e ∧ ∀ r, metered (k r)
  end.

Lemma metered_bind {A B} (p : Prog A) (f : A → Prog B) :
  metered p → (∀ a, metered (f a)) → metered (bind p f).
Proof. induction p as [a|R e k IH]; cbn [metered bind]; [auto|]. intros [Hc H] Hf. split; [done|]. auto. Qed.

Definition obs_metered (o : Obs) : Prop := match o with MkObs e _ => call_metered e end.
Lemma metered_runs {A} (p : Prog A) t a : metered p → runs p t a → Forall obs_metered t.
Proof.
  revert t. induction p as [x|R e k IH]; cbn [metered runs]; intros t.
  - intros _ [-> _]. constructor.
  - intros [Hc H] (r & t' & -> & Hr). constructor; [done|]. by eapply IH.
Qed.
End Metered.

Create HintDb metered.
(** Follow the calls and branches of a program. *)
Ltac metered_step :=
  match goal with
  | |- True => exact I
  | |- metered (Ret _) => exact I
  | |- metered (Vis ?e ?k) =>
      change (call_metered e ∧ ∀ r, metered (k r)); split; [first [exact I|reflexivity]|intros ?r]
  | |- metered (call _) => unfold call
  | |- metered (bind (call _) _) => cbn [bind call]
  | |- metered (bind (Ret _) _) => cbn [bind]
  | |- metered (bind _ _) => apply metered_bind; [|intros ?a]
  | |- metered (match ?x with _ => _ end) => destruct x eqn:?
  | |- metered _ => solve [eauto with metered]
  end.
Ltac metered_walk := repeat metered_step.

Section Reconcilers.
Context `{KL : KubeLib}.

(** An inventory that keeps to the registry as well. *)
Class MeteredInventory (I : InventoryOps) : Prop := {
  metered_capacity node : metered (inv_NodeCapacity I node);
  metered_free node : metered (inv_FreeGPUIDs I node);
  metered_counts : metered (inv_NodeFreeCounts I);
}.

#[export] Instance clientInventory_metered : MeteredInventory clientInventory.
Proof.
  split; intros; cbn [inv_NodeCapacity inv_FreeGPUIDs inv_NodeFreeCounts clientInventory];
    unfold NodeCapacity, FreeGPUIDs, NodeCapacity, usedGPUIDs, NodeFreeCounts; metered_walk.
Qed.

Section Lease.
Context (r : GPULeaseReconciler) (Hr : ∀ inv, glr_Inventory r = Some inv → MeteredInventory inv).

Lemma event_metered l ty reason msg : metered (GPULeaseController.event r l ty reason msg).
Proof. unfold GPULeaseController.event. metered_walk. Qed.
Hint Resolve event_metered : metered.

Lemma now_metered : metered now.
Proof. unfold now. metered_walk. Qed.
Hint Resolve now_metered : metered.

Lemma setLeaseCondition_metered l ty st reason msg : metered (setLeaseCondition l ty st reason msg).
Proof. unfold setLeaseCondition. metered_walk. Qed.
Lemma getClaimPod_metered l : metered (getClaimPod l).
Proof. unfold getClaimPod. metered_walk. Qed.
Hint Resolve getClaimPod_metered : metered.
Lemma releaseClaimPod_metered l : metered (releaseClaimPod l).
Proof. unfold releaseClaimPod, revertPodToWarm. metered_walk. Qed.
Lemma deleteWorkload_metered l : metered (deleteWorkload l).
Proof. unfold deleteWorkload. metered_walk. Qed.
Lemma deploymentSettings_metered l : metered (deploymentSettings l).
Proof. unfold deploymentSettings. metered_walk. Qed.
Lemma expectedFlavorForNode_metered node : metered (expectedFlavorForNode node).
Proof. unfold expectedFlavorForNode. metered_walk. Qed.
Hint Resolve setLeaseCondition_metered releaseClaimPod_metered deleteWorkload_metered
  deploymentSettings_metered expectedFlavorForNode_metered : metered.

Lemma setGauges_metered g l : update_ok Gauge g [""] = true → metered (setGauges g l).
Proof. intros Hg. induction l as [|[node n] l IH]; cbn [setGauges]; [done|]. split; [exact Hg|]. by intros. Qed.

Lemma transitionToFailed_metered l reason msg : metered (transitionToFailed r l reason msg).
Proof. unfold transitionToFailed. metered_walk. Qed.
Hint Resolve transitionToFailed_metered : metered.

Lemma createWorkload_metered l w : metered (createWorkload l w).
Proof. unfold createWorkload. metered_walk. Qed.
Lemma admitLease_metered l w : metered (admitLease r l w).
Proof. unfold admitLease. metered_walk. Qed.
Hint Resolve createWorkload_metered admitLease_metered : metered.
Lemma evaluateAdmission_metered l w : metered (evaluateAdmission r l w).
Proof. unfold evaluateAdmission. metered_walk. Qed.
Lemma bindLease_metered l p : metered (bindLease r l p).
Proof. unfold bindLease, markPodHot. metered_walk. Qed.
Lemma awaitHot_metered l p : metered (awaitHot r l p).
Proof. unfold awaitHot. metered_walk. Qed.
Lemma finishDeletion_metered l : metered (finishDeletion r l).
Proof. unfold finishDeletion. metered_walk. Qed.
Hint Resolve evaluateAdmission_metered bindLease_metered awaitHot_metered finishDeletion_metered : metered.

Lemma reconcilePhase_metered l : metered (reconcilePhase r l).
Proof.
  unfold reconcilePhase, reconcilePending, reconcileAdmitted, reconcileActivating, reconcileBound. metered_walk.
Qed.
Lemma reconcileDeletion_metered l : metered (reconcileDeletion r l).
Proof. unfold reconcileDeletion. metered_walk. Qed.
Lemma refreshMetrics_metered : metered (refreshMetrics r).
Proof.
  unfold refreshMetrics. metered_walk; [by apply setGauges_metered| |by apply setGauges_metered].
  pose proof (Hr _ eq_refl). apply metered_counts.
Qed.
Hint Resolve reconcilePhase_metered reconcileDeletion_metered refreshMetrics_metered : metered.

Lemma lease_metered name : metered (GPULeaseController.Reconcile r name).
Proof. unfold GPULeaseController.Reconcile. metered_walk. Qed.
End Lease.

Section Pool.
Context (r : WarmPoolReconciler) `{HI : !MeteredInventory (wpr_Inventory r)}.

Lemma pool_event_metered dep ty reason msg : metered (WarmPool.event r dep ty reason msg).
Proof. unfold WarmPool.event. metered_walk. Qed.
Lemma patchPodStateLabel_metered pod st : metered (patchPodStateLabel pod st).
Proof. unfold patchPodStateLabel. metered_walk. Qed.
Lemma leasesForDeployment_metered dep : metered (leasesForDeployment dep).
Proof. unfold leasesForDeployment. metered_walk. Qed.
Hint Resolve pool_event_metered patchPodStateLabel_metered leasesForDeployment_metered : metered.
Hint Resolve metered_capacity metered_free metered_counts : metered.

Lemma createFirst_metered dep settings pod node model free :
  metered (createFirst dep settings pod node model free).
Proof. induction free as [|id free IH]; cbn [createFirst]; metered_walk. Qed.
Hint Resolve createFirst_metered : metered.

Lemma acquireLeaseOnNode_metered dep settings pod node : metered (acquireLeaseOnNode r dep settings pod node).
Proof. unfold acquireLeaseOnNode. metered_walk. Qed.
Hint Resolve acquireLeaseOnNode_metered : metered.

Lemma promoteLoop_metered dep settings need n cs : metered (promoteLoop r dep settings need n cs).
Proof. revert n. induction cs as [|c cs IH]; intros n; cbn [promoteLoop]; metered_walk. Qed.
Hint Resolve promoteLoop_metered : metered.
Lemma promote_metered dep settings warm need free : metered (promote r dep settings warm need free).
Proof. unfold promote. metered_walk. Qed.

Lemma demoteLoop_metered dep ls need n cs : metered (demoteLoop r dep ls need n cs).
Proof. revert n. induction cs as [|c cs IH]; intros n; cbn [demoteLoop]; metered_walk. Qed.
Hint Resolve demoteLoop_metered : metered.
Lemma demote_metered dep hot need : metered (demote r dep hot need).
Proof. unfold demote. metered_walk. Qed.

Lemma checkClaim_metered dep sel l pod : metered (checkClaim r dep sel l pod).
Proof. unfold checkClaim. metered_walk. Qed.
Hint Resolve checkClaim_metered : metered.
Lemma orphanLoop_metered dep sel after ls : metered (orphanLoop r dep sel after ls).
Proof.
  revert after. induction ls as [|l ls IH]; intros after; cbn [orphanLoop];
    unfold reclaimFailedLease, deleteFailed, reclaimOrphan; metered_walk.
Qed.
Hint Resolve orphanLoop_metered : metered.
Lemma reconcileOrphans_metered dep sel : metered (reconcileOrphans r dep sel).
Proof. unfold reconcileOrphans. metered_walk. Qed.

Lemma considerPods_metered pods : metered (considerPods pods).
Proof.
  induction pods as [|p pods IH]; cbn [considerPods]; unfold initializePodWarmState; metered_walk.
Qed.
Lemma balance_metered dep settings c target : metered (balance r dep settings c target).
Proof. unfold balance. metered_walk; auto using promote_metered, demote_metered. Qed.
Hint Resolve reconcileOrphans_metered considerPods_metered balance_metered : metered.

Lemma pool_metered ns name : metered (WarmPool.Reconcile r ns name).
Proof.
  unfold WarmPool.Reconcile, listDeploymentPods, warnDeficit, poolGauges. metered_walk.
Qed.
End Pool.

(** C37. Updating metrics never panics.  In every run of both reconcilers, as they are set up
    by the manager, every gauge that is set is a registered gauge, every counter that is
    incremented is a registered counter, and each gets as many label values as it has
    labels. *)
Theorem metrics_never_panic :
  (∀ name t res, runs (GPULeaseController.Reconcile (setupGPULease main_gpulease) name) t res →
     Forall obs_metered t) ∧
  (∀ ns name t res, runs (WarmPool.Reconcile (setupWarmPool main_warmpool) ns name) t res →
     Forall obs_metered t).
Proof.
  split.
  - intros name t res. apply metered_runs, lease_metered. intros inv [= <-]. apply clientInventory_metered.
  - intros ns name t res. apply metered_runs, pool_metered. apply clientInventory_metered.
Qed.

End Reconcilers.

End ControllerMetrics.
