(* ===== verification/Permissions.v ===== *)
(** * Permissions: [src/internal/controller/rbac.go] and the markers on the reconcilers

    The manager's ClusterRole is generated from the kubebuilder markers.  They are data here;
    each call of the reconcilers needs permissions, and the markers grant all of them.  Reads
    go through the manager's cache, which lists and watches what is read. *)

From S2P Require Import Prelude GoLib Names Kube Effects MemServer Scenario Inventory PodClient.
From S2P Require Import Pods Kueue GPULeaseController WarmPoolController Watches.

Module Permissions.

(** API group, resource and verb. *)
Definition Permission : Type := string * string * string.

(** A marker: one group, some resources, some verbs. *)
Record Marker := { mk_group : string; mk_resources : list string; mk_verbs : list string }.
Definition grants (m : Marker) : list Permission :=
  resource ← mk_resources m; verb ← mk_verbs m; mret (mk_group m, resource, verb).

Definition rbac_markers : list Marker :=
  [ {| mk_group := "apps"; mk_resources := ["deployments"]; mk_verbs := ["get"; "list"; "watch"] |};
    {| mk_group := ""; mk_resources := ["pods"]; mk_verbs := ["get"; "list"; "watch"; "patch"] |};
    {| mk_group := ""; mk_resources := ["nodes"]; mk_verbs := ["get"; "list"; "watch"] |};
    {| mk_group := "kueue.x-k8s.io"; mk_resources := ["workloads"];
       mk_verbs := ["create"; "get"; "list"; "watch"; "delete"] |};
    {| mk_group := "kueue.x-k8s.io"; mk_resources := ["localqueues"; "clusterqueues"; "resourceflavors"];
       mk_verbs := ["get"; "list"; "watch"] |};
    {| mk_group := ""; mk_resources := ["events"]; mk_verbs := ["create"; "patch"] |} ].
Definition gpulease_markers : list Marker :=
  [ {| mk_group := "poc.llm-d.ai"; mk_resources := ["gpuleases"];
       mk_verbs := ["get"; "list"; "watch"; "create"; "update"; "patch"; "delete"] |};
    {| mk_group := "poc.llm-d.ai"; mk_resources := ["gpuleases/status"]; mk_verbs := ["get"; "update"; "patch"] |};
    {| mk_group := "poc.llm-d.ai"; mk_resources := ["gpuleases/finalizers"]; mk_verbs := ["update"] |} ].
Definition warmpool_markers : list Marker :=
  [ {| mk_group := "apps"; mk_resources := ["deployments"]; mk_verbs := ["get"; "list"; "watch"] |};
    {| mk_group := ""; mk_resources := ["pods"]; mk_verbs := ["get"; "list"; "watch"; "patch"] |};
    {| mk_group := ""; mk_resources := ["nodes"]; mk_verbs := ["get"; "list"; "watch"] |};
    {| mk_group := "poc.llm-d.ai"; mk_resources := ["gpuleases"];
       mk_verbs := ["get"; "list"; "watch"; "create"; "delete"] |};
    {| mk_group := ""; mk_resources := ["events"]; mk_verbs := ["create"; "patch"] |} ].

(** The role. *)
Definition granted : list Permission := (rbac_markers ++ gpulease_markers ++ warmpool_markers) ≫= grants.

Section Needs.
Context `{KL : KubeLib}.

Definition lease_verb (verb : string) : Permission := ("poc.llm-d.ai", "gpuleases", verb).
(** A read through the cache. *)
Definition reads (group resource : string) : list Permission :=
  [(group, resource, "get"); (group, resource, "list"); (group, resource, "watch")].
Definition lists (group resource : string) : list Permission :=
  [(group, resource, "list"); (group, resource, "watch")].

(** What a call needs.  A Workload is created with an owner reference that blocks the deletion
    of its lease, for which the API server asks for the right to update its finalizers.
    Calls to pods, the clock and metrics need nothing. *)
Definition needs {R} (e : Eff R) : list Permission :=
  match e with
  | GetLease _ => reads "poc.llm-d.ai" "gpuleases"
  | ListLeases => lists "poc.llm-d.ai" "gpuleases"
  | CreateLease _ => [lease_verb "create"]
  | UpdateLease _ => [lease_verb "update"]
  | UpdateLeaseStatus _ => [("poc.llm-d.ai", "gpuleases/status", "update")]
  | DeleteLease _ => [lease_verb "delete"]
  | GetPod _ _ => reads "" "pods"
  | ListPods _ _ => lists "" "pods"
  | PatchPod _ _ => [("", "pods", "patch")]
  | GetDeployment _ _ => reads "apps" "deployments"
  | ListDeployments _ => lists "apps" "deployments"
  | GetNode _ => reads "" "nodes"
  | ListNodes => lists "" "nodes"
  | GetWorkload _ _ => reads "kueue.x-k8s.io" "workloads"
  | CreateWorkload _ =>
      [("kueue.x-k8s.io", "workloads", "create"); ("poc.llm-d.ai", "gpuleases/finalizers", "update")]
  | DeleteWorkload _ _ => [("kueue.x-k8s.io", "workloads", "delete")]
  | ListResourceFlavors => lists "kueue.x-k8s.io" "resourceflavors"
  | RecordEvent _ _ _ _ => [("", "events", "create"); ("", "events", "patch")]
  | PodActivate _ _ | PodRelease _ | PodState _ | ClockNow | TimeNow | MetricSet _ _ _ | MetricInc _ _ => []
  end.
Definition obs_needs (o : Obs) : list Permission := match o with MkObs e _ => needs e end.

(** The permissions that no call needs. *)
Definition unneeded : list Permission :=
  [("kueue.x-k8s.io", "localqueues", "get"); ("kueue.x-k8s.io", "localqueues", "list");
   ("kueue.x-k8s.io", "localqueues", "watch"); ("kueue.x-k8s.io", "clusterqueues", "get");
   ("kueue.x-k8s.io", "clusterqueues", "list"); ("kueue.x-k8s.io", "clusterqueues", "watch");
   ("kueue.x-k8s.io", "resourceflavors", "get"); ("poc.llm-d.ai", "gpuleases", "patch");
   ("poc.llm-d.ai", "gpuleases/status", "get"); ("poc.llm-d.ai", "gpuleases/status", "patch")].

Definition covered (p : Permission) : bool := bool_decide (p ∈ granted) && negb (bool_decide (p ∈ unneeded)).
Lemma needs_covered {R} (e : Eff R) : forallb covered (needs e) = true.
Proof. destruct e; vm_compute; reflexivity. Qed.

(** The role suffices: every permission a call needs is granted, and the ten listed as
    unneeded are not among them. *)
Lemma needs_granted {R} (e : Eff R) p : p ∈ needs e → p ∈ granted ∧ p ∉ unneeded.
Proof.
  intros Hp. pose proof (needs_covered e) as H. rewrite forallb_forall in H.
  specialize (H p ltac:(by apply list_elem_of_In)). unfold covered in H. by reflect_bools.
Qed.

Lemma unneeded_granted : Forall (.∈ granted) unneeded.
Proof. apply (bool_decide_unpack _). vm_compute. exact I. Qed.
End Needs.

End Permissions.
