(* ===== verification/Scheme.v ===== *)
(** * Registration of the API types: [groupversion_info.go], the [init] functions and the
    scheme of the manager

    A type can be used with the client only if the manager's scheme knows it, under the group
    and version the cluster serves it at.  The scheme and its builders are controller-runtime's
    ([SchemeLib], with their documented behaviour as [SchemeLaws]); what the packages register,
    and in which order it all happens, is the code's. *)

From S2P Require Import Prelude GoLib Names Kube Effects Inventory PodClient Pods Kueue.
From S2P Require Import GPULeaseController WarmPoolController Watches Permissions.

Module Scheme.

(** The Go types of the objects the manager works with: its own, and those of client-go. *)
Inductive GoType :=
  | TGPULease | TGPULeaseList | TWorkload | TWorkloadList | TResourceFlavor | TResourceFlavorList
  | TPod | TPodList | TNode | TNodeList | TDeployment | TDeploymentList.
#[export] Instance GoType_eq_dec : EqDecision GoType.
Proof. solve_decision. Defined.

(** The name of the type, which is the kind it is registered as. *)
Definition type_name (t : GoType) : string :=
  match t with
  | TGPULease => "GPULease" | TGPULeaseList => "GPULeaseList"
  | TWorkload => "Workload" | TWorkloadList => "WorkloadList"
  | TResourceFlavor => "ResourceFlavor" | TResourceFlavorList => "ResourceFlavorList"
  | TPod => "Pod" | TPodList => "PodList" | TNode => "Node" | TNodeList => "NodeList"
  | TDeployment => "Deployment" | TDeploymentList => "DeploymentList"
  end.

Record GroupVersion := { gv_Group : string; gv_Version : string }.
Definition GVK : Type := GroupVersion * string.

Module v1alpha1.
Definition GroupVersion : GroupVersion := {| gv_Group := "poc.llm-d.ai"; gv_Version := "v1alpha1" |}.
End v1alpha1.
Module v1beta2.
Definition GroupVersion : GroupVersion := {| gv_Group := "kueue.x-k8s.io"; gv_Version := "v1beta2" |}.
End v1beta2.

(** ** The libraries *)

Class SchemeLib := {
  Builder : Type;
  newBuilder : GroupVersion → Builder;
  Register : list GoType → Builder → Builder;
  SchemeT : Type;
  NewScheme : SchemeT;
  AddToScheme : Builder → SchemeT → result SchemeT;
  clientgo_AddToScheme : SchemeT → result SchemeT;
  ObjectKind : SchemeT → GoType → option GVK;
}.

(** The kinds client-go registers, among others. *)
Definition clientgo_kind (t : GoType) : option GVK :=
  match t with
  | TPod | TPodList | TNode | TNodeList => Some ({| gv_Group := ""; gv_Version := "v1" |}, type_name t)
  | TDeployment | TDeploymentList => Some ({| gv_Group := "apps"; gv_Version := "v1" |}, type_name t)
  | _ => None
  end.

Class SchemeLaws `{SchemeLib} := {
  builder_version : Builder → GroupVersion;
  builder_types : Builder → list GoType;
  newBuilder_version gv : builder_version (newBuilder gv) = gv;
  newBuilder_types gv : builder_types (newBuilder gv) = [];
  Register_version ts b : builder_version (Register ts b) = builder_version b;
  Register_types ts b : builder_types (Register ts b) = builder_types b ++ ts;
  AddToScheme_kind b s s' t :
    AddToScheme b s = Ok s' →
    ObjectKind s' t =
      if bool_decide (t ∈ builder_types b) then Some (builder_version b, type_name t) else ObjectKind s t;
  clientgo_kinds s s' t g :
    clientgo_AddToScheme s = Ok s' → clientgo_kind t = Some g → ObjectKind s' t = Some g;
}.

Section Init.
Context `{SL : SchemeLib}.

(** ** Package variables and [init] functions *)

(** The variables [SchemeBuilder] of both packages.  [AddToScheme] is the method value of the
    variable, a pointer, so that it sees what is registered after it was made. *)
Record Vars := { v1alpha1_SchemeBuilder : Builder; v1beta2_SchemeBuilder : Builder }.
Definition package_vars : Vars :=
  {| v1alpha1_SchemeBuilder := newBuilder v1alpha1.GroupVersion;
     v1beta2_SchemeBuilder := newBuilder v1beta2.GroupVersion |}.

Definition init_gpulease_types (v : Vars) : Vars :=
  {| v1alpha1_SchemeBuilder := Register [TGPULease; TGPULeaseList] (v1alpha1_SchemeBuilder v);
     v1beta2_SchemeBuilder := v1beta2_SchemeBuilder v |}.
Definition init_resourceflavor_types (v : Vars) : Vars :=
  {| v1alpha1_SchemeBuilder := v1alpha1_SchemeBuilder v;
     v1beta2_SchemeBuilder := Register [TResourceFlavor; TResourceFlavorList] (v1beta2_SchemeBuilder v) |}.
Definition init_workload_types (v : Vars) : Vars :=
  {| v1alpha1_SchemeBuilder := v1alpha1_SchemeBuilder v;
     v1beta2_SchemeBuilder := Register [TWorkload; TWorkloadList] (v1beta2_SchemeBuilder v) |}.

(** The [init] of the manager, after those of the packages it imports; [Err] is a panic of
    [utilruntime.Must]. *)
Definition Must {A B} (r : result A) (k : A → result B) : result B :=
  match r with Ok x => k x | Err err => Err err end.
Definition init_main (v : Vars) : result SchemeT :=
  Must (clientgo_AddToScheme NewScheme) (λ s,
  Must (AddToScheme (v1alpha1_SchemeBuilder v) s) (λ s,
  Must (AddToScheme (v1beta2_SchemeBuilder v) s) Ok)).
Definition manager_scheme : result SchemeT :=
  init_main (init_workload_types (init_resourceflavor_types (init_gpulease_types package_vars))).

(** ** What the calls use *)

Context `{KT : KubeTypes}.

(** The type of the object a call hands to the client. *)
Definition uses {R} (e : Eff R) : option GoType :=
  match e with
  | GetLease _ | CreateLease _ | UpdateLease _ | UpdateLeaseStatus _ | DeleteLease _ => Some TGPULease
  | ListLeases => Some TGPULeaseList
  | GetPod _ _ | PatchPod _ _ => Some TPod
  | ListPods _ _ => Some TPodList
  | GetDeployment _ _ => Some TDeployment
  | ListDeployments _ => Some TDeploymentList
  | GetNode _ => Some TNode
  | ListNodes => Some TNodeList
  | GetWorkload _ _ | CreateWorkload _ | DeleteWorkload _ _ => Some TWorkload
  | ListResourceFlavors => Some TResourceFlavorList
  | PodActivate _ _ | PodRelease _ | PodState _ | ClockNow | TimeNow | RecordEvent _ _ _ _
  | MetricSet _ _ _ | MetricInc _ _ => None
  end.

(** Where the cluster serves a type. *)
Definition served_at (t : GoType) : GVK :=
  match t with
  | TGPULease | TGPULeaseList => (v1alpha1.GroupVersion, type_name t)
  | TWorkload | TWorkloadList | TResourceFlavor | TResourceFlavorList => (v1beta2.GroupVersion, type_name t)
  | _ => default (v1alpha1.GroupVersion, "") (clientgo_kind t)
  end.

(** Every type a call uses is known to the manager's scheme as the kind the cluster serves,
    and the permissions the call needs are for the API group of that kind. *)
Lemma calls_registered `{!SchemeLaws} s :
  manager_scheme = Ok s →
  ∀ R (e : Eff R) t, uses e = Some t →
    ObjectKind s t = Some (served_at t) ∧
    Exists (λ p, p.1.1 = gv_Group (served_at t).1) (Permissions.needs e).
Proof.
  unfold manager_scheme, init_main, Must. intros Hs R e t Hu. split.
  - destruct (clientgo_AddToScheme NewScheme) as [s1|] eqn:E1; [|done].
    destruct (AddToScheme _ s1) as [s2|] eqn:E2; [|done].
    destruct (AddToScheme _ s2) as [s3|] eqn:E3; [|done]. injection Hs as <-.
    rewrite (AddToScheme_kind _ _ _ t E3), (AddToScheme_kind _ _ _ t E2).
    cbn [init_workload_types init_resourceflavor_types init_gpulease_types package_vars
         v1alpha1_SchemeBuilder v1beta2_SchemeBuilder].
    rewrite !Register_types, !Register_version, !newBuilder_types, !newBuilder_version.
    destruct (clientgo_kind t) as [g|] eqn:Eg.
    + rewrite (clientgo_kinds _ _ t g E1 Eg). by destruct t; simplify_eq/=.
    + by destruct t.
  - destruct e; simplify_eq/=; repeat constructor.
Qed.

End Init.

(** ** A scheme as a list *)

(** The libraries as lists of registered types, to which the above applies. *)
#[export] Instance list_scheme : SchemeLib := {|
  Builder := GroupVersion * list GoType;
  newBuilder gv := (gv, []);
  Register ts b := (b.1, b.2 ++ ts);
  SchemeT := list (GoType * GVK);
  NewScheme := [];
  AddToScheme b s := Ok (((λ t, (t, (b.1, type_name t))) <$> b.2) ++ s);
  clientgo_AddToScheme s :=
    Ok (omap (λ t, (t,.) <$> clientgo_kind t) [TPod; TPodList; TNode; TNodeList; TDeployment; TDeploymentList] ++ s);
  ObjectKind s t := snd <$> List.find (λ x, bool_decide (x.1 = t)) s;
|}.

#[export] Program Instance list_scheme_laws : SchemeLaws := {|
  builder_version := fst; builder_types := snd;
|}.
Next Obligation. done. Qed.
Next Obligation. done. Qed.
Next Obligation. done. Qed.
Next Obligation. done. Qed.
Next Obligation.
  intros [gv ts] s s' t [= <-]. unfold ObjectKind, list_scheme. cbn [fst snd].
  induction ts as [|u ts IH]; [done|]. cbn [fmap list_fmap app List.find fst].
  destruct (decide (u = t)) as [->|Hne].
  - rewrite (bool_decide_eq_true_2 (t = t)) by done. by rewrite bool_decide_eq_true_2 by left.
  - rewrite bool_decide_eq_false_2 by done. rewrite IH.
    destruct (decide (t ∈ ts)) as [Hin|Hin].
    + by rewrite !bool_decide_eq_true_2 by (done || by right).
    + rewrite !bool_decide_eq_false_2; [done| |done]. by intros [|]%elem_of_cons.
Qed.
Next Obligation.
  intros s s' t g [= <-] Hg. destruct t; try discriminate Hg; injection Hg as <-; reflexivity.
Qed.

Lemma calls_registered_witness :
  ∃ s, manager_scheme = Ok s ∧ ObjectKind s TWorkload = Some (v1beta2.GroupVersion, "Workload").
Proof. eexists. split; [reflexivity|]. reflexivity. Qed.

End Scheme.
