(* ===== verification/Manager.v ===== *)
(** * The manager's start: [src/cmd/manager/main.go]

    [main] as a program that makes calls, any of which may fail and then ends the process.
    The TLS options of the two servers are Go slices, and [append] may write into the
    array another slice shares; slices and their arrays are modelled as such, with the
    capacity [append] chooses as a parameter. *)

From S2P Require Import Prelude GoLib Names.

Module Manager.

(** ** Slices *)

Section Slices.
Context {A : Type}.

(** A slice: its array, its length and its capacity.  The nil slice has capacity 0. *)
Record Slice := { sl_array : nat; sl_len : nat; sl_cap : nat }.
Definition nil_slice : Slice := {| sl_array := 0; sl_len := 0; sl_cap := 0 |}.

(** The arrays, by address; an element that was never written is [None]. *)
Definition Heap : Type := list (list (option A)).

(** The elements a slice has now. *)
Definition elements (h : Heap) (s : Slice) : list A := omap id (take (sl_len s) (h !!! sl_array s)).

(** [append(s, x)]: in place if the capacity allows, else in a new array, whose capacity
    [grow (len + 1)] is the implementation's choice. *)
Definition append (grow : nat → nat) (h : Heap) (s : Slice) (x : A) : Heap * Slice :=
  if (sl_len s <? sl_cap s)%nat then
    (<[sl_array s := <[sl_len s := Some x]> (h !!! sl_array s)]> h,
     {| sl_array := sl_array s; sl_len := S (sl_len s); sl_cap := sl_cap s |})
  else
    let cap := grow (S (sl_len s)) in
    (h ++ [take (sl_len s) (h !!! sl_array s) ++ Some x :: replicate (cap - S (sl_len s)) None],
     {| sl_array := length h; sl_len := S (sl_len s); sl_cap := cap |}).

End Slices.
Arguments Heap : clear implicits.

(** ** Data *)

(** What the flags are set to, with their defaults. *)
Record Flags := {
  metricsAddr : string;
  probeAddr : string;
  enableLeaderElection : bool;
  secureMetrics : bool;
  webhookCertPath : string; webhookCertName : string; webhookCertKey : string;
  metricsCertPath : string; metricsCertName : string; metricsCertKey : string;
  enableHTTP2 : bool;
}.
Definition default_flags : Flags :=
  {| metricsAddr := "0"; probeAddr := ":8081"; enableLeaderElection := false; secureMetrics := true;
     webhookCertPath := ""; webhookCertName := "tls.crt"; webhookCertKey := "tls.key";
     metricsCertPath := ""; metricsCertName := "tls.crt"; metricsCertKey := "tls.key";
     enableHTTP2 := false |}.

(** The two certificate watchers, and the functions that change a [tls.Config]. *)
Inductive Watcher := WebhookWatcher | MetricsWatcher.
Inductive TLSOpt := disableHTTP2 | useCertificate (w : Watcher).
#[export] Instance Watcher_eq_dec : EqDecision Watcher.
Proof. solve_decision. Defined.
#[export] Instance TLSOpt_eq_dec : EqDecision TLSOpt.
Proof. solve_decision. Defined.

(** The fields of [tls.Config] they set. *)
Record TLSConfig := { NextProtos : list string; GetCertificate : option Watcher }.
Definition apply_opt (c : TLSConfig) (o : TLSOpt) : TLSConfig :=
  match o with
  | disableHTTP2 => {| NextProtos := ["http/1.1"]; GetCertificate := GetCertificate c |}
  | useCertificate w => {| NextProtos := NextProtos c; GetCertificate := Some w |}
  end.

Record MetricsOptions := {
  BindAddress : string;
  SecureServing : bool;
  FilterProvider : bool;  (** with authentication and authorization *)
  MetricsTLSOpts : Slice;
}.
Record ManagerOptions := {
  mo_Metrics : MetricsOptions;
  mo_WebhookTLSOpts : Slice;
  mo_HealthProbeBindAddress : string;
  mo_LeaderElection : bool;
  mo_LeaderElectionID : string;
}.

(** The calls of [main] that can fail.  A path is a directory and a file name. *)
Inductive Call :=
  | NewCertWatcher (w : Watcher) (cert key : string * string)
  | NewManager (o : ManagerOptions)
  | SetupGPULease
  | SetupWarmPool
  | AddWatcher (w : Watcher)
  | AddHealthzCheck
  | AddReadyzCheck
  | StartManager.

(** ** [main] *)

Section Main.
Context (grow : nat → nat) (fails : Call → bool).

(** A part of [main]: from the arrays and the calls made so far to a value, or to the
    status the process exits with. *)
Definition Main (T : Type) : Type := Heap TLSOpt → list Call → (T + Z) * Heap TLSOpt * list Call.
#[local] Instance Main_ret : MRet Main := λ T x h t, (inl x, h, t).
#[local] Instance Main_bind : MBind Main := λ T U f p h t,
  match p h t with
  | (inl x, h, t) => f x h t
  | (inr status, h, t) => (inr status, h, t)
  end.

(** Make a call; exit with status 1 if it fails. *)
Definition must (c : Call) : Main unit := λ h t, (if fails c then inr 1 else inl tt, h, t ++ [c]).
Definition append_opt (s : Slice) (o : TLSOpt) : Main Slice := λ h t,
  let '(h', s') := append grow h s o in (inl s', h', t).

Definition main (f : Flags) : Main ManagerOptions :=
  tlsOpts ← (if negb (enableHTTP2 f) then append_opt nil_slice disableHTTP2 else mret nil_slice);
  let webhookTLSOpts := tlsOpts in
  webhookTLSOpts ←
    (if bool_decide (webhookCertPath f ≠ "") then
       must (NewCertWatcher WebhookWatcher (webhookCertPath f, webhookCertName f)
                                           (webhookCertPath f, webhookCertKey f));;
       append_opt webhookTLSOpts (useCertificate WebhookWatcher)
     else mret webhookTLSOpts);
  metricsTLSOpts ←
    (if bool_decide (metricsCertPath f ≠ "") then
       must (NewCertWatcher MetricsWatcher (metricsCertPath f, metricsCertName f)
                                           (metricsCertPath f, metricsCertKey f));;
       append_opt tlsOpts (useCertificate MetricsWatcher)
     else mret tlsOpts);
  let options :=
    {| mo_Metrics := {| BindAddress := metricsAddr f; SecureServing := secureMetrics f;
                        FilterProvider := secureMetrics f; MetricsTLSOpts := metricsTLSOpts |};
       mo_WebhookTLSOpts := webhookTLSOpts;
       mo_HealthProbeBindAddress := probeAddr f;
       mo_LeaderElection := enableLeaderElection f;
       mo_LeaderElectionID := "f8b32de7.llm-d.ai" |} in
  must (NewManager options);;
  must SetupGPULease;;
  must SetupWarmPool;;
  (if bool_decide (metricsCertPath f ≠ "") then must (AddWatcher MetricsWatcher) else mret tt);;
  (if bool_decide (webhookCertPath f ≠ "") then must (AddWatcher WebhookWatcher) else mret tt);;
  must AddHealthzCheck;;
  must AddReadyzCheck;;
  must StartManager;;
  mret options.

(** The process: its exit status, the arrays when it is running, and the calls made. *)
Definition run_main (f : Flags) : (ManagerOptions + Z) * Heap TLSOpt * list Call := main f [] [].
Definition exit_status (f : Flags) : Z := match (run_main f).1.1 with inl _ => 0 | inr st => st end.

End Main.

(** ** The script *)

(** The calls of a start at which nothing fails. *)
Definition script (f : Flags) (o : ManagerOptions) : list Call :=
  let webhook := bool_decide (webhookCertPath f ≠ "") in
  let metrics := bool_decide (metricsCertPath f ≠ "") in
  (if webhook then [NewCertWatcher WebhookWatcher (webhookCertPath f, webhookCertName f)
                                                  (webhookCertPath f, webhookCertKey f)] else []) ++
  (if metrics then [NewCertWatcher MetricsWatcher (metricsCertPath f, metricsCertName f)
                                                  (metricsCertPath f, metricsCertKey f)] else []) ++
  [NewManager o; SetupGPULease; SetupWarmPool] ++
  (if metrics then [AddWatcher MetricsWatcher] else []) ++
  (if webhook then [AddWatcher WebhookWatcher] else []) ++
  [AddHealthzCheck; AddReadyzCheck; StartManager].

(** A script up to and including the first call that fails. *)
Fixpoint up_to (fails : Call → bool) (cs : list Call) : list Call :=
  match cs with
  | [] => []
  | c :: cs => if fails c then [c] else c :: up_to fails cs
  end.

(** The slices of the two servers and the arrays, which do not depend on what fails. *)
Definition slices (grow : nat → nat) (f : Flags) : Slice * Slice * Heap TLSOpt :=
  let '(h, tls) := if negb (enableHTTP2 f) then append grow [] nil_slice disableHTTP2 else ([], nil_slice) in
  let '(h, webhook) :=
    if bool_decide (webhookCertPath f ≠ "") then append grow h tls (useCertificate WebhookWatcher) else (h, tls) in
  let '(h, metrics) :=
    if bool_decide (metricsCertPath f ≠ "") then append grow h tls (useCertificate MetricsWatcher) else (h, tls) in
  (webhook, metrics, h).

Definition options (grow : nat → nat) (f : Flags) : ManagerOptions :=
  let '(webhook, metrics, _) := slices grow f in
  {| mo_Metrics := {| BindAddress := metricsAddr f; SecureServing := secureMetrics f;
                      FilterProvider := secureMetrics f; MetricsTLSOpts := metrics |};
     mo_WebhookTLSOpts := webhook;
     mo_HealthProbeBindAddress := probeAddr f;
     mo_LeaderElection := enableLeaderElection f;
     mo_LeaderElectionID := "f8b32de7.llm-d.ai" |}.

Section Follows.
Context (grow : nat → nat) (fails : Call → bool).
#[local] Existing Instances Main_ret Main_bind.

(** [p] makes the calls [cs] until one fails; if none does, it changes the arrays from [h]
    to [h'] and returns [x]. *)
Definition follows {T} (p : Main T) (h : Heap TLSOpt) (cs : list Call) (h' : Heap TLSOpt) (x : T) : Prop :=
  ∀ t, (p h t).2 = t ++ up_to fails cs ∧
    (p h t).1.1 = (if existsb fails cs then inr 1 else inl x) ∧
    (existsb fails cs = false → (p h t).1.2 = h').

Lemma up_to_app cs1 cs2 :
  up_to fails (cs1 ++ cs2) = if existsb fails cs1 then up_to fails cs1 else cs1 ++ up_to fails cs2.
Proof. induction cs1 as [|c cs IH]; [done|]. simpl. rewrite IH. destruct (fails c), (existsb fails cs); done. Qed.

Lemma up_to_all cs : existsb fails cs = false → up_to fails cs = cs.
Proof. induction cs as [|c cs IH]; [done|]. simpl. destruct (fails c); simpl; [done|]. intros H. by rewrite IH. Qed.

Lemma follows_ret {T} h (x : T) : follows (mret x) h [] h x.
Proof. intros t. by rewrite app_nil_r. Qed.

Lemma follows_must h c : follows (must fails c) h [c] h tt.
Proof. intros t. unfold must. simpl. by destruct (fails c). Qed.

Lemma follows_append h s o h' s' :
  append grow h s o = (h', s') → follows (append_opt grow s o) h [] h' s'.
Proof. intros E t. unfold append_opt. rewrite E. by rewrite app_nil_r. Qed.

Lemma follows_bind {T U} (p : Main T) (f : T → Main U) h cs1 h1 x cs2 h2 y :
  follows p h cs1 h1 x → follows (f x) h1 cs2 h2 y → follows (p ≫= f) h (cs1 ++ cs2) h2 y.
Proof.
  intros Hp Hf t. destruct (Hp t) as (H1 & H2 & H3). unfold mbind, Main_bind.
  rewrite up_to_app, existsb_app. destruct (p h t) as [[r h0] t0]. simpl in *.
  destruct (existsb fails cs1) eqn:E; simpl.
  - subst. by split_and!.
  - subst. rewrite (H3 eq_refl), up_to_all by done. destruct (Hf (t ++ cs1)) as (H4 & H5 & H6).
    by rewrite app_assoc.
Qed.

(** A successful start ends with the arrays of [slices]. *)
Lemma main_follows f :
  follows (main grow fails f) [] (script f (options grow f)) (slices grow f).2 (options grow f).
Proof.
  unfold options, slices, script.
  destruct (if negb (enableHTTP2 f) then append grow [] nil_slice disableHTTP2 else ([], nil_slice))
    as [h0 tls] eqn:E0.
  destruct (if bool_decide (webhookCertPath f ≠ "") then append grow h0 tls (useCertificate WebhookWatcher)
            else (h0, tls)) as [h1 web] eqn:E1.
  destruct (if bool_decide (metricsCertPath f ≠ "") then append grow h1 tls (useCertificate MetricsWatcher)
            else (h1, tls)) as [h2 met] eqn:E2.
  unfold main. change (snd (web, met, h2)) with h2.
  eapply (follows_bind _ _ _ [] h0 tls).
  { destruct (negb (enableHTTP2 f)); [by apply follows_append|]. simplify_eq. apply follows_ret. }
  eapply (follows_bind _ _ _ _ h1 web).
  { destruct (bool_decide (webhookCertPath f ≠ "")); [|simplify_eq; apply follows_ret].
    eapply (follows_bind _ _ _ [_] _ _ []); [apply follows_must|by apply follows_append]. }
  eapply (follows_bind _ _ _ _ h2 met).
  { destruct (bool_decide (metricsCertPath f ≠ "")); [|simplify_eq; apply follows_ret].
    eapply (follows_bind _ _ _ [_] _ _ []); [apply follows_must|by apply follows_append]. }
  do 3 (eapply (follows_bind _ _ _ [_]); [apply follows_must|]).
  eapply follows_bind; [destruct (bool_decide (metricsCertPath f ≠ "")); [apply follows_must|apply follows_ret]|].
  eapply follows_bind; [destruct (bool_decide (webhookCertPath f ≠ "")); [apply follows_must|apply follows_ret]|].
  do 3 (eapply (follows_bind _ _ _ [_]); [apply follows_must|]). apply follows_ret.
Qed.

End Follows.

(** Starting the manager is the last call. *)
Lemma script_start f o : ∃ cs, script f o = cs ++ [StartManager] ∧ StartManager ∉ cs.
Proof.
  exists (removelast (script f o)). unfold script.
  destruct (bool_decide (webhookCertPath f ≠ "")), (bool_decide (metricsCertPath f ≠ "")); simpl;
    (split; [done|rewrite !not_elem_of_cons; split_and!; try discriminate; apply not_elem_of_nil]).
Qed.

(** ** Properties *)

(** The manager starts or exits.  Whatever fails: the calls of [main] are those of the
    script for its flags, up to and including the first that fails; the process exits with
    status 1 if one of them fails and with status 0 otherwise.  So the manager runs only
    with both controllers and both checks set up, and with the certificate watchers that
    were asked for. *)
Lemma main_script grow fails f :
  let cs := script f (options grow f) in
  (run_main grow fails f).2 = up_to fails cs ∧
  exit_status grow fails f = (if existsb fails cs then 1 else 0) ∧
  (StartManager ∈ (run_main grow fails f).2 → ∀ c, c ∈ cs → c ≠ StartManager → fails c = false).
Proof.
  cbv zeta. destruct (main_follows grow fails f []) as (H1 & H2 & _).
  unfold run_main, exit_status. unfold run_main. split; [done|]. split; [rewrite H2; by destruct (existsb _ _)|].
  rewrite H1. set (cs := script f (options grow f)). simpl.
  destruct (script_start f (options grow f)) as (cs0 & E0 & Hno). fold cs in E0. rewrite E0.
  clear E0 cs. rewrite up_to_app. intros Hin c [Hc|Hc]%elem_of_app Hne; [|by apply list_elem_of_singleton in Hc].
  destruct (existsb fails cs0) eqn:E.
  - destruct Hno. clear -Hin. induction cs0 as [|x cs0 IH]; simpl in *; [done|].
    destruct (fails x); set_solver.
  - clear -Hc E. induction cs0 as [|x cs0 IH]; simpl in *; [by apply elem_of_nil in Hc|].
    apply orb_false_iff in E as [E1 E2]. apply elem_of_cons in Hc as [->|Hc]; auto.
Qed.

(** What a server makes of its options. *)
Definition tls_config (h : Heap TLSOpt) (s : Slice) : TLSConfig :=
  foldl apply_opt {| NextProtos := []; GetCertificate := None |} (elements h s).

(** Whether the two servers share an array: both append to a slice of one element, in place
    if [append] had made room for more than that. *)
Definition shares_array (grow : nat → nat) (f : Flags) : bool :=
  negb (enableHTTP2 f) && bool_decide (webhookCertPath f ≠ "") && bool_decide (metricsCertPath f ≠ "") &&
  (1 <? grow 1)%nat.

(** C30. The TLS configuration of the servers, for every capacity that [append] may choose,
    which the language leaves open beyond that it suffices.  After a start, both servers
    refuse HTTP/2 unless it was enabled; the metrics server uses its own certificate if one
    was given, and is protected exactly if it is served securely.  So does the webhook server
    use its own, except when HTTP/2 is off, both certificates are given and the array of the
    common options has room for another element: then it uses that of the metrics server. *)
Theorem main_tls grow fails f o h t :
  (∀ n, (n <= grow n)%nat) →
  run_main grow fails f = (inl o, h, t) →
  tls_config h (mo_WebhookTLSOpts o) =
    {| NextProtos := if enableHTTP2 f then [] else ["http/1.1"];
       GetCertificate :=
         if bool_decide (webhookCertPath f = "") then None
         else Some (if shares_array grow f then MetricsWatcher else WebhookWatcher) |} ∧
  tls_config h (MetricsTLSOpts (mo_Metrics o)) =
    {| NextProtos := if enableHTTP2 f then [] else ["http/1.1"];
       GetCertificate := if bool_decide (metricsCertPath f = "") then None else Some MetricsWatcher |} ∧
  SecureServing (mo_Metrics o) = secureMetrics f ∧ FilterProvider (mo_Metrics o) = secureMetrics f.
Proof.
  intros Hg E. destruct (main_follows grow fails f []) as (_ & H2 & H3). unfold run_main in E.
  rewrite E in *. simpl in *. destruct (existsb _ _); [done|]. injection H2 as ->. rewrite (H3 eq_refl).
  clear E H3 h t. unfold options, slices, append, tls_config, elements, shares_array.
  assert (∀ p : string, bool_decide (p ≠ "") = negb (bool_decide (p = ""))) as Hb
    by (intros p; by rewrite bool_decide_not).
  rewrite !Hb. destruct (grow 1%nat) as [|[|m]] eqn:E1; [pose proof (Hg 1%nat); lia| |];
    (destruct (grow 2%nat) as [|[|n]] eqn:E2; [pose proof (Hg 2%nat); lia..|]);
    destruct (enableHTTP2 f), (bool_decide (webhookCertPath f = "")), (bool_decide (metricsCertPath f = ""));
    repeat progress (cbn; rewrite ?E1, ?E2); by split_and!.
Qed.

(** ** Witness *)

(** Both servers with certificates of their own. *)
Definition two_certificates : Flags :=
  {| metricsAddr := ":8443"; probeAddr := ":8081"; enableLeaderElection := false; secureMetrics := true;
     webhookCertPath := "/w"; webhookCertName := "tls.crt"; webhookCertKey := "tls.key";
     metricsCertPath := "/m"; metricsCertName := "tls.crt"; metricsCertKey := "tls.key";
     enableHTTP2 := false |}.

(** With an array for one element, as the Go runtime makes it for pointers, the webhook
    server has its own certificate; with a larger one, that of the other server. *)
Lemma main_tls_witness :
  let certificate grow :=
    match run_main grow (λ _, false) two_certificates with
    | (inl o, h, _) => GetCertificate (tls_config h (mo_WebhookTLSOpts o))
    | _ => None
    end in
  certificate id = Some WebhookWatcher ∧ certificate (Nat.mul 2) = Some MetricsWatcher.
Proof.
  cbv zeta. split.
  - destruct (run_main id (λ _, false) two_certificates) as [[[o|st] h] t] eqn:E; [|discriminate E].
    destruct (main_tls id (λ _, false) two_certificates o h t) as [H _]; [intros n; reflexivity|exact E|].
    rewrite H. reflexivity.
  - destruct (run_main (Nat.mul 2) (λ _, false) two_certificates) as [[[o|st] h] t] eqn:E; [|discriminate E].
    destruct (main_tls (Nat.mul 2) (λ _, false) two_certificates o h t) as [H _]; [intros n; lia|exact E|].
    rewrite H. reflexivity.
Defined.

End Manager.
