(* ===== verification/ManagerFlags.v ===== *)
(** * The flags of the manager: [src/cmd/manager/main.go] and package [flag]

    [flag.Parse] of the command line, for the flags that [main] defines and those that the
    libraries add to the same flag set ([zap.Options.BindFlags] and the like), which are a
    parameter. *)

From Stdlib Require Import Ascii.
From S2P Require Import Prelude GoLib Manager.
Import Manager.

Module ManagerFlags.

(** ** Package flag *)

(** [strconv.ParseBool]. *)
Definition ParseBool (s : string) : option bool :=
  if bool_decide (s ∈ ["1"; "t"; "T"; "true"; "TRUE"; "True"]) then Some true
  else if bool_decide (s ∈ ["0"; "f"; "F"; "false"; "FALSE"; "False"]) then Some false
  else None.

(** A flag: what setting it does to the variables of [main].  The value of a flag of a library
    is accepted or not. *)
Inductive Flag :=
  | StringVar (set : string → Flags → Flags)
  | BoolVar (set : bool → Flags → Flags)
  | Other (isBool : bool) (accepts : string → bool).

(** What an argument is: a flag with its name and, after an equals sign, its value; one that
    ends the flags; not a flag; or not well formed. *)
Inductive Arg := FlagArg (name : string) (value : option string) | Terminator | NotFlag | BadSyntax.

(** The first equals sign splits a name from its value. *)
Fixpoint split_value (s : string) : string * option string :=
  match s with
  | "" => ("", None)
  | String c s' =>
      if bool_decide (c = "="%char) then ("", Some s')
      else let '(n, v) := split_value s' in (String c n, v)
  end.
Definition flag_name (name : string) : Arg :=
  match name with
  | String c _ =>
      if bool_decide (c = "-"%char) || bool_decide (c = "="%char) then BadSyntax
      else let '(n, v) := split_value name in FlagArg n v
  | "" => BadSyntax
  end.
Definition classify (s : string) : Arg :=
  match s with
  | String c (String c1 s') =>
      if bool_decide (c ≠ "-"%char) then NotFlag
      else if bool_decide (c1 = "-"%char) then
        if bool_decide (s' = "") then Terminator else flag_name s'
      else flag_name (String c1 s')
  | _ => NotFlag
  end.

(** How parsing ends: with the variables and the arguments left over, or by exiting, with
    status 0 after the usage message and 2 after an error ([flag.ExitOnError]). *)
Inductive Outcome := Parsed (f : Flags) (rest : list string) | Exit (status : Z).

Section Parse.
Context (formal : string → option Flag).

(** The effect of a value, [None] if the flag refuses it. *)
Definition set_flag (fl : Flag) (value : string) (f : Flags) : option Flags :=
  match fl with
  | StringVar set => Some (set value f)
  | BoolVar set => (λ b, set b f) <$> ParseBool value
  | Other _ accepts => if accepts value then Some f else None
  end.
Definition is_bool (fl : Flag) : bool :=
  match fl with StringVar _ => false | BoolVar _ => true | Other b _ => b end.

(** [Parse] with its [parseOne]. *)
Fixpoint Parse (args : list string) (f : Flags) : Outcome :=
  match args with
  | [] => Parsed f []
  | s :: args' =>
      match classify s with
      | NotFlag => Parsed f args
      | Terminator => Parsed f args'
      | BadSyntax => Exit 2
      | FlagArg name value =>
          match formal name with
          | None => if bool_decide (name = "help") || bool_decide (name = "h") then Exit 0 else Exit 2
          | Some fl =>
              match value, args' with
              | Some v, _ =>
                  match set_flag fl v f with Some f => Parse args' f | None => Exit 2 end
              | None, _ =>
                  if is_bool fl then
                    match set_flag fl "true" f with Some f => Parse args' f | None => Exit 2 end
                  else
                    match args' with
                    | [] => Exit 2
                    | v :: args'' =>
                        match set_flag fl v f with Some f => Parse args'' f | None => Exit 2 end
                    end
              end
          end
      end
  end.

End Parse.

(** ** The flags of [main] *)

(** All variables at once, and each flag as a change of one. *)
Inductive Var :=
  | VmetricsAddr | VprobeAddr | VenableLeaderElection | VsecureMetrics | VwebhookCertPath | VwebhookCertName
  | VwebhookCertKey | VmetricsCertPath | VmetricsCertName | VmetricsCertKey | VenableHTTP2.
#[export] Instance Var_eq_dec : EqDecision Var.
Proof. solve_decision. Defined.

Definition set_string (x : Var) (v : string) (f : Flags) : Flags :=
  let upd y old := if bool_decide (x = y) then v else old in
  {| metricsAddr := upd VmetricsAddr (metricsAddr f); probeAddr := upd VprobeAddr (probeAddr f);
     enableLeaderElection := enableLeaderElection f; secureMetrics := secureMetrics f;
     webhookCertPath := upd VwebhookCertPath (webhookCertPath f); webhookCertName := upd
     VwebhookCertName (webhookCertName f); webhookCertKey := upd VwebhookCertKey (webhookCertKey f);
     metricsCertPath := upd VmetricsCertPath (metricsCertPath f); metricsCertName := upd
     VmetricsCertName (metricsCertName f); metricsCertKey := upd VmetricsCertKey (metricsCertKey f);
     enableHTTP2 := enableHTTP2 f |}.
Definition set_bool (x : Var) (v : bool) (f : Flags) : Flags :=
  let upd y old := if bool_decide (x = y) then v else old in
  {| metricsAddr := metricsAddr f; probeAddr := probeAddr f; enableLeaderElection := upd
     VenableLeaderElection (enableLeaderElection f); secureMetrics := upd VsecureMetrics
     (secureMetrics f); webhookCertPath := webhookCertPath f; webhookCertName := webhookCertName f;
     webhookCertKey := webhookCertKey f; metricsCertPath := metricsCertPath f; metricsCertName :=
     metricsCertName f; metricsCertKey := metricsCertKey f; enableHTTP2 := upd VenableHTTP2
     (enableHTTP2 f) |}.

(** The calls of [flag.StringVar] and [flag.BoolVar]. *)
Definition main_flags : list (string * Flag) :=
  [ ("metrics-bind-address", StringVar (set_string VmetricsAddr));
    ("health-probe-bind-address", StringVar (set_string VprobeAddr));
    ("leader-elect", BoolVar (set_bool VenableLeaderElection));
    ("metrics-secure", BoolVar (set_bool VsecureMetrics));
    ("webhook-cert-path", StringVar (set_string VwebhookCertPath));
    ("webhook-cert-name", StringVar (set_string VwebhookCertName));
    ("webhook-cert-key", StringVar (set_string VwebhookCertKey));
    ("metrics-cert-path", StringVar (set_string VmetricsCertPath));
    ("metrics-cert-name", StringVar (set_string VmetricsCertName));
    ("metrics-cert-key", StringVar (set_string VmetricsCertKey));
    ("enable-http2", BoolVar (set_bool VenableHTTP2)) ].

Section Main.
Context (others : string → option Flag).

(** The flag set: the flags of [main] and those of the libraries.  Defining a name twice would
    panic, so the order does not matter. *)
Definition formal (name : string) : option Flag :=
  match List.find (λ x, bool_decide (x.1 = name)) main_flags with
  | Some (_, fl) => Some fl
  | None => others name
  end.

(** The process: the flags, then [main] itself.  Arguments that are left over are ignored. *)
Definition run_manager (grow : nat → nat) (fails : Call → bool) (args : list string)
    : Z * option Flags :=
  match Parse formal args default_flags with
  | Exit status => (status, None)
  | Parsed f _ => (exit_status grow fails f, Some f)
  end.

(** ** Facts *)

Definition show_bool (b : bool) : string := if b then "true" else "false".
(** A command line that sets every flag. *)
Definition render (f : Flags) : list string :=
  [ "--metrics-bind-address=" +:+ metricsAddr f;
    "--health-probe-bind-address=" +:+ probeAddr f;
    "--leader-elect=" +:+ show_bool (enableLeaderElection f);
    "--metrics-secure=" +:+ show_bool (secureMetrics f);
    "--webhook-cert-path=" +:+ webhookCertPath f;
    "--webhook-cert-name=" +:+ webhookCertName f;
    "--webhook-cert-key=" +:+ webhookCertKey f;
    "--metrics-cert-path=" +:+ metricsCertPath f;
    "--metrics-cert-name=" +:+ metricsCertName f;
    "--metrics-cert-key=" +:+ metricsCertKey f;
    "--enable-http2=" +:+ show_bool (enableHTTP2 f) ].

(** The command line of [f], in front of other arguments, sets the flags to [f], whatever they
    were before. *)
Lemma Parse_render f f0 rest : Parse formal (render f ++ rest) f0 = Parse formal rest f.
Proof.
  destruct f as [? ? [] [] ? ? ? ? ? ? []], f0; reflexivity.
Qed.

(** Without flags the defaults hold; a boolean flag needs no value; a string flag takes the
    next argument; an unknown flag, a bad value and a missing one exit with status 2. *)
Lemma Parse_cases args f :
  Parse formal [] f = Parsed f [] ∧
  Parse formal ("--leader-elect" :: args) f = Parse formal args (set_bool VenableLeaderElection true f) ∧
  (∀ v, Parse formal ("--metrics-bind-address" :: v :: args) f =
        Parse formal args (set_string VmetricsAddr v f)) ∧
  Parse formal ["--metrics-bind-address"] f = Exit 2 ∧
  Parse formal ("--metrics-secure=no" :: args) f = Exit 2 ∧
  (∀ n v, formal n = None → n ≠ "help" → n ≠ "h" → classify ("--" +:+ n) = FlagArg n v →
     Parse formal (("--" +:+ n) :: args) f = Exit 2).
Proof.
  split_and!; try done. intros n v Hn Hh Hh' Hc. cbn [Parse]. rewrite Hc, Hn.
  by rewrite !bool_decide_eq_false_2 by done.
Qed.

(** The manager that is started with the command line of [f] is the [main] of [f]. *)
Lemma run_manager_flags grow fails f :
  run_manager grow fails (render f) = (exit_status grow fails f, Some f).
Proof. unfold run_manager. by rewrite <-(app_nil_r (render f)), Parse_render. Qed.

End Main.

End ManagerFlags.
